(** * A two-pass assembler for a 10-bit word machine: model and properties

    The development embeds the C sources of the assembler (macro expander,
    first pass, second pass) as Rocq functions and proves properties of
    them.  C [int] and [long] values are integers of [Z]; the only
    narrowing conversions of the sources, the [(unsigned char)] casts of
    the symbol table and of the pending list, are written out as
    [Z.modulo _ 256].  C strings are values of [string]; a [char*] walking
    through a buffer is the suffix of the buffer it points to.  Module-wide
    variables and the locals of [first_pass] that live across lines are the
    fields of one state record threaded through a state monad.  Files are a
    finite map from path to the list of lines written so far.

    Allocation ([malloc], [realloc]) and [fprintf] are taken to succeed;
    [fopen] may fail, as decided by a predicate on paths. *)

From Stdlib Require Import ZArith Ascii Lia.
From stdpp Require Import gmap strings list.

Local Open Scope Z_scope.

(** ** The C library functions the sources call *)

Definition code (c : ascii) : Z := Z.of_N (N_of_ascii c).

Definition isspace (c : ascii) : bool :=
  (code c =? 32) || ((9 <=? code c) && (code c <=? 13)).

Definition isdigit (c : ascii) : bool :=
  (48 <=? code c) && (code c <=? 57).

Definition isalpha (c : ascii) : bool :=
  ((65 <=? code c) && (code c <=? 90)) || ((97 <=? code c) && (code c <=? 122)).

Definition isalnum (c : ascii) : bool := isalpha c || isdigit c.

Definition chr_eqb (a b : ascii) : bool := Ascii.eqb a b.

Definition dquote : ascii := "034".
Definition newline : ascii := "010".

(** [strcmp a b == 0] *)
Definition streq (a b : string) : bool := String.eqb a b.

(** [p + n] for a pointer [p] into a string of length at least [n]. *)
Fixpoint advance (n : nat) (p : string) : string :=
  match n, p with
  | S n', String _ r => advance n' r
  | _, _ => p
  end.

(** [*p], the terminating NUL when [p] is at the end. *)
Definition deref (p : string) : ascii :=
  match p with
  | String c _ => c
  | EmptyString => zero
  end.

Definition LONG_MAX : Z := 9223372036854775807.
Definition LONG_MIN : Z := - 9223372036854775808.
Definition INT_MAX : Z := 2147483647.
Definition INT_MIN : Z := - 2147483648.

Fixpoint skip_space (s : string) : string :=
  match s with
  | String c r => if isspace c then skip_space r else s
  | EmptyString => s
  end.

(** The digits at the front of [s], accumulated in base ten, and what follows. *)
Fixpoint digits (acc : Z) (s : string) : Z * string :=
  match s with
  | String c r => if isdigit c then digits (10 * acc + (code c - 48)) r else (acc, s)
  | EmptyString => (acc, s)
  end.

Definition clamp_long (v : Z) : Z :=
  if v >? LONG_MAX then LONG_MAX else if v <? LONG_MIN then LONG_MIN else v.

(** [strtol(s, &end, 10)]: the value, [end], and whether any digit was
    converted (when none was, [end == s]). *)
Definition strtol (s : string) : Z * string * bool :=
  let s1 := skip_space s in
  let '(neg, s2) :=
    match s1 with
    | String "-" r => (true, r)
    | String "+" r => (false, r)
    | _ => (false, s1)
    end in
  if isdigit (deref s2) then
    let '(v, e) := digits 0 s2 in
    (clamp_long (if neg then - v else v), e, true)
  else (0, s, false).

(** [atoi(s)] is [(int) strtol(s, NULL, 10)]; the sources call it on one digit. *)
Definition atoi (s : string) : Z := (strtol s).1.1.

Fixpoint is_delim (delims : string) (c : ascii) : bool :=
  match delims with
  | String d r => chr_eqb c d || is_delim r c
  | EmptyString => false
  end.

Fixpoint skip_delims (delims s : string) : string :=
  match s with
  | String c r => if is_delim delims c then skip_delims delims r else s
  | EmptyString => s
  end.

(** The token at the front of [s] and the saved position after the
    delimiter that ended it. *)
Fixpoint scan_token (delims s : string) : string * string :=
  match s with
  | String c r =>
      if is_delim delims c then (EmptyString, r)
      else let '(t, e) := scan_token delims r in (String c t, e)
  | EmptyString => (EmptyString, EmptyString)
  end.

(** [strtok]: from the saved position [p], the next token, if any, and the
    new saved position. *)
Definition strtok_from (delims p : string) : option string * string :=
  match skip_delims delims p with
  | EmptyString => (None, EmptyString)
  | String c r => let '(t, e) := scan_token delims (String c r) in (Some t, e)
  end.

(** All the tokens that successive [strtok(NULL, delims)] calls return from
    the saved position [p], each with the saved position after it. *)
Fixpoint tokens_acc (delims : string) (cur : option string) (p : string)
  : list (string * string) :=
  match p with
  | String c r =>
      if is_delim delims c then
        match cur with
        | Some t => (t, r) :: tokens_acc delims None r
        | None => tokens_acc delims None r
        end
      else tokens_acc delims (Some (default EmptyString cur +:+ String c EmptyString)) r
  | EmptyString =>
      match cur with
      | Some t => [(t, EmptyString)]
      | None => []
      end
  end.

Definition tokens (delims p : string) : list (string * string) :=
  tokens_acc delims None p.

(** ** Constants of [assembler.h] and [first_pass.h] *)

Definition ERROR_OCCURRED : Z := -3.
Definition FATAL_ERROR : Z := -4.

Definition VALID_LINE : nat := 80.
Definition MEM_AVAIL_WORDS : Z := 156.
Definition WORD_LEN : nat := 30.
Definition CMD_LEN : nat := 6.
Definition MIN_NUM_D : Z := -512.
Definition MAX_NUM_D : Z := 511.
Definition MIN_NUM_I : Z := -128.
Definition MAX_NUM_I : Z := 127.
Definition MIN_NUM_REG : Z := 0.
Definition MAX_NUM_REG : Z := 7.
Definition OPCODE_SHIFT : Z := 6.
Definition NUM_SHIFT : Z := 2.
Definition SRC_SHIFT : Z := 4.
Definition DST_SHIFT : Z := 2.
Definition ROW_SHIFT : Z := 6.
Definition COL_SHIFT : Z := 2.
Definition SRC_REG_SHIFT : Z := 6.
Definition DST_REG_SHIFT : Z := 2.

(** [enum ADDRESS] *)
Definition IMMEDIATE : Z := 0.
Definition DIRECT : Z := 1.
Definition MATRIX_ACCESS : Z := 2.
Definition DIRECT_REGISTER : Z := 3.

(** [enum OPCODES] *)
Definition MOV : Z := 0.
Definition CMP : Z := 1.
Definition ADD : Z := 2.
Definition SUB : Z := 3.
Definition LEA : Z := 4.
Definition CLR : Z := 5.
Definition NOT : Z := 6.
Definition INC : Z := 7.
Definition DEC : Z := 8.
Definition JMP : Z := 9.
Definition BNE : Z := 10.
Definition JSR : Z := 11.
Definition RED : Z := 12.
Definition PRN : Z := 13.
Definition RTS : Z := 14.
Definition STOP : Z := 15.

(** Operand roles *)
Inductive role := SOURCE | DESTINATION.

(** The kind characters ['d'], ['i'], ['?'] and the linkage characters
    ['x'], ['t'], ['r']. *)
Inductive kind := DATA | INS | UNKNOWN_LABEL_TYPE.
Inductive linkage := EXTERNAL | ENTRY | REGULAR.

Global Instance kind_eq_dec : EqDecision kind.
Proof. solve_decision. Defined.
Global Instance linkage_eq_dec : EqDecision linkage.
Proof. solve_decision. Defined.
Global Instance role_eq_dec : EqDecision role.
Proof. solve_decision. Defined.

Definition unsigned_char (v : Z) : Z := v mod 256.

Record Macro := mkMacro {
  name : string;
  lines : list string
}.

(** [MacroTable]: the macros in registration order. *)
Definition MacroTable := list Macro.

Record Label := mkLabel {
  l_name : string;
  l_address : Z;
  l_data_or_ins : kind;
  l_ent_or_ext : linkage
}.

Record Pending := mkPending {
  label_p_name : string;
  ic_index : Z;
  line_number_use : Z
}.

(** ** The state of the first pass

    [error], [dc], [ic], [line_count] and [was_reg] are the module-wide
    variables of [first_pass.c] and [pre_assembler.c]; [saved] is the
    position [strtok] keeps between calls; [dataset], [ins_set],
    [label_set] and [pending_refs] are the tables [first_pass] owns (their
    counters [*lc] and [*pend_count] are the lengths of the lists);
    [label_flag] and [label] are the two locals of [first_pass] that keep
    their value from one line to the next; [stderr] collects the
    diagnostics, each with the line number it was printed with. *)
Record pass_state := mkState {
  error : bool;
  dc : Z;
  ic : Z;
  line_count : Z;
  was_reg : bool;
  saved : string;
  dataset : list Z;
  ins_set : list Z;
  label_set : list Label;
  pending_refs : list Pending;
  label_flag : bool;
  label : string;
  stderr : list (Z * string)
}.

Definition set_error (v : bool) (s : pass_state) : pass_state :=
  mkState v (dc s) (ic s) (line_count s) (was_reg s) (saved s) (dataset s)
    (ins_set s) (label_set s) (pending_refs s) (label_flag s) (label s) (stderr s).
Definition set_dc (v : Z) (s : pass_state) : pass_state :=
  mkState (error s) v (ic s) (line_count s) (was_reg s) (saved s) (dataset s)
    (ins_set s) (label_set s) (pending_refs s) (label_flag s) (label s) (stderr s).
Definition set_ic (v : Z) (s : pass_state) : pass_state :=
  mkState (error s) (dc s) v (line_count s) (was_reg s) (saved s) (dataset s)
    (ins_set s) (label_set s) (pending_refs s) (label_flag s) (label s) (stderr s).
Definition set_line_count (v : Z) (s : pass_state) : pass_state :=
  mkState (error s) (dc s) (ic s) v (was_reg s) (saved s) (dataset s)
    (ins_set s) (label_set s) (pending_refs s) (label_flag s) (label s) (stderr s).
Definition set_was_reg (v : bool) (s : pass_state) : pass_state :=
  mkState (error s) (dc s) (ic s) (line_count s) v (saved s) (dataset s)
    (ins_set s) (label_set s) (pending_refs s) (label_flag s) (label s) (stderr s).
Definition set_saved (v : string) (s : pass_state) : pass_state :=
  mkState (error s) (dc s) (ic s) (line_count s) (was_reg s) v (dataset s)
    (ins_set s) (label_set s) (pending_refs s) (label_flag s) (label s) (stderr s).
Definition set_dataset (v : list Z) (s : pass_state) : pass_state :=
  mkState (error s) (dc s) (ic s) (line_count s) (was_reg s) (saved s) v
    (ins_set s) (label_set s) (pending_refs s) (label_flag s) (label s) (stderr s).
Definition set_ins_set (v : list Z) (s : pass_state) : pass_state :=
  mkState (error s) (dc s) (ic s) (line_count s) (was_reg s) (saved s) (dataset s)
    v (label_set s) (pending_refs s) (label_flag s) (label s) (stderr s).
Definition set_label_set (v : list Label) (s : pass_state) : pass_state :=
  mkState (error s) (dc s) (ic s) (line_count s) (was_reg s) (saved s) (dataset s)
    (ins_set s) v (pending_refs s) (label_flag s) (label s) (stderr s).
Definition set_pending_refs (v : list Pending) (s : pass_state) : pass_state :=
  mkState (error s) (dc s) (ic s) (line_count s) (was_reg s) (saved s) (dataset s)
    (ins_set s) (label_set s) v (label_flag s) (label s) (stderr s).
Definition set_label_flag (v : bool) (s : pass_state) : pass_state :=
  mkState (error s) (dc s) (ic s) (line_count s) (was_reg s) (saved s) (dataset s)
    (ins_set s) (label_set s) (pending_refs s) v (label s) (stderr s).
Definition set_label (v : string) (s : pass_state) : pass_state :=
  mkState (error s) (dc s) (ic s) (line_count s) (was_reg s) (saved s) (dataset s)
    (ins_set s) (label_set s) (pending_refs s) (label_flag s) v (stderr s).
Definition set_stderr (v : list (Z * string)) (s : pass_state) : pass_state :=
  mkState (error s) (dc s) (ic s) (line_count s) (was_reg s) (saved s) (dataset s)
    (ins_set s) (label_set s) (pending_refs s) (label_flag s) (label s) v.

(** The state at the top of [first_pass], before the first line is read.
    [error] is not reset there: it holds what the macro expander left. *)
Definition initial_state (error0 : bool) : pass_state :=
  mkState error0 0 0 0 false EmptyString [] [] [] [] false EmptyString [].

(** *** The state monad of the pass *)

Definition M (A : Type) : Type := pass_state → A * pass_state.

Definition ret {A} (a : A) : M A := λ s, (a, s).
Definition bind {A B} (m : M A) (k : A → M B) : M B :=
  λ s, let '(a, s') := m s in k a s'.
Definition gets {A} (f : pass_state → A) : M A := λ s, (f s, s).
Definition modify (f : pass_state → pass_state) : M unit := λ s, (tt, f s).

Notation "'let*' x := m 'in' k" := (bind m (λ x, k))
  (at level 10, x pattern, m at level 100, k at level 200,
   format "'[v' 'let*'  x  :=  m  'in' '/' k ']'").
Notation "m ;; k" := (bind m (λ _, k))
  (at level 100, k at level 200, right associativity,
   format "'[v' m  ;; '/' k ']'").

(** [error = TRUE;] *)
Definition raise : M unit := modify (set_error true).

(** [report_error_pass(am_file_name, n, msg)] *)
Definition report_error_pass (n : Z) (msg : string) : M unit :=
  modify (λ s, set_stderr (stderr s ++ [(n, msg)]) s).

(** [report_error_pass(am_file_name, line_count, msg)] *)
Definition report (msg : string) : M unit :=
  let* n := gets line_count in report_error_pass n msg.

(** [strtok(p, delims)] on a new string and [strtok(NULL, delims)]. *)
Definition strtok_new (p delims : string) : M (option string) :=
  λ s, let '(t, e) := strtok_from delims p in (t, set_saved e s).
Definition strtok (delims : string) : M (option string) :=
  λ s, let '(t, e) := strtok_from delims (saved s) in (t, set_saved e s).

Definition SPACES : string := String " " (String "009" (String "010" EmptyString)).
Definition COMMA_SPACES : string := String "," SPACES.

(** ** [first_pass_utils.c] *)

Definition add_pending_refs (ic_now line_num : Z) (label_name : string) : M Z :=
  modify (λ s, set_pending_refs
    (pending_refs s ++ [mkPending label_name (unsigned_char (ic_now - 1)) line_num]) s) ;;
  ret 0.

Fixpoint is_label_name (lbl : string) (labels : list Label) : bool :=
  match labels with
  | [] => false
  | l :: r => if streq lbl (l_name l) then true else is_label_name lbl r
  end.

(** The loop of [add_label] over the table: the first slot whose kind is
    unknown receives the kind and the address, and the function returns;
    [None] when the loop ends without finding one. *)
Fixpoint finalize (data_or_ins : kind) (dc_now ic_now : Z) (labels : list Label)
  : option (list Label) :=
  match labels with
  | [] => None
  | l :: r =>
      if decide (l_data_or_ins l = UNKNOWN_LABEL_TYPE) then
        Some (mkLabel (l_name l)
                (match data_or_ins with
                 | DATA => unsigned_char dc_now
                 | INS => unsigned_char ic_now
                 | UNKNOWN_LABEL_TYPE => l_address l
                 end)
                data_or_ins (l_ent_or_ext l) :: r)
      else cons l <$> finalize data_or_ins dc_now ic_now r
  end.

(** The slot [add_label] appends. *)
Definition new_label (s : pass_state) (nm : string) (data_or_ins : kind)
    (ent_or_ext : linkage) : Label :=
  mkLabel nm
    (if decide (ent_or_ext = EXTERNAL) then 0
     else match data_or_ins with
          | UNKNOWN_LABEL_TYPE => unsigned_char (line_count s)
          | DATA => unsigned_char (dc s)
          | INS => unsigned_char (ic s)
          end)
    data_or_ins ent_or_ext.

Definition add_label (nm : string) (data_or_ins : kind) (ent_or_ext : linkage) : M Z :=
  λ s,
    let append := (0, set_label_set (label_set s ++ [new_label s nm data_or_ins ent_or_ext]) s) in
    if is_label_name nm (label_set s) then
      match finalize data_or_ins (dc s) (ic s) (label_set s) with
      | Some labels => (0, set_label_set labels s)
      | None => append
      end
    else append.

Fixpoint delete_white (str : string) : string :=
  match str with
  | String c r => if isspace c then delete_white r else str
  | EmptyString => str
  end.

(** [copy_first_word(sentence, word, max_len)], given [max_len - 1]. *)
Fixpoint copy_chars (room : nat) (sentence : string) : string :=
  match room, sentence with
  | S room', String c r =>
      if isspace c then EmptyString else String c (copy_chars room' r)
  | _, _ => EmptyString
  end.

Definition copy_first_word (sentence : string) (max_len : nat) : string :=
  copy_chars (max_len - 1) sentence.

Fixpoint there_is_colon (line_p : string) : bool :=
  match line_p with
  | String c r =>
      if isspace c then false
      else if chr_eqb c ":" then true else there_is_colon r
  | EmptyString => false
  end.

Definition reg_set : list string := ["r0"; "r1"; "r2"; "r3"; "r4"; "r5"; "r6"; "r7"].

Definition is_reg_name (lbl : string) : bool := existsb (streq lbl) reg_set.

(** [macro_utils.c] *)
Definition reserved_words : list string :=
  ["mov"; "cmp"; "add"; "sub"; "not"; "clr"; "lea";
   "inc"; "dec"; "jmp"; "bne"; "red"; "prn"; "jsr";
   "rts"; "stop";
   "mcro"; "mcroend";
   "data"; "string"; "mat"; "extern"; "entry"].

Definition is_reserved_word (word : string) : bool := existsb (streq word) reserved_words.

Fixpoint find_macro (state : MacroTable) (nm : string) : option Macro :=
  match state with
  | [] => None
  | m :: r => if streq (name m) nm then Some m else find_macro r nm
  end.

Fixpoint all_alnum (s : string) : bool :=
  match s with
  | String c r => (isdigit c || isalpha c) && all_alnum r
  | EmptyString => true
  end.

(** The first slot of the table with the given name, as the loop of
    [is_valid_label] meets it. *)
Fixpoint first_named (lbl : string) (labels : list Label) : option Label :=
  match labels with
  | [] => None
  | l :: r => if streq lbl (l_name l) then Some l else first_named lbl r
  end.

Definition is_valid_label (lbl : string) (state : MacroTable) : M bool :=
  let fail (msg : string) : M bool := raise ;; report msg ;; ret false in
  if negb (isalpha (deref lbl)) then
    fail "Invalid label name - first character must be a letter"
  else if negb (all_alnum (advance 1 lbl)) then
    fail "Invalid label name - A valid label name contains only numbers or letters"
  else
    let* labels := gets label_set in
    let defined :=
      match first_named lbl labels with
      | Some l => negb (bool_decide (l_data_or_ins l = UNKNOWN_LABEL_TYPE))
      | None => false
      end in
    if defined then fail "A label with the same name already exists"
    else if is_reg_name lbl then
      fail "The label name is invalid - it is a register name"
    else if is_reserved_word lbl then
      fail "The label name is invalid - it is a reserved word"
    else match find_macro state lbl with
         | Some _ => fail "The label name is invalid - it is a macro name"
         | None => ret true
         end.

(** ** [data_handling.c] and [instruction_handling.c]: the two images *)

Definition no_free_cells : string := "There are no free cells in memory".

Definition add_data (word : Z) : M Z :=
  λ s,
    if dc s + ic s =? MEM_AVAIL_WORDS then
      (raise ;; report no_free_cells ;; ret FATAL_ERROR) s
    else (0, set_dataset (dataset s ++ [word]) (set_dc (dc s + 1) s)).

Definition add_ins (word : Z) : M Z :=
  λ s,
    if dc s + ic s =? MEM_AVAIL_WORDS then
      (raise ;; report no_free_cells ;; ret FATAL_ERROR) s
    else (0, set_ins_set (ins_set s ++ [word]) (set_ic (ic s + 1) s)).

(** [is_valid_num(token, num_type)]: [INT_MIN] stands for an invalid number. *)
Definition is_valid_num (token : string) (num_type : kind) : M Z :=
  let '(num, ptr, _) := strtol token in
  let too_wide : M Z :=
    raise ;;
    report "The number is invalid because it requires more than the legal number of bits" ;;
    ret INT_MIN in
  match ptr with
  | String _ _ =>
      raise ;;
      report "The parameter is invalid - expecting an integer to be received" ;;
      ret INT_MIN
  | EmptyString =>
      match num_type with
      | DATA => if (num >? MAX_NUM_D) || (num <? MIN_NUM_D) then too_wide else ret num
      | INS => if (num >? MAX_NUM_I) || (num <? MIN_NUM_I) then too_wide else ret num
      | UNKNOWN_LABEL_TYPE => ret num
      end
  end.

(** [check_mat_def(mat_def, type, row, col)]: the return code with the
    values left in [*row] and [*col]. *)
Definition check_mat_def (mat_def : string) (type : kind) (row col : Z)
  : M (Z * Z * Z) :=
  let fail (msg : string) (row col : Z) : M (Z * Z * Z) :=
    report msg ;; ret (ERROR_OCCURRED, row, col) in
  let skip_r (p : string) : option string :=
    if decide (type = INS) then
      if chr_eqb (deref p) "r" then Some (advance 1 p) else None
    else Some p in
  let only_registers : string :=
    "Using an array expects to receive only register names as parameters, inside []" in
  if negb (chr_eqb (deref mat_def) "[") then
    fail "Missing opening bracket or another character was received" row col
  else
    match skip_r (advance 1 mat_def) with
    | None => fail only_registers row col
    | Some mat_def =>
        let '(row, ptr1, converted) := strtol mat_def in
        if negb converted then
          fail "A number is missing or a different character was received" row col
        else if negb (chr_eqb (deref ptr1) "]") then
          fail "Missing closing bracket or another character was received" row col
        else if chr_eqb (deref ptr1) zero then
          fail "Column size definition is missing or there is an extra white space" row col
        else
          let ptr1 := advance 1 ptr1 in
          if negb (chr_eqb (deref ptr1) "[") then
            fail "Missing opening bracket or another character was received" row col
          else
            match skip_r (advance 1 ptr1) with
            | None => fail only_registers row col
            | Some ptr1 =>
                let '(col, ptr2, converted) := strtol ptr1 in
                if negb converted then
                  fail "A number is missing or a different character was received" row col
                else if negb (chr_eqb (deref ptr2) "]") then
                  fail "Missing closing bracket or another character was received" row col
                else
                  match advance 1 ptr2 with
                  | String _ _ =>
                      fail "An extra character appears after a matrix definition" row col
                  | EmptyString =>
                      if (row >? INT_MAX) || (row <? 0) then
                        fail "Invalid row size (the required size must be positive and not exceed the size of an int)" row col
                      else if (col >? INT_MAX) || (col <? 0) then
                        fail "Invalid column size (the required size must be positive and not exceed the size of an int)" row col
                      else ret (0, row, col)
                  end
            end
    end.

(** The loop of [is_valid_commas]; [at_start] is [i == 0]. *)
Fixpoint commas_loop (at_start expect_comma was_space : bool) (rest : string) : M bool :=
  match rest with
  | String c r =>
      if chr_eqb c "," then
        if negb expect_comma then
          raise ;;
          report (if at_start then "There is a comma before parameters"
                  else "There is more than one comma between parameters") ;;
          ret false
        else commas_loop false false was_space r
      else if isspace c then commas_loop false expect_comma true r
      else if negb expect_comma then commas_loop false true false r
      else if expect_comma && was_space then
        raise ;; report "Missing comma between parameters" ;; ret false
      else commas_loop false expect_comma was_space r
  | EmptyString =>
      if negb expect_comma then
        raise ;; report "There is a comma after all parameters" ;; ret false
      else ret true
  end.

Definition is_valid_commas (rest : string) : M bool :=
  match rest with
  | EmptyString => ret true
  | _ => commas_loop true false false rest
  end.

(** The [while ((token = strtok(NULL, ", \t\n")))] loop of [data_cmd], over
    the tokens that are left at the saved position. *)
Fixpoint data_loop (toks : list (string * string)) : M Z :=
  match toks with
  | [] => modify (set_saved EmptyString) ;; ret 0
  | (token, e) :: toks' =>
      modify (set_saved e) ;;
      let* num := is_valid_num token DATA in
      if num =? INT_MIN then ret 0
      else
        let* r := add_data num in
        if r =? FATAL_ERROR then ret FATAL_ERROR else data_loop toks'
  end.

Definition data_cmd (rest : string) : M Z :=
  let* ok := is_valid_commas rest in
  if negb ok then ret 0
  else let* p := gets saved in data_loop (tokens COMMA_SPACES p).

(** [rest] with its trailing white space cut, as the first loop of
    [string_cmd] leaves it. *)
Fixpoint rtrim (s : string) : string :=
  match s with
  | String c r =>
      match rtrim r with
      | EmptyString => if isspace c then EmptyString else String c EmptyString
      | r' => String c r'
      end
  | EmptyString => EmptyString
  end.

Fixpoint but_last (s : string) : string :=
  match s with
  | String c EmptyString => EmptyString
  | String c r => String c (but_last r)
  | EmptyString => EmptyString
  end.

Fixpoint last_char (s : string) : ascii :=
  match s with
  | String c EmptyString => c
  | String c r => last_char r
  | EmptyString => zero
  end.

(** The [while (i < j)] loop of [string_cmd] over [rest[1 .. j-1]]:
    [inl] is an early return, [inr] the end of the loop. *)
Fixpoint string_loop (body : string) : M (Z + unit) :=
  match body with
  | String c r =>
      if (code c >? 31) && (code c <? 127) then
        let* res := add_data (code c) in
        if res =? FATAL_ERROR then ret (inl FATAL_ERROR) else string_loop r
      else
        raise ;; report "Invalid string - invisible character" ;; ret (inl 0)
  | EmptyString => ret (inr tt)
  end.

Definition string_cmd (rest : string) : M Z :=
  if negb (chr_eqb (deref rest) dquote) then
    raise ;; report "Invalid string - missing opening quotes" ;; ret 0
  else
    let rest := rtrim rest in
    let* out := string_loop (advance 1 (but_last rest)) in
    match out with
    | inl code => ret code
    | inr _ =>
        if negb (chr_eqb (last_char rest) dquote) then
          raise ;; report "Invalid string - missing closing quotes" ;; ret 0
        else
          let* res := add_data 0 in
          if res =? FATAL_ERROR then ret FATAL_ERROR else ret 0
    end.

(** A C [int] product, with the wrap-around of 32-bit two's complement
    arithmetic where the exact product does not fit. *)
Definition int_wrap (v : Z) : Z := (v + 2147483648) mod 4294967296 - 2147483648.

(** The [while ((token = strtok(NULL, ", \t\n")) && (mat_size > 0))] loop of
    [mat_cmd]: [inl] is an early return, [inr] the end of the loop with the
    last [token] and what is left of [mat_size]. *)
Fixpoint mat_loop (toks : list (string * string)) (mat_size : Z)
  : M (Z + option string * Z) :=
  match toks with
  | [] => modify (set_saved EmptyString) ;; ret (inr (None, mat_size))
  | (token, e) :: toks' =>
      modify (set_saved e) ;;
      if mat_size >? 0 then
        let* num := is_valid_num token DATA in
        if num =? INT_MIN then ret (inl 0)
        else
          let* r := add_data num in
          if r =? FATAL_ERROR then ret (inl FATAL_ERROR)
          else mat_loop toks' (mat_size - 1)
      else ret (inr (Some token, mat_size))
  end.

(** The [while (mat_size)] loop that fills the cells left with zeros. *)
Fixpoint zero_fill (mat_size : nat) : M Z :=
  match mat_size with
  | O => ret 0
  | S n =>
      let* r := add_data 0 in
      if r =? FATAL_ERROR then ret FATAL_ERROR else zero_fill n
  end.

Definition mat_cmd (rest : string) : M Z :=
  let mat_def := copy_first_word rest (WORD_LEN + 1) in
  let* (res, row, col) := check_mat_def mat_def DATA 0 0 in
  if res =? ERROR_OCCURRED then raise ;; ret 0
  else
    let mat_size := int_wrap (row * col) in
    if mat_size =? 0 then
      raise ;; report "A matrix of size zero is invalid" ;; ret 0
    else
      let rest := delete_white (advance (String.length mat_def) rest) in
      let* ok := is_valid_commas rest in
      if negb ok then ret 0
      else
        strtok SPACES ;;
        let* p := gets saved in
        let* out := mat_loop (tokens COMMA_SPACES p) mat_size in
        match out with
        | inl code => ret code
        | inr (Some _, _) =>
            raise ;;
            report "There are unnecessary parameter(s), overflow from the defined matrix" ;;
            ret 0
        | inr (None, mat_size) =>
            if mat_size >? 0 then zero_fill (Z.to_nat mat_size) else ret 0
        end.

(** ** [instruction_handling.c] *)

Definition is_bracket (c : ascii) : bool := chr_eqb c "[" || chr_eqb c "]".

Fixpoint has_bracket (argument : string) : bool :=
  match argument with
  | String c r => is_bracket c || has_bracket r
  | EmptyString => false
  end.

(** The characters the [for] loop of the matrix case copies to [name_mat]. *)
Fixpoint matrix_name (room : nat) (argument : string) : string :=
  match room, argument with
  | S room', String c r =>
      if is_bracket c then EmptyString else String c (matrix_name room' r)
  | _, _ => EmptyString
  end.

(** The statement that ORs [num] into the word at [ic - 1] of the image. *)
Definition or_into_last (num : Z) : M unit :=
  modify (λ s,
    let i := Z.to_nat (ic s - 1) in
    match ins_set s !! i with
    | Some w => set_ins_set (<[i := Z.lor w num]> (ins_set s)) s
    | None => s
    end).

(** The assignment of [w] to the word at [i] of the image. *)
Definition store_ins (i : Z) (w : Z) : M unit :=
  modify (λ s, set_ins_set (<[Z.to_nat i := w]> (ins_set s)) s).

Definition addressing_mode (argument : string) : Z :=
  if chr_eqb (deref argument) "#" then IMMEDIATE
  else if is_reg_name argument then DIRECT_REGISTER
  else if has_bracket argument then MATRIX_ACCESS
  else DIRECT.

(** [parse_encode_arguments]; [modes] are the variadic arguments. *)
Definition parse_encode_arguments (argument : string) (src_or_dst : role)
    (modes : list Z) : M Z :=
  let argument_adrr := addressing_mode argument in
  if negb (existsb (Z.eqb argument_adrr) modes) then
    raise ;;
    report (match src_or_dst with
            | DESTINATION => "The destination parameter type does not match the command"
            | SOURCE => "The source parameter type does not match the command"
            end) ;;
    ret ERROR_OCCURRED
  else if argument_adrr =? IMMEDIATE then
    let* num := is_valid_num (advance 1 argument) INS in
    if num =? INT_MIN then ret ERROR_OCCURRED
    else
      let* r := add_ins (Z.shiftl num NUM_SHIFT) in
      if r =? FATAL_ERROR then ret FATAL_ERROR else ret argument_adrr
  else if argument_adrr =? DIRECT then
    let* r := add_ins 0 in
    if r =? FATAL_ERROR then ret FATAL_ERROR
    else
      let* ic_now := gets ic in
      let* ln := gets line_count in
      add_pending_refs ic_now ln argument ;;
      ret argument_adrr
  else if argument_adrr =? MATRIX_ACCESS then
    let name_mat := matrix_name WORD_LEN argument in
    let i := String.length name_mat in
    if (i =? 0)%nat then
      raise ;; report "Matrix name is missing" ;; ret ERROR_OCCURRED
    else if negb (is_bracket (deref (advance i argument))) then
      raise ;; report "Invalid matrix name - too long" ;; ret ERROR_OCCURRED
    else
      let* r := add_ins 0 in
      if r =? FATAL_ERROR then ret FATAL_ERROR
      else
        let* ic_now := gets ic in
        let* ln := gets line_count in
        add_pending_refs ic_now ln name_mat ;;
        let* (res, row, col) := check_mat_def (advance i argument) INS 0 0 in
        if res =? ERROR_OCCURRED then raise ;; ret ERROR_OCCURRED
        else if (row <? MIN_NUM_REG) || (row >? MAX_NUM_REG)
                || (col <? MIN_NUM_REG) || (col >? MAX_NUM_REG) then
          raise ;; report "A register with this name does not exist" ;;
          ret ERROR_OCCURRED
        else
          let* r := add_ins (Z.lor (Z.shiftl row ROW_SHIFT) (Z.shiftl col COL_SHIFT)) in
          if r =? FATAL_ERROR then ret FATAL_ERROR else ret argument_adrr
  else
    let num := atoi (advance 1 argument) in
    match src_or_dst with
    | SOURCE =>
        modify (set_was_reg true) ;;
        let* r := add_ins (Z.shiftl num SRC_REG_SHIFT) in
        if r =? FATAL_ERROR then ret FATAL_ERROR else ret argument_adrr
    | DESTINATION =>
        let num := Z.shiftl num DST_SHIFT in
        let* reg_before := gets was_reg in
        if reg_before then or_into_last num ;; ret argument_adrr
        else
          let* r := add_ins num in
          if r =? FATAL_ERROR then ret FATAL_ERROR else ret argument_adrr
    end.

Definition ALL_MODES : list Z := [IMMEDIATE; DIRECT; MATRIX_ACCESS; DIRECT_REGISTER].
Definition NO_IMMEDIATE : list Z := [DIRECT; MATRIX_ACCESS; DIRECT_REGISTER].
Definition LABEL_MODES : list Z := [DIRECT; MATRIX_ACCESS].

(** [build_title_word] *)
Definition title_word (opcode src_addr dst_addr : Z) : Z :=
  Z.lor (Z.lor (Z.shiftl opcode OPCODE_SHIFT) (Z.shiftl src_addr SRC_SHIFT))
        (Z.shiftl dst_addr DST_SHIFT).

Definition unnecessary : string := "There are unnecessary parameter(s)".

(** [handle_two_prms]: the dispatch table of [first_pass] calls it with
    [mov], [cmp], [add], [sub] and [lea] only; the last of these takes the
    second list of source modes. *)
Definition handle_two_prms (rest : string) (opcode : Z) : M Z :=
  let* r := add_ins 0 in
  if r =? FATAL_ERROR then ret FATAL_ERROR
  else
    let* ic_title := gets (λ s, ic s - 1) in
    let* token := strtok COMMA_SPACES in
    match token with
    | None => raise ;; report "Missing parameters" ;; ret 0
    | Some token =>
        let* ans :=
          parse_encode_arguments token SOURCE
            (if (opcode =? MOV) || (opcode =? CMP) || (opcode =? ADD) || (opcode =? SUB)
             then ALL_MODES else LABEL_MODES) in
        if ans =? FATAL_ERROR then ret FATAL_ERROR
        else if ans =? ERROR_OCCURRED then ret 0
        else
          let src_addr := ans in
          let* token := strtok COMMA_SPACES in
          match token with
          | None => raise ;; report "Missing parameter" ;; ret 0
          | Some token =>
              let* ans :=
                parse_encode_arguments token DESTINATION
                  (if negb (opcode =? CMP) then NO_IMMEDIATE else ALL_MODES) in
              if ans =? FATAL_ERROR then ret FATAL_ERROR
              else if ans =? ERROR_OCCURRED then ret 0
              else
                let dst_addr := ans in
                modify (set_was_reg false) ;;
                let* token := strtok COMMA_SPACES in
                match token with
                | Some _ => raise ;; report unnecessary ;; ret 0
                | None =>
                    store_ins ic_title (title_word opcode src_addr dst_addr) ;;
                    ret 0
                end
          end
    end.

Definition handle_one_prm (rest : string) (opcode : Z) : M Z :=
  let* r := add_ins 0 in
  if r =? FATAL_ERROR then ret FATAL_ERROR
  else
    let* ic_title := gets (λ s, ic s - 1) in
    let* token := strtok COMMA_SPACES in
    match token with
    | None => raise ;; report "Missing parameter" ;; ret 0
    | Some token =>
        let* ans :=
          parse_encode_arguments token DESTINATION
            (if negb (opcode =? PRN) then NO_IMMEDIATE else ALL_MODES) in
        if ans =? FATAL_ERROR then ret FATAL_ERROR
        else if ans =? ERROR_OCCURRED then ret 0
        else
          let dst_addr := ans in
          let* token := strtok COMMA_SPACES in
          match token with
          | Some _ => raise ;; report unnecessary ;; ret 0
          | None =>
              store_ins ic_title (title_word opcode 0 dst_addr) ;;
              ret 0
          end
    end.

Definition handle_no_prm (rest : string) (opcode : Z) : M Z :=
  let* r := add_ins (Z.shiftl opcode OPCODE_SHIFT) in
  if r =? FATAL_ERROR then ret FATAL_ERROR
  else
    let* token := strtok SPACES in
    match token with
    | Some token =>
        report (if chr_eqb (deref token) ","
                then " There is an extra comma after the command name"
                else unnecessary) ;;
        raise ;;
        ret 0
    | None => ret 0
    end.

(** ** [first_pass.c] *)

Definition ins_opcode : list string :=
  ["mov"; "cmp"; "add"; "sub"; "lea"; "clr"; "not"; "inc"; "dec"; "jmp"; "bne";
   "jsr"; "red"; "prn"; "rts"; "stop"].

Definition data_commands : list (string * (string → M Z)) :=
  [("data", data_cmd); ("string", string_cmd); ("mat", mat_cmd)].

Definition ins_commands : list (string * (string → Z → M Z)) :=
  [("mov", handle_two_prms); ("add", handle_two_prms); ("sub", handle_two_prms);
   ("cmp", handle_two_prms); ("lea", handle_two_prms);
   ("clr", handle_one_prm); ("not", handle_one_prm); ("inc", handle_one_prm);
   ("dec", handle_one_prm); ("jmp", handle_one_prm); ("bne", handle_one_prm);
   ("jsr", handle_one_prm); ("red", handle_one_prm); ("prn", handle_one_prm);
   ("rts", handle_no_prm); ("stop", handle_no_prm)].

(** The first row of a dispatch table whose name is [first]. *)
Fixpoint lookup_command {F} (first : string) (table : list (string * F)) : option F :=
  match table with
  | [] => None
  | (nm, f) :: r => if streq first nm then Some f else lookup_command first r
  end.

(** [k] after [while (strcmp(ins_opcode[k], first)) k++;], for a name of the list. *)
Fixpoint opcode_index (first : string) (names : list string) : Z :=
  match names with
  | [] => 0
  | nm :: r => if streq nm first then 0 else 1 + opcode_index first r
  end.

(** The [for] loop of the [.entry] branch over the slots named
    [first_word]: the table after the loop and [should_continue], with the
    diagnostic when the name is external. *)
Fixpoint mark_entry (first_word : string) (labels : list Label)
  : list Label * bool * bool :=
  match labels with
  | [] => ([], false, false)
  | l :: r =>
      if streq first_word (l_name l) then
        if decide (l_ent_or_ext l = EXTERNAL) then (l :: r, true, true)
        else if decide (l_data_or_ins l = UNKNOWN_LABEL_TYPE) then (l :: r, true, false)
        else
          let '(r', stop, ext) := mark_entry first_word r in
          (mkLabel (l_name l) (l_address l) (l_data_or_ins l) ENTRY :: r', stop, ext)
      else
        let '(r', stop, ext) := mark_entry first_word r in (l :: r', stop, ext)
  end.

Definition extra_after_name : string := "Additional character(s) received after label name".

(** The [.entry] branch, from [label_flag = FALSE]; [line_p] is at the word
    [entry].  Returns the status of the line. *)
Definition entry_branch (line_p : string) : M Z :=
  modify (set_label_flag false) ;;
  let line_p := delete_white (advance (String.length "entry") line_p) in
  let first_word := copy_first_word line_p (WORD_LEN + 2) in
  let trailing : M Z :=
    match delete_white (advance (String.length first_word) line_p) with
    | String _ _ => raise ;; report extra_after_name ;; ret 0
    | EmptyString => ret 0
    end in
  if (String.length first_word =? 0)%nat then
    raise ;; report "Missing label name after declaration" ;; ret 0
  else
    let* labels := gets label_set in
    if is_label_name first_word labels then
      let '(labels', stop, ext) := mark_entry first_word labels in
      modify (set_label_set labels') ;;
      if ext then
        raise ;; report "A label with this name is defined as external" ;; ret 0
      else if stop then ret 0
      else trailing
    else
      let* r := add_label first_word UNKNOWN_LABEL_TYPE ENTRY in
      if r =? FATAL_ERROR then ret FATAL_ERROR else trailing.

(** The [.extern] branch. *)
Definition extern_branch (line_p : string) : M Z :=
  modify (set_label_flag false) ;;
  let line_p := delete_white (advance (String.length "extern") line_p) in
  let first_word := copy_first_word line_p (WORD_LEN + 2) in
  if (String.length first_word =? 0)%nat then
    raise ;; report "Missing label name after declaration" ;; ret 0
  else
    let* labels := gets label_set in
    if is_label_name first_word labels then
      raise ;; report "A label with this name is defined as internal" ;; ret 0
    else
      let* r := add_label first_word INS EXTERNAL in
      if r =? FATAL_ERROR then ret FATAL_ERROR
      else
        match delete_white (advance (String.length first_word) line_p) with
        | String _ _ => raise ;; report extra_after_name ;; ret 0
        | EmptyString => ret 0
        end.

(** The block of [first_pass] that enters the label of the line in the
    table, once the kind of the line is known. *)
Definition define_label (data_or_ins : kind) : M Z :=
  let* flag := gets label_flag in
  if flag then
    let* lbl := gets label in
    let* labels := gets label_set in
    let* r := add_label lbl data_or_ins
                (if is_label_name lbl labels then ENTRY else REGULAR) in
    if r =? FATAL_ERROR then ret FATAL_ERROR
    else modify (set_label_flag false) ;; ret 0
  else ret 0.

(** The end of the loop body of [first_pass]: the command name is split
    from its parameters and the handler of the command is called. *)
Definition dispatch (data_or_ins : kind) (line_p : string) : M Z :=
  let first := copy_first_word line_p (CMD_LEN + 1) in
  let rest := delete_white (advance (String.length first) line_p) in
  strtok_new line_p SPACES ;;
  let invalid : M Z := raise ;; report "Invalid command name" ;; ret 0 in
  if decide (data_or_ins = DATA) then
    if (String.length rest =? 0)%nat then
      raise ;; report "Missing parameters" ;; ret 0
    else
      match lookup_command first data_commands with
      | Some func =>
          let* r := func rest in
          if r =? FATAL_ERROR then ret FATAL_ERROR else ret 0
      | None => invalid
      end
  else
    match lookup_command first ins_commands with
    | Some func =>
        let opcode := opcode_index first ins_opcode in
        let* ok := (if opcode <? RTS then is_valid_commas rest else ret true) in
        if negb ok then ret 0
        else
          let* r := func rest opcode in
          if r =? FATAL_ERROR then ret FATAL_ERROR else ret 0
    | None => invalid
    end.

(** The body of the [while (fgets ...)] loop of [first_pass] after the
    length check, for the string that C reads in the buffer [line]: [0]
    when the loop goes on to the next line, [FATAL_ERROR] when
    [first_pass] returns it. *)
Definition scan_line (state : MacroTable) (line : string) : M Z :=
  if chr_eqb (deref line) ";" then ret 0
  else
    let line_p := delete_white line in
    if chr_eqb (deref line_p) ";" then
      raise ;;
      report "A comment line begin with a semicolon, not a blank character" ;;
      ret 0
    else if chr_eqb (deref line_p) zero then ret 0
    else
      let first_word := copy_first_word line_p (WORD_LEN + 2) in
      let len_label := String.length first_word in
      let* after_label :=
        (if (1 <=? len_label)%nat && chr_eqb (last_char first_word) ":" then
           let first_word := but_last first_word in
           modify (set_label first_word) ;;
           let* lbl := gets label in
           let* valid := is_valid_label lbl state in
           if valid then
             modify (set_label_flag true) ;;
             ret (Some (delete_white (advance len_label line_p)))
           else ret None
         else ret (Some line_p)) in
      match after_label with
      | None => ret 0
      | Some line_p =>
          if (String.length line_p =? 0)%nat then
            raise ;; report "No content after label" ;; ret 0
          else if chr_eqb (deref line_p) "." then
            let line_p := advance 1 line_p in
            if chr_eqb (deref line_p) zero then
              raise ;; report "No command and parameters" ;; ret 0
            else
              let first_word := copy_first_word line_p (WORD_LEN + 2) in
              if streq first_word "entry" then entry_branch line_p
              else if streq first_word "extern" then extern_branch line_p
              else if isspace (deref line_p) then
                raise ;; report "There is a blank character after the period" ;; ret 0
              else
                let* r := define_label DATA in
                if r =? FATAL_ERROR then ret FATAL_ERROR else dispatch DATA line_p
          else
            (* first_word[len_label] is the terminator copy_first_word wrote *)
            let after_word : ascii := zero in
            if chr_eqb after_word ":" || there_is_colon line_p then
              raise ;; report "Invalid label length" ;; ret 0
            else
              let* r := define_label INS in
              if r =? FATAL_ERROR then ret FATAL_ERROR else dispatch INS line_p
      end.

(** [fgets(line, n, f)] on what is left of the file: at most [n - 1]
    characters, up to and including the first newline; [room] is [n - 1]. *)
Fixpoint fgets_chars (room : nat) (f : string) : string * string :=
  match room, f with
  | S room', String c r =>
      if chr_eqb c newline then (String c EmptyString, r)
      else let '(l, e) := fgets_chars room' r in (String c l, e)
  | _, _ => (EmptyString, f)
  end.

Definition fgets (n : nat) (f : string) : option (string * string) :=
  match f with
  | EmptyString => None
  | _ => Some (fgets_chars (n - 1) f)
  end.

(** The string that C reads in a buffer holding the characters [l]: what
    comes before the first null character. *)
Fixpoint c_str (l : string) : string :=
  match l with
  | String c r => if chr_eqb c zero then EmptyString else String c (c_str r)
  | EmptyString => EmptyString
  end.

(** The [fgetc] loop that drops the rest of an overlong line, newline
    included.  The loop keeps the result of [fgetc] in a [char], signed on
    the platform of the build, and compares it with [EOF]: the character
    of code 255 ends the loop as the end of the file does. *)
Fixpoint drop_line (f : string) : string :=
  match f with
  | String c r =>
      if chr_eqb c newline || (code c =? 255) then r else drop_line r
  | EmptyString => EmptyString
  end.

(** [line[VALID_LINE]] after [fgets] wrote [l] and its terminator into a
    buffer whose cell was [old]. *)
Definition cell_80 (old : ascii) (l : string) : ascii :=
  if (String.length l <? VALID_LINE)%nat then old
  else deref (advance VALID_LINE l).

(** The [while (fgets ...)] loop of [first_pass] over the text [f_am] of
    the file; [cell] is [line[VALID_LINE]] as the previous iterations left
    it.  The length check reads the cell of the buffer; everything after
    it reads the buffer as a string, which ends at its first null
    character.  [Some code] is the value the loop ends with, [0] at the
    end of the file; [None] is for a [fuel] too small to reach the end of
    the file. *)
Fixpoint read_loop (fuel : nat) (state : MacroTable) (cell : ascii) (f_am : string)
  : M (option Z) :=
  match fuel with
  | O => ret None
  | S fuel' =>
      match fgets (VALID_LINE + 2) f_am with
      | None => ret (Some 0)
      | Some (line, f_am) =>
          modify (λ s, set_line_count (line_count s + 1) s) ;;
          let cell := cell_80 cell line in
          if negb (chr_eqb cell zero) && negb (chr_eqb cell newline) then
            raise ;;
            report "Invalid line length: over 80 characters" ;;
            read_loop fuel' state zero (drop_line f_am)
          else
            let* r := scan_line state (c_str line) in
            if r =? FATAL_ERROR then ret (Some FATAL_ERROR)
            else read_loop fuel' state cell f_am
      end
  end.

(** The loop after the last line: every slot still of unknown kind is
    reported, at the line kept in its address. *)
Fixpoint report_undefined (labels : list Label) : M unit :=
  match labels with
  | [] => ret tt
  | l :: r =>
      (if decide (l_data_or_ins l = UNKNOWN_LABEL_TYPE) then
         raise ;;
         report_error_pass (l_address l)
           "A label was declared internal and was not defined in this file"
       else ret tt) ;;
      report_undefined r
  end.

(** ** Files

    The disk maps a path to the pieces of text written to the file, in
    order; [open_files] lists the paths of the streams that are open.
    Opening for writing may fail, as [can_open] says. *)
Record files := mkFiles {
  disk : gmap string (list string);
  open_files : list string
}.

Fixpoint remove_first (p : string) (l : list string) : list string :=
  match l with
  | [] => []
  | q :: r => if streq p q then r else q :: remove_first p r
  end.

(** [fopen(path, "w")], the stream being named by its path. *)
Definition fopen_w (can_open : string → bool) (path : string) (fs : files)
  : option string * files :=
  if can_open path then
    (Some path, mkFiles (<[path := []]> (disk fs)) (path :: open_files fs))
  else (None, fs).

Definition fprintf (stream text : string) (fs : files) : files :=
  mkFiles (alter (λ written, written ++ [text]) stream (disk fs)) (open_files fs).

Definition fclose (stream : string) (fs : files) : files :=
  mkFiles (disk fs) (remove_first stream (open_files fs)).

Definition remove (path : string) (fs : files) : files :=
  mkFiles (delete path (disk fs)) (open_files fs).

(** ** [second_pass_utils.h] and [second_pass_utils.c] *)

Definition ORG_ADDRESS : Z := 100.
Definition WORD_MASK : Z := 1023.
Definition ARE_MASK : Z := 3.
Definition ARE_SHIFT : Z := 0.
Definition ADDR_VALUE_MASK : Z := 255.
Definition ADDR_VALUE_SHIFT : Z := 2.
Definition ADDR_VALUE_MAX : Z := ADDR_VALUE_MASK.
Definition WORD_BASE4_DIGITS : nat := 5.
Definition ADDR_BASE4_DIGITS : nat := 4.
Definition ARE_A : Z := 0.
Definition ARE_E : Z := 1.
Definition ARE_R : Z := 2.

(** [QUAD_DIGITS[d]] *)
Definition QUAD_DIGITS (d : Z) : ascii :=
  if d =? 0 then "a" else if d =? 1 then "b" else if d =? 2 then "c" else "d".

(** The loop shared by [to_base4_word] and [to_base4_addr]: [n] digits of
    [v], the least significant written last in the buffer. *)
Fixpoint base4 (n : nat) (v : Z) (out : string) : string :=
  match n with
  | O => out
  | S n' => base4 n' (v / 4) (String (QUAD_DIGITS (v mod 4)) out)
  end.

Definition to_base4_word (value : Z) : string :=
  base4 WORD_BASE4_DIGITS (Z.land value WORD_MASK) EmptyString.

Definition to_base4_addr (value : Z) : string :=
  base4 ADDR_BASE4_DIGITS (if value <? 0 then 0 else value) EmptyString.

Definition build_path (cap : nat) (base ext : string) : string :=
  let dst := String.substring 0 (cap - 1) base in
  let dst := if (String.length dst + 1 <? cap)%nat then dst +:+ "." else dst in
  if (String.length dst + String.length ext <? cap)%nat then dst +:+ ext else dst.

Definition path_of (basename ext : string) : string := build_path 512 basename ext.

Definition nl : string := String newline EmptyString.
Definition tab : string := String "009" EmptyString.

Definition open_outputs (can_open : string → bool) (basename : string) (fs : files)
  : Z * option string * files :=
  let '(ob, fs) := fopen_w can_open (path_of basename "ob") fs in
  match ob with
  | None => (1, None, fs)
  | Some _ => (0, ob, fs)
  end.

Definition close_stream (stream : option string) (fs : files) : files :=
  match stream with
  | Some p => fclose p fs
  | None => fs
  end.

Definition close_outputs (ob ent ext : option string) (fs : files) : files :=
  close_stream ext (close_stream ent (close_stream ob fs)).

Definition write_word_to_ob (ob : option string) (abs_address word10bits : Z)
    (fs : files) : files :=
  match ob with
  | Some p => fprintf p (to_base4_addr abs_address +:+ tab +:+ to_base4_word word10bits +:+ nl) fs
  | None => fs
  end.

(** [write_entry] and [write_external] share their body but for the
    extension: the return code, the stream and the files. *)
Definition write_line (can_open : string → bool) (basename extension : string)
    (stream : option string) (lbl : string) (address : Z) (fs : files)
  : Z * option string * files :=
  let '(stream, fs) :=
    match stream with
    | None => fopen_w can_open (path_of basename extension) fs
    | Some _ => (stream, fs)
    end in
  match stream with
  | None => (1, None, fs)
  | Some p => (0, stream, fprintf p (lbl +:+ " " +:+ to_base4_addr address +:+ nl) fs)
  end.

Definition write_entry (can_open : string → bool) (basename : string)
    (ent : option string) (lbl : string) (abs_address : Z) (fs : files) :=
  write_line can_open basename "ent" ent lbl abs_address fs.

Definition write_external (can_open : string → bool) (basename : string)
    (ext : option string) (lbl : string) (abs_use_address : Z) (fs : files) :=
  write_line can_open basename "ext" ext lbl abs_use_address fs.

Fixpoint find_label (labels : list Label) (nm : string) : option Label :=
  match labels with
  | [] => None
  | l :: r => if streq (l_name l) nm then Some l else find_label r nm
  end.

(** What the second pass works on: the files, the three streams, the
    instruction image it patches in place, its own error flag and the
    undefined labels it printed, each with the source line of the use. *)
Record pass2_state := mkPass2 {
  fs : files;
  ob : option string;
  ent : option string;
  ext : option string;
  image : list Z;
  had_error : bool;
  undefined : list (string * Z)
}.

Definition with_fs (v : files) (s : pass2_state) : pass2_state :=
  mkPass2 v (ob s) (ent s) (ext s) (image s) (had_error s) (undefined s).
Definition with_ent (v : option string) (s : pass2_state) : pass2_state :=
  mkPass2 (fs s) (ob s) v (ext s) (image s) (had_error s) (undefined s).
Definition with_ext (v : option string) (s : pass2_state) : pass2_state :=
  mkPass2 (fs s) (ob s) (ent s) v (image s) (had_error s) (undefined s).
Definition with_image (v : list Z) (s : pass2_state) : pass2_state :=
  mkPass2 (fs s) (ob s) (ent s) (ext s) v (had_error s) (undefined s).
Definition with_had_error (v : bool) (s : pass2_state) : pass2_state :=
  mkPass2 (fs s) (ob s) (ent s) (ext s) (image s) v (undefined s).
Definition with_undefined (v : list (string * Z)) (s : pass2_state) : pass2_state :=
  mkPass2 (fs s) (ob s) (ent s) (ext s) (image s) (had_error s) v.

(** The absolute address of a symbol, as both [patch_word_with_label] and
    [flush_all_entries] compute it. *)
Definition abs_address (lab : Label) (ic_final : Z) : Z :=
  if decide (l_data_or_ins lab = DATA) then ORG_ADDRESS + ic_final + l_address lab
  else ORG_ADDRESS + l_address lab.

Definition patch_word_with_label (can_open : string → bool) (basename : string)
    (index : Z) (lab : Label) (ic_final : Z) (s : pass2_state) : Z * pass2_state :=
  let external := bool_decide (l_ent_or_ext lab = EXTERNAL) in
  let abs_val := if external then 0 else abs_address lab ic_final in
  let s := if negb external && (abs_val >? ADDR_VALUE_MAX) then with_had_error true s else s in
  let word := default 0 (image s !! Z.to_nat index) in
  let word := Z.land word (Z.lnot (Z.lor (Z.shiftl ADDR_VALUE_MASK ADDR_VALUE_SHIFT) ARE_MASK)) in
  if external then
    let word := Z.lor word (Z.shiftl ARE_E ARE_SHIFT) in
    let '(res, ext', fs') :=
      write_external can_open basename (ext s) (l_name lab) (ORG_ADDRESS + index) (fs s) in
    let s := with_fs fs' (with_ext ext' s) in
    if negb (res =? 0) then (1, s)
    else (0, with_image (<[Z.to_nat index := word]> (image s)) s)
  else
    let word := Z.lor word (Z.shiftl (Z.land abs_val ADDR_VALUE_MASK) ADDR_VALUE_SHIFT) in
    let word := Z.lor word (Z.shiftl ARE_R ARE_SHIFT) in
    (0, with_image (<[Z.to_nat index := word]> (image s)) s).

Fixpoint flush_all_entries (can_open : string → bool) (basename : string)
    (labels : list Label) (ic_final : Z) (s : pass2_state) : pass2_state :=
  match labels with
  | [] => s
  | l :: r =>
      let s :=
        if decide (l_ent_or_ext l = ENTRY) then
          let '(res, ent', fs') :=
            write_entry can_open basename (ent s) (l_name l) (abs_address l ic_final) (fs s) in
          let s := with_fs fs' (with_ent ent' s) in
          if negb (res =? 0) then with_had_error true s else s
        else s in
      flush_all_entries can_open basename r ic_final s
  end.

Definition remove_outputs (basename : string) (fs : files) : files :=
  remove (path_of basename "ext")
    (remove (path_of basename "ent") (remove (path_of basename "ob") fs)).

(** ** [second_pass.c] *)

(** The loop over the pending references: [0] at its end, [1] when a
    patch met a fatal I/O error. *)
Fixpoint resolve_pending (can_open : string → bool) (basename : string)
    (pending : list Pending) (labels : list Label) (ic_final : Z)
    (s : pass2_state) : Z * pass2_state :=
  match pending with
  | [] => (0, s)
  | pen :: r =>
      match find_label labels (label_p_name pen) with
      | None =>
          resolve_pending can_open basename r labels ic_final
            (with_had_error true
               (with_undefined (undefined s ++ [(label_p_name pen, line_number_use pen)]) s))
      | Some lab =>
          let '(res, s) :=
            patch_word_with_label can_open basename (ic_index pen) lab ic_final s in
          if negb (res =? 0) then (1, s)
          else resolve_pending can_open basename r labels ic_final s
      end
  end.

(** [for (i = 0; i < count; ++i) write_word_to_ob(ob, origin + i, words[i]);] *)
Definition emit_words (stream : option string) (origin : Z) (words : list Z)
    (count : Z) (fs0 : files) : files :=
  foldl (λ fs1 i, write_word_to_ob stream (origin + Z.of_nat i) (default 0 (words !! i)) fs1)
        fs0 (seq 0 (Z.to_nat count)).

Definition closed_and_removed (basename : string) (s : pass2_state) : pass2_state :=
  with_fs (remove_outputs basename (close_outputs (ob s) (ent s) (ext s) (fs s))) s.

(** [second_pass]: the return code, [*p_error] at the return and the final
    state of the pass. *)
Definition second_pass (can_open : string → bool) (basename : string)
    (ins_set : list Z) (ic_final : Z) (dataset : list Z) (dc_final : Z)
    (label_set : list Label) (pending_refs : list Pending)
    (p_error : bool) (fs0 : files) : Z * bool * pass2_state :=
  let had_first_pass_error := p_error in
  let '(res, stream, fs1) := open_outputs can_open basename fs0 in
  if negb (res =? 0) then
    (FATAL_ERROR, p_error,
     mkPass2 (remove_outputs basename fs1) None None None ins_set false [])
  else
    let header := " " +:+ to_base4_addr ic_final +:+ " " +:+ to_base4_addr dc_final +:+ nl in
    let fs2 := match stream with
               | Some p => fprintf p header fs1
               | None => fs1
               end in
    let s := mkPass2 fs2 stream None None ins_set false [] in
    let '(res, s) := resolve_pending can_open basename pending_refs label_set ic_final s in
    if negb (res =? 0) then (FATAL_ERROR, p_error, closed_and_removed basename s)
    else
      let s := with_fs (emit_words (ob s) ORG_ADDRESS (image s) ic_final (fs s)) s in
      let s := with_fs (emit_words (ob s) (ORG_ADDRESS + ic_final) dataset dc_final (fs s)) s in
      let s := flush_all_entries can_open basename label_set ic_final s in
      if had_error s || had_first_pass_error then
        (0, true, closed_and_removed basename s)
      else
        (0, p_error, with_fs (close_outputs (ob s) (ent s) (ext s) (fs s)) s).

(** ** [first_pass], from the opening of the [.am] file to the call of the
    second pass *)

(** [FILENAME_MAX] of [<stdio.h>], as the C library of the platform sets it. *)
Definition FILENAME_MAX : nat := 4096.

Definition text_of (pieces : list string) : string := foldr String.append EmptyString pieces.

(** What [first_pass] leaves: its return code, the state of the first pass
    at that point, and, when the second pass was called, [p_error] and the
    state at its return; [files_after] are the files at the return. *)
Record pass_result := mkResult {
  code_returned : Z;
  first : pass_state;
  second : option (bool * pass2_state);
  files_after : files
}.

Definition first_pass (can_open : string → bool) (name_of_file : string)
    (state : MacroTable) (error0 : bool) (fs0 : files) : pass_result :=
  let s0 := initial_state error0 in
  if (FILENAME_MAX <=? String.length name_of_file)%nat then mkResult 0 s0 None fs0
  else
    match disk fs0 !! (name_of_file +:+ ".am") with
    | None => mkResult FATAL_ERROR s0 None fs0
    | Some pieces =>
        let f_am := text_of pieces in
        let '(r, s) := read_loop (S (String.length f_am)) state zero f_am s0 in
        match r with
        | Some 0 =>
            let '(_, s) := report_undefined (label_set s) s in
            let '(res, p_error, s2) :=
              second_pass can_open name_of_file (ins_set s) (ic s) (dataset s) (dc s)
                (label_set s) (pending_refs s) (error s) fs0 in
            mkResult (if negb (res =? 0) then FATAL_ERROR else 0) s
              (Some (p_error, s2)) (fs s2)
        | _ => mkResult FATAL_ERROR s None fs0
        end
    end.

(** ** [macro_expander.h], [macro_utils.c] and [pre_assembler.c] *)

Definition MAX_LINE_LENGTH : nat := 100.
Definition MAX_MACRO_NAME : nat := 31.

Definition MACRO_OK : Z := 0.
Definition MACRO_SYNTAX_ERROR : Z := 1.
Definition MACRO_RESERVED : Z := 2.
Definition MACRO_ILLEGAL_NAME : Z := 3.
Definition MACRO_DUPLICATE : Z := 4.

Fixpoint all_alnum_or_underscore (s : string) : bool :=
  match s with
  | String c r => (isalnum c || chr_eqb c "_") && all_alnum_or_underscore r
  | EmptyString => true
  end.

Definition is_valid_macro_name (nm : string) : bool :=
  let len := String.length nm in
  if (len =? 0)%nat || (MAX_MACRO_NAME - 1 <? len)%nat then false
  else if negb (isalpha (deref nm)) then false
  else all_alnum_or_underscore (advance 1 nm).

(** The run of characters that are not white space at the front of [s],
    and what follows it. *)
Fixpoint scan_word (s : string) : string * string :=
  match s with
  | String c r =>
      if isspace c then (EmptyString, s)
      else let '(w, e) := scan_word r in (String c w, e)
  | EmptyString => (EmptyString, s)
  end.

(** One [%s] conversion of [sscanf]: [None] when the input ends first. *)
Definition scan_s (s : string) : option (string * string) :=
  match skip_space s with
  | EmptyString => None
  | l => Some (scan_word l)
  end.

(** [sscanf(line, "%s %s %s", token1, token2, token3)]: the count it
    returns (-1 is [EOF]) and the first two tokens. *)
Definition scan_three (line : string) : Z * string * string :=
  match scan_s line with
  | None => (-1, EmptyString, EmptyString)
  | Some (token1, r1) =>
      match scan_s r1 with
      | None => (1, token1, EmptyString)
      | Some (token2, r2) =>
          match scan_s r2 with
          | None => (2, token1, token2)
          | Some _ => (3, token1, token2)
          end
      end
  end.

(** The state of [mcro_exec] in its loop.  [failed] is the module-wide
    [error]; [macros] is the table [state], and [null_entry] says that a
    null pointer was stored after its macros (by a [mcroend] met outside
    of a block), which the next search that reaches it dereferences:
    [crashed] is set then and the process is gone.  [word] and
    [macro_name] are the two buffers that keep their contents from one
    line to the next; [out] holds the pieces written to the [.am] file. *)
Record expander := mkExpander {
  failed : bool;
  inside_macro : bool;
  current : option Macro;
  macros : MacroTable;
  null_entry : bool;
  crashed : bool;
  word : string;
  macro_name : string;
  out : list string;
  line_num : Z;
  reported : list (Z * string)
}.

(** [report_error(state, file_name, line_num, msg); error = TRUE;] *)
Definition complain (msg : string) (x : expander) : expander :=
  mkExpander true (inside_macro x) (current x) (macros x) (null_entry x) (crashed x)
    (word x) (macro_name x) (out x) (line_num x) (reported x ++ [(line_num x, msg)]).

Definition fputs (text : string) (x : expander) : expander :=
  mkExpander (failed x) (inside_macro x) (current x) (macros x) (null_entry x) (crashed x)
    (word x) (macro_name x) (out x ++ [text]) (line_num x) (reported x).

Definition crash (x : expander) : expander :=
  mkExpander (failed x) (inside_macro x) (current x) (macros x) (null_entry x) true
    (word x) (macro_name x) (out x) (line_num x) (reported x).

(** [find_macro] on the table of the expander: [None] is the dereference
    of the null entry. *)
Definition find_macro_in (x : expander) (nm : string) : option (option Macro) :=
  match find_macro (macros x) nm with
  | Some m => Some (Some m)
  | None => if null_entry x then None else Some None
  end.

(** [is_valid_macro_start_line]: the code and [macro_name] at the return;
    [None] when [find_macro] meets the null entry. *)
Definition is_valid_macro_start_line (x : expander) (line : string)
  : option (Z * string) :=
  let '(count, token1, token2) := scan_three line in
  if negb (count =? 2) || negb (streq token1 "mcro") then
    Some (MACRO_SYNTAX_ERROR, macro_name x)
  else if is_reserved_word token2 then Some (MACRO_RESERVED, macro_name x)
  else if negb (is_valid_macro_name token2) then Some (MACRO_ILLEGAL_NAME, macro_name x)
  else
    match find_macro_in x token2 with
    | None => None
    | Some (Some _) => Some (MACRO_DUPLICATE, macro_name x)
    | Some None => Some (MACRO_OK, String.substring 0 (MAX_MACRO_NAME - 1) token2)
    end.

Definition create_macro (nm : string) : Macro :=
  mkMacro (String.substring 0 (MAX_MACRO_NAME - 1) nm) [].

Definition add_line_to_macro (m : Macro) (line : string) : Macro :=
  mkMacro (name m) (lines m ++ [line]).

Definition line_length (line : string) : nat :=
  let len := String.length line in
  if (0 <? len)%nat && chr_eqb (last_char line) newline then (len - 1)%nat else len.

(** The branch of the loop for a line whose first word is [mcro]. *)
Definition open_block (line : string) (x : expander) : expander :=
  let x := if inside_macro x then complain "Nested macros not supported" x else x in
  match is_valid_macro_start_line x line with
  | None => crash x
  | Some (res, nm) =>
      let x :=
        if res =? 1 then complain "Invalid macro declaration syntax" x
        else if res =? 2 then complain "Reserved word used as macro name" x
        else if res =? 3 then complain "Illegal macro name" x
        else if res =? 4 then complain "Duplicate macro definition" x
        else x in
      mkExpander (failed x) true (Some (create_macro nm)) (macros x) (null_entry x)
        (crashed x) (word x) nm (out x) (line_num x) (reported x)
  end.

(** The branch for a line whose first word is [mcroend]. *)
Definition close_block (x : expander) : expander :=
  let x := if negb (inside_macro x) then complain "'mcroend' without matching 'mcro'" x else x in
  let x :=
    match current x with
    | Some m => if (length (lines m) =? 0)%nat then complain "Empty macro is not allowed" x else x
    | None => complain "Empty macro is not allowed" x
    end in
  match current x with
  | Some m =>
      mkExpander (failed x) false None
        (if null_entry x then macros x else macros x ++ [m]) (null_entry x)
        (crashed x) (word x) (macro_name x) (out x) (line_num x) (reported x)
  | None =>
      mkExpander (failed x) false None (macros x) true
        (crashed x) (word x) (macro_name x) (out x) (line_num x) (reported x)
  end.

(** The body of the [while (fgets ...)] loop of [mcro_exec], for the
    string that C reads in the buffer [line]. *)
Definition expand_line (line : string) (x : expander) : expander :=
  let x := mkExpander (failed x) (inside_macro x) (current x) (macros x) (null_entry x)
             (crashed x) (word x) (macro_name x) (out x) (line_num x + 1) (reported x) in
  let x := if (VALID_LINE <? line_length line)%nat then complain "Line too long" x else x in
  if chr_eqb (deref line) newline || chr_eqb (deref line) ";" then fputs line x
  else
    let w := match scan_s line with
             | Some (w, _) => w
             | None => word x
             end in
    let x := mkExpander (failed x) (inside_macro x) (current x) (macros x) (null_entry x)
               (crashed x) w (macro_name x) (out x) (line_num x) (reported x) in
    if streq w "mcro" then open_block line x
    else if streq w "mcroend" then close_block x
    else if inside_macro x then
      match current x with
      | Some m =>
          mkExpander (failed x) (inside_macro x) (Some (add_line_to_macro m line)) (macros x)
            (null_entry x) (crashed x) (word x) (macro_name x) (out x) (line_num x)
            (reported x)
      | None => crash (complain "Internal error: current macro is NULL" x)
      end
    else
      match find_macro_in x w with
      | None => crash x
      | Some (Some m) => foldl (λ x l, fputs l x) x (lines m)
      | Some None => fputs line x
      end.

(** The loop of [mcro_exec] over the text [src] of the [.as] file; it stops
    where the process crashes.  [strlen], [sscanf], [strcpy] and [fputs]
    read the buffer that [fgets] filled up to its first null character.
    [None] is for a [fuel] too small. *)
Fixpoint expand_loop (fuel : nat) (src : string) (x : expander) : option expander :=
  match fuel with
  | O => None
  | S fuel' =>
      if crashed x then Some x
      else
        match fgets MAX_LINE_LENGTH src with
        | None => Some x
        | Some (line, src) => expand_loop fuel' src (expand_line (c_str line) x)
        end
  end.

(** What [mcro_exec] leaves: its return code ([None] when the process
    died), the table with the mark of a null pointer stored in it, the
    files and the diagnostics of [report_error]. *)
Record expansion := mkExpansion {
  exit_code : option Z;
  table : MacroTable;
  null_slot : bool;
  files_left : files;
  diagnostics : list (Z * string)
}.

(** [mcro_exec(state, file_name)].  [stack] holds what the buffers [word]
    and [macro_name] contain at entry, which C leaves indeterminate.  The
    two [sprintf] write the name and its extension into buffers of
    [FILENAME_MAX] characters without a check: for a name that does not
    fit the behaviour is undefined, which is given here as the death of
    the process before any file is touched.  When the process dies in the
    loop the output was never closed: its file holds what stdio had
    passed on of the pieces written, which [flushed] says.  The input
    stream only reads and is not listed in [open_files]. *)
Definition mcro_run (can_open : string → bool) (flushed : list string → list string)
    (state : MacroTable) (file_name : string) (stack : string * string) (fs0 : files)
  : expansion :=
  if (FILENAME_MAX <? String.length file_name + 4)%nat then
    mkExpansion None state false fs0 []
  else
    match disk fs0 !! (file_name +:+ ".as") with
    | None => mkExpansion (Some 1) state false fs0 []
    | Some pieces =>
        match fopen_w can_open (file_name +:+ ".am") fs0 with
        | (None, fs1) => mkExpansion (Some 1) state false fs1 []
        | (Some output, fs1) =>
            let src := text_of pieces in
            let x0 := mkExpander false false None state false false
                        stack.1 stack.2 [] 0 [] in
            match expand_loop (S (String.length src)) src x0 with
            | None => mkExpansion None state false fs1 []
            | Some x =>
                let written := mkFiles (<[output := out x]> (disk fs1)) (open_files fs1) in
                if crashed x then
                  mkExpansion None (macros x) (null_entry x)
                    (mkFiles (<[output := flushed (out x)]> (disk fs1)) (open_files fs1))
                    (reported x)
                else
                  let x := if inside_macro x
                           then complain "Macro not closed before end of file" x else x in
                  if failed x then
                    mkExpansion (Some 1) (macros x) (null_entry x)
                      (remove output (fclose output written)) (reported x)
                  else
                    mkExpansion (Some 0) (macros x) (null_entry x)
                      (fclose output written) (reported x)
            end
        end
    end.

(** The results of [mcro_exec] that its caller reads: the return code,
    the macros of the table, the files and the diagnostics. *)
Definition mcro_exec (can_open : string → bool) (flushed : list string → list string)
    (state : MacroTable) (file_name : string) (stack : string * string) (fs0 : files)
  : option Z * MacroTable * files * list (Z * string) :=
  let e := mcro_run can_open flushed state file_name stack fs0 in
  (exit_code e, table e, files_left e, diagnostics e).

(** [main]: the exit status, [None] when the process crashed, and the files
    it leaves.  [argv] holds the basenames only.  [free_all_macros], called
    after every file, reads through each pointer of the table: the
    process dies there when [mcro_exec] stored a null pointer, which it
    does only on a path that returns 1. *)
Fixpoint main_loop (can_open : string → bool) (flushed : list string → list string)
    (stack : string * string) (argv : list string) (fs0 : files) : option Z * files :=
  match argv with
  | [] => (Some 0, fs0)
  | base :: rest =>
      let e := mcro_run can_open flushed [] base stack fs0 in
      match exit_code e with
      | None => (None, files_left e)
      | Some result =>
          if negb (result =? 0) then
            if null_slot e then (None, files_left e)
            else main_loop can_open flushed stack rest (files_left e)
          else
            let r := first_pass can_open base (table e) false (files_left e) in
            if null_slot e then (None, files_after r)
            else if code_returned r =? FATAL_ERROR then (Some 1, files_after r)
            else main_loop can_open flushed stack rest (files_after r)
      end
  end.

Definition main (can_open : string → bool) (flushed : list string → list string)
    (stack : string * string) (argv : list string) (fs0 : files) : option Z * files :=
  match argv with
  | [] => (Some 1, fs0)
  | _ => main_loop can_open flushed stack argv fs0
  end.

(** ** Predicates of the statements *)

(** The two images agree with their counters and fit the memory. *)
Definition images_ok (s : pass_state) : Prop :=
  0 ≤ ic s ∧ 0 ≤ dc s ∧ ic s + dc s ≤ MEM_AVAIL_WORDS
  ∧ Z.of_nat (length (ins_set s)) = ic s
  ∧ Z.of_nat (length (dataset s)) = dc s.

(** A computation of the pass keeps a property of the state. *)
Definition preserves (I : pass_state → Prop) {A} (m : M A) : Prop :=
  ∀ s, I s → I (m s).2.

(** An emit was refused from the state [s]: the outcome [r] is the fatal
    code, no image and no counter has changed, the error flag is set and
    the message about the memory was printed at the current line. *)
Definition refused (s : pass_state) (r : Z * pass_state) : Prop :=
  r.1 = FATAL_ERROR
  ∧ dataset r.2 = dataset s ∧ ins_set r.2 = ins_set s
  ∧ dc r.2 = dc s ∧ ic r.2 = ic s
  ∧ error r.2 = true
  ∧ stderr r.2 = stderr s ++ [(line_count s, "There are no free cells in memory")].

(** The first pass over the text of a [.am] file, with the fuel that
    [first_pass] gives the loop. *)
Definition run_lines (state : MacroTable) (f_am : string) (error0 : bool)
  : option Z * pass_state :=
  read_loop (S (String.length f_am)) state zero f_am (initial_state error0).

(** A state whose memory is full: 100 instruction words and 56 data words. *)
Definition full_state : pass_state :=
  mkState false 56 100 7 false EmptyString (replicate 56 0) (replicate 100 0)
    [] [] false EmptyString [].

(** The name of register [n]. *)
Definition register (n : Z) : string :=
  String "r" (String (ascii_of_N (Z.to_N (48 + n))) EmptyString).

(** The state in which [handle_two_prms] is called for [mov r3, r5] on the
    first line of a file. *)
Definition mov_state : pass_state :=
  mkState false 0 0 1 false ("r3, r5" +:+ nl) [] [] [] [] false EmptyString [].

(** The token [t] is the decimal writing of [v], a value a data word can
    hold. *)
Definition valid_data (t : string) (v : Z) : Prop :=
  (strtol t).1 = (v, EmptyString) ∧ MIN_NUM_D ≤ v ≤ MAX_NUM_D.

(** The state [s] after the words [ws] were appended to the data image and
    [strtok] moved to [p]. *)
Definition with_data (ws : list Z) (p : string) (s : pass_state) : pass_state :=
  set_saved p (set_dataset (dataset s ++ ws) (set_dc (dc s + Z.of_nat (length ws)) s)).

Definition matrix_overflow : string :=
  "There are unnecessary parameter(s), overflow from the defined matrix".

(** The state in which [mat_cmd] is called for [.mat [2][3] 1, 2, 3] on the
    first line of a file. *)
Definition mat_state : pass_state :=
  mkState false 0 0 1 false ("[2][3] 1, 2, 3" +:+ nl) [] [] [] [] false EmptyString [].

(** A text of [n] empty lines. *)
Definition blank_lines (n : nat) : string := Nat.iter n (String.append nl) EmptyString.

(** The whole of the first pass over a text: the loop over the lines, then
    the report of the symbols left undefined. *)
Definition run_pass (state : MacroTable) (f_am : string) (error0 : bool) : pass_state :=
  let r := run_lines state f_am error0 in
  (report_undefined (label_set r.2) r.2).2.

Definition undefined_entry : string :=
  "A label was declared internal and was not defined in this file".

(** ** What the statements about the second pass speak of *)

(** The value of a string of base-4 digits [a], [b], [c], [d]. *)
Fixpoint base4_value (acc : Z) (digits4 : string) : Z :=
  match digits4 with
  | String c r => base4_value (4 * acc + (code c - code "a")) r
  | EmptyString => acc
  end.

(** The line of [.ext] for the use of the external symbol [nm] by the word
    at [index] of the instruction image. *)
Definition ext_line (nm : string) (index : Z) : string :=
  nm +:+ " " +:+ to_base4_addr (ORG_ADDRESS + index) +:+ nl.

(** The line a pending reference adds to [.ext], if its name resolves to an
    external symbol. *)
Definition external_use (labels : list Label) (pen : Pending) : option string :=
  match find_label labels (label_p_name pen) with
  | Some lab =>
      if bool_decide (l_ent_or_ext lab = EXTERNAL)
      then Some (ext_line (l_name lab) (ic_index pen)) else None
  | None => None
  end.

Definition external_uses (labels : list Label) (pending : list Pending) : list string :=
  omap (external_use labels) pending.

(** A pending reference that the second pass counts as an error: its name
    is not in the table, or it is internal and its address is over 255. *)
Definition pending_error (labels : list Label) (ic_final : Z) (pen : Pending) : bool :=
  match find_label labels (label_p_name pen) with
  | None => true
  | Some lab =>
      negb (bool_decide (l_ent_or_ext lab = EXTERNAL))
      && (abs_address lab ic_final >? ADDR_VALUE_MAX)
  end.

Definition is_entry (l : Label) : bool := bool_decide (l_ent_or_ext l = ENTRY).

Definition is_defined_entry (l : Label) : bool :=
  bool_decide (l_ent_or_ext l = ENTRY)
  && negb (bool_decide (l_data_or_ins l = UNKNOWN_LABEL_TYPE)).

(** The line of [.ent] for a symbol. *)
Definition ent_line (ic_final : Z) (l : Label) : string :=
  l_name l +:+ " " +:+ to_base4_addr (abs_address l ic_final) +:+ nl.

(** The lines of [.ent] as the code writes them: one for every symbol of
    linkage entry, in the order of the table. *)
Definition entries_written (labels : list Label) (ic_final : Z) : list string :=
  ent_line ic_final <$> filter (λ l, is_entry l = true) labels.

(** The lines of [.ent] as the claim has them: the symbols of linkage entry
    whose kind is not unknown. *)
Definition entries_claimed (labels : list Label) (ic_final : Z) : list string :=
  ent_line ic_final <$> filter (λ l, is_defined_entry l = true) labels.

(** The non-fatal errors of the second pass, from its inputs: a pending
    reference in error, or an entry symbol to write while [.ent] cannot be
    opened. *)
Definition pass2_errors (can_open : string → bool) (basename : string)
    (labels : list Label) (pending : list Pending) (ic_final : Z) : bool :=
  existsb (pending_error labels ic_final) pending
  || (existsb is_entry labels && negb (can_open (path_of basename "ent"))).

(** The lines of the body of [.ob] for [count] words from [origin]. *)
Definition ob_lines (origin : Z) (words : list Z) (count : Z) : list string :=
  (λ i : nat, to_base4_addr (origin + Z.of_nat i) +:+ tab
              +:+ to_base4_word (default 0 (words !! i)) +:+ nl)
  <$> seq 0 (Z.to_nat count).

Definition ob_header (ic_final dc_final : Z) : string :=
  " " +:+ to_base4_addr ic_final +:+ " " +:+ to_base4_addr dc_final +:+ nl.

(** The instruction image after the pending references were resolved, in
    order, against the table. *)
Definition patched_word (lab : Label) (ic_final : Z) (word : Z) : Z :=
  let cleared := Z.land word (Z.lnot 1023) in
  if bool_decide (l_ent_or_ext lab = EXTERNAL) then Z.lor cleared 1
  else Z.lor (Z.lor cleared (Z.shiftl (Z.land (abs_address lab ic_final) 255) 2)) 2.

(** A file opened on first use: while its stream is null nothing was
    written and the disk is [d0]; once it is open the stream is the file at
    [path], which holds [lines] on a disk otherwise like [d0]. *)
Definition lazily_written (path : string) (stream : option string)
    (d0 d : gmap string (list string)) (lines : list string) : Prop :=
  match stream with
  | None => lines = [] ∧ d = d0
  | Some p => p = path ∧ d = <[path := lines]> d0
  end.

(** The instruction image after the pending references were patched, in
    order. *)
Fixpoint patched (labels : list Label) (ic_final : Z) (pending : list Pending)
    (words : list Z) : list Z :=
  match pending with
  | [] => words
  | pen :: r =>
      match find_label labels (label_p_name pen) with
      | None => patched labels ic_final r words
      | Some lab =>
          let i := Z.to_nat (ic_index pen) in
          patched labels ic_final r
            (<[i := patched_word lab ic_final (default 0 (words !! i))]> words)
      end
  end.

(** The undefined names the second pass prints, with the lines of their use. *)
Definition undefined_uses (labels : list Label) (pending : list Pending)
  : list (string * Z) :=
  omap (λ pen, match find_label labels (label_p_name pen) with
               | None => Some (label_p_name pen, line_number_use pen)
               | Some _ => None
               end) pending.

(** The stream that was opened between two states of a lazily opened file. *)
Definition newly_opened (before after : option string) : list string :=
  match before, after with
  | None, Some p => [p]
  | _, _ => []
  end.

(** The pieces of text a file holds, none when it is not on the disk. *)
Definition file_lines (files0 : files) (path : string) : list string :=
  default [] (disk files0 !! path).

(** None of the three outputs of [basename] is on the disk. *)
Definition outputs_absent (basename : string) (files0 : files) : Prop :=
  disk files0 !! path_of basename "ob" = None
  ∧ disk files0 !! path_of basename "ent" = None
  ∧ disk files0 !! path_of basename "ext" = None.

(** The text of the object file for the images the second pass received. *)
Definition ob_text (labels : list Label) (pending : list Pending)
    (ins_set : list Z) (ic_final : Z) (dataset : list Z) (dc_final : Z) : list string :=
  ob_header ic_final dc_final
  :: ob_lines ORG_ADDRESS (patched labels ic_final pending ins_set) ic_final
  ++ ob_lines (ORG_ADDRESS + ic_final) dataset dc_final.

(** ** Concrete inputs of the examples *)

Definition every_file : string → bool := λ _, true.

Definition no_files : files := mkFiles ∅ [].

(** A table with one external symbol, and one use of it by the word at 1. *)
Definition extern_table : list Label := [mkLabel "X" 0 INS EXTERNAL].
Definition extern_use : list Pending := [mkPending "X" 1 2].

(** The second pass at the point where it resolves the references of
    [.extern X] followed by [jmp X], the object file open. *)
Definition jmp_state : pass2_state :=
  mkPass2 (mkFiles {[ "t.ob" := [ob_header 2 0] ]} ["t.ob"])
    (Some "t.ob") None None [580; 0] false [].

(** A table whose only symbol was declared [.entry] on line 1 and never
    defined. *)
Definition undefined_table : list Label := [mkLabel "K" 1 UNKNOWN_LABEL_TYPE ENTRY].

Definition fresh_pass2 : pass2_state :=
  mkPass2 no_files None None None [] false [].

(** The second pass over the images of [.extern X] followed by [jmp X]
    and [stop], with no error from the first pass. *)
Definition jmp_pass (p_error : bool) : Z * bool * pass2_state :=
  second_pass every_file "t" [580; 0; 960] 3 [] 0 extern_table extern_use p_error no_files.

(** ** What the statements about the expander speak of *)

(** A line that the loop copies to the output before it reads its first
    word: it begins with a newline or with a semicolon. *)
Definition copied_as_is (line : string) : bool :=
  chr_eqb (deref line) newline || chr_eqb (deref line) ";".

(** The first word of a line, as [sscanf] reads it with [%s]. *)
Definition first_word (line : string) : option string := fst <$> scan_s line.

(** The state once a line is counted and its length checked. *)
Definition next_line (line : string) (x : expander) : expander :=
  let x := mkExpander (failed x) (inside_macro x) (current x) (macros x) (null_entry x)
             (crashed x) (word x) (macro_name x) (out x) (line_num x + 1) (reported x) in
  if (VALID_LINE <? line_length line)%nat then complain "Line too long" x else x.

(** A line of the body of a block: one that is copied as is, or one whose
    first word is neither [mcro] nor [mcroend]. *)
Definition body_line (line : string) : bool :=
  copied_as_is line
  || match first_word line with
     | Some w => negb (streq w "mcro") && negb (streq w "mcroend")
     | None => false
     end.

(** The lines of a body that the code adds to the macro, and those it
    writes to the output where they stand. *)
Definition captured (body : list string) : list string :=
  filter (λ l, copied_as_is l = false) body.
Definition copied (body : list string) : list string :=
  filter (λ l, copied_as_is l = true) body.

(** The loop of [mcro_exec] over lines given one by one. *)
Definition expand_lines (ls : list string) (x : expander) : expander :=
  foldl (λ x l, expand_line l x) x ls.

(** A line that [fgets] returns whole and that C reads whole: at most 99
    characters, the last of them a newline and no other, and none of them
    the null character. *)
Fixpoint ends_line (l : string) : bool :=
  match l with
  | EmptyString => false
  | String c EmptyString => chr_eqb c newline
  | String c r => negb (chr_eqb c newline) && ends_line r
  end.

Definition whole_line (l : string) : bool :=
  ends_line l && (String.length l <? MAX_LINE_LENGTH)%nat && streq (c_str l) l.

(** The expander at the entry of its loop, with a table of macros. *)
Definition fresh_expander (state : MacroTable) : expander :=
  mkExpander false false None state false false EmptyString EmptyString [] 0 [].

(** A block whose body holds a comment, and a call of its macro. *)
Definition note_body : list string := ["; note" +:+ nl; " add r1, r2" +:+ nl].
Definition note_block : list string :=
  ("mcro M1" +:+ nl) :: note_body ++ ["mcroend" +:+ nl].
Definition note_call : string := "M1" +:+ nl.

(** ** What the statement about a label before [.entry] speaks of *)

Fixpoint all_space (s : string) : bool :=
  match s with
  | String c r => isspace c && all_space r
  | EmptyString => true
  end.

Fixpoint no_space (s : string) : bool :=
  match s with
  | String c r => negb (isspace c) && no_space r
  | EmptyString => true
  end.

(** A computation that neither reads nor writes the buffer [label]. *)
Definition ignores_label {A} (m : M A) : Prop :=
  ∀ lbl s, m (set_label lbl s) = ((m s).1, set_label lbl (m s).2).

(** The branch of [first_pass] for the directive of the line. *)
Definition declaration (directive : string) : string → M Z :=
  if streq directive "entry" then entry_branch else extern_branch.

(** The state in which the second line of a file is read, the table
    holding a symbol of the first. *)
Definition second_line : pass_state :=
  mkState false 0 1 2 false EmptyString [] [960] [mkLabel "A" 0 INS REGULAR] []
    false "A" [].

(** ** What the further statements speak of *)

(** What [.entry] may do to a slot: nothing, or give the linkage entry to
    a slot of the declared name that is defined and not external. *)
Definition entry_marked (w : string) (l l' : Label) : Prop :=
  l_name l' = l_name l ∧ l_address l' = l_address l
  ∧ l_data_or_ins l' = l_data_or_ins l
  ∧ (l_ent_or_ext l' = l_ent_or_ext l
     ∨ (l_name l = w ∧ l_ent_or_ext l ≠ EXTERNAL
        ∧ l_data_or_ins l ≠ UNKNOWN_LABEL_TYPE ∧ l_ent_or_ext l' = ENTRY)).

(** A token that is no decimal writing of a value a data word can hold. *)
Definition invalid_data (t : string) : Prop := ∀ v, ¬ valid_data t v.

(** What is left of the parameters, if anything, begins with a token that
    is not valid. *)
Definition stops_at (tail : list (string * string)) : Prop :=
  match tail with
  | [] => True
  | (t, _) :: _ => invalid_data t
  end.

(** The character codes of a string, and the characters that
    [string_cmd] accepts between the quotes. *)
Fixpoint codes (body : string) : list Z :=
  match body with
  | String c r => code c :: codes r
  | EmptyString => []
  end.

Fixpoint all_printable (body : string) : bool :=
  match body with
  | String c r => (code c >? 31) && (code c <? 127) && all_printable r
  | EmptyString => true
  end.

(** The state in which [data_cmd] is called for [.data 7, -8, x] and
    [string_cmd] for [.string "ab"], on the first line of a file. *)
Definition data_state : pass_state :=
  mkState false 0 0 1 false ("7, -8, x" +:+ nl) [] [] [] [] false EmptyString [].
Definition abc_string : string := String dquote ("ab" +:+ String dquote nl).

(** The state in which [handle_one_prm] is called for [jmp LOOP] and for
    [prn #-5], on the third line of a file that holds two words. *)
Definition jmp_line : pass_state :=
  mkState false 0 2 3 false ("LOOP" +:+ nl) [] [60; 212] [] [] false EmptyString [].
Definition prn_line : pass_state :=
  mkState false 0 2 3 false ("#-5" +:+ nl) [] [60; 212] [] [] false EmptyString [].

(** Nothing was printed since the diagnostics were [base], or the error
    flag is set. *)
Definition flagged (base : list (Z * string)) (s : pass_state) : Prop :=
  stderr s = base ∨ error s = true.

(** The integers of [l] go up, from [lo] at least. *)
Fixpoint increasing (lo : Z) (l : list Z) : Prop :=
  match l with
  | [] => True
  | x :: r => lo ≤ x ∧ increasing (x + 1) r
  end.

(** The images are as their counters say, and the pending references
    point at words of the instruction image, each further than the one
    before. *)
Definition pending_ok (s : pass_state) : Prop :=
  images_ok s
  ∧ increasing 0 (ic_index <$> pending_refs s)
  ∧ Forall (λ i, i < ic s) (ic_index <$> pending_refs s).

(** The second pass at the point where it patches the word at 1 for a
    data symbol at offset 3, the instructions being 2 words. *)
Definition internal_state : pass2_state :=
  mkPass2 no_files None None None [580; 0] false [].
Definition data_symbol : Label := mkLabel "LIST" 3 DATA REGULAR.

(** A computation adds [k] words at most to the instruction image, and
    takes none away. *)
Definition adds (k : Z) {A} (m : M A) : Prop :=
  ∀ s, ic s ≤ ic (m s).2 ≤ ic s + k.


(** ** What the statement about the table of macros speaks of *)

(** A name that a macro may have, and a table as a source without
    errors builds it: every name may be the name of a macro, no name
    comes twice and no body is empty. *)
Definition macro_ok (m : Macro) : Prop :=
  is_valid_macro_name (name m) = true ∧ is_reserved_word (name m) = false.

Definition table_ok (ms : MacroTable) : Prop :=
  Forall (λ m, macro_ok m ∧ lines m ≠ []) ms ∧ NoDup (name <$> ms).

(** The expander has met an error, or its table is as above, holds no
    null entry, and the macro of the block being read has a name that may
    be the name of a macro and that the table does not hold. *)
Definition expander_ok (x : expander) : Prop :=
  failed x = true
  ∨ (table_ok (macros x) ∧ null_entry x = false
     ∧ match current x with
       | Some m => macro_ok m ∧ find_macro (macros x) (name m) = None
       | None => True
       end).

(** A source that defines the macro [M1] and calls it. *)
Definition note_files : files :=
  mkFiles {[ "t.as" := note_block ++ [note_call] ]} [].

(** ** Further predicates and inputs of the statements *)

(** Every character of the string is one of the four digits [a], [b],
    [c] and [d], which [base4_value] reads as 0, 1, 2 and 3. *)
Fixpoint base4_digits (s : string) : bool :=
  match s with
  | String c r =>
      (chr_eqb c "a" || chr_eqb c "b" || chr_eqb c "c" || chr_eqb c "d")
      && base4_digits r
  | EmptyString => true
  end.

(** A slot at which the loop of the [.entry] branch stops for the name
    [w]: a slot of that name that is external or still undefined. *)
Definition blocks (w : string) (l : Label) : Prop :=
  l_name l = w
  ∧ (l_ent_or_ext l = EXTERNAL ∨ l_data_or_ins l = UNKNOWN_LABEL_TYPE).

(** A slot after the loop went over it without stopping: a slot of the
    name [w] has the linkage entry, any other is as it was. *)
Definition as_entry (w : string) (l : Label) : Label :=
  if streq w (l_name l) then mkLabel (l_name l) (l_address l) (l_data_or_ins l) ENTRY
  else l.

(** A table with a defined symbol [A], then an external symbol [A], then
    a defined one, and the state of a second line that holds it. *)
Definition entry_table : list Label :=
  [mkLabel "A" 0 INS REGULAR; mkLabel "A" 0 INS EXTERNAL; mkLabel "A" 1 INS REGULAR].
Definition entry_state : pass_state :=
  mkState false 0 1 2 false EmptyString [] [960] entry_table [] false EmptyString [].

(** The word that [mcro_exec] has in its buffer [word] once it has read
    a line for its first word, the buffer holding [w] before: the first
    word of the line or, for a line that has none, [w] still. *)
Definition word_read (w : string) (line : string) : string :=
  match scan_s line with
  | Some (w', _) => w'
  | None => w
  end.

(** The lines are handled as lines of the body of a block, the buffer
    [word] holding [w] before them: each is copied as is, or the word read
    for it is neither [mcro] nor [mcroend]. *)
Fixpoint body_lines (w : string) (body : list string) : bool :=
  match body with
  | [] => true
  | l :: r =>
      if copied_as_is l then body_lines w r
      else
        negb (streq (word_read w l) "mcro") && negb (streq (word_read w l) "mcroend")
        && body_lines (word_read w l) r
  end.

(** A body whose second line is made of white space. *)
Definition blank_body : list string := [" add r1, r2" +:+ nl; "  " +:+ nl].



(** * Properties *)

(** ** The state monad *)

Section Preservation.
Context (I : pass_state → Prop).

Lemma preserves_ret {A} (a : A) : preserves I (ret a).
Proof. intros s Hs. exact Hs. Qed.

Lemma preserves_gets {A} (f : pass_state → A) : preserves I (gets f).
Proof. intros s Hs. exact Hs. Qed.

Lemma preserves_bind {A B} (m : M A) (k : A → M B) :
  preserves I m → (∀ a, preserves I (k a)) → preserves I (bind m k).
Proof.
  intros Hm Hk s Hs. unfold bind.
  specialize (Hm s Hs). destruct (m s) as [a s1]. apply Hk, Hm.
Qed.

Lemma preserves_modify (f : pass_state → pass_state) :
  (∀ s, I s → I (f s)) → preserves I (modify f).
Proof. intros Hf s Hs. apply Hf, Hs. Qed.
End Preservation.

(** The steps of a preservation proof: the monad laws, then a case
    analysis of whatever the computation branches on. *)
Ltac pres_step :=
  first
    [ apply preserves_ret
    | apply preserves_gets
    | apply preserves_bind; [ | intros ? ]
    | match goal with
      | |- preserves _ (if ?c then _ else _) => destruct c
      | |- preserves _ (match ?x with _ => _ end) => destruct x
      | |- preserves _ (let '(_, _) := ?x in _) => destruct x
      end ].

Create HintDb pres.

Ltac pres := repeat (first [ solve [ eauto with pres ] | pres_step ]).

(** ** Capacity of the memory *)

Lemma images_ok_frame s s' :
  ic s' = ic s → dc s' = dc s → ins_set s' = ins_set s → dataset s' = dataset s →
  images_ok s → images_ok s'.
Proof. unfold images_ok. intros -> -> -> ->. done. Qed.

Lemma raise_images : preserves images_ok raise.
Proof. apply preserves_modify. intros s. by apply images_ok_frame. Qed.

Lemma report_error_pass_images n msg : preserves images_ok (report_error_pass n msg).
Proof. apply preserves_modify. intros s. by apply images_ok_frame. Qed.

Lemma report_images msg : preserves images_ok (report msg).
Proof. unfold report. apply preserves_bind; [apply preserves_gets|]. intros. apply report_error_pass_images. Qed.

#[export] Hint Resolve raise_images report_error_pass_images report_images : pres.

Lemma full_images : preserves images_ok (raise ;; report no_free_cells ;; ret FATAL_ERROR).
Proof. pres. Qed.

Lemma add_data_images word : preserves images_ok (add_data word).
Proof.
  intros s Hs. unfold add_data.
  destruct (dc s + ic s =? MEM_AVAIL_WORDS) eqn:Hfull.
  - by apply full_images.
  - apply Z.eqb_neq in Hfull. destruct Hs as (? & ? & ? & ? & ?).
    unfold images_ok; simpl. rewrite length_app; simpl. lia.
Qed.

Lemma add_ins_images word : preserves images_ok (add_ins word).
Proof.
  intros s Hs. unfold add_ins.
  destruct (dc s + ic s =? MEM_AVAIL_WORDS) eqn:Hfull.
  - by apply full_images.
  - apply Z.eqb_neq in Hfull. destruct Hs as (? & ? & ? & ? & ?).
    unfold images_ok; simpl. rewrite length_app; simpl. lia.
Qed.

#[export] Hint Resolve add_data_images add_ins_images : pres.

Lemma modify_frame_images (f : pass_state → pass_state) :
  (∀ s, ic (f s) = ic s ∧ dc (f s) = dc s
        ∧ length (ins_set (f s)) = length (ins_set s)
        ∧ dataset (f s) = dataset s) →
  preserves images_ok (modify f).
Proof.
  intros Hf. apply preserves_modify. intros s Hs.
  destruct (Hf s) as (Hi & Hd & Hl & Hds). unfold images_ok in *.
  rewrite Hi, Hd, Hl, Hds. done.
Qed.

Ltac frame_images := apply modify_frame_images; intros []; simpl; repeat split; done.

Lemma set_saved_images p : preserves images_ok (modify (set_saved p)).
Proof. frame_images. Qed.
Lemma set_label_images l : preserves images_ok (modify (set_label l)).
Proof. frame_images. Qed.
Lemma set_label_flag_images b : preserves images_ok (modify (set_label_flag b)).
Proof. frame_images. Qed.
Lemma set_was_reg_images b : preserves images_ok (modify (set_was_reg b)).
Proof. frame_images. Qed.
Lemma set_label_set_images l : preserves images_ok (modify (set_label_set l)).
Proof. frame_images. Qed.
Lemma next_line_images :
  preserves images_ok (modify (λ s, set_line_count (line_count s + 1) s)).
Proof. frame_images. Qed.

#[export] Hint Resolve set_saved_images set_label_images set_label_flag_images
  set_was_reg_images set_label_set_images next_line_images : pres.

Lemma strtok_images delims : preserves images_ok (strtok delims).
Proof.
  intros s Hs. unfold strtok. destruct (strtok_from delims (saved s)).
  simpl. revert Hs. by apply images_ok_frame.
Qed.

Lemma strtok_new_images p delims : preserves images_ok (strtok_new p delims).
Proof.
  intros s Hs. unfold strtok_new. destruct (strtok_from delims p).
  simpl. revert Hs. by apply images_ok_frame.
Qed.

Lemma add_pending_refs_images i n l : preserves images_ok (add_pending_refs i n l).
Proof. unfold add_pending_refs. pres. Qed.

Lemma add_label_images nm k l : preserves images_ok (add_label nm k l).
Proof.
  intros s Hs. unfold add_label.
  destruct (is_label_name nm (label_set s)); [destruct (finalize _ _ _ _)|];
    simpl; revert Hs; by apply images_ok_frame.
Qed.

Lemma or_into_last_images num : preserves images_ok (or_into_last num).
Proof.
  apply modify_frame_images. intros s. cbv beta zeta.
  destruct (ins_set s !! Z.to_nat (ic s - 1)); destruct s; simpl;
    rewrite ?length_insert; repeat split; done.
Qed.

Lemma store_ins_images i w : preserves images_ok (store_ins i w).
Proof.
  apply modify_frame_images. intros s. destruct s; simpl.
  rewrite length_insert. repeat split; done.
Qed.

#[export] Hint Resolve strtok_images strtok_new_images add_pending_refs_images
  add_label_images or_into_last_images store_ins_images : pres.

Lemma is_valid_label_images lbl state : preserves images_ok (is_valid_label lbl state).
Proof. unfold is_valid_label. pres. Qed.

Lemma is_valid_num_images token k : preserves images_ok (is_valid_num token k).
Proof. unfold is_valid_num. destruct (strtol token) as [[num ptr] c]. pres. Qed.

Lemma check_mat_def_images d k r c : preserves images_ok (check_mat_def d k r c).
Proof.
  unfold check_mat_def.
  repeat (first [ solve [ eauto with pres ] | pres_step
                | match goal with
                  | |- context [strtol ?x] => destruct (strtol x) as [[? ?] ?]
                  end ]).
Qed.

Lemma commas_loop_images rest : ∀ a e w, preserves images_ok (commas_loop a e w rest).
Proof. induction rest as [|c r IH]; intros; simpl; pres. Qed.

Lemma is_valid_commas_images rest : preserves images_ok (is_valid_commas rest).
Proof. unfold is_valid_commas. destruct rest; [pres|apply commas_loop_images]. Qed.

#[export] Hint Resolve is_valid_label_images is_valid_num_images check_mat_def_images
  commas_loop_images is_valid_commas_images : pres.

Lemma data_loop_images toks : preserves images_ok (data_loop toks).
Proof. induction toks as [|[t e] r IH]; simpl; pres. Qed.

Lemma string_loop_images body : preserves images_ok (string_loop body).
Proof. induction body as [|c r IH]; simpl; pres. Qed.

Lemma mat_loop_images toks : ∀ n, preserves images_ok (mat_loop toks n).
Proof. induction toks as [|[t e] r IH]; intros; simpl; pres. Qed.

Lemma zero_fill_images n : preserves images_ok (zero_fill n).
Proof. induction n as [|n IH]; simpl; pres. Qed.

#[export] Hint Resolve data_loop_images string_loop_images mat_loop_images
  zero_fill_images : pres.

Lemma data_cmd_images rest : preserves images_ok (data_cmd rest).
Proof. unfold data_cmd. pres. Qed.

Lemma string_cmd_images rest : preserves images_ok (string_cmd rest).
Proof. unfold string_cmd. pres. Qed.

Lemma mat_cmd_images rest : preserves images_ok (mat_cmd rest).
Proof. unfold mat_cmd. pres. Qed.

Lemma parse_encode_arguments_images a r m :
  preserves images_ok (parse_encode_arguments a r m).
Proof. unfold parse_encode_arguments. pres. Qed.

#[export] Hint Resolve data_cmd_images string_cmd_images mat_cmd_images
  parse_encode_arguments_images : pres.

Lemma handle_two_prms_images rest op : preserves images_ok (handle_two_prms rest op).
Proof. unfold handle_two_prms. pres. Qed.

Lemma handle_one_prm_images rest op : preserves images_ok (handle_one_prm rest op).
Proof. unfold handle_one_prm. pres. Qed.

Lemma handle_no_prm_images rest op : preserves images_ok (handle_no_prm rest op).
Proof. unfold handle_no_prm. pres. Qed.

#[export] Hint Resolve handle_two_prms_images handle_one_prm_images
  handle_no_prm_images : pres.

Lemma data_commands_images first f rest :
  lookup_command first data_commands = Some f → preserves images_ok (f rest).
Proof.
  unfold data_commands; simpl.
  repeat case_match; intros; simplify_eq; eauto with pres.
Qed.

Lemma ins_commands_images first f rest op :
  lookup_command first ins_commands = Some f → preserves images_ok (f rest op).
Proof.
  unfold ins_commands; simpl.
  repeat case_match; intros; simplify_eq; eauto with pres.
Qed.

Lemma define_label_images k : preserves images_ok (define_label k).
Proof. unfold define_label. pres. Qed.

Lemma dispatch_images k line_p : preserves images_ok (dispatch k line_p).
Proof.
  unfold dispatch.
  destruct (lookup_command _ data_commands) as [f|] eqn:Hd;
    destruct (lookup_command _ ins_commands) as [g|] eqn:Hi; pres;
    eauto using data_commands_images, ins_commands_images.
Qed.

Lemma entry_branch_images line_p : preserves images_ok (entry_branch line_p).
Proof.
  unfold entry_branch.
  repeat (first [ solve [ eauto with pres ] | pres_step
                | match goal with
                  | |- context [mark_entry ?w ?l] => destruct (mark_entry w l) as [[? ?] ?]
                  end ]).
Qed.

Lemma extern_branch_images line_p : preserves images_ok (extern_branch line_p).
Proof. unfold extern_branch. pres. Qed.

#[export] Hint Resolve define_label_images dispatch_images entry_branch_images
  extern_branch_images : pres.

Lemma scan_line_images state line : preserves images_ok (scan_line state line).
Proof. unfold scan_line. pres. Qed.

#[export] Hint Resolve scan_line_images : pres.

Lemma read_loop_images fuel : ∀ state cell f_am,
  preserves images_ok (read_loop fuel state cell f_am).
Proof.
  induction fuel as [|fuel IH]; intros; simpl; [pres|].
  destruct (fgets _ f_am) as [[line rest]|]; pres.
Qed.

Lemma report_undefined_images labels : preserves images_ok (report_undefined labels).
Proof. induction labels as [|l r IH]; simpl; pres. Qed.

Lemma initial_state_images e : images_ok (initial_state e).
Proof. unfold images_ok, MEM_AVAIL_WORDS; simpl. lia. Qed.

(** *** The loop over the lines ends within its fuel *)

Lemma fgets_chars_length room : ∀ f l e,
  fgets_chars room f = (l, e) →
  (String.length e ≤ String.length f)%nat
  ∧ (room ≠ O → f ≠ EmptyString → String.length e < String.length f)%nat.
Proof.
  induction room as [|room IH]; intros f l e; simpl.
  - intros [= <- <-]. split; [lia|done].
  - destruct f as [|c r]; [intros [= <- <-]; split; [lia|done]|].
    destruct (chr_eqb c newline).
    + intros [= <- <-]. simpl. split; [lia|]. lia.
    + destruct (fgets_chars room r) as [l' e'] eqn:Hr. intros [= <- <-].
      destruct (IH _ _ _ Hr) as [Hle _]. simpl. split; lia.
Qed.

Lemma fgets_length n f l e :
  (2 ≤ n)%nat → fgets n f = Some (l, e) → (String.length e < String.length f)%nat.
Proof.
  unfold fgets. destruct f as [|c r]; [done|]. intros Hn [= H].
  apply fgets_chars_length in H as [_ H]. apply H; [lia|done].
Qed.

Lemma drop_line_length f : (String.length (drop_line f) ≤ String.length f)%nat.
Proof.
  induction f as [|c r IH]; cbn [drop_line String.length]; [lia|].
  destruct (chr_eqb c newline || (code c =? 255)); lia.
Qed.

Lemma read_loop_fuel fuel : ∀ state cell f_am s,
  (String.length f_am < fuel)%nat →
  (read_loop fuel state cell f_am s).1 ≠ None.
Proof.
  induction fuel as [|fuel IH]; intros state cell f_am s Hfuel; [lia|].
  simpl. destruct (fgets _ f_am) as [[line rest]|] eqn:Hget; [|done].
  apply fgets_length in Hget; [|unfold VALID_LINE; lia].
  unfold bind at 1. unfold modify at 1.
  destruct (negb _ && negb _).
  - unfold bind, raise, report, report_error_pass, modify, gets; simpl.
    apply IH. pose proof (drop_line_length rest). lia.
  - unfold bind at 1. destruct (scan_line state _ _) as [r s1].
    destruct (r =? FATAL_ERROR); [done|]. apply IH. lia.
Qed.

Lemma run_lines_images state f_am error0 :
  (run_lines state f_am error0).1 ≠ None ∧ images_ok (run_lines state f_am error0).2.
Proof.
  split.
  - apply read_loop_fuel. lia.
  - apply read_loop_images, initial_state_images.
Qed.

Lemma add_data_refused word s :
  ic s + dc s = MEM_AVAIL_WORDS → refused s (add_data word s).
Proof.
  intros Hfull. unfold add_data.
  replace (dc s + ic s) with MEM_AVAIL_WORDS by lia. rewrite Z.eqb_refl.
  unfold refused; destruct s; simpl. done.
Qed.

Lemma add_ins_refused word s :
  ic s + dc s = MEM_AVAIL_WORDS → refused s (add_ins word s).
Proof.
  intros Hfull. unfold add_ins.
  replace (dc s + ic s) with MEM_AVAIL_WORDS by lia. rewrite Z.eqb_refl.
  unfold refused; destruct s; simpl. done.
Qed.

(** C2.  Every emit of the first pass keeps [ic + dc <= 156] (with the
    images as long as their counters say); when the memory is full,
    [ic + dc = 156], [add_data] and [add_ins] refuse the word: nothing is
    appended, no counter moves, the message about the free cells is
    printed at the current line, the error flag is set and the fatal code
    is returned.  The first pass over any text, run from its initial
    state, ends within its fuel in a state where the bound holds. *)
Theorem C2_capacity (word : Z) (s : pass_state) (Hok : images_ok s) :
  images_ok (add_data word s).2
  ∧ images_ok (add_ins word s).2
  ∧ (ic s + dc s = MEM_AVAIL_WORDS →
     refused s (add_data word s) ∧ refused s (add_ins word s))
  ∧ (∀ state f_am error0,
       (run_lines state f_am error0).1 ≠ None
       ∧ ic (run_lines state f_am error0).2 + dc (run_lines state f_am error0).2
         ≤ MEM_AVAIL_WORDS).
Proof.
  split; [by apply add_data_images|].
  split; [by apply add_ins_images|].
  split; [intros Hfull; split; [by apply add_data_refused|by apply add_ins_refused]|].
  intros state f_am error0.
  destruct (run_lines_images state f_am error0) as [Hfuel (_ & _ & Hbound & _)].
  done.
Qed.

Lemma full_state_images : images_ok full_state.
Proof. unfold images_ok, MEM_AVAIL_WORDS; simpl. lia. Qed.

Lemma C2_capacity_witness :
  images_ok full_state
  ∧ ic full_state + dc full_state = MEM_AVAIL_WORDS
  ∧ refused full_state (add_data 5 full_state)
  ∧ refused full_state (add_ins 5 full_state).
Proof.
  split; [exact full_state_images|]. split; [reflexivity|].
  exact (proj1 (proj2 (proj2 (C2_capacity 5 full_state full_state_images))) eq_refl).
Defined.

(** ** Two registers share one word *)

(** The setters of the state record, unfolded on a state given by its fields. *)
Ltac setters :=
  cbv [set_error set_dc set_ic set_line_count set_was_reg set_saved
       set_dataset set_ins_set set_label_set set_pending_refs set_label_flag
       set_label set_stderr
       error dc ic line_count was_reg saved dataset ins_set label_set
       pending_refs label_flag label stderr fst snd] in *.

(** A state, given by its fields. *)
Ltac destruct_state s :=
  destruct s as [err0 dc0 ic0 lc0 wr0 sv0 ds0 is0 ls0 pr0 lf0 lb0 se0].

(** Equality of tuples and records whose components agree up to linear
    arithmetic. *)
Ltac fields :=
  repeat first [ reflexivity | lia | progress cbn [length] | progress f_equal ].

(** Boolean comparisons of the hypotheses, turned into (in)equalities. *)
Ltac zbool :=
  repeat match goal with
    | H : (_ || _) = false |- _ => apply orb_false_elim in H as [? ?]
    | H : (_ && _) = true |- _ => apply andb_prop in H as [? ?]
    | H : (_ >? _) = false |- _ => rewrite Z.gtb_ltb in H
    | H : (_ >? _) = true |- _ => rewrite Z.gtb_ltb in H
    | H : (_ <? _) = false |- _ => apply Z.ltb_ge in H
    | H : (_ <? _) = true |- _ => apply Z.ltb_lt in H
    | H : (_ <=? _) = false |- _ => apply Z.leb_gt in H
    | H : (_ <=? _) = true |- _ => apply Z.leb_le in H
    | H : (_ =? _) = false |- _ => apply Z.eqb_neq in H
    | H : (_ =? _) = true |- _ => apply Z.eqb_eq in H
    end.

Lemma register_cases (P : Z → Prop) :
  P 0 → P 1 → P 2 → P 3 → P 4 → P 5 → P 6 → P 7 → ∀ n, 0 ≤ n ≤ 7 → P n.
Proof.
  intros ???????? n Hn.
  assert (n = 0 ∨ n = 1 ∨ n = 2 ∨ n = 3 ∨ n = 4 ∨ n = 5 ∨ n = 6 ∨ n = 7)
    as Hcases by lia.
  repeat (destruct Hcases as [->|Hcases]; [done|]). by subst.
Qed.

Lemma register_mode n : 0 ≤ n ≤ 7 → addressing_mode (register n) = DIRECT_REGISTER.
Proof. revert n. apply register_cases; reflexivity. Qed.

Lemma register_number n : 0 ≤ n ≤ 7 → atoi (advance 1 (register n)) = n.
Proof. revert n. apply register_cases; reflexivity. Qed.

Lemma add_ins_room word s :
  dc s + ic s ≠ MEM_AVAIL_WORDS →
  add_ins word s = (0, set_ins_set (ins_set s ++ [word]) (set_ic (ic s + 1) s)).
Proof. intros H. unfold add_ins. apply Z.eqb_neq in H. by rewrite H. Qed.

Lemma add_data_room word s :
  dc s + ic s ≠ MEM_AVAIL_WORDS →
  add_data word s = (0, set_dataset (dataset s ++ [word]) (set_dc (dc s + 1) s)).
Proof. intros H. unfold add_data. apply Z.eqb_neq in H. by rewrite H. Qed.

Lemma source_register n modes s :
  0 ≤ n ≤ 7 → existsb (Z.eqb DIRECT_REGISTER) modes = true →
  dc s + ic s ≠ MEM_AVAIL_WORDS →
  parse_encode_arguments (register n) SOURCE modes s =
  (DIRECT_REGISTER,
   set_ins_set (ins_set s ++ [Z.shiftl n SRC_REG_SHIFT])
     (set_ic (ic s + 1) (set_was_reg true s))).
Proof.
  intros Hn Hmodes Hroom. unfold parse_encode_arguments.
  rewrite register_mode, Hmodes, register_number by done. simpl.
  unfold bind, modify. rewrite add_ins_room by (destruct s; done).
  destruct s; reflexivity.
Qed.

Lemma destination_register_shared n modes s w :
  0 ≤ n ≤ 7 → existsb (Z.eqb DIRECT_REGISTER) modes = true →
  was_reg s = true → ins_set s !! Z.to_nat (ic s - 1) = Some w →
  parse_encode_arguments (register n) DESTINATION modes s =
  (DIRECT_REGISTER,
   set_ins_set (<[Z.to_nat (ic s - 1) := Z.lor w (Z.shiftl n DST_SHIFT)]> (ins_set s)) s).
Proof.
  intros Hn Hmodes Hreg Hw. unfold parse_encode_arguments.
  rewrite register_mode, Hmodes, register_number by done. simpl.
  unfold bind, gets, or_into_last, modify, ret. rewrite Hreg, Hw. reflexivity.
Qed.

Lemma strtok_at delims s t e :
  strtok_from delims (saved s) = (t, e) → strtok delims s = (t, set_saved e s).
Proof. intros H. unfold strtok. by rewrite H. Qed.

(** C4.  The line [mov r3, r5], alone in a file, leaves exactly two words:
    the title word 60 and the register word 212.  In general, for the
    two-operand opcodes that take a register as their source ([mov],
    [cmp], [add], [sub]) applied to two register names, with room for two
    words, [handle_two_prms] appends the title word with both modes
    [DIRECT_REGISTER] and exactly one further word, which holds the source
    register in bits 9..6 and, OR-ed into it, the destination register in
    bits 5..2; nothing else is emitted and no error is recorded. *)
Theorem C4_registers_share_a_word :
  ins_set (run_lines [] ("mov r3, r5" +:+ nl) false).2 = [60; 212]
  ∧ 60 = title_word MOV DIRECT_REGISTER DIRECT_REGISTER
  ∧ 212 = Z.lor (Z.shiftl 3 6) (Z.shiftl 5 2)
  ∧ ∀ (rest : string) (opcode i j : Z) (s : pass_state) (e1 e2 e3 : string),
      (opcode =? MOV) || (opcode =? CMP) || (opcode =? ADD) || (opcode =? SUB) = true →
      0 ≤ i ≤ 7 → 0 ≤ j ≤ 7 →
      images_ok s → ic s + dc s + 2 ≤ MEM_AVAIL_WORDS →
      strtok_from COMMA_SPACES (saved s) = (Some (register i), e1) →
      strtok_from COMMA_SPACES e1 = (Some (register j), e2) →
      strtok_from COMMA_SPACES e2 = (None, e3) →
      let r := handle_two_prms rest opcode s in
      r.1 = 0
      ∧ ins_set r.2 =
          ins_set s ++ [title_word opcode DIRECT_REGISTER DIRECT_REGISTER;
                        Z.lor (Z.shiftl i 6) (Z.shiftl j 2)]
      ∧ ic r.2 = ic s + 2 ∧ dc r.2 = dc s ∧ dataset r.2 = dataset s
      ∧ pending_refs r.2 = pending_refs s
      ∧ error r.2 = error s ∧ stderr r.2 = stderr s.
Proof.
  split; [vm_compute; reflexivity|]. split; [reflexivity|]. split; [reflexivity|].
  intros rest opcode i j s e1 e2 e3 Hop Hi Hj Hok Hroom H1 H2 H3 r. subst r.
  destruct Hok as (Hic & Hdc & _ & Hlen & _).
  assert (∃ s', handle_two_prms rest opcode s = (0, s')
    ∧ s' = set_ins_set
             (<[Z.to_nat (ic s) := title_word opcode DIRECT_REGISTER DIRECT_REGISTER]>
                (<[Z.to_nat (ic s + 1) := Z.lor (Z.shiftl i SRC_REG_SHIFT) (Z.shiftl j DST_SHIFT)]>
                   ((ins_set s ++ [0]) ++ [Z.shiftl i SRC_REG_SHIFT])))
             (set_saved e3 (set_was_reg false (set_ic (ic s + 2) s))))
    as (s' & -> & ->).
  { eexists. split.
    - unfold handle_two_prms. unfold bind at 1.
      rewrite add_ins_room by (unfold MEM_AVAIL_WORDS in *; lia).
      change (0 =? FATAL_ERROR) with false. cbv iota.
      unfold bind at 1. unfold gets at 1.
      unfold bind at 1. erewrite strtok_at by (destruct s; exact H1).
      rewrite Hop. unfold bind at 1.
      rewrite source_register;
        [|done|reflexivity|destruct s; simpl in *; unfold MEM_AVAIL_WORDS in *; lia].
      change (DIRECT_REGISTER =? FATAL_ERROR) with false.
      change (DIRECT_REGISTER =? ERROR_OCCURRED) with false. cbv iota.
      unfold bind at 1. erewrite strtok_at by (destruct s; exact H2).
      unfold bind at 1.
      erewrite destination_register_shared with (w := Z.shiftl i SRC_REG_SHIFT);
        [|done|by destruct (negb _)|by destruct s| ].
      2:{ destruct s; simpl in *. apply list_lookup_middle.
          rewrite length_app; simpl. lia. }
      change (DIRECT_REGISTER =? FATAL_ERROR) with false.
      change (DIRECT_REGISTER =? ERROR_OCCURRED) with false. cbv iota.
      unfold bind at 1. unfold modify at 1.
      unfold bind at 1. erewrite strtok_at by (destruct s; exact H3).
      unfold bind, store_ins, modify, ret. reflexivity.
    - destruct_state s; setters.
      replace (ic0 + 1 + 1 - 1) with (ic0 + 1) by lia.
      replace (ic0 + 1 - 1) with ic0 by lia.
      replace (ic0 + 1 + 1) with (ic0 + 2) by lia. reflexivity. }
  destruct s as [? ? ic0 ? ? ? ? ins ? ? ? ? ?]; setters.
  repeat split; try lia.
  replace (Z.to_nat (ic0 + 1)) with (length (ins ++ [0%Z]) + 0)%nat
    by (rewrite length_app; simpl; lia).
  rewrite insert_app_r. simpl. rewrite <- app_assoc. simpl.
  replace (Z.to_nat ic0) with (length ins + 0)%nat by lia.
  rewrite insert_app_r. reflexivity.
Qed.

Lemma mov_state_images : images_ok mov_state.
Proof. unfold images_ok, MEM_AVAIL_WORDS; simpl. lia. Qed.

Lemma C4_registers_share_a_word_witness :
  strtok_from COMMA_SPACES (saved mov_state) = (Some (register 3), " r5" +:+ nl)
  ∧ ins_set (handle_two_prms ("r3, r5" +:+ nl) MOV mov_state).2 = [60; 212].
Proof.
  split; [reflexivity|].
  apply (proj2 (proj2 (proj2 C4_registers_share_a_word))
           ("r3, r5" +:+ nl) MOV 3 5 mov_state (" r5" +:+ nl) EmptyString EmptyString).
  - reflexivity.
  - lia.
  - lia.
  - exact mov_state_images.
  - unfold MEM_AVAIL_WORDS; simpl; lia.
  - reflexivity.
  - reflexivity.
  - reflexivity.
Defined.

(** ** The [.mat] directive *)

Lemma with_data_with_data ws1 ws2 p1 p2 s :
  with_data ws2 p2 (with_data ws1 p1 s) = with_data (ws1 ++ ws2) p2 s.
Proof.
  unfold with_data. destruct s; setters. rewrite length_app, <- app_assoc.
  fields.
Qed.

Lemma with_data_counters ws p s :
  ic (with_data ws p s) = ic s ∧ dc (with_data ws p s) = dc s + Z.of_nat (length ws)
  ∧ saved (with_data ws p s) = p.
Proof. by destruct s. Qed.

Lemma is_valid_num_data t v s : valid_data t v → is_valid_num t DATA s = (v, s).
Proof.
  intros [Hparse Hrange]. unfold is_valid_num.
  destruct (strtol t) as [[num ptr] c]. simpl in Hparse. injection Hparse as -> ->.
  unfold MIN_NUM_D, MAX_NUM_D in *.
  destruct (v >? 511) eqn:H1; [lia|]. destruct (v <? -512) eqn:H2; [lia|]. done.
Qed.

Lemma valid_data_not_INT_MIN t v : valid_data t v → (v =? INT_MIN) = false.
Proof. intros [_ H]. unfold MIN_NUM_D, INT_MIN in *. lia. Qed.

Lemma check_mat_def_success d k r c s rows cols :
  (check_mat_def d k r c s).1 = (0, rows, cols) →
  check_mat_def d k r c s = (0, rows, cols, s) ∧ 0 ≤ rows ≤ INT_MAX ∧ 0 ≤ cols ≤ INT_MAX.
Proof.
  unfold check_mat_def, bind, report, report_error_pass, gets, modify, ret.
  repeat (first
    [ match goal with
      | |- context [strtol ?x] => destruct (strtol x) as [[? ?] ?]
      | |- context [if ?b then _ else _] => destruct b eqn:?
      | |- context [match ?x with _ => _ end] => destruct x eqn:?
      end
    | progress simpl ]);
  intros Hres; unfold ERROR_OCCURRED in Hres; simplify_eq.
  all: split; [done|]; zbool; lia.
Qed.

Lemma commas_loop_success rest : ∀ a e w s,
  (commas_loop a e w rest s).1 = true → commas_loop a e w rest s = (true, s).
Proof.
  induction rest as [|ch r IH]; intros a e w s; simpl.
  - destruct (negb e); [done|]. done.
  - repeat (match goal with
            | |- context [if ?b then _ else _] => destruct b eqn:?
            end); try apply IH; done.
Qed.

Lemma is_valid_commas_success rest s :
  (is_valid_commas rest s).1 = true → is_valid_commas rest s = (true, s).
Proof. destruct rest; [done|]. apply commas_loop_success. Qed.

Lemma mat_loop_values toks : ∀ vs n s,
  Forall2 valid_data toks.*1 vs →
  Z.of_nat (length vs) ≤ n →
  ic s + dc s + Z.of_nat (length vs) ≤ MEM_AVAIL_WORDS →
  mat_loop toks n s = (inr (None, n - Z.of_nat (length vs)), with_data vs EmptyString s).
Proof.
  induction toks as [|[t e] toks IH]; intros vs n s Hvalid Hn Hroom.
  - inversion Hvalid; subst. simpl. unfold bind, modify, ret, with_data.
    destruct s; setters. rewrite app_nil_r. simpl length. fields.
  - inversion Hvalid as [|? v ? vs' Hv Hrest]; subst. simpl in *.
    unfold bind at 1. unfold modify at 1.
    destruct (n >? 0) eqn:Hpos; [|lia].
    unfold bind at 1. rewrite (is_valid_num_data _ _ _ Hv), (valid_data_not_INT_MIN _ _ Hv).
    unfold bind at 1. rewrite add_data_room by (destruct s; setters; unfold MEM_AVAIL_WORDS in *; lia).
    change (0 =? FATAL_ERROR) with false. cbv iota.
    rewrite (IH vs' (n - 1)); [|done|lia|destruct s; setters; lia].
    unfold with_data. destruct s; setters. rewrite <- app_assoc. simpl.
    fields.
Qed.

Lemma mat_loop_overflow toks : ∀ vs n s,
  Forall2 valid_data toks.*1 vs →
  0 ≤ n < Z.of_nat (length vs) →
  ic s + dc s + n ≤ MEM_AVAIL_WORDS →
  ∃ t p, mat_loop toks n s = (inr (Some t, 0), with_data (take (Z.to_nat n) vs) p s).
Proof.
  induction toks as [|[t e] toks IH]; intros vs n s Hvalid Hn Hroom.
  - inversion Hvalid; subst. simpl in *. lia.
  - inversion Hvalid as [|? v ? vs' Hv Hrest]; subst. simpl in *.
    unfold bind at 1. unfold modify at 1.
    destruct (n >? 0) eqn:Hpos.
    + unfold bind at 1.
      rewrite (is_valid_num_data _ _ _ Hv), (valid_data_not_INT_MIN _ _ Hv).
      unfold bind at 1.
      rewrite add_data_room by (destruct s; setters; unfold MEM_AVAIL_WORDS in *; lia).
      change (0 =? FATAL_ERROR) with false. cbv iota.
      destruct (IH vs' (n - 1) (set_dataset (dataset (set_saved e s) ++ [v])
                  (set_dc (dc (set_saved e s) + 1) (set_saved e s))))
        as (t' & p & ->); [done|lia|destruct s; setters; lia|].
      exists t', p.
      replace (Z.to_nat n) with (S (Z.to_nat (n - 1))) by lia. simpl.
      unfold with_data. destruct s; setters. rewrite <- app_assoc. simpl.
      fields.
    + exists t, e. assert (n = 0) as -> by lia. simpl.
      unfold ret, with_data. destruct s; setters. rewrite app_nil_r.
      fields.
Qed.

Lemma zero_fill_zeros m : ∀ s,
  ic s + dc s + Z.of_nat m ≤ MEM_AVAIL_WORDS →
  zero_fill m s = (0, with_data (replicate m 0) (saved s) s).
Proof.
  induction m as [|m IH]; intros s Hroom; simpl.
  - unfold ret, with_data. destruct s; setters. rewrite app_nil_r. fields.
  - unfold bind. rewrite add_data_room by (unfold MEM_AVAIL_WORDS in *; lia).
    change (0 =? FATAL_ERROR) with false. cbv iota.
    rewrite IH by (destruct s; setters; lia).
    unfold with_data. destruct s; setters. rewrite <- app_assoc. simpl.
    rewrite length_replicate. fields.
Qed.

Lemma int_wrap_small v : 0 ≤ v ≤ INT_MAX → int_wrap v = v.
Proof.
  unfold int_wrap, INT_MAX. intros Hv.
  rewrite Z.mod_small by lia. lia.
Qed.

(** X26. The [.mat] directive with the values after the dimensions
    and white space, no comma between the two.  The line
    [M: .mat [2][3] 1, 2, 3] adds [1,2,3,0,0,0] to the data image and
    enters [M] as a data symbol at the value [dc] had before the line (0
    in an empty file, 2 after two data words).  In general, for a
    directive whose definition [[rows][cols]] is accepted, with
    [rows * cols] positive and within the free memory, whose parameters
    pass the comma check and are the [k] valid integers [vs]: when
    [k <= rows * cols] the data image gains [vs] followed by
    [rows * cols - k] zeros, [dc] grows by [rows * cols] and no error is
    recorded; when [k > rows * cols] the data image gains the first
    [rows * cols] values, [dc] grows by [rows * cols], the error flag is
    set and the overflow of the matrix is reported at the current
    line. *)
Theorem X26_matrix_directive :
  (let r := run_lines [] ("M: .mat [2][3] 1, 2, 3" +:+ nl) false in
   dataset r.2 = [1; 2; 3; 0; 0; 0] ∧ dc r.2 = 6
   ∧ label_set r.2 = [mkLabel "M" 0 DATA REGULAR] ∧ error r.2 = false)
  ∧ (let r := run_lines [] (".data 7, 8" +:+ nl +:+ "M: .mat [2][3] 1, 2, 3" +:+ nl) false in
     dataset r.2 = [7; 8; 1; 2; 3; 0; 0; 0] ∧ dc r.2 = 8
     ∧ label_set r.2 = [mkLabel "M" 2 DATA REGULAR] ∧ error r.2 = false)
  ∧ ∀ (rest : string) (s : pass_state) (rows cols : Z) (vs : list Z),
      let mat_def := copy_first_word rest (WORD_LEN + 1) in
      let params := delete_white (advance (String.length mat_def) rest) in
      let toks := tokens COMMA_SPACES (strtok_from SPACES (saved s)).2 in
      let k := Z.of_nat (length vs) in
      images_ok s →
      (check_mat_def mat_def DATA 0 0 s).1 = (0, rows, cols) →
      0 < rows * cols →
      ic s + dc s + rows * cols ≤ MEM_AVAIL_WORDS →
      (is_valid_commas params s).1 = true →
      Forall2 valid_data toks.*1 vs →
      let r := mat_cmd rest s in
      0 ≤ rows ∧ 0 ≤ cols ∧ r.1 = 0
      ∧ ic r.2 = ic s ∧ ins_set r.2 = ins_set s ∧ label_set r.2 = label_set s
      ∧ (k ≤ rows * cols →
         dataset r.2 = dataset s ++ vs ++ replicate (Z.to_nat (rows * cols - k)) 0
         ∧ dc r.2 = dc s + rows * cols
         ∧ error r.2 = error s ∧ stderr r.2 = stderr s)
      ∧ (rows * cols < k →
         dataset r.2 = dataset s ++ take (Z.to_nat (rows * cols)) vs
         ∧ dc r.2 = dc s + rows * cols
         ∧ error r.2 = true
         ∧ stderr r.2 = stderr s ++ [(line_count s, matrix_overflow)]).
Proof.
  split; [vm_compute; done|]. split; [vm_compute; done|].
  intros rest s rows cols vs mat_def params toks k Hok Hdef Hpos Hroom Hcommas Hvalid r.
  apply check_mat_def_success in Hdef as (Hdef & Hrows & Hcols).
  apply is_valid_commas_success in Hcommas.
  destruct Hok as (Hic & Hdc & _).
  assert (int_wrap (rows * cols) = rows * cols) as Hwrap.
  { apply int_wrap_small. unfold MEM_AVAIL_WORDS, INT_MAX in *. lia. }
  assert (mat_cmd rest s =
            (let* out := mat_loop toks (rows * cols) in
             match out with
             | inl code => ret code
             | inr (Some _, _) => raise ;; report matrix_overflow ;; ret 0
             | inr (None, mat_size) =>
                 if mat_size >? 0 then zero_fill (Z.to_nat mat_size) else ret 0
             end) (set_saved (strtok_from SPACES (saved s)).2 s)) as Hcmd.
  { unfold mat_cmd. fold mat_def. unfold bind at 1. rewrite Hdef.
    change (0 =? ERROR_OCCURRED) with false. cbv iota. rewrite Hwrap.
    destruct (rows * cols =? 0) eqn:Hz; [lia|].
    fold params. unfold bind at 1. rewrite Hcommas. cbn [negb]. cbv beta iota.
    unfold bind at 1. unfold strtok at 1.
    destruct (strtok_from SPACES (saved s)) as [t0 p] eqn:Htok.
    cbv beta iota. unfold bind at 1. unfold gets at 1. cbv beta iota.
    cbn [snd]. replace (saved (set_saved p s)) with p by (by destruct s).
    reflexivity. }
  set (s1 := set_saved (strtok_from SPACES (saved s)).2 s) in Hcmd.
  assert (ic s1 = ic s ∧ dc s1 = dc s) as [Hic1 Hdc1] by (by destruct s).
  split; [lia|]. split; [lia|].
  destruct (Z_le_gt_dec k (rows * cols)) as [Hk|Hk].
  - assert (r = (0, with_data (vs ++ replicate (Z.to_nat (rows * cols - k)) 0)
                      EmptyString s)) as ->.
    { subst r. rewrite Hcmd. unfold bind at 1.
      rewrite (mat_loop_values toks vs (rows * cols) s1); [|done|done|fold k; lia].
      fold k. destruct (rows * cols - k >? 0) eqn:Hleft.
      - destruct (with_data_counters vs EmptyString s1) as (Hic2 & Hdc2 & Hsaved2).
        rewrite zero_fill_zeros by (rewrite Hic2, Hdc2, Hic1, Hdc1; subst k; lia).
        rewrite Hsaved2.
        subst s1. unfold with_data. destruct s; setters.
        rewrite length_app, <- app_assoc. fields.
      - replace (Z.to_nat (rows * cols - k)) with O by lia. simpl.
        subst s1. unfold ret, with_data. destruct s; setters.
        rewrite app_nil_r. reflexivity. }
    unfold with_data. destruct s; setters.
    repeat split; try done; try lia.
    rewrite length_app, length_replicate. subst k. lia.
  - destruct (mat_loop_overflow toks vs (rows * cols) s1) as (t & p & Hloop);
      [done|fold k; lia|lia|].
    assert (r = (0, set_stderr (stderr s ++ [(line_count s, matrix_overflow)])
                      (set_error true (with_data (take (Z.to_nat (rows * cols)) vs) p s))))
      as ->.
    { subst r. rewrite Hcmd. unfold bind at 1. rewrite Hloop.
      unfold bind, raise, report, report_error_pass, gets, modify, ret, with_data.
      subst s1. destruct s; setters. reflexivity. }
    unfold with_data. destruct s; setters.
    repeat split; try done; try lia.
    rewrite length_take. subst k. lia.
Qed.

Lemma X26_matrix_directive_witness :
  (check_mat_def "[2][3]" DATA 0 0 mat_state).1 = (0, 2, 3)
  ∧ Forall2 valid_data ["1"; "2"; "3"] [1; 2; 3]
  ∧ dataset (mat_cmd ("[2][3] 1, 2, 3" +:+ nl) mat_state).2 = [1; 2; 3; 0; 0; 0]
  ∧ dc (mat_cmd ("[2][3] 1, 2, 3" +:+ nl) mat_state).2 = 6.
Proof.
  assert (images_ok mat_state) as Hok
    by (unfold images_ok, MEM_AVAIL_WORDS; simpl; lia).
  assert (Forall2 valid_data ["1"; "2"; "3"] [1; 2; 3]) as Hvalid
    by (repeat constructor; unfold MIN_NUM_D, MAX_NUM_D; lia).
  split; [reflexivity|]. split; [exact Hvalid|].
  destruct (proj2 (proj2 X26_matrix_directive) ("[2][3] 1, 2, 3" +:+ nl) mat_state
              2 3 [1; 2; 3] Hok eq_refl eq_refl
              ltac:(unfold MEM_AVAIL_WORDS; simpl; lia) eq_refl Hvalid)
    as (_ & _ & _ & _ & _ & _ & Hfit & _).
  destruct (Hfit ltac:(simpl; lia)) as (Hdata & Hdc & _).
  split; [exact Hdata|exact Hdc].
Defined.

(** ** The symbol table *)

(** C3.  The claim fails on the code.  After [.entry K], [.entry B] and
    then the definition [B: stop], the slot that [add_label] finalizes is
    the one of [K], the first of unknown kind in the table, and the slot of
    [B] stays unknown: [K] becomes an instruction symbol at address 0 and
    [B] is reported as undefined at its line 2.  Names are not kept unique
    either: after [A: stop], a line [L: .] that leaves [label_flag] set, a
    rejected second [A: stop] and a line [stop], the table holds [A]
    twice. *)
Theorem C3_first_unknown_slot_finalized :
  (let s := run_pass [] (".entry K" +:+ nl +:+ ".entry B" +:+ nl +:+ "B: stop" +:+ nl) false in
   label_set s = [mkLabel "K" 0 INS ENTRY; mkLabel "B" 2 UNKNOWN_LABEL_TYPE ENTRY]
   ∧ stderr s = [(2, undefined_entry)])
  ∧ (let s := run_pass [] ("A: stop" +:+ nl +:+ "L: ." +:+ nl +:+ "A: stop" +:+ nl
                           +:+ "stop" +:+ nl) false in
     label_set s = [mkLabel "A" 0 INS REGULAR; mkLabel "A" 1 INS ENTRY])
  ∧ ∀ (k : kind) (d i : Z) (l : Label) (r : list Label),
      l_data_or_ins l = UNKNOWN_LABEL_TYPE → k ≠ UNKNOWN_LABEL_TYPE →
      ∃ l', finalize k d i (l :: r) = Some (l' :: r)
            ∧ l_name l' = l_name l ∧ l_data_or_ins l' = k.
Proof.
  split; [vm_compute; done|]. split; [vm_compute; done|].
  intros k d i l r Hl Hk. simpl. rewrite decide_True by done.
  eexists. split; [reflexivity|]. done.
Qed.

Lemma C3_first_unknown_slot_finalized_witness :
  ∃ l', finalize INS 0 0 [mkLabel "K" 1 UNKNOWN_LABEL_TYPE ENTRY;
                          mkLabel "B" 2 UNKNOWN_LABEL_TYPE ENTRY]
        = Some [l'; mkLabel "B" 2 UNKNOWN_LABEL_TYPE ENTRY]
        ∧ l_name l' = "K" ∧ l_data_or_ins l' = INS.
Proof.
  apply (proj2 (proj2 C3_first_unknown_slot_finalized) INS 0 0
           (mkLabel "K" 1 UNKNOWN_LABEL_TYPE ENTRY)
           [mkLabel "B" 2 UNKNOWN_LABEL_TYPE ENTRY]).
  - reflexivity.
  - discriminate.
Defined.

(** C9.  The claim fails on the code for a declaration beyond line 255.
    The slot of an undefined [.entry] keeps [line_count] cut to eight
    bits; for [.entry K] on line 300 of a file the slot holds 44 and the
    error is reported at line 44. *)
Theorem C9_entry_line_cut_to_eight_bits :
  (∀ (s : pass_state) (nm : string),
     l_address (new_label s nm UNKNOWN_LABEL_TYPE ENTRY) = line_count s mod 256)
  ∧ (let r := run_lines [] (blank_lines 299 +:+ ".entry K" +:+ nl) false in
     line_count r.2 = 300
     ∧ label_set r.2 = [mkLabel "K" 44 UNKNOWN_LABEL_TYPE ENTRY]
     ∧ stderr (report_undefined (label_set r.2) r.2).2 = [(44, undefined_entry)]).
Proof.
  split; [done|]. vm_compute. done.
Qed.

(** ** Strings and paths *)

Lemma string_app_cons c a b : String c a +:+ b = String c (a +:+ b).
Proof. reflexivity. Qed.

Lemma string_length_app a b :
  String.length (a +:+ b) = (String.length a + String.length b)%nat.
Proof.
  induction a as [|c a IH]; [done|].
  rewrite string_app_cons. simpl. by rewrite IH.
Qed.

Lemma string_app_assoc a b c : (a +:+ b) +:+ c = a +:+ (b +:+ c).
Proof.
  induction a as [|ch a IH]; [done|].
  rewrite !string_app_cons. by rewrite IH.
Qed.

Lemma string_app_inj a b c : a +:+ b = a +:+ c → b = c.
Proof.
  induction a as [|ch a IH]; [done|].
  rewrite !string_app_cons. intros [= H]. by apply IH.
Qed.

Lemma substring_whole s : ∀ n, (String.length s ≤ n)%nat → String.substring 0 n s = s.
Proof.
  induction s as [|c s IH]; intros [|n] Hn; simpl in *; try done; try lia.
  rewrite IH by lia. done.
Qed.

Lemma path_of_short basename extension :
  (String.length basename + 1 + String.length extension < 512)%nat →
  path_of basename extension = basename +:+ "." +:+ extension.
Proof.
  intros Hlen. unfold path_of, build_path.
  rewrite substring_whole by lia.
  assert ((String.length basename + 1 <? 512)%nat = true) as ->
    by (apply Nat.ltb_lt; lia).
  rewrite string_length_app. simpl String.length.
  assert ((String.length basename + 1 + String.length extension <? 512)%nat = true)
    as -> by (apply Nat.ltb_lt; lia).
  apply string_app_assoc.
Qed.

(** The three output paths of a basename that leaves room for an extension. *)
Lemma paths_distinct basename :
  (String.length basename < 508)%nat →
  path_of basename "ob" ≠ path_of basename "ent"
  ∧ path_of basename "ob" ≠ path_of basename "ext"
  ∧ path_of basename "ent" ≠ path_of basename "ext".
Proof.
  intros Hlen. rewrite !path_of_short by (simpl; lia).
  repeat split; intros H; apply string_app_inj in H; discriminate.
Qed.

(** ** Base-4 digits *)

Lemma to_base4_addr_value v :
  0 ≤ v < 256 →
  String.length (to_base4_addr v) = 4%nat ∧ base4_value 0 (to_base4_addr v) = v.
Proof.
  intros Hv.
  assert (forallb (λ v, (String.length (to_base4_addr v) =? 4)%nat
                        && (base4_value 0 (to_base4_addr v) =? v)) (seqZ 0 256) = true)
    as Hall by (vm_compute; reflexivity).
  rewrite forallb_forall in Hall.
  assert (In v (seqZ 0 256)) as Hin by (apply list_elem_of_In, elem_of_seqZ; lia).
  apply Hall in Hin. apply andb_prop in Hin as [H1 H2].
  apply Nat.eqb_eq in H1. apply Z.eqb_eq in H2. done.
Qed.

Lemma to_base4_word_value w :
  0 ≤ w < 1024 →
  String.length (to_base4_word w) = 5%nat ∧ base4_value 0 (to_base4_word w) = w.
Proof.
  intros Hw.
  assert (forallb (λ w, (String.length (to_base4_word w) =? 5)%nat
                        && (base4_value 0 (to_base4_word w) =? w)) (seqZ 0 1024) = true)
    as Hall by (vm_compute; reflexivity).
  rewrite forallb_forall in Hall.
  assert (In w (seqZ 0 1024)) as Hin by (apply list_elem_of_In, elem_of_seqZ; lia).
  apply Hall in Hin. apply andb_prop in Hin as [H1 H2].
  apply Nat.eqb_eq in H1. apply Z.eqb_eq in H2. done.
Qed.

(** ** The word of an external reference *)

Lemma external_word_bits w : Z.land (Z.lor (Z.land w (Z.lnot 1023)) 1) 1023 = 1.
Proof.
  rewrite Z.land_lor_distr_l, <- Z.land_assoc.
  replace (Z.land (Z.lnot 1023) 1023) with 0 by reflexivity.
  rewrite Z.land_0_r. reflexivity.
Qed.

(** ** Files opened on first use *)

Lemma write_line_open can_open basename extension stream lbl address files0 d0 lines :
  let path := path_of basename extension in
  let line := lbl +:+ " " +:+ to_base4_addr address +:+ nl in
  lazily_written path stream d0 (disk files0) lines →
  is_Some stream ∨ can_open path = true →
  ∃ files1,
    write_line can_open basename extension stream lbl address files0
    = (0, Some path, files1)
    ∧ lazily_written path (Some path) d0 (disk files1) (lines ++ [line])
    ∧ open_files files1
      = (if stream is Some _ then [] else [path]) ++ open_files files0.
Proof.
  intros path line Hlazy Hopen. unfold write_line, fopen_w. fold path.
  destruct stream as [p|]; simpl in Hlazy.
  - destruct Hlazy as [-> Hdisk]. eexists. split; [reflexivity|].
    simpl. rewrite Hdisk, alter_insert_eq. done.
  - destruct Hlazy as [-> Hdisk]. destruct Hopen as [[q Hq]|Hc]; [discriminate|].
    rewrite Hc. eexists. split; [reflexivity|].
    simpl. rewrite Hdisk, alter_insert_eq. done.
Qed.

Lemma write_line_closed can_open basename extension lbl address files0 :
  can_open (path_of basename extension) = false →
  write_line can_open basename extension None lbl address files0 = (1, None, files0).
Proof. intros H. unfold write_line, fopen_w. by rewrite H. Qed.

(** ** Resolution of the pending references *)

Lemma patch_internal can_open basename index lab ic_final s :
  l_ent_or_ext lab ≠ EXTERNAL →
  patch_word_with_label can_open basename index lab ic_final s
  = (0, with_image (<[Z.to_nat index :=
                       patched_word lab ic_final (default 0 (image s !! Z.to_nat index))]>
                      (image s))
          (if abs_address lab ic_final >? ADDR_VALUE_MAX then with_had_error true s else s)).
Proof.
  intros Hint. unfold patch_word_with_label, patched_word.
  rewrite bool_decide_false by done. cbn [negb andb].
  destruct (abs_address lab ic_final >? ADDR_VALUE_MAX); reflexivity.
Qed.

Lemma patch_external can_open basename index lab ic_final s d0 lines :
  let path := path_of basename "ext" in
  l_ent_or_ext lab = EXTERNAL →
  lazily_written path (ext s) d0 (disk (fs s)) lines →
  is_Some (ext s) ∨ can_open path = true →
  ∃ files1,
    patch_word_with_label can_open basename index lab ic_final s
    = (0, with_image (<[Z.to_nat index :=
                         patched_word lab ic_final (default 0 (image s !! Z.to_nat index))]>
                        (image s))
            (with_fs files1 (with_ext (Some path) s)))
    ∧ lazily_written path (Some path) d0 (disk files1)
        (lines ++ [ext_line (l_name lab) index])
    ∧ open_files files1
      = (if ext s is Some _ then [] else [path]) ++ open_files (fs s).
Proof.
  intros path Hext Hlazy Hopen.
  destruct (write_line_open can_open basename "ext" (ext s) (l_name lab)
              (ORG_ADDRESS + index) (fs s) d0 lines Hlazy Hopen)
    as (files1 & Hwrite & Hlazy1 & Hopen1).
  exists files1. split; [|done].
  unfold patch_word_with_label, patched_word, write_external.
  rewrite bool_decide_true by done. cbn [negb andb].
  rewrite Hwrite. reflexivity.
Qed.

Lemma patch_external_closed can_open basename index lab ic_final s :
  l_ent_or_ext lab = EXTERNAL → ext s = None →
  can_open (path_of basename "ext") = false →
  (patch_word_with_label can_open basename index lab ic_final s).1 = 1.
Proof.
  intros Hext Hnone Hclosed. unfold patch_word_with_label, write_external.
  rewrite bool_decide_true by done. cbn [negb andb].
  rewrite Hnone, write_line_closed by done. reflexivity.
Qed.

Lemma resolve_pending_ok can_open basename labels ic_final : ∀ pending s d0 lines,
  let path := path_of basename "ext" in
  lazily_written path (ext s) d0 (disk (fs s)) lines →
  is_Some (ext s) ∨ can_open path = true ∨ external_uses labels pending = [] →
  ∃ s', resolve_pending can_open basename pending labels ic_final s = (0, s')
    ∧ lazily_written path (ext s') d0 (disk (fs s'))
        (lines ++ external_uses labels pending)
    ∧ had_error s' = had_error s || existsb (pending_error labels ic_final) pending
    ∧ image s' = patched labels ic_final pending (image s)
    ∧ ob s' = ob s ∧ ent s' = ent s
    ∧ open_files (fs s') = newly_opened (ext s) (ext s') ++ open_files (fs s)
    ∧ undefined s' = undefined s ++ undefined_uses labels pending
    ∧ (ext s = None → external_uses labels pending = [] → ext s' = None).
Proof.
  intros pending. induction pending as [|pen r IH]; intros s d0 lines path Hlazy Hopen.
  - exists s. simpl. rewrite !app_nil_r, orb_false_r.
    repeat split; try done. by destruct (ext s).
  - simpl. unfold external_uses, undefined_uses, external_use, pending_error in *.
    simpl in *. destruct (find_label labels (label_p_name pen)) as [lab|] eqn:Hfind.
    + destruct (decide (l_ent_or_ext lab = EXTERNAL)) as [Hext|Hint].
      * rewrite bool_decide_true in * by done.
        destruct (patch_external can_open basename (ic_index pen) lab ic_final s d0 lines
                    Hext Hlazy) as (files1 & -> & Hlazy1 & Hopen1).
        { destruct Hopen as [?|[?|?]]; [by left|by right|done]. }
        cbn [negb Z.eqb]. cbv iota.
        destruct (IH (with_image
                        (<[Z.to_nat (ic_index pen) :=
                            patched_word lab ic_final
                              (default 0 (image s !! Z.to_nat (ic_index pen)))]> (image s))
                        (with_fs files1 (with_ext (Some (path_of basename "ext")) s)))
                    d0 (lines ++ [ext_line (l_name lab) (ic_index pen)]))
          as (s' & -> & Hlazy' & Herr' & Himg' & Hob' & Hent' & Hopen' & Hundef' & Hstay');
          [done|left; by eexists|].
        exists s'. simpl in *. rewrite <- app_assoc in Hlazy'.
        repeat split; try done.
        rewrite Hopen', Hopen1.
        destruct (ext s') as [p'|].
        { destruct Hlazy' as [-> _]. by destruct (ext s). }
        destruct Hlazy' as [Hnil _]. by destruct lines.
      * rewrite bool_decide_false in * by done.
        rewrite patch_internal by done. cbn [negb Z.eqb]. cbv iota.
        destruct (IH (with_image
                        (<[Z.to_nat (ic_index pen) :=
                            patched_word lab ic_final
                              (default 0 (image s !! Z.to_nat (ic_index pen)))]> (image s))
                        (if abs_address lab ic_final >? ADDR_VALUE_MAX
                         then with_had_error true s else s))
                    d0 lines)
          as (s' & -> & Hlazy' & Herr' & Himg' & Hob' & Hent' & Hopen' & Hundef' & Hstay');
          [by destruct (_ >? _)|by destruct (_ >? _)|].
        exists s'. cbn [negb andb].
        destruct (abs_address lab ic_final >? ADDR_VALUE_MAX); simpl in *;
          repeat split; try done.
        by rewrite orb_true_r.
    + destruct (IH (with_had_error true
                      (with_undefined
                         (undefined s ++ [(label_p_name pen, line_number_use pen)]) s))
                  d0 lines)
        as (s' & -> & Hlazy' & Herr' & Himg' & Hob' & Hent' & Hopen' & Hundef' & Hstay');
        [done|done|].
      exists s'. simpl in *. rewrite <- app_assoc in Hundef'.
      repeat split; try done. by rewrite orb_true_r.
Qed.

Lemma resolve_pending_fatal can_open basename labels ic_final : ∀ pending s,
  ext s = None → can_open (path_of basename "ext") = false →
  external_uses labels pending ≠ [] →
  (resolve_pending can_open basename pending labels ic_final s).1 = 1.
Proof.
  intros pending. induction pending as [|pen r IH]; intros s Hnone Hclosed Huses; [done|].
  simpl. unfold external_uses, external_use in *. simpl in Huses.
  destruct (find_label labels (label_p_name pen)) as [lab|] eqn:Hfind.
  - destruct (decide (l_ent_or_ext lab = EXTERNAL)) as [Hext|Hint].
    + pose proof (patch_external_closed can_open basename (ic_index pen) lab ic_final s
                    Hext Hnone Hclosed) as Hpatch.
      destruct (patch_word_with_label _ _ _ _ _ _) as [res s1]. simpl in Hpatch.
      subst res. reflexivity.
    + rewrite bool_decide_false in Huses by done.
      rewrite patch_internal by done. cbn [negb Z.eqb]. cbv iota.
      apply IH; [by destruct (_ >? _)|done|done].
  - apply IH; done.
Qed.

(** ** The body of the object file *)

Lemma emit_words_lines p origin words count files0 :
  emit_words (Some p) origin words count files0
  = mkFiles (alter (λ written, written ++ ob_lines origin words count) p (disk files0))
      (open_files files0).
Proof.
  unfold emit_words, ob_lines.
  induction (Z.to_nat count) as [|n IH].
  - simpl. destruct files0 as [d o]. simpl. f_equal.
    rewrite <- (alter_id (λ written, written ++ []) d p) at 1; [done|].
    intros x _. apply app_nil_r.
  - rewrite seq_S, foldl_app, IH. simpl. unfold fprintf. simpl. f_equal.
    rewrite alter_alter_eq. apply alter_ext. intros x _. simpl.
    rewrite fmap_app, app_assoc. reflexivity.
Qed.

(** ** The entry file *)

Lemma flush_all_entries_open can_open basename ic_final : ∀ labels s d0 lines,
  let path := path_of basename "ent" in
  lazily_written path (ent s) d0 (disk (fs s)) lines →
  is_Some (ent s) ∨ can_open path = true →
  let s' := flush_all_entries can_open basename labels ic_final s in
  lazily_written path (ent s') d0 (disk (fs s'))
    (lines ++ entries_written labels ic_final)
  ∧ had_error s' = had_error s ∧ ob s' = ob s ∧ ext s' = ext s
  ∧ image s' = image s ∧ undefined s' = undefined s
  ∧ open_files (fs s') = newly_opened (ent s) (ent s') ++ open_files (fs s)
  ∧ (ent s = None → entries_written labels ic_final = [] → ent s' = None).
Proof.
  intros labels. induction labels as [|l r IH]; intros s d0 lines path Hlazy Hopen.
  - simpl. unfold entries_written. simpl. rewrite app_nil_r.
    repeat split; try done. by destruct (ent s).
  - simpl. unfold entries_written, is_entry. rewrite filter_cons. simpl.
    destruct (decide (l_ent_or_ext l = ENTRY)) as [Hentry|Hother].
    + rewrite bool_decide_true by done. rewrite decide_True by done.
      destruct (write_line_open can_open basename "ent" (ent s) (l_name l)
                  (abs_address l ic_final) (fs s) d0 lines Hlazy Hopen)
        as (files1 & Hwrite & Hlazy1 & Hopen1).
      unfold write_entry. rewrite Hwrite. cbn [negb Z.eqb]. cbv iota.
      destruct (IH (with_fs files1 (with_ent (Some (path_of basename "ent")) s))
                  d0 (lines ++ [ent_line ic_final l]) Hlazy1 ltac:(left; by eexists))
        as (Hlazy' & Herr' & Hob' & Hext' & Himg' & Hundef' & Hopen' & Hstay').
      set (s' := flush_all_entries _ _ _ _ _) in *.
      simpl in *. rewrite <- app_assoc in Hlazy'.
      repeat split; try done.
      rewrite Hopen', Hopen1.
      destruct (ent s') as [p'|].
      * destruct Hlazy' as [-> _]. by destruct (ent s).
      * destruct Hlazy' as [Hnil _]. by destruct lines.
    + rewrite bool_decide_false by done. rewrite decide_False by done.
      apply IH; done.
Qed.

Lemma flush_all_entries_closed can_open basename ic_final : ∀ labels s,
  ent s = None → can_open (path_of basename "ent") = false →
  flush_all_entries can_open basename labels ic_final s
  = if existsb is_entry labels then with_had_error true s else s.
Proof.
  intros labels. induction labels as [|l r IH]; intros s Hnone Hclosed; [done|].
  simpl. unfold is_entry at 1.
  destruct (decide (l_ent_or_ext l = ENTRY)) as [Hentry|Hother].
  - rewrite bool_decide_true by done. unfold write_entry.
    rewrite Hnone, write_line_closed by done. cbn [negb Z.eqb orb]. cbv iota.
    rewrite IH by done.
    assert (with_fs (fs s) (with_ent None s) = s) as ->
      by (destruct s; simpl in *; by subst).
    destruct (existsb is_entry r); [by destruct s|done].
  - rewrite bool_decide_false by done. cbn [orb]. by apply IH.
Qed.

(** ** The end of the second pass *)

Lemma streq_refl p : streq p p = true.
Proof. apply String.eqb_refl. Qed.

Lemma streq_ne p q : p ≠ q → streq p q = false.
Proof. intros H. by apply String.eqb_neq. Qed.

Lemma remove_outputs_absent basename files0 :
  outputs_absent basename (remove_outputs basename files0).
Proof.
  unfold outputs_absent, remove_outputs, remove. simpl.
  repeat split; rewrite !lookup_delete_None; auto.
Qed.

Lemma close_outputs_disk o e x files0 :
  disk (close_outputs o e x files0) = disk files0.
Proof. by destruct o, e, x. Qed.

Lemma remove_outputs_open basename files0 :
  open_files (remove_outputs basename files0) = open_files files0.
Proof. done. Qed.

Lemma close_outputs_open basename d e x open0 :
  (String.length basename < 508)%nat →
  e = None ∨ e = Some (path_of basename "ent") →
  x = None ∨ x = Some (path_of basename "ext") →
  open_files
    (close_outputs (Some (path_of basename "ob")) e x
       (mkFiles d (newly_opened None e ++ newly_opened None x
                   ++ path_of basename "ob" :: open0)))
  = open0.
Proof.
  intros Hlen He Hx. destruct (paths_distinct basename Hlen) as (H1 & H2 & H3).
  destruct He as [->| ->], Hx as [->| ->]; simpl;
    rewrite ?streq_refl, ?(streq_ne _ _ H1), ?(streq_ne _ _ H2), ?(streq_ne _ _ H3);
    simpl; rewrite ?streq_refl, ?(streq_ne _ _ H3); simpl; rewrite ?streq_refl; try done.
Qed.

Lemma second_pass_unfold can_open basename ins_set ic_final dataset dc_final
    labels pending p_error fs0 :
  can_open (path_of basename "ob") = true →
  second_pass can_open basename ins_set ic_final dataset dc_final labels pending
    p_error fs0
  = let ob_path := path_of basename "ob" in
    let s0 := mkPass2 (mkFiles (<[ob_path := [ob_header ic_final dc_final]]> (disk fs0))
                         (ob_path :: open_files fs0))
                (Some ob_path) None None ins_set false [] in
    let '(res, s) := resolve_pending can_open basename pending labels ic_final s0 in
    if negb (res =? 0) then (FATAL_ERROR, p_error, closed_and_removed basename s)
    else
      let s := with_fs (emit_words (ob s) ORG_ADDRESS (image s) ic_final (fs s)) s in
      let s := with_fs (emit_words (ob s) (ORG_ADDRESS + ic_final) dataset dc_final (fs s)) s in
      let s := flush_all_entries can_open basename labels ic_final s in
      if had_error s || p_error then (0, true, closed_and_removed basename s)
      else (0, p_error, with_fs (close_outputs (ob s) (ent s) (ext s) (fs s)) s).
Proof.
  intros Hob. unfold second_pass, open_outputs, fopen_w. rewrite Hob.
  cbn [negb Z.eqb]. cbv iota. unfold fprintf. cbn [disk open_files].
  rewrite alter_insert_eq. reflexivity.
Qed.

Lemma second_pass_closed can_open basename ins_set ic_final dataset dc_final
    labels pending p_error fs0 :
  can_open (path_of basename "ob") = false →
  second_pass can_open basename ins_set ic_final dataset dc_final labels pending
    p_error fs0
  = (FATAL_ERROR, p_error,
     mkPass2 (remove_outputs basename fs0) None None None ins_set false []).
Proof.
  intros Hob. unfold second_pass, open_outputs, fopen_w. rewrite Hob. reflexivity.
Qed.

Lemma entries_written_nil labels ic_final :
  entries_written labels ic_final = [] ↔ existsb is_entry labels = false.
Proof.
  unfold entries_written. induction labels as [|l r IH]; [done|].
  rewrite filter_cons. cbn [existsb]. case_decide as Hl.
  - rewrite Hl. simpl. split; discriminate.
  - apply not_true_is_false in Hl. rewrite Hl. simpl. exact IH.
Qed.

(** What a lazily opened file, closed before, looks like from outside. *)
Lemma lazily_written_lookup path stream d0 d lines :
  lazily_written path stream d0 d lines →
  (stream = None ∨ stream = Some path)
  ∧ (∀ q, q ≠ path → d !! q = d0 !! q)
  ∧ d !! path = (if lines is [] then (if stream is None then d0 !! path else Some [])
                 else Some lines)
  ∧ (stream = None → lines = []).
Proof.
  destruct stream as [p|]; simpl.
  - intros [-> ->]. split; [by right|]. split; [|split; [|done]].
    + intros q Hq. by rewrite lookup_insert_ne.
    + rewrite lookup_insert_eq. by destruct lines.
  - intros [-> ->]. split; [by left|]. done.
Qed.

Lemma flush_all_entries_spec can_open basename ic_final labels s :
  ent s = None →
  let path := path_of basename "ent" in
  let entries := entries_written labels ic_final in
  let s' := flush_all_entries can_open basename labels ic_final s in
  ob s' = ob s ∧ ext s' = ext s ∧ image s' = image s ∧ undefined s' = undefined s
  ∧ had_error s' = had_error s || (existsb is_entry labels && negb (can_open path))
  ∧ (ent s' = None ∨ ent s' = Some path)
  ∧ open_files (fs s') = newly_opened None (ent s') ++ open_files (fs s)
  ∧ (∀ q, q ≠ path → disk (fs s') !! q = disk (fs s) !! q)
  ∧ (existsb is_entry labels && negb (can_open path) = false →
     disk (fs s') !! path = if entries is [] then disk (fs s) !! path else Some entries).
Proof.
  intros Hnone path entries s'. destruct (can_open path) eqn:Hopen.
  - destruct (flush_all_entries_open can_open basename ic_final labels s (disk (fs s)) [])
      as (Hlazy & Herr & Hob & Hext & Himg & Hundef & Hfiles & Hstay);
      [by rewrite Hnone|by right|].
    fold s' in Hlazy, Herr, Hob, Hext, Himg, Hundef, Hfiles, Hstay.
    rewrite Hnone in Hfiles.
    apply lazily_written_lookup in Hlazy as (Hstream & Hother & Hpath & Hempty).
    cbn [app] in Hpath, Hempty. fold entries in Hpath, Hempty, Hstay.
    fold path in Hstream, Hother, Hpath.
    rewrite andb_false_r, orb_false_r.
    repeat split; try done.
    intros _. rewrite Hpath. destruct entries; [|done].
    by rewrite Hstay.
  - subst s'. rewrite flush_all_entries_closed by done.
    rewrite andb_true_r.
    destruct (existsb is_entry labels) eqn:Hany.
    + destruct s; simpl in *. subst. rewrite orb_true_r.
      repeat split; try done; auto.
    + rewrite orb_false_r. rewrite Hnone.
      repeat split; try done; auto.
      intros _. apply (entries_written_nil labels ic_final) in Hany.
      fold entries in Hany. by rewrite Hany.
Qed.

Lemma resolve_pending_spec can_open basename labels ic_final pending s :
  ext s = None →
  let path := path_of basename "ext" in
  let uses := external_uses labels pending in
  can_open path = true ∨ uses = [] →
  ∃ s', resolve_pending can_open basename pending labels ic_final s = (0, s')
    ∧ ob s' = ob s ∧ ent s' = ent s
    ∧ image s' = patched labels ic_final pending (image s)
    ∧ undefined s' = undefined s ++ undefined_uses labels pending
    ∧ had_error s' = had_error s || existsb (pending_error labels ic_final) pending
    ∧ (ext s' = None ∨ ext s' = Some path)
    ∧ open_files (fs s') = newly_opened None (ext s') ++ open_files (fs s)
    ∧ (∀ q, q ≠ path → disk (fs s') !! q = disk (fs s) !! q)
    ∧ disk (fs s') !! path = (if uses is [] then disk (fs s) !! path else Some uses).
Proof.
  intros Hnone path uses Hgood.
  destruct (resolve_pending_ok can_open basename labels ic_final pending s
              (disk (fs s)) [])
    as (s' & Hres & Hlazy & Herr & Himg & Hob & Hent & Hfiles & Hundef & Hstay);
    [by rewrite Hnone|right; exact Hgood|].
  exists s'. rewrite Hnone in Hfiles.
  apply lazily_written_lookup in Hlazy as (Hstream & Hother & Hpath & Hempty).
  cbn [app] in Hpath, Hempty. fold uses in Hpath, Hempty, Hstay.
  fold path in Hstream, Hother, Hpath.
  repeat split; try done.
  rewrite Hpath. destruct uses; [|done]. by rewrite Hstay.
Qed.

Lemma close_outputs_restores basename e x files1 open0 :
  (String.length basename < 508)%nat →
  e = None ∨ e = Some (path_of basename "ent") →
  x = None ∨ x = Some (path_of basename "ext") →
  open_files files1
  = newly_opened None e ++ newly_opened None x ++ path_of basename "ob" :: open0 →
  open_files (close_outputs (Some (path_of basename "ob")) e x files1) = open0.
Proof.
  intros Hlen He Hx Hopen. destruct files1 as [d o]. simpl in Hopen. subst o.
  by apply close_outputs_open.
Qed.

(** The second pass, case by case: a fatal end with the outputs removed,
    or a normal end whose state is told from the inputs. *)
Lemma second_pass_spec can_open basename ins_set ic_final dataset dc_final
    labels pending p_error fs0 :
  (String.length basename < 508)%nat →
  let ob_path := path_of basename "ob" in
  let ent_path := path_of basename "ent" in
  let ext_path := path_of basename "ext" in
  let uses := external_uses labels pending in
  let entries := entries_written labels ic_final in
  let r := second_pass can_open basename ins_set ic_final dataset dc_final labels
             pending p_error fs0 in
  (r.1.1 = FATAL_ERROR ∧ r.1.2 = p_error ∧ outputs_absent basename (fs r.2)
   ∧ (can_open ob_path = false ∨ (can_open ext_path = false ∧ uses ≠ [])))
  ∨ (r.1.1 = 0 ∧ can_open ob_path = true ∧ (can_open ext_path = true ∨ uses = [])
     ∧ open_files (fs r.2) = open_files fs0
     ∧ image r.2 = patched labels ic_final pending ins_set
     ∧ undefined r.2 = undefined_uses labels pending
     ∧ had_error r.2 = pass2_errors can_open basename labels pending ic_final
     ∧ (had_error r.2 || p_error = true →
        r.1.2 = true ∧ outputs_absent basename (fs r.2))
     ∧ (had_error r.2 || p_error = false →
        r.1.2 = false
        ∧ disk (fs r.2) !! ob_path
          = Some (ob_text labels pending ins_set ic_final dataset dc_final)
        ∧ disk (fs r.2) !! ext_path
          = (if uses is [] then disk fs0 !! ext_path else Some uses)
        ∧ disk (fs r.2) !! ent_path
          = (if entries is [] then disk fs0 !! ent_path else Some entries))).
Proof.
  intros Hlen ob_path ent_path ext_path uses entries r.
  destruct (paths_distinct basename Hlen) as (Hoe & Hox & Hex).
  fold ob_path ent_path ext_path in Hoe, Hox, Hex.
  destruct (can_open ob_path) eqn:Hob.
  2:{ left. subst r. rewrite second_pass_closed by done. simpl.
      repeat split; try apply remove_outputs_absent. by left. }
  subst r. rewrite second_pass_unfold by done. cbv zeta. fold ob_path.
  set (s0 := mkPass2 _ _ _ _ _ _ _).
  assert ((can_open ext_path = true ∨ uses = []) ∨ (can_open ext_path = false ∧ uses ≠ []))
    as [Hgood|[Hext Huses]].
  { destruct (can_open ext_path); [by left; left|].
    destruct uses; [by left; right|by right]. }
  2:{ left.
      pose proof (resolve_pending_fatal can_open basename labels ic_final pending s0
                    eq_refl Hext Huses) as Hres.
      destruct (resolve_pending _ _ _ _ _ _) as [res s1]. simpl in Hres. subst res.
      simpl. repeat split; try apply remove_outputs_absent. by right. }
  right.
  destruct (resolve_pending_spec can_open basename labels ic_final pending s0 eq_refl Hgood)
    as (s1 & -> & Hob1 & Hent1 & Himg1 & Hundef1 & Herr1 & Hext1 & Hopen1 & Hother1 & Hpath1).
  fold ext_path uses in Hext1, Hother1, Hpath1.
  cbn [negb Z.eqb]. cbv iota.
  destruct s1 as [[disk1 open1] ob1 ent1 ext1 img1 he1 un1].
  cbn [ob ent ext image undefined had_error fs disk open_files s0 orb app] in *.
  subst ob1 ent1. cbn [with_fs ob fs image]. rewrite !emit_words_lines.
  cbn [disk open_files]. rewrite alter_alter_eq.
  match goal with
  | |- context [flush_all_entries _ _ _ _ ?s] => set (s2 := s)
  end.
  destruct (flush_all_entries_spec can_open basename ic_final labels s2 eq_refl)
    as (Hob4 & Hext4 & Himg4 & Hundef4 & Herr4 & Hent4 & Hopen4 & Hother4 & Hpath4).
  fold ent_path entries in Hent4, Hother4, Hpath4, Herr4.
  set (s4 := flush_all_entries can_open basename labels ic_final s2) in *.
  cbn [ob ent ext image undefined had_error fs disk open_files s2 with_fs] in *.
  assert (had_error s4 = pass2_errors can_open basename labels pending ic_final) as Herr.
  { rewrite Herr4, Herr1. reflexivity. }
  assert (open_files (close_outputs (ob s4) (ent s4) (ext s4) (fs s4)) = open_files fs0)
    as Hrestored.
  { rewrite Hob4, Hext4. apply close_outputs_restores; try done.
    rewrite Hopen4, Hopen1. reflexivity. }
  destruct (had_error s4 || p_error) eqn:Hany.
  - cbn [fst snd]. split; [done|]. split; [done|]. split; [done|].
    split; [exact Hrestored|].
    unfold closed_and_removed. cbn [image undefined had_error with_fs fs].
    rewrite Himg4, Hundef4.
    split; [done|]. split; [done|]. split; [done|].
    split; [|intros H; congruence].
    intros _. split; [done|]. apply remove_outputs_absent.
  - cbn [fst snd]. split; [done|]. split; [done|]. split; [done|].
    cbn [image undefined had_error with_fs fs].
    split; [exact Hrestored|].
    rewrite Himg4, Hundef4, close_outputs_disk.
    split; [done|]. split; [done|]. split; [done|].
    split; [intros H; congruence|]. intros _.
    apply orb_false_elim in Hany as [Hnoerr ->]. split; [done|].
    split; [|split].
    + rewrite Hother4 by done. rewrite lookup_alter_eq, Hother1 by done.
      rewrite lookup_insert_eq. cbn [fmap option_fmap option_map].
      unfold ob_text. rewrite Himg1. simpl. reflexivity.
    + rewrite Hother4 by done. rewrite lookup_alter_ne by done.
      rewrite Hpath1. rewrite lookup_insert_ne by done. reflexivity.
    + rewrite Herr4 in Hnoerr. apply orb_false_elim in Hnoerr as [_ Hnoent].
      rewrite (Hpath4 Hnoent). rewrite lookup_alter_ne by done.
      rewrite Hother1 by done. rewrite lookup_insert_ne by done. reflexivity.
Qed.

Lemma find_label_name labels nm lab :
  find_label labels nm = Some lab → l_name lab = nm.
Proof.
  induction labels as [|l r IH]; simpl; [done|].
  destruct (streq (l_name l) nm) eqn:Heq; [|exact IH].
  intros [= <-]. by apply String.eqb_eq.
Qed.

Lemma patched_lookup labels ic_final : ∀ pending words pen lab,
  NoDup ((Z.to_nat ∘ ic_index) <$> pending) →
  pen ∈ pending →
  find_label labels (label_p_name pen) = Some lab →
  (Z.to_nat (ic_index pen) < length words)%nat →
  patched labels ic_final pending words !! Z.to_nat (ic_index pen)
  = Some (patched_word lab ic_final (default 0 (words !! Z.to_nat (ic_index pen)))).
Proof.
  assert (∀ pending words i,
            i ∉ (Z.to_nat ∘ ic_index) <$> pending →
            patched labels ic_final pending words !! i = words !! i) as Hframe.
  { intros pending. induction pending as [|q r IH]; intros words i Hi; [done|].
    simpl in *. apply not_elem_of_cons in Hi as [Hne Hi].
    destruct (find_label labels (label_p_name q)); rewrite IH by done; [|done].
    by rewrite list_lookup_insert_ne. }
  assert (∀ pending words, length (patched labels ic_final pending words) = length words)
    as Hlen.
  { intros pending. induction pending as [|q r IH]; intros words; [done|].
    simpl. destruct (find_label labels (label_p_name q)); rewrite IH; [|done].
    by rewrite length_insert. }
  intros pending. induction pending as [|q r IH]; intros words pen lab Hnodup Hin Hfind Hrange.
  - by apply elem_of_nil in Hin.
  - simpl in *. apply NoDup_cons in Hnodup as [Hfresh Hnodup].
    apply elem_of_cons in Hin as [->|Hin].
    + rewrite Hfind. rewrite Hframe by done.
      by rewrite list_lookup_insert_eq.
    + assert (Z.to_nat (ic_index q) ≠ Z.to_nat (ic_index pen)) as Hne.
      { intros Heq. apply Hfresh. rewrite Heq.
        apply (list_elem_of_fmap_2 (Z.to_nat ∘ ic_index)) in Hin. exact Hin. }
      destruct (find_label labels (label_p_name q)).
      * rewrite (IH _ pen lab) by (rewrite ?length_insert; done).
        by rewrite list_lookup_insert_ne.
      * by apply IH.
Qed.

(** ** External references *)

(** C6. The loop of the second pass over the pending references, entered
    as [second_pass] enters it with the stream of [.ext] null, the file
    being one that can be opened: it ends with code [0]; the references
    are in the order in which the first pass created them, each new one
    being added at the end; [.ext] then
    holds one line for every reference whose name resolves to a symbol of
    external linkage, in the order of the references, and nothing else;
    each line is the name, a space, and four base-4 digits whose value is
    [100] plus the offset of the patched word; when there is no such
    reference the stream stays null, no file is opened and the file on
    disk is untouched, otherwise the only stream opened is that of [.ext];
    and, the offsets of the references being distinct, the word of every
    such reference ends with its ten low bits equal to [1]: value [0] in
    bits 9 to 2 and [01] below. *)
Theorem C6_external_references can_open basename labels ic_final pending s :
  ext s = None →
  can_open (path_of basename "ext") = true →
  NoDup ((Z.to_nat ∘ ic_index) <$> pending) →
  let path := path_of basename "ext" in
  let uses := external_uses labels pending in
  let r := resolve_pending can_open basename pending labels ic_final s in
  r.1 = 0
  ∧ (∀ ic_now line_num nm st,
       pending_refs (add_pending_refs ic_now line_num nm st).2
       = pending_refs st ++ [mkPending nm (unsigned_char (ic_now - 1)) line_num])
  ∧ disk (fs r.2) !! path = (if uses is [] then disk (fs s) !! path else Some uses)
  ∧ (uses = [] → ext r.2 = None ∧ open_files (fs r.2) = open_files (fs s))
  ∧ (uses ≠ [] → ext r.2 = Some path ∧ open_files (fs r.2) = path :: open_files (fs s))
  ∧ ∀ pen lab,
      pen ∈ pending →
      find_label labels (label_p_name pen) = Some lab →
      l_ent_or_ext lab = EXTERNAL →
      external_use labels pen
      = Some (label_p_name pen +:+ " " +:+ to_base4_addr (100 + ic_index pen) +:+ nl)
      ∧ (0 ≤ ic_index pen < 156 →
         String.length (to_base4_addr (100 + ic_index pen)) = 4%nat
         ∧ base4_value 0 (to_base4_addr (100 + ic_index pen)) = 100 + ic_index pen)
      ∧ ((Z.to_nat (ic_index pen) < length (image s))%nat →
         ∃ w, image r.2 !! Z.to_nat (ic_index pen) = Some w
              ∧ Z.land w 1023 = 1 ∧ Z.land (Z.shiftr w 2) 255 = 0 ∧ Z.land w 3 = 1).
Proof.
  intros Hnone Hopen Hnodup path uses r.
  destruct (resolve_pending_ok can_open basename labels ic_final pending s
              (disk (fs s)) [])
    as (s' & Hres & Hlazy & _ & Himg & _ & _ & Hfiles & _ & Hstay);
    [by rewrite Hnone|right; by left|].
  subst r. rewrite Hres. cbn [fst snd]. rewrite Hnone in Hfiles.
  cbn [app] in Hlazy. fold uses in Hlazy, Hstay. fold path in Hlazy.
  split; [done|]. split; [by intros ic_now line_num nm []|].
  assert (uses ≠ [] → ext s' = Some path) as Hsome.
  { intros Hne. destruct (ext s') as [p|] eqn:Hext; simpl in Hlazy.
    - by destruct Hlazy as [-> _].
    - by destruct Hlazy as [? _]. }
  split; [|split; [|split]].
  - apply lazily_written_lookup in Hlazy as (_ & _ & Hpath & Hempty).
    rewrite Hpath. destruct uses; [|done].
    by rewrite Hstay.
  - intros Hnil. rewrite Hfiles, Hstay by done. done.
  - intros Hne. rewrite Hfiles, Hsome by done. done.
  - intros pen lab Hin Hfind Hext. split; [|split].
    + unfold external_use, ext_line. rewrite Hfind, bool_decide_true by done.
      by rewrite (find_label_name _ _ _ Hfind).
    + intros Hrange. apply to_base4_addr_value. lia.
    + intros Hlen. rewrite Himg.
      rewrite (patched_lookup labels ic_final pending (image s) pen lab) by done.
      eexists. split; [done|].
      unfold patched_word. rewrite bool_decide_true by done.
      set (w := default 0 _).
      assert (Z.land (Z.lor (Z.land w (Z.lnot 1023)) 1) 1023 = 1) as Hlow
        by apply external_word_bits.
      split; [done|]. split.
      * apply Z.bits_inj'. intros n Hn. rewrite Z.land_spec, Z.shiftr_spec by done.
        rewrite Z.bits_0. destruct (decide (n < 8)) as [Hsmall|Hbig].
        -- apply (f_equal (λ v, Z.testbit v (n + 2))) in Hlow.
           rewrite Z.land_spec in Hlow.
           replace (Z.testbit 1023 (n + 2)) with true in Hlow.
           ++ rewrite andb_true_r in Hlow. rewrite Hlow.
              replace (Z.testbit 1 (n + 2)) with false; [done|].
              symmetry. apply (Z.bits_above_log2 1); simpl; lia.
           ++ symmetry. replace 1023 with (Z.ones 10) by reflexivity.
              apply Z.ones_spec_low. lia.
        -- replace 255 with (Z.ones 8) by reflexivity.
           rewrite Z.ones_spec_high by lia. apply andb_false_r.
      * apply (f_equal (λ v, Z.land v 3)) in Hlow.
        rewrite <- Z.land_assoc in Hlow. exact Hlow.
Qed.

Lemma C6_external_references_witness :
  (resolve_pending every_file "t" extern_use extern_table 2 jmp_state).1 = 0
  ∧ disk (fs (resolve_pending every_file "t" extern_use extern_table 2 jmp_state).2)
      !! "t.ext" = Some ["X bcbb" +:+ nl]
  ∧ image (resolve_pending every_file "t" extern_use extern_table 2 jmp_state).2
    = [580; 1].
Proof.
  pose proof (C6_external_references every_file "t" extern_table 2 extern_use jmp_state
                eq_refl eq_refl) as H.
  assert (NoDup ((Z.to_nat ∘ ic_index) <$> extern_use)) as Hnodup
    by (apply NoDup_singleton).
  specialize (H Hnodup). cbv zeta in H.
  destruct H as (Hcode & _ & Hdisk & _ & _ & _).
  split; [exact Hcode|]. split; [exact Hdisk|]. vm_compute. reflexivity.
Defined.

(** ** The entries file *)

Lemma report_undefined_keeps_error labels : ∀ st,
  error st = true → error (report_undefined labels st).2 = true.
Proof.
  induction labels as [|l r IH]; intros st Hst; [done|].
  simpl. unfold bind at 1.
  destruct (decide (l_data_or_ins l = UNKNOWN_LABEL_TYPE)); apply IH; [|done].
  destruct_state st. reflexivity.
Qed.

Lemma report_undefined_error labels : ∀ st l,
  l ∈ labels → l_data_or_ins l = UNKNOWN_LABEL_TYPE →
  error (report_undefined labels st).2 = true.
Proof.
  induction labels as [|l' r IH]; intros st l Hin Hkind.
  - by apply elem_of_nil in Hin.
  - simpl. unfold bind at 1. apply elem_of_cons in Hin as [<-|Hin].
    + rewrite decide_True by done. apply report_undefined_keeps_error.
      destruct_state st. reflexivity.
    + destruct (decide (l_data_or_ins l' = UNKNOWN_LABEL_TYPE)); by eapply IH.
Qed.

Lemma entries_claimed_written labels ic_final :
  (∀ l, l ∈ labels → l_ent_or_ext l = ENTRY → l_data_or_ins l ≠ UNKNOWN_LABEL_TYPE) →
  entries_written labels ic_final = entries_claimed labels ic_final.
Proof.
  unfold entries_written, entries_claimed. intros Hdefined. f_equal.
  induction labels as [|l r IH]; [done|].
  rewrite !filter_cons. rewrite IH by (intros; apply Hdefined; [by right|done]).
  unfold is_entry, is_defined_entry.
  destruct (decide (l_ent_or_ext l = ENTRY)) as [Hentry|Hother].
  - rewrite bool_decide_true by done.
    rewrite (bool_decide_false (l_data_or_ins l = UNKNOWN_LABEL_TYPE))
      by (apply Hdefined; [by left|done]).
    done.
  - rewrite bool_decide_false by done. done.
Qed.

(** C7, as stated, fails on a table whose only symbol was declared
    [.entry] and never defined: the claim has no line in [.ent], the code
    writes the line of that symbol, with the line number of the
    declaration taken for an offset. *)
Lemma C7_undefined_entry_is_written :
  let s' := flush_all_entries every_file "t" undefined_table 0 fresh_pass2 in
  file_lines (fs s') (path_of "t" "ent") = ["K bcbb" +:+ nl]
  ∧ entries_claimed undefined_table 0 = []
  ∧ file_lines (fs s') (path_of "t" "ent") ≠ entries_claimed undefined_table 0.
Proof. vm_compute. repeat split; discriminate. Qed.

(** C7, amended. [flush_all_entries], entered as [second_pass] enters it
    with the stream of [.ent] null, the file being one that can be
    opened, writes one line for every symbol whose linkage is entry,
    whatever its kind, in the order of the table, and nothing else; the
    line is the name, a space, and the base-4 digits of [100 + IC_final +
    offset] for a symbol of kind data and of [100 + offset] for any other
    kind, the unknown one included; no file is opened when no symbol has
    linkage entry. The lines are those of the defined entry symbols when
    no entry symbol is of kind unknown. When a symbol of the table is of
    kind unknown the first pass ends with the error flag set, and
    [second_pass], given that flag, leaves none of the three outputs on
    disk. *)
Theorem C7_every_entry_symbol_is_written can_open basename labels ic_final s :
  ent s = None →
  can_open (path_of basename "ent") = true →
  let path := path_of basename "ent" in
  let entries := entries_written labels ic_final in
  let s' := flush_all_entries can_open basename labels ic_final s in
  disk (fs s') !! path = (if entries is [] then disk (fs s) !! path else Some entries)
  ∧ (entries = [] → ent s' = None ∧ open_files (fs s') = open_files (fs s))
  ∧ (∀ l, l ∈ labels → l_ent_or_ext l = ENTRY →
       ent_line ic_final l ∈ entries
       ∧ ent_line ic_final l
         = l_name l +:+ " "
           +:+ to_base4_addr (if decide (l_data_or_ins l = DATA)
                              then 100 + ic_final + l_address l
                              else 100 + l_address l) +:+ nl)
  ∧ ((∀ l, l ∈ labels → l_ent_or_ext l = ENTRY → l_data_or_ins l ≠ UNKNOWN_LABEL_TYPE) →
     entries = entries_claimed labels ic_final)
  ∧ (∀ l, l ∈ labels → l_data_or_ins l = UNKNOWN_LABEL_TYPE →
     ∀ st ins_set dataset dc_final pending fs0,
       (String.length basename < 508)%nat →
       error (report_undefined labels st).2 = true
       ∧ outputs_absent basename
           (fs (second_pass can_open basename ins_set ic_final dataset dc_final
                  labels pending (error (report_undefined labels st).2) fs0).2)).
Proof.
  intros Hnone Hopen path entries s'.
  destruct (flush_all_entries_open can_open basename ic_final labels s (disk (fs s)) [])
    as (Hlazy & _ & _ & _ & _ & _ & Hfiles & Hstay);
    [by rewrite Hnone|by right|].
  fold s' in Hlazy, Hfiles, Hstay. rewrite Hnone in Hfiles.
  cbn [app] in Hlazy. fold entries in Hlazy, Hstay. fold path in Hlazy.
  split; [|split; [|split; [|split]]].
  - apply lazily_written_lookup in Hlazy as (_ & _ & Hpath & _).
    rewrite Hpath. destruct entries; [|done]. by rewrite Hstay.
  - intros Hnil. rewrite Hfiles, Hstay by done. done.
  - intros l Hin Hentry. split.
    + unfold entries, entries_written. apply list_elem_of_fmap_2.
      apply list_elem_of_filter. split; [|done].
      unfold is_entry. by rewrite bool_decide_true.
    + unfold ent_line, abs_address, ORG_ADDRESS. by destruct (decide _).
  - apply entries_claimed_written.
  - intros l Hin Hkind st ins_set dataset dc_final pending fs0 Hlen.
    pose proof (report_undefined_error labels st l Hin Hkind) as Herr.
    split; [done|]. rewrite Herr.
    destruct (second_pass_spec can_open basename ins_set ic_final dataset dc_final
                labels pending true fs0 Hlen)
      as [(_ & _ & Habsent & _)|(_ & _ & _ & _ & _ & _ & _ & Hremoved & _)];
      [done|].
    apply Hremoved. apply orb_true_r.
Qed.

Lemma C7_every_entry_symbol_is_written_witness :
  disk (fs (flush_all_entries every_file "t" undefined_table 0 fresh_pass2))
    !! path_of "t" "ent" = Some ["K bcbb" +:+ nl].
Proof.
  exact (proj1 (C7_every_entry_symbol_is_written every_file "t" undefined_table 0
                  fresh_pass2 eq_refl eq_refl)).
Defined.

(** ** Outputs removed on error, retained otherwise *)

Lemma undefined_uses_error labels ic_final pending :
  undefined_uses labels pending ≠ [] →
  existsb (pending_error labels ic_final) pending = true.
Proof.
  unfold undefined_uses, pending_error.
  induction pending as [|pen r IH]; [done|].
  simpl. destruct (find_label labels (label_p_name pen)); [|done].
  intros Hne. rewrite IH by done. apply orb_true_r.
Qed.

(** C1. [second_pass], for a base name whose paths fit the buffers, ends
    with code [0] or with the code of a fatal error, and in the latter
    case with none of the three outputs on disk. When it ends with [0]:
    the streams it opened are all closed; every undefined label it
    printed set its error flag, which is set exactly when a pending
    reference is in error or [.ent] could not be opened for a symbol to
    write; if the flag received from the first pass or its own flag is
    set, none of [.ob], [.ent], [.ext] is on disk and the flag passed
    back is set; if neither is set, the flag passed back is clear, [.ob]
    holds the header and the two images, [.ext] holds the external uses
    and [.ent] the entry symbols, each of the two written only when it
    has a line. For [first_pass] as a whole, when it reaches the second
    pass and returns [0]: if the error flag of the first pass or that of
    the second is set, the flag passed back is set and none of the three
    outputs is on disk; if neither is, the flag passed back is clear and
    [.ob] is on disk; no stream is left open. *)
Theorem C1_outputs_removed_on_error can_open basename words ic_final data dc_final
    labels pending p_error fs0 :
  (String.length basename < 508)%nat →
  let r := second_pass can_open basename words ic_final data dc_final
             labels pending p_error fs0 in
  let uses := external_uses labels pending in
  let entries := entries_written labels ic_final in
  (r.1.1 = 0 ∨ r.1.1 = FATAL_ERROR)
  ∧ (r.1.1 = FATAL_ERROR → outputs_absent basename (fs r.2) ∧ r.1.2 = p_error)
  ∧ (r.1.1 = 0 →
     open_files (fs r.2) = open_files fs0
     ∧ (undefined r.2 ≠ [] → had_error r.2 = true)
     ∧ had_error r.2 = pass2_errors can_open basename labels pending ic_final
     ∧ (p_error = true ∨ had_error r.2 = true →
        r.1.2 = true ∧ outputs_absent basename (fs r.2))
     ∧ (p_error = false → had_error r.2 = false →
        r.1.2 = false
        ∧ disk (fs r.2) !! path_of basename "ob"
          = Some (ob_text labels pending words ic_final data dc_final)
        ∧ disk (fs r.2) !! path_of basename "ext"
          = (if uses is [] then disk fs0 !! path_of basename "ext" else Some uses)
        ∧ disk (fs r.2) !! path_of basename "ent"
          = (if entries is [] then disk fs0 !! path_of basename "ent" else Some entries)))
  ∧ (∀ state error0 flag s2,
       let res := first_pass can_open basename state error0 fs0 in
       second res = Some (flag, s2) → code_returned res = 0 →
       open_files (files_after res) = open_files fs0
       ∧ (error (first res) = true ∨ had_error s2 = true →
          flag = true ∧ outputs_absent basename (files_after res))
       ∧ (error (first res) = false → had_error s2 = false →
          flag = false ∧ is_Some (disk (files_after res) !! path_of basename "ob"))).
Proof.
  intros Hlen r uses entries.
  refine ((λ H Hpipe, conj (proj1 H) (conj (proj1 (proj2 H))
                                       (conj (proj2 (proj2 H)) Hpipe))) _ _).
  2:{ intros state error0 flag s2. unfold first_pass.
      destruct (FILENAME_MAX <=? String.length basename)%nat; [done|].
      destruct (disk fs0 !! (basename +:+ ".am")) as [pieces|]; [|done].
      destruct (read_loop _ state zero (text_of pieces) (initial_state error0))
        as [code s]. destruct code as [[| |]|]; try done.
      destruct (report_undefined (label_set s) s) as [u s1].
      destruct (second_pass_spec can_open basename (ins_set s1) (ic s1) (dataset s1)
                  (dc s1) (label_set s1) (pending_refs s1) (error s1) fs0 Hlen)
        as [(Hfatal & _)|(_ & _ & _ & Hfiles & _ & _ & _ & Hremoved & Hkept)];
        destruct (second_pass can_open basename (ins_set s1) (ic s1) (dataset s1)
                    (dc s1) (label_set s1) (pending_refs s1) (error s1) fs0)
          as [[code' flag'] s2'];
        cbn [second code_returned files_after first fst snd] in *;
        intros Hsecond Hcode; injection Hsecond as -> ->.
      { subst code'. by unfold FATAL_ERROR in Hcode. }
      split; [done|]. split.
      - intros [Herr|Hhad]; apply Hremoved; [rewrite Herr; apply orb_true_r|].
        by rewrite Hhad.
      - intros Herr Hhad. rewrite Herr, Hhad in Hkept.
        destruct (Hkept eq_refl) as (Hflag & Hob & _). split; [done|]. by eexists. }
  destruct (second_pass_spec can_open basename words ic_final data dc_final
              labels pending p_error fs0 Hlen)
    as [(Hcode & Hflag & Habsent & _)
       |(Hcode & _ & _ & Hfiles & _ & Hundef & Herr & Hremoved & Hkept)];
    fold r in Hcode |- *.
  - fold r in Hflag, Habsent. split; [by right|]. split; [done|].
    rewrite Hcode. intros Hzero. by unfold FATAL_ERROR in Hzero.
  - fold r in Hfiles, Hundef, Herr, Hremoved, Hkept.
    split; [by left|]. split.
    { rewrite Hcode. intros Hfatal. by unfold FATAL_ERROR in Hfatal. }
    intros _. split; [done|]. split; [|split; [done|split]].
    + rewrite Hundef, Herr. intros Hne. unfold pass2_errors.
      by rewrite (undefined_uses_error labels ic_final pending Hne).
    + intros [->|Hhad]; apply Hremoved; [apply orb_true_r|].
      rewrite Hhad. done.
    + intros -> Hhad. apply Hkept. rewrite Hhad. done.
Qed.

Lemma C1_outputs_removed_on_error_witness :
  ((jmp_pass true).1.2 = true ∧ outputs_absent "t" (fs (jmp_pass true).2))
  ∧ ((jmp_pass false).1.2 = false
     ∧ disk (fs (jmp_pass false).2) !! "t.ext" = Some ["X bcbb" +:+ nl]
     ∧ disk (fs (jmp_pass false).2) !! "t.ent" = None
     ∧ open_files (fs (jmp_pass false).2) = []).
Proof.
  assert (String.length "t" < 508)%nat as Hlen by (simpl; lia).
  split.
  - pose proof (C1_outputs_removed_on_error every_file "t" [580; 0; 960] 3 [] 0
                  extern_table extern_use true no_files Hlen) as H.
    cbv zeta in H. destruct H as (_ & _ & H & _).
    destruct (H eq_refl) as (_ & _ & _ & Hremoved & _).
    apply Hremoved. by left.
  - pose proof (C1_outputs_removed_on_error every_file "t" [580; 0; 960] 3 [] 0
                  extern_table extern_use false no_files Hlen) as H.
    cbv zeta in H. destruct H as (_ & _ & H & _).
    destruct (H eq_refl) as (Hfiles & _ & _ & _ & Hkept).
    destruct (Hkept eq_refl eq_refl) as (Hflag & _ & Hext & Hent).
    split; [exact Hflag|]. split; [exact Hext|]. split; [exact Hent|exact Hfiles].
Defined.

(** ** The macro expander *)

Lemma expand_line_unfold line x :
  expand_line line x =
  let x1 := next_line line x in
  if copied_as_is line then fputs line x1
  else
    let w := match scan_s line with
             | Some (w, _) => w
             | None => word x1
             end in
    let x2 := mkExpander (failed x1) (inside_macro x1) (current x1) (macros x1)
                (null_entry x1) (crashed x1) w (macro_name x1) (out x1) (line_num x1)
                (reported x1) in
    if streq w "mcro" then open_block line x2
    else if streq w "mcroend" then close_block x2
    else if inside_macro x2 then
      match current x2 with
      | Some m =>
          mkExpander (failed x2) (inside_macro x2) (Some (add_line_to_macro m line))
            (macros x2) (null_entry x2) (crashed x2) (word x2) (macro_name x2) (out x2)
            (line_num x2) (reported x2)
      | None => crash (complain "Internal error: current macro is NULL" x2)
      end
    else
      match find_macro_in x2 w with
      | None => crash x2
      | Some (Some m) => foldl (λ x l, fputs l x) x2 (lines m)
      | Some None => fputs line x2
      end.
Proof. reflexivity. Qed.

Lemma next_line_fields line x :
  let x1 := next_line line x in
  inside_macro x1 = inside_macro x ∧ current x1 = current x ∧ macros x1 = macros x
  ∧ null_entry x1 = null_entry x ∧ crashed x1 = crashed x ∧ word x1 = word x
  ∧ macro_name x1 = macro_name x ∧ out x1 = out x.
Proof.
  unfold next_line. destruct (VALID_LINE <? line_length line)%nat; by destruct x.
Qed.

Lemma foldl_fputs ls : ∀ x,
  let x' := foldl (λ x l, fputs l x) x ls in
  out x' = out x ++ ls ∧ inside_macro x' = inside_macro x ∧ current x' = current x
  ∧ macros x' = macros x ∧ null_entry x' = null_entry x ∧ crashed x' = crashed x.
Proof.
  induction ls as [|l r IH]; intros x; simpl.
  - by rewrite app_nil_r.
  - destruct (IH (fputs l x)) as (-> & -> & -> & -> & -> & ->).
    destruct x; simpl. by rewrite <- app_assoc.
Qed.

Lemma find_macro_app ms ms' nm m :
  find_macro ms nm = Some m → find_macro (ms ++ ms') nm = Some m.
Proof.
  induction ms as [|m0 r IH]; simpl; [done|].
  destruct (streq (name m0) nm); [done|exact IH].
Qed.

Lemma find_macro_last ms m nm :
  find_macro ms nm = None → name m = nm → find_macro (ms ++ [m]) nm = Some m.
Proof.
  intros Hnone <-. induction ms as [|m0 r IH]; simpl in *.
  - by rewrite streq_refl.
  - destruct (streq (name m0) (name m)); [done|by apply IH].
Qed.

(** Once a name is in the table, no line takes it out or changes what it
    stands for. *)
Lemma expand_line_keeps_macro line x nm m :
  find_macro (macros x) nm = Some m →
  find_macro (macros (expand_line line x)) nm = Some m.
Proof.
  intros Hfind. rewrite expand_line_unfold.
  destruct (next_line_fields line x) as (_ & _ & Hms & _).
  destruct (next_line line x) as [f i c ms ne cr w mn o ln rp]. simpl in Hms. subst ms.
  cbv zeta. destruct (copied_as_is line); [done|].
  cbn [word failed inside_macro current macros null_entry crashed macro_name out line_num
       reported].
  set (w' := match scan_s line with Some (w', _) => w' | None => w end).
  destruct (streq w' "mcro").
  { unfold open_block. cbn [inside_macro].
    destruct (is_valid_macro_start_line _ line) as [[res nm']|]; destruct i; try done;
      simpl; repeat (destruct (_ =? _)); done. }
  destruct (streq w' "mcroend").
  { unfold close_block. destruct i, c as [m0|]; simpl;
      repeat (destruct (_ =? _)%nat; simpl); destruct ne; simpl; try done;
      by apply find_macro_app. }
  cbn [inside_macro]. destruct i.
  { by destruct c. }
  destruct (find_macro_in _ w') as [[m0|]|]; try done.
  by destruct (foldl_fputs (lines m0) (mkExpander f false c (macros x) ne cr w' mn o ln rp))
    as (_ & _ & _ & -> & _).
Qed.

Lemma expand_lines_keep_macro ls nm m : ∀ x,
  find_macro (macros x) nm = Some m →
  find_macro (macros (expand_lines ls x)) nm = Some m.
Proof.
  unfold expand_lines. induction ls as [|l r IH]; intros x Hfind; [done|].
  simpl. apply IH. by apply expand_line_keeps_macro.
Qed.

Lemma expand_lines_app ls ls' x :
  expand_lines (ls ++ ls') x = expand_lines ls' (expand_lines ls x).
Proof. apply foldl_app. Qed.

Lemma scan_three_first line nm :
  scan_three line = (2, "mcro", nm) → first_word line = Some "mcro".
Proof.
  unfold scan_three, first_word.
  destruct (scan_s line) as [[t1 r1]|]; [|done].
  destruct (scan_s r1) as [[t2 r2]|]; [|done].
  destruct (scan_s r2); intros [= -> ->]; done.
Qed.

Lemma valid_macro_name_length nm :
  is_valid_macro_name nm = true → (String.length nm ≤ MAX_MACRO_NAME - 1)%nat.
Proof.
  unfold is_valid_macro_name.
  destruct (String.length nm =? 0)%nat; [done|]. cbn [orb].
  destruct (MAX_MACRO_NAME - 1 <? String.length nm)%nat eqn:Hlong; [done|].
  intros _. apply Nat.ltb_ge in Hlong. exact Hlong.
Qed.

(** The line that opens the block of a new macro, met outside of a block. *)
Lemma expand_line_header line nm x :
  inside_macro x = false → null_entry x = false →
  copied_as_is line = false →
  scan_three line = (2, "mcro", nm) →
  is_reserved_word nm = false → is_valid_macro_name nm = true →
  find_macro (macros x) nm = None →
  let x' := expand_line line x in
  inside_macro x' = true ∧ current x' = Some (mkMacro nm [])
  ∧ macros x' = macros x ∧ null_entry x' = false ∧ crashed x' = crashed x
  ∧ out x' = out x ∧ word x' = "mcro".
Proof.
  intros Hin Hnull Hcopy Hscan Hres Hvalid Hnew.
  pose proof (scan_three_first line nm Hscan) as Hfirst.
  rewrite expand_line_unfold.
  destruct (next_line_fields line x) as (Hi & _ & Hms & Hne & Hcr & _ & _ & Ho).
  destruct (next_line line x) as [f i c ms ne cr w mn o ln rp]. simpl in Hi, Hms, Hne, Hcr, Ho.
  rewrite Hin in Hi. rewrite Hnull in Hne. subst i ms ne cr o.
  cbv zeta. rewrite Hcopy. unfold first_word in Hfirst.
  destruct (scan_s line) as [[w1 r1]|]; [|done]. simpl in Hfirst.
  injection Hfirst as ->.
  cbn [word failed inside_macro current macros null_entry crashed macro_name out line_num
       reported streq String.eqb Ascii.eqb Bool.eqb].
  unfold open_block. cbn [inside_macro]. unfold is_valid_macro_start_line.
  rewrite Hscan. cbn [Z.eqb Pos.eqb negb orb streq String.eqb Ascii.eqb Bool.eqb].
  rewrite Hres, Hvalid. cbn [negb]. unfold find_macro_in.
  cbn [macros null_entry]. rewrite Hnew.
  unfold MACRO_OK. cbn [Z.eqb].
  rewrite (substring_whole nm) by by apply valid_macro_name_length.
  unfold create_macro. rewrite (substring_whole nm) by by apply valid_macro_name_length.
  done.
Qed.

(** A line of the body, met inside of a block: it is copied as is, or
    the word read for it is neither [mcro] nor [mcroend]. *)
Lemma expand_line_body line m x :
  inside_macro x = true → current x = Some m →
  (if copied_as_is line then true
   else negb (streq (word_read (word x) line) "mcro")
        && negb (streq (word_read (word x) line) "mcroend")) = true →
  let x' := expand_line line x in
  inside_macro x' = true
  ∧ current x' = Some (mkMacro (name m) (lines m ++ captured [line]))
  ∧ macros x' = macros x ∧ null_entry x' = null_entry x ∧ crashed x' = crashed x
  ∧ out x' = out x ++ copied [line]
  ∧ word x' = (if copied_as_is line then word x else word_read (word x) line).
Proof.
  intros Hin Hcur Hbody. rewrite expand_line_unfold.
  destruct (next_line_fields line x) as (Hi & Hc & Hms & Hne & Hcr & Hw & _ & Ho).
  destruct (next_line line x) as [f i c ms ne cr w mn o ln rp].
  simpl in Hi, Hc, Hms, Hne, Hcr, Hw, Ho.
  rewrite Hin in Hi. rewrite Hcur in Hc. subst i c ms ne cr o w.
  cbv zeta. unfold captured, copied. rewrite !filter_cons, !filter_nil.
  destruct (copied_as_is line) eqn:Hcopy.
  { rewrite decide_False by done. rewrite decide_True by done.
    rewrite app_nil_r. by destruct m. }
  rewrite decide_True by done. rewrite decide_False by done. rewrite app_nil_r.
  apply andb_prop in Hbody as [Hopen Hclose].
  apply negb_true_iff in Hopen, Hclose. unfold word_read in *.
  cbn [word failed inside_macro current macros null_entry crashed macro_name out line_num
       reported].
  rewrite Hopen, Hclose. done.
Qed.

Lemma captured_app a b : captured (a ++ b) = captured a ++ captured b.
Proof. apply filter_app. Qed.

Lemma copied_app a b : copied (a ++ b) = copied a ++ copied b.
Proof. apply filter_app. Qed.

Lemma expand_lines_body body : ∀ m x,
  inside_macro x = true → current x = Some m →
  body_lines (word x) body = true →
  let x' := expand_lines body x in
  inside_macro x' = true
  ∧ current x' = Some (mkMacro (name m) (lines m ++ captured body))
  ∧ macros x' = macros x ∧ null_entry x' = null_entry x ∧ crashed x' = crashed x
  ∧ out x' = out x ++ copied body.
Proof.
  induction body as [|l r IH]; intros m x Hin Hcur Hbody.
  - simpl. rewrite !app_nil_r. by destruct m.
  - cbn [body_lines] in Hbody.
    assert ((if copied_as_is l then true
             else negb (streq (word_read (word x) l) "mcro")
                  && negb (streq (word_read (word x) l) "mcroend")) = true) as Hl.
    { destruct (copied_as_is l); [done|]. by apply andb_prop in Hbody as [-> _]. }
    destruct (expand_line_body l m x Hin Hcur Hl)
      as (Hi & Hc & Hms & Hne & Hcr & Ho & Hw).
    assert (body_lines (word (expand_line l x)) r = true) as Hr.
    { rewrite Hw. destruct (copied_as_is l); [done|].
      by apply andb_prop in Hbody as [_ ->]. }
    destruct (IH _ _ Hi Hc Hr) as (Hi' & Hc' & Hms' & Hne' & Hcr' & Ho').
    change (expand_lines (l :: r) x) with (expand_lines r (expand_line l x)).
    cbv zeta. rewrite Hi', Hc', Hms', Hne', Hcr', Ho', Hms, Hne, Hcr, Ho.
    change (l :: r) with ([l] ++ r). rewrite captured_app, copied_app.
    cbn [name lines]. by rewrite !app_assoc.
Qed.

(** The line that closes a block. *)
Lemma expand_line_closing line m x :
  inside_macro x = true → current x = Some m → null_entry x = false →
  copied_as_is line = false → first_word line = Some "mcroend" →
  let x' := expand_line line x in
  inside_macro x' = false ∧ current x' = None
  ∧ macros x' = macros x ++ [m] ∧ null_entry x' = false ∧ crashed x' = crashed x
  ∧ out x' = out x.
Proof.
  intros Hin Hcur Hnull Hcopy Hfirst. rewrite expand_line_unfold.
  destruct (next_line_fields line x) as (Hi & Hc & Hms & Hne & Hcr & _ & _ & Ho).
  destruct (next_line line x) as [f i c ms ne cr w mn o ln rp].
  simpl in Hi, Hc, Hms, Hne, Hcr, Ho.
  rewrite Hin in Hi. rewrite Hcur in Hc. rewrite Hnull in Hne. subst i c ms ne cr o.
  cbv zeta. rewrite Hcopy. unfold first_word in Hfirst.
  destruct (scan_s line) as [[w1 r1]|]; [|done]. simpl in Hfirst.
  injection Hfirst as ->.
  cbn [word failed inside_macro current macros null_entry crashed macro_name out line_num
       reported streq String.eqb Ascii.eqb Bool.eqb].
  unfold close_block. cbn [inside_macro negb current].
  destruct (length (lines m) =? 0)%nat; done.
Qed.

(** A line outside of a block whose first word is the name of a macro of
    the table, and neither [mcro] nor [mcroend]. *)
Lemma expand_line_call line nm m x :
  inside_macro x = false →
  copied_as_is line = false → first_word line = Some nm →
  streq nm "mcro" = false → streq nm "mcroend" = false →
  find_macro (macros x) nm = Some m →
  let x' := expand_line line x in
  out x' = out x ++ lines m ∧ crashed x' = crashed x ∧ macros x' = macros x
  ∧ inside_macro x' = false.
Proof.
  intros Hin Hcopy Hfirst Hopen Hclose Hfind. rewrite expand_line_unfold.
  destruct (next_line_fields line x) as (Hi & _ & Hms & _ & Hcr & _ & _ & Ho).
  destruct (next_line line x) as [f i c ms ne cr w mn o ln rp].
  simpl in Hi, Hms, Hcr, Ho. rewrite Hin in Hi. subst i ms cr o.
  cbv zeta. rewrite Hcopy. unfold first_word in Hfirst.
  destruct (scan_s line) as [[w1 r1]|]; [|done]. simpl in Hfirst.
  injection Hfirst as ->.
  cbn [word failed inside_macro current macros null_entry crashed macro_name out line_num
       reported].
  rewrite Hopen, Hclose. unfold find_macro_in. cbn [macros]. rewrite Hfind.
  by destruct (foldl_fputs (lines m)
                 (mkExpander f false c (macros x) ne (crashed x) nm mn (out x) ln rp))
    as (-> & -> & _ & -> & _ & ->).
Qed.

Lemma reserved_not_keyword nm :
  is_reserved_word nm = false → streq nm "mcro" = false ∧ streq nm "mcroend" = false.
Proof.
  unfold is_reserved_word, reserved_words. cbn [existsb].
  intros H. repeat (apply orb_false_elim in H as [? H]). done.
Qed.

(** A process that has crashed stays so. *)
Lemma expand_line_keeps_crashed line x :
  crashed x = true → crashed (expand_line line x) = true.
Proof.
  intros Hcrashed. rewrite expand_line_unfold.
  destruct (next_line_fields line x) as (_ & _ & _ & _ & Hcr & _).
  destruct (next_line line x) as [f i c ms ne cr w mn o ln rp]. simpl in Hcr.
  rewrite Hcrashed in Hcr. subst cr.
  cbv zeta. destruct (copied_as_is line); [done|].
  cbn [word failed inside_macro current macros null_entry crashed macro_name out line_num
       reported].
  set (w' := match scan_s line with Some (w', _) => w' | None => w end).
  destruct (streq w' "mcro").
  { unfold open_block. cbn [inside_macro].
    destruct (is_valid_macro_start_line _ line) as [[res nm']|]; destruct i; try done;
      simpl; repeat (destruct (_ =? _)); done. }
  destruct (streq w' "mcroend").
  { unfold close_block. destruct i, c as [m0|]; simpl;
      repeat (destruct (_ =? _)%nat; simpl); done. }
  cbn [inside_macro]. destruct i.
  { by destruct c. }
  destruct (find_macro_in _ w') as [[m0|]|]; try done.
  by destruct (foldl_fputs (lines m0) (mkExpander f false c ms ne true w' mn o ln rp))
    as (_ & _ & _ & _ & _ & ->).
Qed.

Lemma expand_lines_keep_crashed ls : ∀ x,
  crashed x = true → crashed (expand_lines ls x) = true.
Proof.
  unfold expand_lines. induction ls as [|l r IH]; intros x Hcrashed; [done|].
  simpl. apply IH. by apply expand_line_keeps_crashed.
Qed.

Lemma fgets_chars_whole l : ∀ room rest,
  ends_line l = true → (String.length l ≤ room)%nat →
  fgets_chars room (l +:+ rest) = (l, rest).
Proof.
  induction l as [|c l IH]; intros room rest Hends Hroom; [done|].
  destruct room as [|room]; [simpl in Hroom; lia|].
  rewrite string_app_cons. cbn [fgets_chars].
  destruct l as [|c' l].
  - simpl in Hends. rewrite Hends. done.
  - cbn [ends_line] in Hends. apply andb_prop in Hends as [Hc Hends].
    apply negb_true_iff in Hc. rewrite Hc.
    rewrite (IH room rest Hends) by (simpl in *; lia). done.
Qed.

Lemma whole_line_c_str l : whole_line l = true → c_str l = l.
Proof.
  unfold whole_line, streq. intros Hwhole. apply andb_prop in Hwhole as [_ Hstr].
  by apply String.eqb_eq.
Qed.

Lemma fgets_whole l rest :
  whole_line l = true → fgets MAX_LINE_LENGTH (l +:+ rest) = Some (l, rest).
Proof.
  unfold whole_line. intros Hwhole. apply andb_prop in Hwhole as [Hwhole _].
  apply andb_prop in Hwhole as [Hends Hlen].
  apply Nat.ltb_lt in Hlen. unfold MAX_LINE_LENGTH in *.
  destruct l as [|c l]; [done|].
  rewrite string_app_cons. unfold fgets. rewrite <- string_app_cons.
  rewrite fgets_chars_whole; [done|done|lia].
Qed.

Lemma forallb_Forall {A} (f : A → bool) l :
  forallb f l = true → Forall (λ a, f a = true) l.
Proof.
  induction l as [|a r IH]; simpl; [constructor|].
  intros H. apply andb_prop in H as [Ha Hr]. constructor; [done|by apply IH].
Qed.

(** The loop over the text of whole lines is the loop over the lines. *)
Lemma expand_loop_lines ls : ∀ x fuel,
  forallb whole_line ls = true →
  crashed (expand_lines ls x) = false →
  (String.length (text_of ls) < fuel)%nat →
  expand_loop fuel (text_of ls) x = Some (expand_lines ls x).
Proof.
  induction ls as [|l r IH]; intros x fuel Hwhole Hsound Hfuel.
  - destruct fuel as [|fuel]; [lia|]. simpl in *. by rewrite Hsound.
  - destruct fuel as [|fuel]; [lia|].
    cbn [forallb] in Hwhole. apply andb_prop in Hwhole as [Hl Hr].
    change (text_of (l :: r)) with (l +:+ text_of r) in *.
    change (expand_lines (l :: r) x) with (expand_lines r (expand_line l x)) in *.
    cbn [expand_loop].
    destruct (crashed x) eqn:Hcrashed.
    { rewrite expand_lines_keep_crashed in Hsound; [done|].
      by apply expand_line_keeps_crashed. }
    rewrite fgets_whole by done. rewrite (whole_line_c_str l Hl).
    apply IH; [done|done|].
    rewrite string_length_app in Hfuel.
    assert (0 < String.length l)%nat; [|lia].
    unfold whole_line in Hl. destruct l; [done|simpl; lia].
Qed.

Lemma captured_all body :
  forallb (λ l, negb (copied_as_is l)) body = true → captured body = body ∧ copied body = [].
Proof.
  unfold captured, copied. induction body as [|l r IH]; [done|].
  cbn [forallb]. intros H. apply andb_prop in H as [Hl Hr].
  apply negb_true_iff in Hl. rewrite !filter_cons.
  rewrite decide_True by done. rewrite decide_False by (rewrite Hl; done).
  destruct (IH Hr) as [-> ->]. done.
Qed.

(** C5, as stated, fails on a block whose body holds a comment: the call
    of the macro writes the one captured line, not the two lines that stand
    between [mcro] and [mcroend]; the comment was written to the output at
    the place of the definition. *)
Lemma C5_comment_line_not_captured :
  let x := expand_lines note_block (fresh_expander []) in
  out x = ["; note" +:+ nl]
  ∧ out (expand_line note_call x) = out x ++ [" add r1, r2" +:+ nl]
  ∧ out (expand_line note_call x) ≠ out x ++ note_body
  ∧ out <$> expand_loop 40 (text_of (note_block ++ [note_call])) (fresh_expander [])
    = Some ["; note" +:+ nl; " add r1, r2" +:+ nl].
Proof. vm_compute. repeat split. discriminate. Qed.

(** C5, amended. Outside of a block and with no null entry in the table,
    take the line [mcro nm] of a new macro with a valid name, a body of
    lines of which none is handled as [mcro] or [mcroend], and the line
    [mcroend]. A line that begins with a newline or a semicolon is not
    read for a word; for any other line the word read is its first word
    or, when it is made of white space, the word read before it, which is
    [mcro] right after the header: such a line is handled as a line of
    the body after a line of the body that has a word, and not before.
    The block adds to the table the macro [nm] with the captured lines:
    the lines of the body that begin with neither a newline nor a
    semicolon, unchanged and in order; the lines that begin with a
    newline or a semicolon are written to the output where they stand.
    After any further lines that leave the expander outside of a block
    and running, a line whose first word is [nm] adds to the output
    exactly the captured lines, and not the line itself. When no line of
    the body begins with a newline or a semicolon, the captured lines are
    the lines of the body as they stand. When the lines hold no null
    character and are such that [fgets] returns them whole, the loop of
    [mcro_exec] over their text is in that state after the call. *)
Theorem C5_invocation_writes_captured_lines x header nm body closing between call :
  crashed x = false → inside_macro x = false → null_entry x = false →
  copied_as_is header = false → scan_three header = (2, "mcro", nm) →
  is_reserved_word nm = false → is_valid_macro_name nm = true →
  find_macro (macros x) nm = None →
  body_lines "mcro" body = true →
  copied_as_is closing = false → first_word closing = Some "mcroend" →
  copied_as_is call = false → first_word call = Some nm →
  let defined := expand_lines (header :: body ++ [closing]) x in
  let y := expand_lines between defined in
  inside_macro y = false → crashed y = false →
  macros defined = macros x ++ [mkMacro nm (captured body)]
  ∧ out defined = out x ++ copied body
  ∧ out (expand_line call y) = out y ++ captured body
  ∧ (forallb (λ l, negb (copied_as_is l)) body = true →
     captured body = body ∧ out defined = out x)
  ∧ (forallb whole_line (header :: body ++ closing :: between ++ [call]) = true →
     let text := text_of (header :: body ++ closing :: between ++ [call]) in
     expand_loop (S (String.length text)) text x = Some (expand_line call y)).
Proof.
  intros Hsound Hin Hnull Hhead Hscan Hres Hvalid Hnew Hbody Hclose Hend Hcall Hfirst
    defined y Hout Hrun.
  destruct (expand_line_header header nm x Hin Hnull Hhead Hscan Hres Hvalid Hnew)
    as (Hi1 & Hc1 & Hms1 & Hne1 & Hcr1 & Ho1 & Hw1).
  rewrite <- Hw1 in Hbody.
  destruct (expand_lines_body body _ _ Hi1 Hc1 Hbody)
    as (Hi2 & Hc2 & Hms2 & Hne2 & Hcr2 & Ho2).
  cbn [name lines app] in Hc2. rewrite Hne1 in Hne2.
  destruct (expand_line_closing closing _ _ Hi2 Hc2 Hne2 Hclose Hend)
    as (Hi3 & Hc3 & Hms3 & Hne3 & Hcr3 & Ho3).
  assert (defined
          = expand_line closing (expand_lines body (expand_line header x))) as Hdef.
  { unfold defined. change (header :: body ++ [closing])
      with ([header] ++ body ++ [closing]).
    by rewrite !expand_lines_app. }
  assert (macros defined = macros x ++ [mkMacro nm (captured body)]) as Hms
    by (by rewrite Hdef, Hms3, Hms2, Hms1).
  assert (out defined = out x ++ copied body) as Ho
    by (by rewrite Hdef, Ho3, Ho2, Ho1).
  destruct (reserved_not_keyword nm Hres) as [Hk1 Hk2].
  assert (find_macro (macros y) nm = Some (mkMacro nm (captured body))) as Hfind.
  { apply expand_lines_keep_macro. rewrite Hms. by apply find_macro_last. }
  destruct (expand_line_call call nm _ y Hout Hcall Hfirst Hk1 Hk2 Hfind)
    as (Hwritten & Hcr4 & _).
  split; [done|]. split; [done|]. split; [done|]. split.
  - intros Hplain. destruct (captured_all body Hplain) as [Hall Hnone].
    split; [done|]. by rewrite Ho, Hnone, app_nil_r.
  - intros Hwhole text.
    assert (expand_line call y
            = expand_lines (header :: body ++ closing :: between ++ [call]) x) as ->.
    { unfold y, defined.
      change (header :: body ++ closing :: between ++ [call])
        with ([header] ++ body ++ [closing] ++ between ++ [call]).
      change (header :: body ++ [closing]) with ([header] ++ body ++ [closing]).
      by rewrite !expand_lines_app. }
    apply expand_loop_lines; [done| |unfold text; lia].
    assert (expand_lines (header :: body ++ closing :: between ++ [call]) x
            = expand_line call y) as ->.
    { unfold y, defined.
      change (header :: body ++ closing :: between ++ [call])
        with ([header] ++ body ++ [closing] ++ between ++ [call]).
      change (header :: body ++ [closing]) with ([header] ++ body ++ [closing]).
      by rewrite !expand_lines_app. }
    by rewrite Hcr4.
Qed.

Lemma C5_invocation_writes_captured_lines_witness :
  out (expand_line note_call
         (expand_lines ["stop" +:+ nl] (expand_lines note_block (fresh_expander []))))
  = out (expand_lines ["stop" +:+ nl] (expand_lines note_block (fresh_expander [])))
    ++ captured note_body.
Proof.
  exact (proj1 (proj2 (proj2
    (C5_invocation_writes_captured_lines (fresh_expander []) ("mcro M1" +:+ nl) "M1"
       note_body ("mcroend" +:+ nl) ["stop" +:+ nl] note_call
       eq_refl eq_refl eq_refl eq_refl eq_refl eq_refl eq_refl eq_refl eq_refl
       eq_refl eq_refl eq_refl eq_refl eq_refl eq_refl)))).
Defined.

(** ** A label before [.entry] or [.extern] *)

Section IgnoresLabel.

Context {A B : Type}.

Lemma ignores_label_ret (a : A) : ignores_label (ret a).
Proof. done. Qed.

Lemma ignores_label_bind (m : M A) (k : A → M B) :
  ignores_label m → (∀ a, ignores_label (k a)) → ignores_label (bind m k).
Proof.
  intros Hm Hk lbl s. unfold bind. rewrite Hm.
  destruct (m s) as [a s1]. cbn [fst snd]. rewrite Hk. by destruct (k a s1).
Qed.

Lemma ignores_label_gets (f : pass_state → A) :
  (∀ lbl s, f (set_label lbl s) = f s) → ignores_label (gets f).
Proof. intros Hf lbl s. unfold gets. by rewrite Hf. Qed.

End IgnoresLabel.

Lemma ignores_label_modify (f : pass_state → pass_state) :
  (∀ lbl s, f (set_label lbl s) = set_label lbl (f s)) → ignores_label (modify f).
Proof. intros Hf lbl s. unfold modify. by rewrite Hf. Qed.

Lemma ignores_label_raise : ignores_label raise.
Proof. apply ignores_label_modify. by intros lbl []. Qed.

Lemma ignores_label_report msg : ignores_label (report msg).
Proof.
  apply ignores_label_bind.
  - apply ignores_label_gets. by intros lbl [].
  - intros n. apply ignores_label_modify. by intros lbl [].
Qed.

Lemma ignores_label_fail {A} msg (a : A) :
  ignores_label (raise ;; report msg ;; ret a).
Proof.
  apply ignores_label_bind; [apply ignores_label_raise|intros _].
  apply ignores_label_bind; [apply ignores_label_report|intros _].
  apply ignores_label_ret.
Qed.

Lemma ignores_label_add_label nm data_or_ins ent_or_ext :
  ignores_label (add_label nm data_or_ins ent_or_ext).
Proof.
  intros lbl s. destruct_state s. unfold add_label. setters.
  destruct (is_label_name nm ls0); [|done].
  destruct (finalize data_or_ins dc0 ic0 ls0); done.
Qed.

Lemma ignores_label_is_valid_label lbl state : ignores_label (is_valid_label lbl state).
Proof.
  unfold is_valid_label.
  destruct (negb (isalpha (deref lbl))); [apply ignores_label_fail|].
  destruct (negb (all_alnum (advance 1 lbl))); [apply ignores_label_fail|].
  apply ignores_label_bind; [apply ignores_label_gets; by intros ? []|].
  intros labels. destruct (match first_named lbl labels with Some _ => _ | None => _ end);
    [apply ignores_label_fail|].
  destruct (is_reg_name lbl); [apply ignores_label_fail|].
  destruct (is_reserved_word lbl); [apply ignores_label_fail|].
  destruct (find_macro state lbl); [apply ignores_label_fail|apply ignores_label_ret].
Qed.

Lemma ignores_label_trailing p :
  ignores_label (match p with
                 | String _ _ => raise ;; report extra_after_name ;; ret 0
                 | EmptyString => ret 0
                 end).
Proof. destruct p; [apply ignores_label_ret|apply ignores_label_fail]. Qed.

Lemma ignores_label_flag_off : ignores_label (modify (set_label_flag false)).
Proof. apply ignores_label_modify. by intros lbl []. Qed.

Lemma ignores_label_entry_branch line_p : ignores_label (entry_branch line_p).
Proof.
  unfold entry_branch.
  apply ignores_label_bind; [apply ignores_label_flag_off|intros _].
  cbv zeta. destruct (_ =? 0)%nat; [apply ignores_label_fail|].
  apply ignores_label_bind; [apply ignores_label_gets; by intros ? []|].
  intros labels. destruct (is_label_name _ labels).
  - destruct (mark_entry _ labels) as [[labels' stop] ext].
    apply ignores_label_bind; [apply ignores_label_modify; by intros ? []|intros _].
    destruct ext; [apply ignores_label_fail|].
    destruct stop; [apply ignores_label_ret|apply ignores_label_trailing].
  - apply ignores_label_bind; [apply ignores_label_add_label|intros r].
    destruct (r =? FATAL_ERROR); [apply ignores_label_ret|apply ignores_label_trailing].
Qed.

Lemma ignores_label_extern_branch line_p : ignores_label (extern_branch line_p).
Proof.
  unfold extern_branch.
  apply ignores_label_bind; [apply ignores_label_flag_off|intros _].
  cbv zeta. destruct (_ =? 0)%nat; [apply ignores_label_fail|].
  apply ignores_label_bind; [apply ignores_label_gets; by intros ? []|].
  intros labels. destruct (is_label_name _ labels); [apply ignores_label_fail|].
  apply ignores_label_bind; [apply ignores_label_add_label|intros r].
  destruct (r =? FATAL_ERROR); [apply ignores_label_ret|apply ignores_label_trailing].
Qed.

Lemma ignores_label_declaration directive line_p :
  ignores_label (declaration directive line_p).
Proof.
  unfold declaration. destruct (streq directive "entry");
    [apply ignores_label_entry_branch|apply ignores_label_extern_branch].
Qed.

(** The two branches begin by clearing [label_flag]. *)
Lemma declaration_flag directive line_p b s :
  declaration directive line_p (set_label_flag b s) = declaration directive line_p s.
Proof.
  unfold declaration, entry_branch, extern_branch.
  destruct (streq directive "entry"); unfold bind at 1; unfold bind at 2;
    by destruct s.
Qed.

Lemma declaration_flag_off directive line_p s :
  label_flag (declaration directive line_p s).2 = false.
Proof.
  assert (∀ {A} (m : M A), preserves (λ s, label_flag s = false) m →
          label_flag ((modify (set_label_flag false) ;; m) s).2 = false) as Hstart.
  { intros A m Hm. unfold bind at 1. apply Hm. by destruct s. }
  assert (∀ {A} msg (a : A),
            preserves (λ s, label_flag s = false) (raise ;; report msg ;; ret a))
    as Hfail by (by intros A msg a []).
  assert (∀ p, preserves (λ s, label_flag s = false)
                 (match p with
                  | String _ _ => raise ;; report extra_after_name ;; ret 0
                  | EmptyString => ret 0
                  end)) as Htrail by (intros []; [apply preserves_ret|apply Hfail]).
  assert (∀ nm k l, preserves (λ s, label_flag s = false) (add_label nm k l)) as Hadd.
  { intros nm k l s' Hs'. destruct_state s'. unfold add_label. setters.
    destruct (is_label_name nm ls0); [|done]. by destruct (finalize k dc0 ic0 ls0). }
  unfold declaration, entry_branch, extern_branch.
  destruct (streq directive "entry"); apply Hstart; cbv zeta.
  - destruct (_ =? 0)%nat; [apply Hfail|].
    apply preserves_bind; [apply preserves_gets|]. intros labels.
    destruct (is_label_name _ labels).
    + destruct (mark_entry _ labels) as [[labels' stop] ext].
      apply preserves_bind; [apply preserves_modify; by intros []|intros _].
      destruct ext; [apply Hfail|]. destruct stop; [apply preserves_ret|apply Htrail].
    + apply preserves_bind; [apply Hadd|intros r].
      destruct (r =? FATAL_ERROR); [apply preserves_ret|apply Htrail].
  - destruct (_ =? 0)%nat; [apply Hfail|].
    apply preserves_bind; [apply preserves_gets|]. intros labels.
    destruct (is_label_name _ labels); [apply Hfail|].
    apply preserves_bind; [apply Hadd|intros r].
    destruct (r =? FATAL_ERROR); [apply preserves_ret|apply Htrail].
Qed.

(** *** Characters and words *)

Lemma isalpha_plain c :
  isalpha c = true →
  isspace c = false ∧ chr_eqb c ";" = false ∧ chr_eqb c zero = false
  ∧ chr_eqb c "." = false.
Proof.
  destruct c as [[] [] [] [] [] [] [] []]; vm_compute; intros H;
    first [discriminate H | done].
Qed.

Lemma isalnum_no_space c : isdigit c || isalpha c = true → isspace c = false.
Proof.
  destruct c as [[] [] [] [] [] [] [] []]; vm_compute; intros H;
    first [discriminate H | done].
Qed.

Lemma isspace_plain c :
  isspace c = true → chr_eqb c ";" = false ∧ chr_eqb c "." = false.
Proof.
  destruct c as [[] [] [] [] [] [] [] []]; vm_compute; intros H;
    first [discriminate H | done].
Qed.

Lemma all_alnum_no_space a : all_alnum a = true → no_space a = true.
Proof.
  induction a as [|c a IH]; [done|]. simpl. intros H.
  apply andb_prop in H as [Hc Ha]. rewrite (isalnum_no_space c Hc). by rewrite IH.
Qed.

Lemma delete_white_space v rest :
  all_space v = true → delete_white (v +:+ rest) = delete_white rest.
Proof.
  induction v as [|c v IH]; [done|]. simpl. intros H.
  apply andb_prop in H as [Hc Hv]. rewrite ?string_app_cons. simpl.
  rewrite Hc. by apply IH.
Qed.

Lemma delete_white_stop r : isspace (deref r) = false → delete_white r = r.
Proof. destruct r as [|c r]; [done|]. simpl. by intros ->. Qed.

Lemma copy_chars_word a : ∀ b room,
  no_space a = true → (String.length a ≤ room)%nat →
  copy_chars room (a +:+ b) = a +:+ copy_chars (room - String.length a) b.
Proof.
  induction a as [|c a IH]; intros b room Ha Hroom.
  - simpl. by rewrite Nat.sub_0_r.
  - destruct room as [|room]; [simpl in Hroom; lia|].
    simpl in Ha. apply andb_prop in Ha as [Hc Ha]. apply negb_true_iff in Hc.
    rewrite !string_app_cons. cbn [copy_chars String.length Nat.sub]. rewrite Hc.
    rewrite IH by (simpl in Hroom; done || lia). done.
Qed.

Lemma copy_chars_space room b :
  b = EmptyString ∨ isspace (deref b) = true → copy_chars room b = EmptyString.
Proof.
  destruct room as [|room]; [done|].
  intros [->|Hb]; [done|]. destruct b as [|c b]; [done|]. simpl in *. by rewrite Hb.
Qed.

Lemma advance_app a b : advance (String.length a) (a +:+ b) = b.
Proof. induction a as [|c a IH]; [by destruct b|]. by rewrite string_app_cons. Qed.

Lemma last_char_app a c : last_char (a +:+ String c EmptyString) = c.
Proof.
  induction a as [|d a IH]; [done|]. rewrite string_app_cons.
  cbn [last_char]. destruct (a +:+ String c EmptyString) eqn:Heq; [|done].
  by destruct a.
Qed.

Lemma but_last_app a c : but_last (a +:+ String c EmptyString) = a.
Proof.
  induction a as [|d a IH]; [done|]. rewrite string_app_cons.
  cbn [but_last]. destruct (a +:+ String c EmptyString) eqn:Heq.
  - by destruct a.
  - by rewrite IH.
Qed.

Lemma string_app_nil a : a +:+ EmptyString = a.
Proof. induction a as [|c a IH]; [done|]. by rewrite string_app_cons, IH. Qed.

(** A valid label: what [is_valid_label] checked of its characters, and
    the state it left as it was. *)
Lemma is_valid_label_true lbl state s :
  (is_valid_label lbl state s).1 = true →
  isalpha (deref lbl) = true ∧ no_space lbl = true ∧ lbl ≠ EmptyString
  ∧ is_valid_label lbl state s = (true, s).
Proof.
  unfold is_valid_label.
  destruct (isalpha (deref lbl)) eqn:Halpha; cbn [negb]; [|by destruct s].
  destruct (all_alnum (advance 1 lbl)) eqn:Halnum; cbn [negb]; [|by destruct s].
  unfold bind, gets, ret. cbv beta.
  destruct (match first_named lbl (label_set s) with Some _ => _ | None => _ end);
    [by destruct s|].
  destruct (is_reg_name lbl); [by destruct s|].
  destruct (is_reserved_word lbl); [by destruct s|].
  destruct (find_macro state lbl); [by destruct s|].
  intros _. split; [done|]. split; [|split; [|done]].
  - destruct lbl as [|c l]; [done|]. simpl in *.
    destruct (isalpha_plain c Halpha) as [-> _]. simpl.
    by apply all_alnum_no_space.
  - by intros ->.
Qed.

(** *** The line of a declaration *)

Section Declaration.

Variables (directive t : string).
Hypothesis Hdirective : directive = "entry" ∨ directive = "extern".
Hypothesis Htail : t = EmptyString ∨ isspace (deref t) = true.

Abbreviation plain := ("." +:+ directive +:+ t).

Lemma directive_no_space : no_space directive = true.
Proof. by destruct Hdirective as [-> | ->]. Qed.

Lemma directive_length : (String.length directive ≤ 6)%nat.
Proof. destruct Hdirective as [-> | ->]; simpl; lia. Qed.

Lemma plain_word : copy_first_word plain (WORD_LEN + 2) = "." +:+ directive.
Proof.
  unfold copy_first_word.
  change ("." +:+ directive +:+ t) with (("." +:+ directive) +:+ t).
  rewrite copy_chars_word.
  - rewrite copy_chars_space by done. apply string_app_nil.
  - change (no_space ("." +:+ directive)) with (no_space directive).
    apply directive_no_space.
  - pose proof directive_length. rewrite string_length_app. unfold WORD_LEN. simpl. lia.
Qed.

Lemma directive_word : copy_first_word (directive +:+ t) (WORD_LEN + 2) = directive.
Proof.
  unfold copy_first_word. rewrite copy_chars_word.
  - rewrite copy_chars_space by done. apply string_app_nil.
  - apply directive_no_space.
  - pose proof directive_length. unfold WORD_LEN. simpl. lia.
Qed.

Lemma directive_starts : chr_eqb (deref (directive +:+ t)) zero = false.
Proof. by destruct Hdirective as [-> | ->]. Qed.

Lemma plain_not_label :
  (1 <=? String.length ("." +:+ directive))%nat
  && chr_eqb (last_char ("." +:+ directive)) ":" = false.
Proof. by destruct Hdirective as [-> | ->]. Qed.

(** What [first_pass] does of a line once it stands at its period, the
    label, if any, being read. *)
Lemma after_label (s : pass_state) :
  (if (String.length plain =? 0)%nat then
     raise ;; report "No content after label" ;; ret 0
   else if chr_eqb (deref plain) "." then
     let line_p := advance 1 plain in
     if chr_eqb (deref line_p) zero then
       raise ;; report "No command and parameters" ;; ret 0
     else
       let first_word := copy_first_word line_p (WORD_LEN + 2) in
       if streq first_word "entry" then entry_branch line_p
       else if streq first_word "extern" then extern_branch line_p
       else if isspace (deref line_p) then
         raise ;; report "There is a blank character after the period" ;; ret 0
       else
         let* r := define_label DATA in
         if r =? FATAL_ERROR then ret FATAL_ERROR else dispatch DATA line_p
   else
     let after_word : ascii := zero in
     if chr_eqb after_word ":" || there_is_colon plain then
       raise ;; report "Invalid label length" ;; ret 0
     else
       let* r := define_label INS in
       if r =? FATAL_ERROR then ret FATAL_ERROR else dispatch INS plain) s
  = declaration directive (directive +:+ t) s.
Proof.
  change (String.length plain =? 0)%nat with false.
  change (chr_eqb (deref plain) ".") with true.
  change (advance 1 plain) with (directive +:+ t).
  cbv zeta iota. rewrite directive_starts, directive_word.
  unfold declaration. by destruct Hdirective as [-> | ->].
Qed.

(** The line without a label. *)
Lemma scan_line_plain state v s :
  all_space v = true →
  scan_line state (v +:+ plain) s = declaration directive (directive +:+ t) s.
Proof.
  intros Hv. rewrite <- after_label. unfold scan_line.
  assert (chr_eqb (deref (v +:+ plain)) ";" = false) as ->.
  { destruct v as [|c v]; [done|]. simpl in Hv. apply andb_prop in Hv as [Hc _].
    rewrite string_app_cons. simpl. by destruct (isspace_plain c Hc). }
  cbv zeta. rewrite delete_white_space by done.
  rewrite (delete_white_stop plain) by done.
  change (chr_eqb (deref plain) ";") with false.
  change (chr_eqb (deref plain) zero) with false.
  cbv iota. rewrite plain_word, plain_not_label.
  unfold bind at 1. unfold ret at 1. reflexivity.
Qed.

(** The line with a label. *)
Lemma scan_line_labelled state lead lbl w s :
  all_space lead = true →
  (is_valid_label lbl state s).1 = true →
  (String.length lbl ≤ WORD_LEN)%nat →
  w ≠ EmptyString → all_space w = true →
  scan_line state (lead +:+ lbl +:+ ":" +:+ w +:+ plain) s
  = declaration directive (directive +:+ t) (set_label_flag true (set_label lbl s)).
Proof.
  intros Hlead Hvalid Hlen Hw Hspace. rewrite <- after_label.
  destruct (is_valid_label_true lbl state s Hvalid) as (Halpha & Hword & Hname & Hsame).
  destruct (isalpha_plain _ Halpha) as (Hnot_space & Hnot_semi & Hnot_zero & _).
  set (rest := w +:+ plain).
  assert (rest = EmptyString ∨ isspace (deref rest) = true) as Hrest.
  { right. unfold rest. destruct w as [|c w]; [done|]. simpl in Hspace.
    apply andb_prop in Hspace as [Hc _]. by rewrite string_app_cons. }
  assert (deref (lbl +:+ ":" +:+ rest) = deref lbl) as Hfirst
    by (destruct lbl; [done|by rewrite string_app_cons]).
  unfold scan_line.
  assert (chr_eqb (deref (lead +:+ lbl +:+ ":" +:+ rest)) ";" = false) as ->.
  { destruct lead as [|c v].
    - change (EmptyString +:+ lbl +:+ ":" +:+ rest) with (lbl +:+ ":" +:+ rest).
      by rewrite Hfirst.
    - simpl in Hlead. apply andb_prop in Hlead as [Hc _].
      rewrite string_app_cons. simpl. by destruct (isspace_plain c Hc). }
  cbv zeta. rewrite delete_white_space by done.
  rewrite (delete_white_stop (lbl +:+ ":" +:+ rest)) by (by rewrite Hfirst).
  rewrite Hfirst, Hnot_semi, Hnot_zero. cbv iota.
  assert (copy_first_word (lbl +:+ ":" +:+ rest) (WORD_LEN + 2) = lbl +:+ ":") as ->.
  { unfold copy_first_word. rewrite copy_chars_word; [|done|unfold WORD_LEN in *; simpl; lia].
    f_equal. unfold WORD_LEN in *.
    destruct (30 + 2 - 1 - String.length lbl)%nat as [|room] eqn:Hroom; [simpl in Hroom; lia|].
    rewrite string_app_cons. cbn [copy_chars].
    change (isspace ":") with false. cbv iota.
    change (EmptyString +:+ rest) with rest. by rewrite copy_chars_space. }
  rewrite last_char_app, but_last_app, string_length_app.
  assert ((1 <=? String.length lbl + String.length ":")%nat && chr_eqb ":" ":" = true) as ->.
  { rewrite andb_true_r. apply Nat.leb_le. simpl. lia. }
  assert (delete_white (advance (String.length lbl + String.length ":")
                          (lbl +:+ ":" +:+ rest)) = plain) as ->.
  { rewrite <- string_length_app, <- string_app_assoc, advance_app.
    unfold rest. rewrite delete_white_space by done. by apply delete_white_stop. }
  unfold bind at 1. unfold bind at 1. unfold modify at 1.
  unfold bind at 1. unfold gets at 1.
  assert (label (set_label lbl s) = lbl) as -> by (by destruct s).
  unfold bind at 1.
  rewrite (ignores_label_is_valid_label lbl state lbl s), Hsame. cbn [fst snd].
  unfold bind at 1. unfold modify at 1. unfold ret at 1. reflexivity.
Qed.

End Declaration.

Lemma all_space_app a b : all_space a = true → all_space b = true → all_space (a +:+ b) = true.
Proof.
  induction a as [|c a IH]; [done|]. simpl. intros Ha Hb.
  apply andb_prop in Ha as [Hc Ha]. rewrite ?string_app_cons. simpl.
  rewrite Hc. by apply IH.
Qed.

(** C10. Take a line made of a label that [is_valid_label] accepts, of
    at most 30 characters, a colon, white space, and [.entry] or
    [.extern] followed by the end of the line or by white space and
    anything. The first pass ends the line with the same code, the same
    symbol table, the same counters and images, the same pending
    references, the same error flag and the same diagnostics as for the
    line with the label and its colon taken out: the two states differ by
    the buffer that holds the label read and by nothing else. The flag
    that makes a later line enter a label in the table is clear. *)
Theorem C10_label_before_declaration_discarded state s lead lbl w directive t :
  directive = "entry" ∨ directive = "extern" →
  t = EmptyString ∨ isspace (deref t) = true →
  all_space lead = true →
  (is_valid_label lbl state s).1 = true →
  (String.length lbl ≤ WORD_LEN)%nat →
  isspace (deref w) = true → all_space w = true →
  let with_label :=
    scan_line state (lead +:+ lbl +:+ ":" +:+ w +:+ "." +:+ directive +:+ t) s in
  let without := scan_line state (lead +:+ w +:+ "." +:+ directive +:+ t) s in
  with_label.1 = without.1
  ∧ with_label.2 = set_label lbl without.2
  ∧ label_set with_label.2 = label_set without.2
  ∧ ic with_label.2 = ic without.2 ∧ dc with_label.2 = dc without.2
  ∧ ins_set with_label.2 = ins_set without.2
  ∧ dataset with_label.2 = dataset without.2
  ∧ pending_refs with_label.2 = pending_refs without.2
  ∧ error with_label.2 = error without.2
  ∧ stderr with_label.2 = stderr without.2
  ∧ label_flag with_label.2 = false.
Proof.
  intros Hdirective Htail Hlead Hvalid Hlen Hw Hspace with_label without.
  assert (w ≠ EmptyString) as Hsome by (by intros ->).
  assert (with_label
          = declaration directive (directive +:+ t)
              (set_label_flag true (set_label lbl s))) as Hwith
    by (by apply scan_line_labelled).
  assert (without = declaration directive (directive +:+ t) s) as Hwithout.
  { unfold without. rewrite <- string_app_assoc.
    apply scan_line_plain; [done|done|by apply all_space_app]. }
  rewrite declaration_flag, ignores_label_declaration in Hwith.
  rewrite <- Hwithout in Hwith. rewrite Hwith. cbn [fst snd].
  split; [done|]. split; [done|].
  assert (label_flag without.2 = false) as Hflag
    by (rewrite Hwithout; apply declaration_flag_off).
  by destruct (without.2).
Qed.

Lemma C10_label_before_declaration_discarded_witness :
  label_set (scan_line [] ("L: .entry X" +:+ nl) second_line).2
  = label_set (scan_line [] (" .entry X" +:+ nl) second_line).2.
Proof.
  assert (isspace (deref (" X" +:+ nl)) = true) as Htail by reflexivity.
  assert (String.length "L" ≤ WORD_LEN)%nat as Hlen by (unfold WORD_LEN; simpl; lia).
  exact (proj1 (proj2 (proj2
    (C10_label_before_declaration_discarded [] second_line EmptyString "L" " " "entry"
       (" X" +:+ nl) (or_introl eq_refl) (or_intror Htail) eq_refl eq_refl Hlen
       eq_refl eq_refl)))).
Defined.

(** *** A comma after the dimensions *)

Lemma skip_space_app s x :
  skip_space s ≠ EmptyString → skip_space (s +:+ x) = skip_space s +:+ x.
Proof.
  induction s as [|c s IH]; [done|]. rewrite string_app_cons. cbn [skip_space].
  destruct (isspace c); [exact IH|]. intros _. by rewrite string_app_cons.
Qed.

Lemma digits_app s x : ∀ acc v c e,
  digits acc s = (v, String c e) → digits acc (s +:+ x) = (v, String c e +:+ x).
Proof.
  induction s as [|d s IH]; intros acc v c e; [done|].
  rewrite string_app_cons. cbn [digits]. destruct (isdigit d); [apply IH|].
  intros [= <- <- <-]. by rewrite string_app_cons.
Qed.

(** [strtol] that stopped at a character reads the same number when
    more text follows. *)
Lemma strtol_app s x v c e :
  strtol s = (v, String c e, true) → strtol (s +:+ x) = (v, String c e +:+ x, true).
Proof.
  unfold strtol.
  destruct (skip_space s) as [|c1 s1] eqn:Hskip; [done|].
  rewrite skip_space_app by (by rewrite Hskip). rewrite Hskip, string_app_cons.
  assert (∀ (neg : bool) (s2 : string),
            (if isdigit (deref s2)
             then let '(v0, e0) := digits 0 s2 in
                  (clamp_long (if neg then - v0 else v0), e0, true)
             else (0, s, false)) = (v, String c e, true) →
            (if isdigit (deref (s2 +:+ x))
             then let '(v0, e0) := digits 0 (s2 +:+ x) in
                  (clamp_long (if neg then - v0 else v0), e0, true)
             else (0, s +:+ x, false)) = (v, String c e +:+ x, true)) as Hnum.
  { intros neg s2. destruct s2 as [|d s2]; [done|]. rewrite string_app_cons.
    cbn [deref]. destruct (isdigit d) eqn:Hd; [|done].
    rewrite <- string_app_cons.
    destruct (digits 0 (String d s2)) as [v0 e0] eqn:Hdigits. intros [= <- ->].
    by rewrite (digits_app _ x _ _ _ _ Hdigits). }
  destruct c1 as [[] [] [] [] [] [] [] []]; try apply (Hnum false (String _ s1));
    first [apply (Hnum true s1) | apply (Hnum false s1)].
Qed.

Lemma all_space_starts v : v ≠ EmptyString → all_space v = true → isspace (deref v) = true.
Proof. destruct v as [|c v]; [done|]. simpl. intros _ H. by apply andb_prop in H as [-> _]. Qed.

Lemma deref_app s x : s ≠ EmptyString → deref (s +:+ x) = deref s.
Proof. destruct s; [done|]. by rewrite string_app_cons. Qed.

Lemma advance_1_app s x : s ≠ EmptyString → advance 1 (s +:+ x) = advance 1 s +:+ x.
Proof. destruct s; [done|]. by rewrite string_app_cons. Qed.

(** A definition that [check_mat_def] accepts is refused once a
    character follows it. *)
Lemma check_mat_def_followed d rows cols s c w :
  (check_mat_def d DATA 0 0 s).1 = (0, rows, cols) →
  check_mat_def (d +:+ String c w) DATA 0 0 s
  = (ERROR_OCCURRED, rows, cols,
     set_stderr
       (stderr s ++ [(line_count s, "An extra character appears after a matrix definition")])
       s).
Proof.
  unfold check_mat_def.
  destruct (decide (DATA = INS)) as [Hkind|_]; [discriminate Hkind|].
  destruct d as [|c0 d]; [by destruct s|].
  rewrite string_app_cons. cbn [deref advance].
  destruct (chr_eqb c0 "["); cbn [negb]; [|by destruct s].
  destruct (strtol d) as [[row ptr1] converted] eqn:Hrow.
  destruct converted; cbn [negb]; [|by destruct s].
  destruct ptr1 as [|c1 ptr1]; [by destruct s|].
  rewrite (strtol_app d (String c w) row c1 ptr1 Hrow).
  rewrite string_app_cons. cbn [deref advance].
  destruct (chr_eqb c1 "]"); cbn [negb]; [|by destruct s].
  destruct (chr_eqb c1 zero); [by destruct s|].
  destruct ptr1 as [|c2 ptr1]; [by destruct s|].
  rewrite string_app_cons. cbn [deref advance].
  destruct (chr_eqb c2 "["); cbn [negb]; [|by destruct s].
  destruct (strtol ptr1) as [[col ptr2] converted] eqn:Hcol.
  destruct converted; cbn [negb]; [|by destruct s].
  destruct ptr2 as [|c3 ptr2]; [by destruct s|].
  rewrite (strtol_app ptr1 (String c w) col c3 ptr2 Hcol).
  rewrite string_app_cons. cbn [deref advance].
  destruct (chr_eqb c3 "]"); cbn [negb]; [|by destruct s].
  destruct ptr2 as [|c4 ptr2]; [|by destruct s].
  change (EmptyString +:+ String c w) with (String c w). cbv iota.
  destruct ((row >? INT_MAX) || (row <? 0)); [by destruct s|].
  destruct ((col >? INT_MAX) || (col <? 0)); [by destruct s|].
  intros [= <- <-]. unfold bind, report, report_error_pass, gets, modify, ret.
  by destruct s.
Qed.

(** C8.  The claim, and the comment of [mat_cmd], which gives the form
    of the directive as [[r][c], v1, v2, ...], fail on the code: a comma
    after the dimensions is refused and no value is stored.  The line
    [M: .mat [2][3], 1, 2, 3] of the claim leaves the data image empty
    and [dc] at 0, with an error.  In general, take a definition that
    [check_mat_def] accepts, written without white space in fewer than 30
    characters.  With a comma right after it, the comma is read as a
    character of the definition: [mat_cmd] returns 0, the error flag is
    set, [An extra character appears after a matrix definition] is
    printed and the data image and [dc] are as they were.  With white
    space between the two, for a matrix that is not of size zero, the
    comma is read as the first parameter: [There is a comma before
    parameters] is printed instead, to the same effect. *)
Theorem C8_comma_after_dimensions_refused :
  (let r := run_lines [] ("M: .mat [2][3], 1, 2, 3" +:+ nl) false in
   dataset r.2 = [] ∧ dc r.2 = 0 ∧ error r.2 = true
   ∧ stderr r.2 = [(1, "An extra character appears after a matrix definition")])
  ∧ (let r := run_lines [] ("M: .mat [2][3] , 1, 2, 3" +:+ nl) false in
     dataset r.2 = [] ∧ dc r.2 = 0 ∧ error r.2 = true
     ∧ stderr r.2 = [(1, "There is a comma before parameters")])
  ∧ ∀ (d tail : string) (rows cols : Z) (s : pass_state),
      (check_mat_def d DATA 0 0 s).1 = (0, rows, cols) →
      no_space d = true → (String.length d < WORD_LEN)%nat →
      (let r := mat_cmd (d +:+ String "," tail) s in
       r.1 = 0 ∧ dataset r.2 = dataset s ∧ dc r.2 = dc s ∧ error r.2 = true
       ∧ stderr r.2
         = stderr s
           ++ [(line_count s, "An extra character appears after a matrix definition")])
      ∧ ∀ gap, gap ≠ EmptyString → all_space gap = true → int_wrap (rows * cols) ≠ 0 →
          let r := mat_cmd (d +:+ gap +:+ String "," tail) s in
          r.1 = 0 ∧ dataset r.2 = dataset s ∧ dc r.2 = dc s ∧ error r.2 = true
          ∧ stderr r.2 = stderr s ++ [(line_count s, "There is a comma before parameters")].
Proof.
  split; [vm_compute; done|]. split; [vm_compute; done|].
  intros d tail rows cols s Hdef Hword Hlen. split.
  - assert (copy_first_word (d +:+ String "," tail) (WORD_LEN + 1)
            = d +:+ String "," (copy_chars (WORD_LEN + 1 - 1 - String.length d - 1) tail))
      as Hfirst.
    { unfold copy_first_word.
      rewrite copy_chars_word by (done || unfold WORD_LEN in *; simpl; lia).
      destruct (WORD_LEN + 1 - 1 - String.length d)%nat as [|room] eqn:Hroom;
        [unfold WORD_LEN in *; simpl in Hroom; lia|].
      cbn [copy_chars]. change (isspace ",") with false. cbv iota.
      by replace (S room - 1)%nat with room by lia. }
    assert (mat_cmd (d +:+ String "," tail) s
            = (0, set_error true
                    (set_stderr
                       (stderr s ++ [(line_count s,
                          "An extra character appears after a matrix definition")])
                       s))) as ->.
    { unfold mat_cmd. rewrite Hfirst. unfold bind at 1.
      rewrite (check_mat_def_followed d rows cols s _ _ Hdef). by destruct s. }
    by destruct s.
  - intros gap Hgap Hblank Hsize.
    pose proof (check_mat_def_success d DATA 0 0 s rows cols Hdef) as (Hsame & _ & _).
    assert (copy_first_word (d +:+ gap +:+ String "," tail) (WORD_LEN + 1) = d) as Hfirst.
    { unfold copy_first_word.
      rewrite copy_chars_word by (done || unfold WORD_LEN in *; simpl; lia).
      rewrite copy_chars_space; [apply string_app_nil|].
      right. rewrite deref_app by done. by apply all_space_starts. }
    assert (mat_cmd (d +:+ gap +:+ String "," tail) s
            = (0, set_stderr
                    (stderr s ++ [(line_count s, "There is a comma before parameters")])
                    (set_error true s))) as ->.
    { unfold mat_cmd. rewrite Hfirst. unfold bind at 1. rewrite Hsame.
      change (0 =? ERROR_OCCURRED) with false. cbv iota.
      apply Z.eqb_neq in Hsize. rewrite Hsize.
      rewrite advance_app, delete_white_space by done.
      cbn [delete_white]. change (isspace ",") with false. cbv iota.
      unfold bind, is_valid_commas, commas_loop, raise, report, report_error_pass,
        gets, modify, ret.
      change (chr_eqb "," ",") with true. cbn [negb fst snd]. by destruct s. }
    by destruct s.
Qed.

Lemma C8_comma_after_dimensions_refused_witness :
  (check_mat_def "[2][3]" DATA 0 0 mat_state).1 = (0, 2, 3)
  ∧ dataset (mat_cmd ("[2][3]" +:+ String "," (" 1, 2, 3" +:+ nl)) mat_state).2 = []
  ∧ stderr (mat_cmd ("[2][3]" +:+ String "," (" 1, 2, 3" +:+ nl)) mat_state).2
    = [(1, "An extra character appears after a matrix definition")].
Proof.
  assert (String.length "[2][3]" < WORD_LEN)%nat as Hlen
    by (unfold WORD_LEN; simpl; lia).
  destruct (proj1 (proj2 (proj2 C8_comma_after_dimensions_refused) "[2][3]"
                     (" 1, 2, 3" +:+ nl) 2 3 mat_state eq_refl eq_refl Hlen))
    as (_ & Hdata & _ & _ & Hprinted).
  split; [reflexivity|]. split; [exact Hdata|exact Hprinted].
Defined.

(** * Further properties of the code *)

(** ** Base-4 output *)

Lemma base4_low n : ∀ v out, 0 ≤ v → base4 n v out = base4 n (v mod 4 ^ Z.of_nat n) out.
Proof.
  induction n as [|n IH]; intros v out Hv; [done|].
  cbn [base4]. rewrite Nat2Z.inj_succ, Z.pow_succ_r by lia.
  assert (0 < 4 ^ Z.of_nat n) as Hpow by (apply Z.pow_pos_nonneg; lia).
  rewrite (Z.rem_mul_r v 4 (4 ^ Z.of_nat n)) by lia.
  pose proof (Z.mod_pos_bound v 4 ltac:(lia)) as Hlow.
  pose proof (Z.mod_pos_bound (v / 4) (4 ^ Z.of_nat n) Hpow) as Hhigh.
  replace ((v mod 4 + 4 * ((v / 4) mod 4 ^ Z.of_nat n)) mod 4) with (v mod 4).
  2:{ rewrite (Z.mul_comm 4), Z.mod_add by lia. by rewrite Z.mod_mod by lia. }
  replace ((v mod 4 + 4 * ((v / 4) mod 4 ^ Z.of_nat n)) / 4)
    with ((v / 4) mod 4 ^ Z.of_nat n).
  2:{ rewrite (Z.mul_comm 4), Z.div_add by lia.
      rewrite (Z.div_small (v mod 4)) by lia. lia. }
  rewrite (IH (v / 4)) by (apply Z.div_pos; lia).
  rewrite (IH ((v / 4) mod 4 ^ Z.of_nat n)) by lia.
  by rewrite Z.mod_mod by lia.
Qed.

Lemma base4_writes_digits n : ∀ v out,
  base4_digits out = true → base4_digits (base4 n v out) = true.
Proof.
  induction n as [|n IH]; intros v out Hout; [done|].
  cbn [base4]. apply IH. cbn [base4_digits]. rewrite Hout, andb_true_r.
  unfold QUAD_DIGITS. by repeat (destruct (_ =? _)).
Qed.

(** X1. Whatever the integer, [to_base4_addr] writes four characters
    and [to_base4_word] five, each of them one of the digits [a], [b],
    [c] and [d]. Read back in base 4, with [a] for 0 and [d] for 3, the
    address is the value modulo 256, a negative value being written as
    0; the word is the value modulo 1024, so that a negative word is
    written in two's complement on ten bits. *)
Theorem X1_base4_round_trip (v : Z) :
  String.length (to_base4_addr v) = 4%nat
  ∧ base4_digits (to_base4_addr v) = true
  ∧ base4_value 0 (to_base4_addr v) = Z.max 0 v mod 256
  ∧ String.length (to_base4_word v) = 5%nat
  ∧ base4_digits (to_base4_word v) = true
  ∧ base4_value 0 (to_base4_word v) = v mod 1024.
Proof.
  assert (base4_digits (to_base4_addr v) = true) as Hdigits_addr
    by (by apply base4_writes_digits).
  assert (base4_digits (to_base4_word v) = true) as Hdigits_word
    by (by apply base4_writes_digits).
  assert (String.length (to_base4_addr v) = 4%nat
          ∧ base4_value 0 (to_base4_addr v) = Z.max 0 v mod 256
          ∧ String.length (to_base4_word v) = 5%nat
          ∧ base4_value 0 (to_base4_word v) = v mod 1024) as (H1 & H2 & H3 & H4);
    [|done].
  assert (to_base4_addr v = to_base4_addr (Z.max 0 v mod 256)) as Haddr.
  { unfold to_base4_addr.
    pose proof (Z.mod_pos_bound (Z.max 0 v) 256 ltac:(lia)) as Hbound.
    assert ((Z.max 0 v mod 256 <? 0) = false) as -> by (apply Z.ltb_ge; lia).
    replace (if v <? 0 then 0 else v) with (Z.max 0 v)
      by (destruct (v <? 0) eqn:Hv; [apply Z.ltb_lt in Hv|apply Z.ltb_ge in Hv]; lia).
    rewrite (base4_low _ (Z.max 0 v)) by lia.
    rewrite (base4_low _ (Z.max 0 v mod 256)) by lia.
    change (4 ^ Z.of_nat ADDR_BASE4_DIGITS) with 256. by rewrite Z.mod_mod. }
  assert (to_base4_word v = to_base4_word (v mod 1024)) as Hword.
  { unfold to_base4_word, WORD_MASK. change 1023 with (Z.ones 10).
    rewrite !Z.land_ones by lia. change (2 ^ 10) with 1024. by rewrite Z.mod_mod. }
  rewrite Haddr, Hword.
  destruct (to_base4_addr_value (Z.max 0 v mod 256)) as [-> ->];
    [apply Z.mod_pos_bound; lia|].
  destruct (to_base4_word_value (v mod 1024)) as [-> ->];
    [apply Z.mod_pos_bound; lia|].
  done.
Qed.

(** ** Paths of the outputs *)

Lemma substring_length s : ∀ n, (String.length (String.substring 0 n s) ≤ n)%nat.
Proof.
  induction s as [|c s IH]; intros [|n]; simpl; try lia.
  specialize (IH n). lia.
Qed.

(** X2. [build_path] never writes more than the 511 characters its
    buffer holds, whatever the base name. When the base name, a period
    and the extension fit, the path is the three put together, and the
    paths of [.ob], [.ent] and [.ext] of one base name differ from each
    other. *)
Theorem X2_build_path (basename extension : string) :
  (String.length (path_of basename extension) ≤ 511)%nat
  ∧ ((String.length basename + 1 + String.length extension < 512)%nat →
     path_of basename extension = basename +:+ "." +:+ extension)
  ∧ ((String.length basename < 508)%nat →
     path_of basename "ob" ≠ path_of basename "ent"
     ∧ path_of basename "ob" ≠ path_of basename "ext"
     ∧ path_of basename "ent" ≠ path_of basename "ext").
Proof.
  split; [|split; [apply path_of_short|apply paths_distinct]].
  unfold path_of, build_path. cbv zeta.
  pose proof (substring_length basename (512 - 1)) as Hcut.
  set (dst := String.substring 0 (512 - 1) basename) in *.
  destruct (String.length dst + 1 <? 512)%nat eqn:Hdot.
  - apply Nat.ltb_lt in Hdot.
    destruct (String.length (dst +:+ ".") + String.length extension <? 512)%nat eqn:Hext.
    + apply Nat.ltb_lt in Hext. rewrite string_length_app. lia.
    + rewrite string_length_app. simpl. lia.
  - destruct (String.length dst + String.length extension <? 512)%nat eqn:Hext.
    + apply Nat.ltb_lt in Hext. rewrite string_length_app. lia.
    + simpl in Hcut. lia.
Qed.

Lemma X2_build_path_witness :
  path_of "prog" "ob" = "prog.ob" ∧ path_of "prog" "ob" ≠ path_of "prog" "ent".
Proof.
  split.
  - apply (proj1 (proj2 (X2_build_path "prog" "ob"))). simpl. lia.
  - apply (proj2 (proj2 (X2_build_path "prog" "ob"))). simpl. lia.
Defined.

(** ** The symbol table *)

Lemma find_label_first labels nm l :
  find_label labels nm = Some l →
  ∃ before after, labels = before ++ l :: after ∧ l_name l = nm
                  ∧ ∀ l', l' ∈ before → l_name l' ≠ nm.
Proof.
  induction labels as [|l0 r IH]; simpl; [done|].
  destruct (streq (l_name l0) nm) eqn:Heq.
  - intros [= <-]. exists [], r. split; [done|]. split; [by apply String.eqb_eq|].
    intros l' Hin. by apply elem_of_nil in Hin.
  - intros Hfind. destruct (IH Hfind) as (before & after & -> & Hname & Hbefore).
    exists (l0 :: before), after. split; [done|]. split; [done|].
    intros l' Hin. apply elem_of_cons in Hin as [->|Hin]; [|by apply Hbefore].
    by apply String.eqb_neq.
Qed.

Lemma find_label_none labels nm :
  find_label labels nm = None ↔ ∀ l, l ∈ labels → l_name l ≠ nm.
Proof.
  induction labels as [|l0 r IH]; simpl.
  - split; [|done]. intros _ l Hin. by apply elem_of_nil in Hin.
  - destruct (streq (l_name l0) nm) eqn:Heq.
    + split; [done|]. intros Hall. apply String.eqb_eq in Heq.
      by destruct (Hall l0 ltac:(left)).
    + rewrite IH. apply String.eqb_neq in Heq. split.
      * intros Hall l Hin. apply elem_of_cons in Hin as [->|Hin]; [done|by apply Hall].
      * intros Hall l Hin. apply Hall. by right.
Qed.

Lemma is_label_name_find nm labels :
  is_label_name nm labels = true ↔ is_Some (find_label labels nm).
Proof.
  induction labels as [|l0 r IH]; simpl.
  - split; [done|]. by intros [? ?].
  - unfold streq in *. rewrite (String.eqb_sym nm).
    destruct (String.eqb (l_name l0) nm); [|done]. split; [by eexists|done].
Qed.

(** X3. [find_label] returns the first slot of the table that has the
    name, and nothing when no slot has it; [is_label_name], the test of
    the first pass, says yes for exactly the names that [find_label], the
    lookup of the second pass, finds. *)
Theorem X3_find_label (labels : list Label) (nm : string) :
  (∀ l, find_label labels nm = Some l →
        ∃ before after, labels = before ++ l :: after ∧ l_name l = nm
                        ∧ ∀ l', l' ∈ before → l_name l' ≠ nm)
  ∧ (find_label labels nm = None ↔ ∀ l, l ∈ labels → l_name l ≠ nm)
  ∧ (is_label_name nm labels = true ↔ is_Some (find_label labels nm)).
Proof.
  split; [intros l; apply find_label_first|].
  split; [apply find_label_none|apply is_label_name_find].
Qed.

Lemma X3_find_label_witness :
  ∃ before after,
    [mkLabel "A" 0 INS REGULAR; mkLabel "B" 1 INS REGULAR; mkLabel "B" 2 DATA REGULAR]
    = before ++ mkLabel "B" 1 INS REGULAR :: after
    ∧ l_name (mkLabel "B" 1 INS REGULAR) = "B"
    ∧ ∀ l', l' ∈ before → l_name l' ≠ "B".
Proof.
  exact (proj1 (X3_find_label
                  [mkLabel "A" 0 INS REGULAR; mkLabel "B" 1 INS REGULAR;
                   mkLabel "B" 2 DATA REGULAR] "B")
           (mkLabel "B" 1 INS REGULAR) eq_refl).
Defined.

Lemma finalize_names k d i labels labels' :
  finalize k d i labels = Some labels' →
  l_name <$> labels' = l_name <$> labels ∧ length labels' = length labels.
Proof.
  revert labels'. induction labels as [|l r IH]; intros labels'; simpl; [done|].
  destruct (decide (l_data_or_ins l = UNKNOWN_LABEL_TYPE)).
  - intros [= <-]. done.
  - destruct (finalize k d i r) as [r'|]; [|done]. intros [= <-].
    destruct (IH r' eq_refl) as [Hnames Hlen]. rewrite !fmap_cons, !length_cons.
    by rewrite Hnames, Hlen.
Qed.

Lemma find_label_app_ne labels l nm :
  l_name l ≠ nm → find_label (labels ++ [l]) nm = find_label labels nm.
Proof.
  intros Hne. induction labels as [|l0 r IH]; simpl.
  - by rewrite streq_ne.
  - destruct (streq (l_name l0) nm); [done|exact IH].
Qed.

Lemma find_label_app_new labels l :
  find_label labels (l_name l) = None → find_label (labels ++ [l]) (l_name l) = Some l.
Proof.
  induction labels as [|l0 r IH]; simpl.
  - by rewrite streq_refl.
  - destruct (streq (l_name l0) (l_name l)); [done|exact IH].
Qed.

(** X4. [add_label] returns 0 and changes nothing of the state but the
    table. It never removes or renames a slot: the names of the table
    stay as they were, with the new name added at the end or not at all.
    After the call the name is in the table. For a name that was not in
    the table the new slot is added at the end, a lookup of the name
    finds it, and the lookup of any other name gives what it gave
    before. *)
Theorem X4_add_label (nm : string) (data_or_ins : kind) (ent_or_ext : linkage)
    (s : pass_state) :
  let r := add_label nm data_or_ins ent_or_ext s in
  r.1 = 0
  ∧ r.2 = set_label_set (label_set r.2) s
  ∧ (l_name <$> label_set r.2 = l_name <$> label_set s
     ∨ l_name <$> label_set r.2 = (l_name <$> label_set s) ++ [nm])
  ∧ is_label_name nm (label_set r.2) = true
  ∧ (is_label_name nm (label_set s) = false →
     label_set r.2 = label_set s ++ [new_label s nm data_or_ins ent_or_ext]
     ∧ find_label (label_set r.2) nm = Some (new_label s nm data_or_ins ent_or_ext)
     ∧ ∀ other, other ≠ nm →
         find_label (label_set r.2) other = find_label (label_set s) other).
Proof.
  assert (∀ labels l, is_label_name (l_name l) (labels ++ [l]) = true) as Hlast.
  { intros labels l. induction labels as [|l0 r IH]; simpl.
    - by rewrite streq_refl.
    - by destruct (streq (l_name l) (l_name l0)). }
  assert (∀ labels labels', l_name <$> labels' = l_name <$> labels →
            is_label_name nm labels' = is_label_name nm labels) as Hsame.
  { intros labels. induction labels as [|l0 r IH]; intros [|l1 r']; simpl; try done.
    intros [= Hname Hrest]. rewrite Hname. by rewrite (IH r'). }
  destruct_state s. unfold add_label. setters.
  destruct (is_label_name nm ls0) eqn:Hin.
  - destruct (finalize data_or_ins dc0 ic0 ls0) as [labels'|] eqn:Hfin; cbv zeta; setters.
    + destruct (finalize_names _ _ _ _ _ Hfin) as [Hnames _].
      repeat split; try done; [by left|by rewrite (Hsame ls0)].
    + repeat split; try done.
      * right. by rewrite fmap_app.
      * apply (Hlast ls0 (new_label _ nm data_or_ins ent_or_ext)).
  - cbv zeta; setters. repeat split; try done.
    + right. by rewrite fmap_app.
    + apply (Hlast ls0 (new_label _ nm data_or_ins ent_or_ext)).
    + apply (find_label_app_new ls0 (new_label _ nm data_or_ins ent_or_ext)).
      simpl. apply eq_None_not_Some. rewrite <- is_label_name_find. by rewrite Hin.
    + intros other Hother. by apply find_label_app_ne.
Qed.

Lemma X4_add_label_witness :
  find_label (label_set (add_label "X" INS EXTERNAL second_line).2) "X"
  = Some (mkLabel "X" 0 INS EXTERNAL).
Proof.
  exact (proj1 (proj2 (proj2 (proj2 (proj2 (proj2
    (X4_add_label "X" INS EXTERNAL second_line)))) eq_refl))).
Defined.

Lemma entry_marked_refl w l : entry_marked w l l.
Proof. repeat split; by left. Qed.

Lemma mark_entry_marked w labels : Forall2 (entry_marked w) labels (mark_entry w labels).1.1.
Proof.
  induction labels as [|l r IH]; cbn [mark_entry]; [constructor|].
  assert (Forall2 (entry_marked w) (l :: r) (l :: r)) as Hsame
    by (apply Forall_Forall2_diag, Forall_forall; intros; apply entry_marked_refl).
  destruct (mark_entry w r) as [[r' stop] ext]. cbn [fst snd] in IH.
  destruct (streq w (l_name l)) eqn:Hname.
  - apply String.eqb_eq in Hname.
    destruct (decide (l_ent_or_ext l = EXTERNAL)); [done|].
    destruct (decide (l_data_or_ins l = UNKNOWN_LABEL_TYPE)); [done|].
    cbn [fst snd]. constructor; [|done]. repeat split; try done. by right.
  - cbn [fst snd]. constructor; [apply entry_marked_refl|done].
Qed.

(** The loop over slots at none of which it stops. *)
Lemma mark_entry_through w labels :
  Forall (λ l, ¬ blocks w l) labels →
  mark_entry w labels = (as_entry w <$> labels, false, false).
Proof.
  induction labels as [|l r IH]; intros Hfree; [done|].
  apply Forall_cons in Hfree as [Hl Hr]. cbn [mark_entry]. rewrite (IH Hr).
  rewrite fmap_cons.
  assert (as_entry w l
          = if streq w (l_name l)
            then mkLabel (l_name l) (l_address l) (l_data_or_ins l) ENTRY else l) as ->
    by reflexivity.
  destruct (streq w (l_name l)) eqn:Hname; [|done].
  apply String.eqb_eq in Hname.
  destruct (decide (l_ent_or_ext l = EXTERNAL)) as [Hlink|Hlink];
    [destruct Hl; split; [done|by left]|].
  destruct (decide (l_data_or_ins l = UNKNOWN_LABEL_TYPE)) as [Hkind|Hkind];
    [destruct Hl; split; [done|by right]|].
  done.
Qed.

(** The loop up to the first slot at which it stops. *)
Lemma mark_entry_stops w before l after :
  Forall (λ l, ¬ blocks w l) before → blocks w l →
  mark_entry w (before ++ l :: after)
  = ((as_entry w <$> before) ++ l :: after, true,
     bool_decide (l_ent_or_ext l = EXTERNAL)).
Proof.
  intros Hfree [Hname Hwhy]. induction before as [|l0 r IH].
  - cbn [app fmap list_fmap mark_entry]. subst w. rewrite streq_refl.
    destruct (decide (l_ent_or_ext l = EXTERNAL)) as [Hlink|Hlink].
    + by rewrite bool_decide_eq_true_2.
    + rewrite bool_decide_eq_false_2 by done.
      destruct (decide (l_data_or_ins l = UNKNOWN_LABEL_TYPE)); [done|].
      by destruct Hwhy.
  - apply Forall_cons in Hfree as [Hl0 Hr].
    rewrite <- app_comm_cons. cbn [mark_entry]. rewrite (IH Hr).
    rewrite fmap_cons, <- app_comm_cons.
    assert (as_entry w l0
            = if streq w (l_name l0)
              then mkLabel (l_name l0) (l_address l0) (l_data_or_ins l0) ENTRY else l0)
      as -> by reflexivity.
    destruct (streq w (l_name l0)) eqn:Hname0; [|done].
    apply String.eqb_eq in Hname0.
    destruct (decide (l_ent_or_ext l0 = EXTERNAL)) as [Hlink|Hlink];
      [destruct Hl0; split; [done|by left]|].
    destruct (decide (l_data_or_ins l0 = UNKNOWN_LABEL_TYPE)) as [Hkind|Hkind];
      [destruct Hl0; split; [done|by right]|].
    done.
Qed.

Lemma is_label_name_app w before l after :
  l_name l = w → is_label_name w (before ++ l :: after) = true.
Proof.
  intros <-. induction before as [|l0 r IH]; cbn [app is_label_name].
  - by rewrite streq_refl.
  - by destruct (streq (l_name l) (l_name l0)).
Qed.

(** X5. The loop of the [.entry] branch, for the name [w] of the
    declaration, keeps every slot in its place with its name, its
    address and its kind. It goes through the table up to the first
    slot of the name that is external or still undefined, and stops
    there: the slots of the name before that one have the linkage entry,
    that slot and all the slots after it are as they were, and the flag
    that ends the line is raised. When there is no such slot the loop
    goes through the whole table, every slot of the name has the linkage
    entry and the flag is not raised. The branch, when the loop stopped,
    returns 0 with the table of the loop and nothing else changed but the
    flag of the label; it sets the error flag and prints [A label with
    this name is defined as external] exactly when the slot is
    external. *)
Theorem X5_mark_entry (w : string) (labels : list Label) :
  Forall2 (entry_marked w) labels (mark_entry w labels).1.1
  ∧ (Forall (λ l, ¬ blocks w l) labels →
     mark_entry w labels = (as_entry w <$> labels, false, false))
  ∧ (∀ before l after,
       labels = before ++ l :: after →
       Forall (λ l, ¬ blocks w l) before → blocks w l →
       mark_entry w labels
       = ((as_entry w <$> before) ++ l :: after, true,
          bool_decide (l_ent_or_ext l = EXTERNAL))
       ∧ ∀ line_p s,
           w ≠ EmptyString →
           copy_first_word (delete_white (advance (String.length "entry") line_p))
             (WORD_LEN + 2) = w →
           label_set s = labels →
           entry_branch line_p s
           = (0,
              let s' := set_label_set ((as_entry w <$> before) ++ l :: after)
                          (set_label_flag false s) in
              if bool_decide (l_ent_or_ext l = EXTERNAL) then
                set_stderr
                  (stderr s ++ [(line_count s,
                                 "A label with this name is defined as external")])
                  (set_error true s')
              else s')).
Proof.
  split; [apply mark_entry_marked|]. split; [apply mark_entry_through|].
  intros before l after -> Hfree Hblocks.
  pose proof (mark_entry_stops w before l after Hfree Hblocks) as Hloop.
  split; [exact Hloop|].
  intros line_p s Hname Hword Htable.
  unfold entry_branch. unfold bind at 1. unfold modify at 1. cbv zeta.
  rewrite Hword.
  assert ((String.length w =? 0)%nat = false) as -> by (by destruct w).
  unfold bind at 1. unfold gets at 1. cbn [fst snd].
  assert (label_set (set_label_flag false s) = before ++ l :: after) as ->
    by (rewrite <- Htable; by destruct s).
  rewrite is_label_name_app by (by destruct Hblocks).
  rewrite Hloop. unfold bind at 1. unfold modify at 1. cbn [fst snd].
  destruct (bool_decide (l_ent_or_ext l = EXTERNAL)).
  - unfold bind, raise, report, report_error_pass, gets, modify, ret. cbn [fst snd].
    by destruct s.
  - done.
Qed.

Lemma X5_mark_entry_witness :
  mark_entry "A" entry_table
  = ([mkLabel "A" 0 INS ENTRY; mkLabel "A" 0 INS EXTERNAL; mkLabel "A" 1 INS REGULAR],
     true, true)
  ∧ stderr (entry_branch ("entry A" +:+ nl) entry_state).2
    = [(2, "A label with this name is defined as external")].
Proof.
  assert (Forall (λ l, ¬ blocks "A" l) [mkLabel "A" 0 INS REGULAR]) as Hfree.
  { constructor; [|constructor]. intros [_ [Hlink|Hkind]]; discriminate. }
  assert (blocks "A" (mkLabel "A" 0 INS EXTERNAL)) as Hblocks
    by (split; [reflexivity|by left]).
  assert ("A" ≠ EmptyString) as Hname by discriminate.
  destruct (proj2 (proj2 (X5_mark_entry "A" entry_table))
              [mkLabel "A" 0 INS REGULAR] (mkLabel "A" 0 INS EXTERNAL)
              [mkLabel "A" 1 INS REGULAR] eq_refl Hfree Hblocks) as [Hloop Hbranch].
  split; [exact Hloop|].
  exact (eq_trans
           (f_equal (λ r, stderr r.2)
              (Hbranch ("entry A" +:+ nl) entry_state Hname eq_refl eq_refl))
           eq_refl).
Defined.

(** ** The data directives *)

Lemma with_data_nil s : with_data [] (saved s) s = s.
Proof. unfold with_data. destruct s; setters. rewrite app_nil_r. fields. Qed.

Lemma is_valid_num_invalid t s :
  invalid_data t →
  ∃ msg, is_valid_num t DATA s
         = (INT_MIN, set_stderr (stderr s ++ [(line_count s, msg)]) (set_error true s)).
Proof.
  intros Hbad. unfold is_valid_num.
  destruct (strtol t) as [[num ptr] c] eqn:Hparse.
  destruct ptr as [|ch ptr].
  - destruct ((num >? MAX_NUM_D) || (num <? MIN_NUM_D)) eqn:Hwide.
    + eexists. by destruct s.
    + destruct (Hbad num). split; [by rewrite Hparse|].
      apply orb_false_elim in Hwide as [H1 H2]. lia.
  - eexists. by destruct s.
Qed.

Lemma data_loop_values good : ∀ vs tail s,
  Forall2 valid_data good.*1 vs →
  ic s + dc s + Z.of_nat (length vs) ≤ MEM_AVAIL_WORDS →
  ∃ p, data_loop (good ++ tail) s = data_loop tail (with_data vs p s).
Proof.
  induction good as [|[t e] good IH]; intros vs tail s Hvalid Hroom.
  - inversion Hvalid; subst. exists (saved s). by rewrite with_data_nil.
  - inversion Hvalid as [|? v ? vs' Hv Hrest]; subst. simpl in *.
    unfold bind at 1. unfold modify at 1.
    unfold bind at 1. rewrite (is_valid_num_data _ _ _ Hv), (valid_data_not_INT_MIN _ _ Hv).
    unfold bind at 1.
    rewrite add_data_room by (destruct s; setters; unfold MEM_AVAIL_WORDS in *; lia).
    change (0 =? FATAL_ERROR) with false. cbv iota.
    destruct (IH vs' tail
                (set_dataset (dataset (set_saved e s) ++ [v])
                   (set_dc (dc (set_saved e s) + 1) (set_saved e s))))
      as [p Hloop]; [done|destruct s; setters; lia|].
    exists p. rewrite Hloop. f_equal.
    unfold with_data. destruct s; setters. rewrite <- app_assoc. simpl. fields.
Qed.

(** X6. [data_cmd], for parameters that pass the comma check and with
    room in the memory, reads the tokens in order and adds each valid
    number to the data image as it stands, negative ones included; it
    returns 0. When every token is a valid number nothing else changes.
    At the first token that is not a valid number it stops: the numbers
    before it stay in the image, the error flag is set and one
    diagnostic is printed at the current line. *)
Theorem X6_data_directive (rest : string) (s : pass_state)
    (good tail : list (string * string)) (vs : list Z) :
  tokens COMMA_SPACES (saved s) = good ++ tail →
  Forall2 valid_data good.*1 vs →
  stops_at tail →
  ic s + dc s + Z.of_nat (length vs) ≤ MEM_AVAIL_WORDS →
  (is_valid_commas rest s).1 = true →
  let r := data_cmd rest s in
  r.1 = 0
  ∧ dataset r.2 = dataset s ++ vs ∧ dc r.2 = dc s + Z.of_nat (length vs)
  ∧ ic r.2 = ic s ∧ ins_set r.2 = ins_set s ∧ label_set r.2 = label_set s
  ∧ (tail = [] → error r.2 = error s ∧ stderr r.2 = stderr s)
  ∧ (tail ≠ [] →
     error r.2 = true ∧ ∃ msg, stderr r.2 = stderr s ++ [(line_count s, msg)]).
Proof.
  intros Htoks Hvalid Hstop Hroom Hcommas r.
  apply is_valid_commas_success in Hcommas.
  assert (∃ p, data_cmd rest s = data_loop tail (with_data vs p s)) as [p Hcmd].
  { destruct (data_loop_values good vs tail s Hvalid Hroom) as [p Hloop].
    exists p. unfold data_cmd. unfold bind at 1. rewrite Hcommas. cbn [negb].
    unfold bind at 1. unfold gets at 1. by rewrite Htoks. }
  subst r. rewrite Hcmd. destruct tail as [|[t e] tail].
  - assert (data_loop [] (with_data vs p s) = (0, with_data vs EmptyString s)) as ->.
    { simpl. unfold bind, modify, ret, with_data. destruct s; setters. done. }
    unfold with_data. destruct s; setters. repeat split; done.
  - simpl in Hstop.
    destruct (is_valid_num_invalid t (set_saved e (with_data vs p s)) Hstop)
      as [msg Hnum].
    assert (data_loop ((t, e) :: tail) (with_data vs p s)
            = (0, set_stderr (stderr s ++ [(line_count s, msg)])
                    (set_error true (with_data vs e s)))) as ->.
    { cbn [data_loop]. unfold bind at 1. unfold modify at 1.
      unfold bind at 1. rewrite Hnum.
      change (INT_MIN =? INT_MIN) with true. cbv iota.
      unfold with_data, ret. destruct s; setters. done. }
    unfold with_data. destruct s; setters. repeat split; try done.
    by exists msg.
Qed.

Lemma X6_data_directive_witness :
  dataset (data_cmd ("7, -8, x" +:+ nl) data_state).2 = [7; -8]
  ∧ error (data_cmd ("7, -8, x" +:+ nl) data_state).2 = true.
Proof.
  assert (Forall2 valid_data [("7", " -8, x" +:+ nl); ("-8", " x" +:+ nl)].*1 [7; -8])
    as Hvalid by (repeat constructor; unfold MIN_NUM_D, MAX_NUM_D; lia).
  assert (stops_at [("x", EmptyString)]) as Hstop.
  { intros v [Hparse _]. discriminate Hparse. }
  destruct (X6_data_directive ("7, -8, x" +:+ nl) data_state
              [("7", " -8, x" +:+ nl); ("-8", " x" +:+ nl)] [("x", EmptyString)] [7; -8]
              eq_refl Hvalid Hstop ltac:(unfold MEM_AVAIL_WORDS; simpl; lia) eq_refl)
    as (_ & Hdata & _ & _ & _ & _ & _ & Herr).
  split; [exact Hdata|]. apply Herr. discriminate.
Defined.

Lemma rtrim_space t : all_space t = true → rtrim t = EmptyString.
Proof.
  induction t as [|c t IH]; [done|]. simpl. intros H.
  apply andb_prop in H as [Hc Ht]. by rewrite (IH Ht), Hc.
Qed.

Lemma rtrim_trailing a c t :
  isspace c = false → all_space t = true →
  rtrim (a +:+ String c t) = a +:+ String c EmptyString.
Proof.
  intros Hc Ht. induction a as [|d a IH].
  - change (EmptyString +:+ String c t) with (String c t).
    cbn [rtrim]. by rewrite (rtrim_space t Ht), Hc.
  - rewrite !string_app_cons. cbn [rtrim]. rewrite IH.
    by destruct a.
Qed.

Lemma string_loop_values body : ∀ s,
  all_printable body = true →
  ic s + dc s + Z.of_nat (String.length body) ≤ MEM_AVAIL_WORDS →
  string_loop body s = (inr tt, with_data (codes body) (saved s) s).
Proof.
  induction body as [|c body IH]; intros s Hprint Hroom.
  - simpl. unfold ret. by rewrite with_data_nil.
  - cbn [all_printable] in Hprint. apply andb_prop in Hprint as [Hc Hprint].
    cbn [string_loop codes String.length] in *. rewrite Hc.
    unfold bind at 1.
    rewrite add_data_room by (destruct s; setters; unfold MEM_AVAIL_WORDS in *; lia).
    change (0 =? FATAL_ERROR) with false. cbv iota.
    rewrite IH; [|done|destruct s; setters; lia].
    f_equal. unfold with_data. destruct s; setters. rewrite <- app_assoc. simpl. fields.
Qed.

(** X7. [string_cmd], given an opening quote, printable characters, one
    more character that is not white space, and then white space only,
    with room in the memory, adds the codes of the printable characters
    to the data image in order and returns 0. If the last character is a
    quote it adds the terminating 0 and records no error. If it is not,
    the characters stay in the image without a terminator, the error flag
    is set and the missing closing quote is reported. A quote alone is
    taken for the empty string: one word 0. *)
Theorem X7_string_directive (body trailing : string) (c : ascii) (s : pass_state) :
  all_printable body = true → isspace c = false → all_space trailing = true →
  ic s + dc s + Z.of_nat (String.length body) + 1 ≤ MEM_AVAIL_WORDS →
  let r := string_cmd (String dquote (body +:+ String c trailing)) s in
  let lone := string_cmd (String dquote trailing) s in
  r.1 = 0 ∧ ic r.2 = ic s ∧ ins_set r.2 = ins_set s
  ∧ (c = dquote →
     dataset r.2 = dataset s ++ codes body ++ [0]
     ∧ dc r.2 = dc s + Z.of_nat (String.length body) + 1
     ∧ error r.2 = error s ∧ stderr r.2 = stderr s)
  ∧ (c ≠ dquote →
     dataset r.2 = dataset s ++ codes body
     ∧ dc r.2 = dc s + Z.of_nat (String.length body)
     ∧ error r.2 = true
     ∧ stderr r.2
       = stderr s ++ [(line_count s, "Invalid string - missing closing quotes")])
  ∧ lone.1 = 0 ∧ dataset lone.2 = dataset s ++ [0] ∧ dc lone.2 = dc s + 1
  ∧ error lone.2 = error s.
Proof.
  intros Hprint Hc Htrail Hroom r lone.
  assert (length (codes body) = String.length body) as Hlen
    by (clear; induction body; simpl; congruence).
  assert (r = (if chr_eqb c dquote
               then (0, with_data (codes body ++ [0]) (saved s) s)
               else (0, set_stderr (stderr s ++ [(line_count s,
                                        "Invalid string - missing closing quotes")])
                          (set_error true (with_data (codes body) (saved s) s)))))
    as Hr.
  { subst r. unfold string_cmd. change (chr_eqb (deref (String dquote _)) dquote) with true.
    cbn [negb]. cbv zeta.
    rewrite <- string_app_cons, (rtrim_trailing _ c trailing Hc Htrail).
    rewrite but_last_app, last_char_app. change (advance 1 (String dquote body)) with body.
    unfold bind at 1.
    rewrite string_loop_values by (done || lia).
    destruct (chr_eqb c dquote); cbn [negb].
    - unfold bind at 1. rewrite add_data_room
        by (unfold with_data; destruct s; setters; rewrite ?Hlen;
            unfold MEM_AVAIL_WORDS in *; lia).
      change (0 =? FATAL_ERROR) with false. cbv iota.
      unfold ret, with_data. destruct s; setters. rewrite length_app, <- app_assoc.
      simpl. fields.
    - unfold bind, raise, report, report_error_pass, gets, modify, ret, with_data.
      destruct s; setters. done. }
  assert (lone = (0, with_data [0] (saved s) s)) as Hlone.
  { subst lone. unfold string_cmd. change (chr_eqb (deref (String dquote _)) dquote) with true.
    cbn [negb]. cbv zeta.
    assert (rtrim (String dquote trailing) = String dquote EmptyString) as ->.
    { cbn [rtrim]. by rewrite (rtrim_space trailing Htrail). }
    cbn [but_last advance last_char string_loop]. unfold bind at 1. unfold ret at 1.
    change (chr_eqb dquote dquote) with true. cbn [negb].
    unfold bind at 1. rewrite add_data_room
      by (destruct s; setters; unfold MEM_AVAIL_WORDS in *; lia).
    change (0 =? FATAL_ERROR) with false. cbv iota.
    unfold ret, with_data. destruct s; setters. done. }
  rewrite Hr, Hlone. clear r lone Hr Hlone.
  destruct (chr_eqb c dquote) eqn:Hquote.
  - apply Ascii.eqb_eq in Hquote.
    unfold with_data. destruct s; setters. rewrite length_app, Hlen. simpl.
    repeat split; try done; try lia. all: intros; by rewrite ?app_assoc.
  - apply Ascii.eqb_neq in Hquote.
    unfold with_data. destruct s; setters. rewrite Hlen.
    repeat split; try done; try lia.
Qed.

Lemma X7_string_directive_witness :
  dataset (string_cmd abc_string data_state).2 = [97; 98; 0]
  ∧ dc (string_cmd abc_string data_state).2 = 3.
Proof.
  destruct (X7_string_directive "ab" nl dquote data_state eq_refl eq_refl eq_refl
              ltac:(unfold MEM_AVAIL_WORDS; simpl; lia))
    as (_ & _ & _ & Hclosed & _).
  destruct (Hclosed eq_refl) as (Hdata & Hdc & _).
  split; [exact Hdata|exact Hdc].
Defined.

(** ** Instruction words *)

(** X8. The title word of an instruction can be read back: for an
    opcode below 16 and two addressing modes below 4 it fits ten bits,
    holds the opcode in bits 9 to 6, the source mode in bits 5 and 4, the
    destination mode in bits 3 and 2, and 00 (absolute) in the two low
    bits. *)
Theorem X8_title_word_fields (opcode src_addr dst_addr : Z) :
  0 ≤ opcode ≤ 15 → 0 ≤ src_addr ≤ 3 → 0 ≤ dst_addr ≤ 3 →
  let w := title_word opcode src_addr dst_addr in
  0 ≤ w < 1024
  ∧ Z.shiftr w OPCODE_SHIFT = opcode
  ∧ Z.land (Z.shiftr w SRC_SHIFT) 3 = src_addr
  ∧ Z.land (Z.shiftr w DST_SHIFT) 3 = dst_addr
  ∧ Z.land w ARE_MASK = ARE_A.
Proof.
  intros Hop Hsrc Hdst.
  set (good := λ '(o, a, b),
         let w := title_word o a b in
         (0 <=? w) && (w <? 1024) && (Z.shiftr w OPCODE_SHIFT =? o)
         && (Z.land (Z.shiftr w SRC_SHIFT) 3 =? a)
         && (Z.land (Z.shiftr w DST_SHIFT) 3 =? b)
         && (Z.land w ARE_MASK =? ARE_A)).
  assert (forallb good (o ← seqZ 0 16; a ← seqZ 0 4; b ← seqZ 0 4; [(o, a, b)]) = true)
    as Hall by (vm_compute; reflexivity).
  rewrite forallb_forall in Hall.
  specialize (Hall (opcode, src_addr, dst_addr)).
  assert (In (opcode, src_addr, dst_addr)
            (o ← seqZ 0 16; a ← seqZ 0 4; b ← seqZ 0 4; [(o, a, b)])) as Hin.
  { apply list_elem_of_In, list_elem_of_bind. exists opcode.
    split; [|apply elem_of_seqZ; lia].
    apply list_elem_of_bind. exists src_addr. split; [|apply elem_of_seqZ; lia].
    apply list_elem_of_bind. exists dst_addr. split; [|apply elem_of_seqZ; lia].
    by left. }
  apply Hall in Hin. unfold good in Hin. cbv zeta in Hin |- *.
  repeat (apply andb_prop in Hin as [Hin ?]). zbool. done.
Qed.

Lemma X8_title_word_fields_witness :
  Z.shiftr (title_word MOV DIRECT_REGISTER DIRECT_REGISTER) OPCODE_SHIFT = MOV.
Proof.
  apply (X8_title_word_fields MOV DIRECT_REGISTER DIRECT_REGISTER);
    unfold MOV, DIRECT_REGISTER; lia.
Defined.

Lemma destination_modes opcode :
  existsb (Z.eqb DIRECT) (if negb (opcode =? PRN) then NO_IMMEDIATE else ALL_MODES) = true
  ∧ existsb (Z.eqb IMMEDIATE) (if negb (opcode =? PRN) then NO_IMMEDIATE else ALL_MODES)
    = (opcode =? PRN).
Proof. by destruct (opcode =? PRN). Qed.

(** X9. [handle_one_prm] for an operand that is a label, the only
    token of the line, with room for two words: it adds the title word,
    with the destination mode direct, and a word 0 for the address, and
    it adds at the end of the pending references one for that label,
    which points at the word 0 and keeps the number of the line. Nothing
    else is emitted and no error is recorded. *)
Theorem X9_label_operand (rest : string) (opcode : Z) (s : pass_state)
    (token e1 e2 : string) :
  images_ok s → ic s + dc s + 2 ≤ MEM_AVAIL_WORDS →
  strtok_from COMMA_SPACES (saved s) = (Some token, e1) →
  strtok_from COMMA_SPACES e1 = (None, e2) →
  addressing_mode token = DIRECT →
  let r := handle_one_prm rest opcode s in
  r.1 = 0
  ∧ ins_set r.2 = ins_set s ++ [title_word opcode 0 DIRECT; 0]
  ∧ ic r.2 = ic s + 2
  ∧ pending_refs r.2 = pending_refs s ++ [mkPending token (ic s + 1) (line_count s)]
  ∧ dc r.2 = dc s ∧ dataset r.2 = dataset s ∧ label_set r.2 = label_set s
  ∧ error r.2 = error s ∧ stderr r.2 = stderr s.
Proof.
  intros Hok Hroom H1 H2 Hmode r.
  destruct Hok as (Hic & Hdc & _ & Hlen & _).
  destruct (destination_modes opcode) as [Hdirect _].
  assert (r = (0, set_ins_set
                    (<[Z.to_nat (ic s) := title_word opcode 0 DIRECT]>
                       ((ins_set s ++ [0]) ++ [0]))
                    (set_saved e2
                       (set_pending_refs
                          (pending_refs s
                           ++ [mkPending token (unsigned_char (ic s + 1 + 1 - 1))
                                 (line_count s)])
                          (set_ic (ic s + 1 + 1) s))))) as ->.
  { subst r. unfold handle_one_prm. unfold bind at 1.
    rewrite add_ins_room by (unfold MEM_AVAIL_WORDS in *; lia).
    change (0 =? FATAL_ERROR) with false. cbv iota.
    unfold bind at 1. unfold gets at 1.
    unfold bind at 1. erewrite strtok_at by (destruct s; exact H1).
    unfold bind at 1. unfold parse_encode_arguments.
    rewrite Hmode, Hdirect. cbn [negb].
    change (DIRECT =? IMMEDIATE) with false. change (DIRECT =? DIRECT) with true.
    cbv iota. unfold bind at 1.
    rewrite add_ins_room by (destruct s; setters; unfold MEM_AVAIL_WORDS in *; lia).
    change (0 =? FATAL_ERROR) with false. cbv iota.
    unfold bind at 1. unfold gets at 1. unfold bind at 1. unfold gets at 1.
    unfold bind at 1. unfold add_pending_refs at 1. unfold bind at 1.
    unfold modify at 1. unfold ret at 1. unfold ret at 1.
    change (DIRECT =? FATAL_ERROR) with false.
    change (DIRECT =? ERROR_OCCURRED) with false. cbv iota.
    unfold bind at 1. erewrite strtok_at by (destruct s; exact H2).
    unfold bind, store_ins, modify, ret. destruct_state s; setters.
    replace (ic0 + 1 - 1) with ic0 by lia. reflexivity. }
  destruct_state s; setters.
  assert (unsigned_char (ic0 + 1 + 1 - 1) = ic0 + 1) as ->.
  { unfold unsigned_char, MEM_AVAIL_WORDS in *. rewrite Z.mod_small; lia. }
  repeat split; try lia.
  rewrite <- app_assoc. simpl.
  replace (Z.to_nat ic0) with (length is0 + 0)%nat by lia.
  by rewrite insert_app_r.
Qed.

Lemma jmp_line_images : images_ok jmp_line.
Proof. unfold images_ok, MEM_AVAIL_WORDS; simpl. lia. Qed.

Lemma X9_label_operand_witness :
  pending_refs (handle_one_prm ("LOOP" +:+ nl) JMP jmp_line).2 = [mkPending "LOOP" 3 3]
  ∧ ins_set (handle_one_prm ("LOOP" +:+ nl) JMP jmp_line).2 = [60; 212; 580; 0].
Proof.
  destruct (X9_label_operand ("LOOP" +:+ nl) JMP jmp_line "LOOP" EmptyString EmptyString
              jmp_line_images ltac:(unfold MEM_AVAIL_WORDS; simpl; lia)
              eq_refl eq_refl eq_refl)
    as (_ & Hins & _ & Hpending & _).
  split; [exact Hpending|exact Hins].
Defined.

(** X10. [handle_one_prm] for an immediate operand [#n], the only
    token of the line, [n] a decimal number from -128 to 127, with room
    for two words. For [prn] it adds the title word, with the
    destination mode immediate, and a word that holds [n] shifted left by
    two bits, and records no error. For any other opcode the operand is
    refused: the error flag is set, the destination type is reported,
    and the word 0 added for the title stays in the image. *)
Theorem X10_immediate_operand (rest : string) (opcode : Z) (s : pass_state)
    (number e1 e2 : string) (n : Z) :
  images_ok s → ic s + dc s + 2 ≤ MEM_AVAIL_WORDS →
  strtok_from COMMA_SPACES (saved s) = (Some (String "#" number), e1) →
  strtok_from COMMA_SPACES e1 = (None, e2) →
  (strtol number).1 = (n, EmptyString) → MIN_NUM_I ≤ n ≤ MAX_NUM_I →
  let r := handle_one_prm rest opcode s in
  r.1 = 0 ∧ dc r.2 = dc s ∧ dataset r.2 = dataset s
  ∧ pending_refs r.2 = pending_refs s
  ∧ (opcode = PRN →
     ins_set r.2 = ins_set s ++ [title_word PRN 0 IMMEDIATE; Z.shiftl n NUM_SHIFT]
     ∧ ic r.2 = ic s + 2 ∧ error r.2 = error s ∧ stderr r.2 = stderr s)
  ∧ (opcode ≠ PRN →
     ins_set r.2 = ins_set s ++ [0] ∧ ic r.2 = ic s + 1 ∧ error r.2 = true
     ∧ stderr r.2
       = stderr s ++ [(line_count s,
                       "The destination parameter type does not match the command")]).
Proof.
  intros Hok Hroom H1 H2 Hparse Hrange r.
  destruct Hok as (Hic & Hdc & _ & Hlen & _).
  destruct (destination_modes opcode) as [_ Himm].
  assert (is_valid_num number INS
          = λ st, (n, st)) as Hnum.
  { unfold is_valid_num. destruct (strtol number) as [[num ptr] c].
    simpl in Hparse. injection Hparse as -> ->.
    unfold MIN_NUM_I, MAX_NUM_I in *.
    destruct (n >? 127) eqn:Hhi; [lia|]. destruct (n <? -128) eqn:Hlo; [lia|]. done. }
  assert (r = (if opcode =? PRN
               then (0, set_ins_set
                          (<[Z.to_nat (ic s) := title_word opcode 0 IMMEDIATE]>
                             ((ins_set s ++ [0]) ++ [Z.shiftl n NUM_SHIFT]))
                          (set_saved e2 (set_ic (ic s + 1 + 1) s)))
               else (0, set_stderr
                          (stderr s ++ [(line_count s,
                             "The destination parameter type does not match the command")])
                          (set_error true
                             (set_saved e1
                                (set_ins_set (ins_set s ++ [0]) (set_ic (ic s + 1) s)))))))
    as ->.
  { subst r. unfold handle_one_prm. unfold bind at 1.
    rewrite add_ins_room by (unfold MEM_AVAIL_WORDS in *; lia).
    change (0 =? FATAL_ERROR) with false. cbv iota.
    unfold bind at 1. unfold gets at 1.
    unfold bind at 1. erewrite strtok_at by (destruct s; exact H1).
    unfold bind at 1. unfold parse_encode_arguments.
    change (addressing_mode (String "#" number)) with IMMEDIATE.
    rewrite Himm. destruct (opcode =? PRN); cbn [negb].
    - change (IMMEDIATE =? IMMEDIATE) with true. cbv iota.
      change (advance 1 (String "#" number)) with number. rewrite Hnum.
      unfold bind at 1.
      assert ((n =? INT_MIN) = false) as ->
        by (unfold INT_MIN, MIN_NUM_I in *; lia).
      unfold bind at 1.
      rewrite add_ins_room by (destruct s; setters; unfold MEM_AVAIL_WORDS in *; lia).
      change (0 =? FATAL_ERROR) with false. cbv iota. unfold ret at 1.
      change (IMMEDIATE =? FATAL_ERROR) with false.
      change (IMMEDIATE =? ERROR_OCCURRED) with false. cbv iota.
      unfold bind at 1. erewrite strtok_at by (destruct s; exact H2).
      unfold bind, store_ins, modify, ret. destruct_state s; setters.
      replace (ic0 + 1 - 1) with ic0 by lia. reflexivity.
    - unfold bind, raise, report, report_error_pass, gets, modify, ret.
      destruct_state s; setters. reflexivity. }
  destruct (opcode =? PRN) eqn:Hop; zbool; destruct_state s; setters.
  - subst opcode. repeat split; try done; try lia.
    rewrite <- app_assoc. simpl.
    replace (Z.to_nat ic0) with (length is0 + 0)%nat by lia.
    by rewrite insert_app_r.
  - repeat split; done.
Qed.

Lemma prn_line_images : images_ok prn_line.
Proof. unfold images_ok, MEM_AVAIL_WORDS; simpl. lia. Qed.

Lemma X10_immediate_operand_witness :
  ins_set (handle_one_prm ("#-5" +:+ nl) PRN prn_line).2 = [60; 212; 832; -20]
  ∧ error (handle_one_prm ("#-5" +:+ nl) CLR prn_line).2 = true.
Proof.
  assert (MIN_NUM_I ≤ -5 ≤ MAX_NUM_I) as Hrange by (unfold MIN_NUM_I, MAX_NUM_I; lia).
  assert (ic prn_line + dc prn_line + 2 ≤ MEM_AVAIL_WORDS) as Hroom
    by (unfold MEM_AVAIL_WORDS; simpl; lia).
  split.
  - destruct (X10_immediate_operand ("#-5" +:+ nl) PRN prn_line "-5" EmptyString
                EmptyString (-5) prn_line_images Hroom eq_refl eq_refl eq_refl Hrange)
      as (_ & _ & _ & _ & Hprn & _).
    destruct (Hprn eq_refl) as (Hins & _). exact Hins.
  - destruct (X10_immediate_operand ("#-5" +:+ nl) CLR prn_line "-5" EmptyString
                EmptyString (-5) prn_line_images Hroom eq_refl eq_refl eq_refl Hrange)
      as (_ & _ & _ & _ & _ & Hother).
    destruct (Hother ltac:(discriminate)) as (_ & _ & Herr & _). exact Herr.
Defined.

(** ** What the first pass keeps, line after line *)

(** A property of the state that the elementary steps of the pass keep
    is kept by the whole pass. *)
Section Kept.

Context (I : pass_state → Prop).

Hypothesis kept_raise : preserves I raise.
Hypothesis kept_report : ∀ n msg, preserves I (report_error_pass n msg).
Hypothesis kept_saved : ∀ p, preserves I (modify (set_saved p)).
Hypothesis kept_label : ∀ l, preserves I (modify (set_label l)).
Hypothesis kept_label_flag : ∀ b, preserves I (modify (set_label_flag b)).
Hypothesis kept_was_reg : ∀ b, preserves I (modify (set_was_reg b)).
Hypothesis kept_line :
  preserves I (modify (λ s, set_line_count (line_count s + 1) s)).
Hypothesis kept_mark :
  ∀ w s, I s → I (set_label_set (mark_entry w (label_set s)).1.1 s).
Hypothesis kept_add_data : ∀ w, preserves I (add_data w).
Hypothesis kept_add_ins : ∀ w, preserves I (add_ins w).
Hypothesis kept_add_label : ∀ nm k l, preserves I (add_label nm k l).
Hypothesis kept_store_ins : ∀ i w, preserves I (store_ins i w).
Hypothesis kept_operand : ∀ a r m, preserves I (parse_encode_arguments a r m).

Lemma kept_report_here msg : preserves I (report msg).
Proof.
  unfold report. apply preserves_bind; [apply preserves_gets|]. intros. apply kept_report.
Qed.

Lemma kept_strtok delims : preserves I (strtok delims).
Proof.
  intros s Hs. unfold strtok. destruct (strtok_from delims (saved s)) as [t e].
  apply (kept_saved e s Hs).
Qed.

Lemma kept_strtok_new p delims : preserves I (strtok_new p delims).
Proof.
  intros s Hs. unfold strtok_new. destruct (strtok_from delims p) as [t e].
  apply (kept_saved e s Hs).
Qed.

Local Hint Resolve kept_raise kept_report kept_saved kept_label kept_label_flag
  kept_was_reg kept_line kept_add_data kept_add_ins kept_add_label kept_store_ins
  kept_operand kept_report_here kept_strtok kept_strtok_new : pres.

Lemma kept_is_valid_label lbl state : preserves I (is_valid_label lbl state).
Proof. unfold is_valid_label. pres. Qed.

Lemma kept_is_valid_num token k : preserves I (is_valid_num token k).
Proof. unfold is_valid_num. destruct (strtol token) as [[num ptr] c]. pres. Qed.

Lemma kept_check_mat_def d k r c : preserves I (check_mat_def d k r c).
Proof.
  unfold check_mat_def.
  repeat (first [ solve [ eauto with pres ] | pres_step
                | match goal with
                  | |- context [strtol ?x] => destruct (strtol x) as [[? ?] ?]
                  end ]).
Qed.

Lemma kept_commas_loop rest : ∀ a e w, preserves I (commas_loop a e w rest).
Proof. induction rest as [|c r IH]; intros; simpl; pres. Qed.

Lemma kept_is_valid_commas rest : preserves I (is_valid_commas rest).
Proof. unfold is_valid_commas. destruct rest; [pres|apply kept_commas_loop]. Qed.

Local Hint Resolve kept_is_valid_label kept_is_valid_num kept_check_mat_def
  kept_commas_loop kept_is_valid_commas : pres.

Lemma kept_data_loop toks : preserves I (data_loop toks).
Proof. induction toks as [|[t e] r IH]; simpl; pres. Qed.

Lemma kept_string_loop body : preserves I (string_loop body).
Proof. induction body as [|c r IH]; simpl; pres. Qed.

Lemma kept_mat_loop toks : ∀ n, preserves I (mat_loop toks n).
Proof. induction toks as [|[t e] r IH]; intros; simpl; pres. Qed.

Lemma kept_zero_fill n : preserves I (zero_fill n).
Proof. induction n as [|n IH]; simpl; pres. Qed.

Local Hint Resolve kept_data_loop kept_string_loop kept_mat_loop kept_zero_fill : pres.

Lemma kept_data_cmd rest : preserves I (data_cmd rest).
Proof. unfold data_cmd. pres. Qed.

Lemma kept_string_cmd rest : preserves I (string_cmd rest).
Proof. unfold string_cmd. pres. Qed.

Lemma kept_mat_cmd rest : preserves I (mat_cmd rest).
Proof. unfold mat_cmd. pres. Qed.

Lemma kept_handle_two_prms rest op : preserves I (handle_two_prms rest op).
Proof. unfold handle_two_prms. pres. Qed.

Lemma kept_handle_one_prm rest op : preserves I (handle_one_prm rest op).
Proof. unfold handle_one_prm. pres. Qed.

Lemma kept_handle_no_prm rest op : preserves I (handle_no_prm rest op).
Proof. unfold handle_no_prm. pres. Qed.

Local Hint Resolve kept_data_cmd kept_string_cmd kept_mat_cmd kept_handle_two_prms
  kept_handle_one_prm kept_handle_no_prm : pres.

Lemma kept_data_commands first f rest :
  lookup_command first data_commands = Some f → preserves I (f rest).
Proof.
  unfold data_commands; simpl.
  repeat case_match; intros; simplify_eq; eauto with pres.
Qed.

Lemma kept_ins_commands first f rest op :
  lookup_command first ins_commands = Some f → preserves I (f rest op).
Proof.
  unfold ins_commands; simpl.
  repeat case_match; intros; simplify_eq; eauto with pres.
Qed.

Lemma kept_define_label k : preserves I (define_label k).
Proof. unfold define_label. pres. Qed.

Lemma kept_dispatch k line_p : preserves I (dispatch k line_p).
Proof.
  unfold dispatch.
  destruct (lookup_command _ data_commands) as [f|] eqn:Hd;
    destruct (lookup_command _ ins_commands) as [g|] eqn:Hi; pres;
    eauto using kept_data_commands, kept_ins_commands.
Qed.

Lemma kept_entry_branch line_p : preserves I (entry_branch line_p).
Proof.
  unfold entry_branch. apply preserves_bind; [pres|intros _]. cbv zeta.
  destruct (_ =? 0)%nat; [pres|].
  intros s Hs. unfold bind at 1. unfold gets at 1.
  destruct (is_label_name _ (label_set s)); [|revert s Hs; pres].
  pose proof (kept_mark (copy_first_word
                           (delete_white (advance (String.length "entry") line_p))
                           (WORD_LEN + 2)) s Hs) as Hmark.
  destruct (mark_entry _ (label_set s)) as [[labels' stop] ext].
  unfold bind at 1. unfold modify at 1. revert Hmark. cbn [fst snd].
  generalize (set_label_set labels' s).
  match goal with |- ∀ p, I p → I (?m p).2 => change (preserves I m) end. pres.
Qed.

Lemma kept_extern_branch line_p : preserves I (extern_branch line_p).
Proof. unfold extern_branch. pres. Qed.

Local Hint Resolve kept_define_label kept_dispatch kept_entry_branch
  kept_extern_branch : pres.

Lemma kept_scan_line state line : preserves I (scan_line state line).
Proof. unfold scan_line. pres. Qed.

Lemma kept_read_loop fuel : ∀ state cell f_am,
  preserves I (read_loop fuel state cell f_am).
Proof.
  induction fuel as [|fuel IH]; intros; simpl; [pres|].
  destruct (fgets _ f_am) as [[line rest]|]; pres. apply kept_scan_line.
Qed.

Lemma kept_report_undefined labels : preserves I (report_undefined labels).
Proof. induction labels as [|l r IH]; simpl; pres. Qed.

End Kept.

(** The operands, for a property that the steps of
    [parse_encode_arguments] keep. *)
Section KeptOperand.

Context (I : pass_state → Prop).

Hypothesis kept_raise : preserves I raise.
Hypothesis kept_report : ∀ n msg, preserves I (report_error_pass n msg).
Hypothesis kept_was_reg : ∀ b, preserves I (modify (set_was_reg b)).
Hypothesis kept_add_ins : ∀ w, preserves I (add_ins w).
Hypothesis kept_pending : ∀ i n l, preserves I (add_pending_refs i n l).
Hypothesis kept_or_into_last : ∀ num, preserves I (or_into_last num).

Lemma kept_parse_encode_arguments a r m :
  preserves I (parse_encode_arguments a r m).
Proof.
  assert (∀ msg, preserves I (report msg)) as Hreport.
  { intros msg. unfold report. apply preserves_bind; [apply preserves_gets|].
    intros. apply kept_report. }
  assert (∀ token k, preserves I (is_valid_num token k)) as Hnum.
  { intros token k. unfold is_valid_num. destruct (strtol token) as [[num ptr] c].
    pres; eauto. }
  assert (∀ d k r c, preserves I (check_mat_def d k r c)) as Hmat.
  { intros d k r0 c. unfold check_mat_def.
    repeat (first [ solve [ eauto with pres ] | pres_step
                  | match goal with
                    | |- context [strtol ?x] => destruct (strtol x) as [[? ?] ?]
                    end ]). }
  unfold parse_encode_arguments.
  repeat (first [ solve [ eauto with pres ] | pres_step ]).
Qed.

End KeptOperand.

(** The steps of the pass, on a state given by its fields. *)
Ltac leaf :=
  intros;
  lazymatch goal with |- preserves _ _ => intros ? ? | _ => idtac end;
  cbv [add_data add_ins add_label store_ins or_into_last add_pending_refs
       bind raise report report_error_pass gets modify ret] in *;
  repeat match goal with
         | |- context [if ?c then _ else _] => destruct c eqn:?
         | |- context [match ?x with _ => _ end] => destruct x eqn:?
         end;
  repeat match goal with s : pass_state |- _ => destruct s end;
  simpl in *.

Lemma mark_entry_names w labels :
  l_name <$> (mark_entry w labels).1.1 = l_name <$> labels.
Proof.
  induction labels as [|l r IH]; [done|]. cbn [mark_entry].
  destruct (mark_entry w r) as [[r' stop] ext]. cbn [fst snd] in IH.
  destruct (streq w (l_name l)); [|cbn [fst snd]; by rewrite !fmap_cons, IH].
  destruct (decide (l_ent_or_ext l = EXTERNAL)); [done|].
  destruct (decide (l_data_or_ins l = UNKNOWN_LABEL_TYPE)); [done|].
  cbn [fst snd]. by rewrite !fmap_cons, IH.
Qed.

(** *** The error flag stays set *)

Lemma sticky_read_loop fuel state cell f_am :
  preserves (λ s, error s = true) (read_loop fuel state cell f_am).
Proof.
  apply kept_read_loop; try (apply kept_parse_encode_arguments); leaf; done.
Qed.

Lemma sticky_scan_line state line :
  preserves (λ s, error s = true) (scan_line state line).
Proof.
  apply kept_scan_line; try (apply kept_parse_encode_arguments); leaf; done.
Qed.

Lemma sticky_report_undefined labels :
  preserves (λ s, error s = true) (report_undefined labels).
Proof. apply kept_report_undefined; leaf; done. Qed.

(** *** Diagnostics are only added *)

Lemma diagnostics_read_loop base fuel state cell f_am :
  preserves (λ s, base `prefix_of` stderr s) (read_loop fuel state cell f_am).
Proof.
  apply kept_read_loop; try (apply kept_parse_encode_arguments); leaf;
    first [done | by apply prefix_app_r].
Qed.

Lemma diagnostics_scan_line base state line :
  preserves (λ s, base `prefix_of` stderr s) (scan_line state line).
Proof.
  apply kept_scan_line; try (apply kept_parse_encode_arguments); leaf;
    first [done | by apply prefix_app_r].
Qed.

(** X11. The first pass never clears the error flag and never takes a
    diagnostic back: after a line, and after all the lines of a file,
    read from any state, the flag is set if it was set before, and the
    diagnostics printed so far are still there, before the new ones. *)
Theorem X11_errors_accumulate (state : MacroTable) (s : pass_state) :
  (∀ line,
     let s' := (scan_line state line s).2 in
     (error s = true → error s' = true) ∧ stderr s `prefix_of` stderr s')
  ∧ (∀ fuel cell f_am,
       let s' := (read_loop fuel state cell f_am s).2 in
       (error s = true → error s' = true) ∧ stderr s `prefix_of` stderr s').
Proof.
  split.
  - intros line s'. split; [apply sticky_scan_line|].
    by apply (diagnostics_scan_line (stderr s)).
  - intros fuel cell f_am s'. split; [apply sticky_read_loop|].
    by apply (diagnostics_read_loop (stderr s)).
Qed.

Lemma X11_errors_accumulate_witness :
  error (scan_line [] ("stop" +:+ nl) (initial_state true)).2 = true.
Proof.
  exact (proj1 (proj1 (X11_errors_accumulate [] (initial_state true)) ("stop" +:+ nl))
           eq_refl).
Defined.

(** *** What was stored stays stored *)

Lemma data_read_loop base fuel state cell f_am :
  preserves (λ s, base `prefix_of` dataset s) (read_loop fuel state cell f_am).
Proof.
  apply kept_read_loop; try (apply kept_parse_encode_arguments); leaf;
    first [done | by apply prefix_app_r].
Qed.

Lemma pending_read_loop base fuel state cell f_am :
  preserves (λ s, base `prefix_of` pending_refs s) (read_loop fuel state cell f_am).
Proof.
  apply kept_read_loop; try (apply kept_parse_encode_arguments); leaf;
    first [done | by apply prefix_app_r].
Qed.

Lemma names_read_loop base fuel state cell f_am :
  preserves (λ s, base `prefix_of` (l_name <$> label_set s))
    (read_loop fuel state cell f_am).
Proof.
  apply kept_read_loop; try (apply kept_parse_encode_arguments); leaf;
    first [ done
          | by rewrite mark_entry_names
          | by rewrite fmap_app; apply prefix_app_r
          | match goal with
            | H : finalize _ _ _ _ = Some _ |- _ =>
                apply finalize_names in H as [-> _]; done
            end ].
Qed.

Lemma counters_read_loop a b fuel state cell f_am :
  preserves (λ s, a ≤ ic s ∧ b ≤ dc s) (read_loop fuel state cell f_am).
Proof.
  apply kept_read_loop; try (apply kept_parse_encode_arguments); leaf;
    first [done | lia].
Qed.

(** X12. The first pass only adds to what it has built: after any
    number of lines, read from any state, the data words stored before
    are still at the front of the data image, the pending references
    created before are still the first of the list, the names of the
    symbol table are still there in their places, and neither counter
    has gone down. *)
Theorem X12_images_grow (fuel : nat) (state : MacroTable) (cell : ascii)
    (f_am : string) (s : pass_state) :
  let s' := (read_loop fuel state cell f_am s).2 in
  dataset s `prefix_of` dataset s'
  ∧ pending_refs s `prefix_of` pending_refs s'
  ∧ (l_name <$> label_set s) `prefix_of` (l_name <$> label_set s')
  ∧ ic s ≤ ic s' ∧ dc s ≤ dc s'.
Proof.
  intros s'.
  split; [by apply (data_read_loop (dataset s))|].
  split; [by apply (pending_read_loop (pending_refs s))|].
  split; [by apply (names_read_loop (l_name <$> label_set s))|].
  by apply (counters_read_loop (ic s) (dc s)).
Qed.

(** *** No diagnostic without the error flag *)

Create HintDb quiet.

Lemma sticky_raise : preserves (λ s, error s = true) raise.
Proof. leaf; done. Qed.

Lemma sticky_report_error_pass n msg :
  preserves (λ s, error s = true) (report_error_pass n msg).
Proof. leaf; done. Qed.

Lemma sticky_report msg : preserves (λ s, error s = true) (report msg).
Proof. leaf; done. Qed.

#[export] Hint Resolve sticky_raise sticky_report_error_pass sticky_report
  sticky_read_loop : quiet.

(** Once the flag is raised, whatever keeps it may print. *)
Lemma flagged_after_raise {A} base (k : unit → M A) :
  (∀ u, preserves (λ s, error s = true) (k u)) → preserves (flagged base) (bind raise k).
Proof.
  intros Hk s _. right. unfold bind, raise, modify.
  apply (Hk tt). by destruct s.
Qed.

Lemma flagged_report_then_raise {A} base msg (a : A) :
  preserves (flagged base) (report msg ;; raise ;; ret a).
Proof. intros s _. right. by destruct s. Qed.

Ltac quiet :=
  repeat first
    [ solve [ eauto with quiet ]
    | apply flagged_after_raise; intros ?;
      solve [ repeat first [ solve [ eauto with quiet ] | pres_step ] ]
    | apply flagged_report_then_raise
    | pres_step ].

Section Flagged.

Context (base : list (Z * string)).

Lemma flagged_frame (f : pass_state → pass_state) :
  (∀ s, stderr (f s) = stderr s ∧ error (f s) = error s) →
  preserves (flagged base) (modify f).
Proof.
  intros Hf s Hs. unfold flagged, modify in *. cbn [snd].
  destruct (Hf s) as [-> ->]. done.
Qed.

Lemma flagged_saved p : preserves (flagged base) (modify (set_saved p)).
Proof. apply flagged_frame. by intros []. Qed.
Lemma flagged_label l : preserves (flagged base) (modify (set_label l)).
Proof. apply flagged_frame. by intros []. Qed.
Lemma flagged_label_flag b : preserves (flagged base) (modify (set_label_flag b)).
Proof. apply flagged_frame. by intros []. Qed.
Lemma flagged_was_reg b : preserves (flagged base) (modify (set_was_reg b)).
Proof. apply flagged_frame. by intros []. Qed.
Lemma flagged_label_set l : preserves (flagged base) (modify (set_label_set l)).
Proof. apply flagged_frame. by intros []. Qed.
Lemma flagged_line :
  preserves (flagged base) (modify (λ s, set_line_count (line_count s + 1) s)).
Proof. apply flagged_frame. by intros []. Qed.

Lemma flagged_strtok delims : preserves (flagged base) (strtok delims).
Proof.
  intros s Hs. unfold strtok. destruct (strtok_from delims (saved s)) as [t e].
  apply (flagged_saved e s Hs).
Qed.

Lemma flagged_strtok_new p delims : preserves (flagged base) (strtok_new p delims).
Proof.
  intros s Hs. unfold strtok_new. destruct (strtok_from delims p) as [t e].
  apply (flagged_saved e s Hs).
Qed.

Lemma flagged_add_data w : preserves (flagged base) (add_data w).
Proof. unfold flagged. leaf; first [done | by right]. Qed.

Lemma flagged_add_ins w : preserves (flagged base) (add_ins w).
Proof. unfold flagged. leaf; first [done | by right]. Qed.

Lemma flagged_add_label nm k l : preserves (flagged base) (add_label nm k l).
Proof. unfold flagged. leaf; done. Qed.

Lemma flagged_store_ins i w : preserves (flagged base) (store_ins i w).
Proof. unfold flagged. leaf; done. Qed.

Lemma flagged_or_into_last num : preserves (flagged base) (or_into_last num).
Proof. unfold flagged. leaf; done. Qed.

Lemma flagged_add_pending_refs i n l : preserves (flagged base) (add_pending_refs i n l).
Proof. unfold flagged. leaf; done. Qed.

Hint Resolve flagged_saved flagged_label flagged_label_flag flagged_was_reg
  flagged_label_set flagged_line flagged_strtok flagged_strtok_new flagged_add_data
  flagged_add_ins flagged_add_label flagged_store_ins flagged_or_into_last
  flagged_add_pending_refs : quiet.

Lemma flagged_is_valid_label lbl state : preserves (flagged base) (is_valid_label lbl state).
Proof. unfold is_valid_label. quiet. Qed.

Lemma flagged_is_valid_num token k : preserves (flagged base) (is_valid_num token k).
Proof. unfold is_valid_num. destruct (strtol token) as [[num ptr] c]. quiet. Qed.

Lemma flagged_commas_loop rest : ∀ a e w, preserves (flagged base) (commas_loop a e w rest).
Proof. induction rest as [|c r IH]; intros; simpl; quiet. Qed.

Lemma flagged_is_valid_commas rest : preserves (flagged base) (is_valid_commas rest).
Proof. unfold is_valid_commas. destruct rest; [quiet|apply flagged_commas_loop]. Qed.

Hint Resolve flagged_is_valid_label flagged_is_valid_num flagged_commas_loop
  flagged_is_valid_commas : quiet.

Lemma flagged_data_loop toks : preserves (flagged base) (data_loop toks).
Proof. induction toks as [|[t e] r IH]; simpl; quiet. Qed.

Lemma flagged_string_loop body : preserves (flagged base) (string_loop body).
Proof. induction body as [|c r IH]; simpl; quiet. Qed.

Lemma flagged_mat_loop toks : ∀ n, preserves (flagged base) (mat_loop toks n).
Proof. induction toks as [|[t e] r IH]; intros; simpl; quiet. Qed.

Lemma flagged_zero_fill n : preserves (flagged base) (zero_fill n).
Proof. induction n as [|n IH]; simpl; quiet. Qed.

Hint Resolve flagged_data_loop flagged_string_loop flagged_mat_loop
  flagged_zero_fill : quiet.

Lemma flagged_data_cmd rest : preserves (flagged base) (data_cmd rest).
Proof. unfold data_cmd. quiet. Qed.

Lemma flagged_string_cmd rest : preserves (flagged base) (string_cmd rest).
Proof. unfold string_cmd. quiet. Qed.

(** [check_mat_def] prints without raising the flag, and returns the code
    on which its two callers raise it. *)
Lemma check_mat_def_cases d k r c s :
  (check_mat_def d k r c s).1.1.1 = ERROR_OCCURRED
  ∨ ∃ rows cols, check_mat_def d k r c s = (0, rows, cols, s).
Proof.
  unfold check_mat_def, bind, report, report_error_pass, gets, modify, ret.
  repeat (first
    [ match goal with
      | |- context [strtol ?x] => destruct (strtol x) as [[? ?] ?]
      | |- context [if ?b then _ else _] => destruct b eqn:?
      | |- context [match ?x with _ => _ end] => destruct x eqn:?
      end
    | progress cbn [fst snd] ]);
    first [by left | right; by eauto].
Qed.

Lemma flagged_after_check_mat_def {A} d k r c (on_error : M A) (rest : Z → Z → M A) :
  (∀ u, preserves (λ s, error s = true) ((λ _ : unit, on_error) u)) →
  (∀ rows cols, preserves (flagged base) (rest rows cols)) →
  preserves (flagged base)
    (let* (res, row, col) := check_mat_def d k r c in
     if res =? ERROR_OCCURRED then raise ;; on_error else rest row col).
Proof.
  intros Herror Hrest s Hs. unfold bind at 1.
  destruct (check_mat_def_cases d k r c s) as [Hcode|(rows & cols & ->)].
  - destruct (check_mat_def d k r c s) as [[[res row] col] s']. cbn [fst] in Hcode.
    subst res. change (ERROR_OCCURRED =? ERROR_OCCURRED) with true. cbv iota.
    right. unfold bind, raise, modify. apply (Herror tt). by destruct s'.
  - change (0 =? ERROR_OCCURRED) with false. cbv iota. by apply Hrest.
Qed.

Lemma flagged_mat_cmd rest : preserves (flagged base) (mat_cmd rest).
Proof.
  unfold mat_cmd. cbv zeta. apply flagged_after_check_mat_def; intros; quiet.
Qed.

Lemma flagged_parse_encode_arguments a r m :
  preserves (flagged base) (parse_encode_arguments a r m).
Proof.
  unfold parse_encode_arguments. cbv zeta.
  repeat first
    [ solve [ eauto with quiet ]
    | apply flagged_after_raise; intros ?;
      solve [ repeat first [ solve [ eauto with quiet ] | pres_step ] ]
    | apply flagged_after_check_mat_def; intros
    | pres_step ].
Qed.

Hint Resolve flagged_data_cmd flagged_string_cmd flagged_mat_cmd
  flagged_parse_encode_arguments : quiet.

Lemma flagged_handle_two_prms rest op : preserves (flagged base) (handle_two_prms rest op).
Proof. unfold handle_two_prms. quiet. Qed.

Lemma flagged_handle_one_prm rest op : preserves (flagged base) (handle_one_prm rest op).
Proof. unfold handle_one_prm. quiet. Qed.

Lemma flagged_handle_no_prm rest op : preserves (flagged base) (handle_no_prm rest op).
Proof. unfold handle_no_prm. quiet. Qed.

Hint Resolve flagged_handle_two_prms flagged_handle_one_prm
  flagged_handle_no_prm : quiet.

Lemma flagged_data_commands first f rest :
  lookup_command first data_commands = Some f → preserves (flagged base) (f rest).
Proof.
  unfold data_commands; simpl.
  repeat case_match; intros; simplify_eq; eauto with quiet.
Qed.

Lemma flagged_ins_commands first f rest op :
  lookup_command first ins_commands = Some f → preserves (flagged base) (f rest op).
Proof.
  unfold ins_commands; simpl.
  repeat case_match; intros; simplify_eq; eauto with quiet.
Qed.

Lemma flagged_define_label k : preserves (flagged base) (define_label k).
Proof. unfold define_label. quiet. Qed.

Lemma flagged_dispatch k line_p : preserves (flagged base) (dispatch k line_p).
Proof.
  unfold dispatch.
  destruct (lookup_command _ data_commands) as [f|] eqn:Hd;
    destruct (lookup_command _ ins_commands) as [g|] eqn:Hi; quiet;
    eauto using flagged_data_commands, flagged_ins_commands.
Qed.

Lemma flagged_entry_branch line_p : preserves (flagged base) (entry_branch line_p).
Proof.
  unfold entry_branch.
  repeat first
    [ solve [ eauto with quiet ]
    | apply flagged_after_raise; intros ?;
      solve [ repeat first [ solve [ eauto with quiet ] | pres_step ] ]
    | match goal with
      | |- context [mark_entry ?w ?l] => destruct (mark_entry w l) as [[? ?] ?]
      end
    | pres_step ].
Qed.

Lemma flagged_extern_branch line_p : preserves (flagged base) (extern_branch line_p).
Proof. unfold extern_branch. quiet. Qed.

Hint Resolve flagged_define_label flagged_dispatch flagged_entry_branch
  flagged_extern_branch : quiet.

Lemma flagged_scan_line state line : preserves (flagged base) (scan_line state line).
Proof. unfold scan_line. quiet. Qed.

Hint Resolve flagged_scan_line : quiet.

Lemma flagged_read_loop fuel : ∀ state cell f_am,
  preserves (flagged base) (read_loop fuel state cell f_am).
Proof.
  induction fuel as [|fuel IH]; intros; simpl; [quiet|].
  destruct (fgets _ f_am) as [[line rest]|]; quiet.
Qed.

Lemma flagged_report_undefined labels : preserves (flagged base) (report_undefined labels).
Proof. induction labels as [|l r IH]; simpl; quiet. Qed.

End Flagged.

(** X13. The first pass prints no diagnostic without setting the error
    flag: if a line adds anything to the diagnostics, the flag is set
    after the line; if the pass over a whole file, the report of the
    undefined symbols included, has printed anything, the flag is set at
    its end. So a file for which [first_pass] printed a diagnostic and
    returned 0 has none of its three outputs on disk. *)
Theorem X13_diagnostic_sets_flag (state : MacroTable) :
  (∀ line s,
     stderr (scan_line state line s).2 ≠ stderr s →
     error (scan_line state line s).2 = true)
  ∧ (∀ f_am,
       stderr (run_pass state f_am false) ≠ [] →
       error (run_pass state f_am false) = true)
  ∧ (∀ can_open basename fs0,
       (String.length basename < 508)%nat →
       let res := first_pass can_open basename state false fs0 in
       code_returned res = 0 → stderr (first res) ≠ [] →
       error (first res) = true ∧ outputs_absent basename (files_after res)).
Proof.
  assert (∀ fuel cell f_am,
            flagged []
              (report_undefined
                 (label_set (read_loop fuel state cell f_am (initial_state false)).2)
                 (read_loop fuel state cell f_am (initial_state false)).2).2) as Hpass.
  { intros fuel cell f_am. apply flagged_report_undefined, flagged_read_loop. by left. }
  split; [|split].
  - intros line s Hprinted.
    destruct (flagged_scan_line (stderr s) state line s) as [Hsame|Hflag];
      [by left|done|done].
  - intros f_am Hprinted. by destruct (Hpass (S (String.length f_am)) zero f_am).
  - intros can_open basename fs0 Hlen. unfold first_pass.
    destruct (FILENAME_MAX <=? String.length basename)%nat eqn:Hlong.
    { apply Nat.leb_le in Hlong. unfold FILENAME_MAX in Hlong. lia. }
    destruct (disk fs0 !! (basename +:+ ".am")) as [pieces|]; [|done].
    specialize (Hpass (S (String.length (text_of pieces))) zero (text_of pieces)).
    destruct (read_loop _ state zero (text_of pieces) (initial_state false))
      as [code s]. cbn [snd] in Hpass. destruct code as [[| |]|]; try done.
    destruct (report_undefined (label_set s) s) as [u s1]. cbn [snd] in Hpass.
    destruct (second_pass_spec can_open basename (ins_set s1) (ic s1) (dataset s1)
                (dc s1) (label_set s1) (pending_refs s1) (error s1) fs0 Hlen)
      as [(Hfatal & _)|(_ & _ & _ & _ & _ & _ & _ & Hremoved & _)];
      destruct (second_pass can_open basename (ins_set s1) (ic s1) (dataset s1)
                  (dc s1) (label_set s1) (pending_refs s1) (error s1) fs0)
        as [[code' flag'] s2'];
      cbn [second code_returned files_after first fst snd] in *;
      intros Hcode Hprinted.
    { subst code'. by unfold FATAL_ERROR in Hcode. }
    destruct Hpass as [Hnone|Hflag]; [done|]. split; [done|].
    apply Hremoved. rewrite Hflag. apply orb_true_r.
Qed.

Lemma X13_diagnostic_sets_flag_witness :
  error (scan_line [] ("mov" +:+ nl) (initial_state false)).2 = true.
Proof.
  apply (proj1 (X13_diagnostic_sets_flag [])). vm_compute. discriminate.
Defined.

(** *** The pending references point into the image *)

Lemma increasing_app l : ∀ lo x,
  increasing lo l → Forall (λ i, i < x) l → lo ≤ x → increasing lo (l ++ [x]).
Proof.
  induction l as [|y l IH]; intros lo x Hl Hbelow Hlo; simpl in *; [done|].
  destruct Hl as [Hy Hl]. apply Forall_cons in Hbelow as [Hyx Hbelow].
  split; [done|]. apply IH; [done|done|lia].
Qed.

Lemma increasing_NoDup l : ∀ lo,
  0 ≤ lo → increasing lo l → Forall (λ i, lo ≤ i) l ∧ NoDup (Z.to_nat <$> l).
Proof.
  induction l as [|y l IH]; intros lo Hlo Hl; simpl in Hl.
  - split; constructor.
  - destruct Hl as [Hy Hl]. destruct (IH (y + 1) ltac:(lia) Hl) as [Hlow Hnodup]. split.
    + constructor; [done|]. eapply Forall_impl; [exact Hlow|]. simpl. lia.
    + rewrite fmap_cons. apply NoDup_cons. split; [|done].
      intros Hin. apply list_elem_of_fmap in Hin as (z & Heq & Hz).
      rewrite Forall_forall in Hlow. specialize (Hlow z Hz). lia.
Qed.

Lemma pending_ok_frame s s' :
  ic s' = ic s → dc s' = dc s → length (ins_set s') = length (ins_set s) →
  dataset s' = dataset s → pending_refs s' = pending_refs s →
  pending_ok s → pending_ok s'.
Proof.
  unfold pending_ok, images_ok. intros -> -> -> -> ->. done.
Qed.

Ltac frame_pending :=
  leaf; (eapply pending_ok_frame; [..|eassumption]); simpl; rewrite ?length_insert; done.

Lemma pending_ok_add_data w : preserves pending_ok (add_data w).
Proof.
  intros s (Hok & Hup & Hin). split; [by apply add_data_images|].
  cbv [add_data bind raise report report_error_pass gets modify ret].
  destruct (dc s + ic s =? MEM_AVAIL_WORDS); by destruct s.
Qed.

Lemma pending_ok_add_ins w : preserves pending_ok (add_ins w).
Proof.
  intros s (Hok & Hup & Hin). split; [by apply add_ins_images|].
  cbv [add_ins bind raise report report_error_pass gets modify ret].
  destruct (dc s + ic s =? MEM_AVAIL_WORDS); destruct s; simpl in *; [done|].
  split; [done|]. eapply Forall_impl; [exact Hin|]. simpl. lia.
Qed.

(** The word added for an address and the reference that points at it. *)
Lemma pending_ok_reference nm (k : M Z) :
  preserves pending_ok k →
  preserves pending_ok
    (let* r := add_ins 0 in
     if r =? FATAL_ERROR then ret FATAL_ERROR
     else
       let* ic_now := gets ic in
       let* ln := gets line_count in
       add_pending_refs ic_now ln nm ;; k).
Proof.
  intros Hk s Hs. unfold bind at 1.
  pose proof (pending_ok_add_ins 0 s Hs) as Hadded. unfold add_ins in *.
  destruct (dc s + ic s =? MEM_AVAIL_WORDS) eqn:Hfull.
  - assert (((raise ;; report no_free_cells ;; ret FATAL_ERROR) s).1 = FATAL_ERROR)
      as Hcode by done.
    destruct ((raise ;; report no_free_cells ;; ret FATAL_ERROR) s) as [code s'].
    cbn [fst snd] in *. subst code. done.
  - change (0 =? FATAL_ERROR) with false. cbv iota.
    unfold bind at 1. unfold gets at 1. unfold bind at 1. unfold gets at 1.
    unfold bind at 1. unfold add_pending_refs. unfold bind at 1.
    unfold modify at 1. unfold ret at 1. apply Hk.
    apply Z.eqb_neq in Hfull. clear Hk.
    destruct Hs as ((Hic & Hdc & Hmem & Hlen & Hdata) & Hup & Hin).
    destruct_state s; setters. unfold pending_ok, images_ok; setters.
    assert (unsigned_char (ic0 + 1 - 1) = ic0) as ->.
    { unfold unsigned_char, MEM_AVAIL_WORDS in *. rewrite Z.mod_small; lia. }
    rewrite length_app, fmap_app. simpl. repeat split; try lia.
    + apply increasing_app; [done|done|lia].
    + apply Forall_app. split.
      * eapply Forall_impl; [exact Hin|]. simpl. lia.
      * constructor; [simpl; lia|constructor].
Qed.

Lemma pending_ok_parse_encode_arguments a r m :
  preserves pending_ok (parse_encode_arguments a r m).
Proof.
  assert (preserves pending_ok raise) as Hraise by frame_pending.
  assert (∀ n msg, preserves pending_ok (report_error_pass n msg)) as Hreport
    by frame_pending.
  assert (∀ msg, preserves pending_ok (report msg)) as Hhere by frame_pending.
  assert (∀ b, preserves pending_ok (modify (set_was_reg b))) as Hreg by frame_pending.
  assert (∀ num, preserves pending_ok (or_into_last num)) as Hor by frame_pending.
  pose proof pending_ok_add_ins as Hins.
  assert (∀ token k, preserves pending_ok (is_valid_num token k)) as Hnum.
  { intros token k. unfold is_valid_num. destruct (strtol token) as [[num ptr] c].
    pres; eauto. }
  assert (∀ d k r c, preserves pending_ok (check_mat_def d k r c)) as Hmat.
  { intros d k r0 c. unfold check_mat_def.
    repeat (first [ solve [ eauto with pres ] | pres_step
                  | match goal with
                    | |- context [strtol ?x] => destruct (strtol x) as [[? ?] ?]
                    end ]). }
  unfold parse_encode_arguments. cbv zeta.
  repeat (first [ solve [ eauto with pres ]
                | apply pending_ok_reference
                | pres_step ]).
Qed.

Lemma pending_ok_read_loop fuel state cell f_am :
  preserves pending_ok (read_loop fuel state cell f_am).
Proof.
  apply kept_read_loop;
    first [ apply pending_ok_add_data | apply pending_ok_add_ins
          | apply pending_ok_parse_encode_arguments | frame_pending ].
Qed.

(** X14. Every pending reference that the first pass creates points at
    a word of the instruction image, and no two point at the same word:
    after the lines of any file, read from the initial state, the
    offsets of the pending references are distinct and each is below the
    length of the image. *)
Theorem X14_pending_references_in_image (state : MacroTable) (f_am : string)
    (error0 : bool) :
  let s := (run_lines state f_am error0).2 in
  NoDup ((Z.to_nat ∘ ic_index) <$> pending_refs s)
  ∧ ∀ pen, pen ∈ pending_refs s →
           0 ≤ ic_index pen < ic s
           ∧ (Z.to_nat (ic_index pen) < length (ins_set s))%nat.
Proof.
  intros s.
  assert (pending_ok s) as ((Hic & Hdc & Hmem & Hlen & Hdata) & Hup & Hin).
  { apply pending_ok_read_loop. split; [apply initial_state_images|].
    split; [done|constructor]. }
  destruct (increasing_NoDup _ 0 ltac:(lia) Hup) as [Hlow Hnodup]. split.
  - by rewrite list_fmap_compose.
  - intros pen Hpen. rewrite Forall_forall in Hlow, Hin.
    assert (ic_index pen ∈ ic_index <$> pending_refs s) as Hidx
      by (by apply list_elem_of_fmap_2).
    specialize (Hlow _ Hidx). specialize (Hin _ Hidx). simpl in *. lia.
Qed.

(** ** Internal references *)

Lemma relocatable_word_bits w a :
  let patched := Z.lor (Z.lor (Z.land w (Z.lnot 1023)) (Z.shiftl (Z.land a 255) 2)) 2 in
  Z.land patched 3 = 2
  ∧ Z.land (Z.shiftr patched 2) 255 = a mod 256
  ∧ Z.shiftr patched 10 = Z.shiftr w 10.
Proof.
  intros patched.
  assert (∀ n, Z.testbit 2 n = (1 =? n)) as Htwo.
  { intros n. change 2 with (2 ^ 1). apply Z.pow2_bits_eqb. lia. }
  assert (∀ n, 0 ≤ n →
            Z.testbit patched n
            = if decide (n < 2) then bool_decide (n = 1)
              else if decide (n < 10) then Z.testbit a (n - 2)
              else Z.testbit w n) as Hbits.
  { intros n Hn. unfold patched.
    rewrite !Z.lor_spec, !Z.land_spec, Z.lnot_spec, Z.shiftl_spec, Z.land_spec by lia.
    rewrite Htwo. change 1023 with (Z.ones 10). change 255 with (Z.ones 8).
    destruct (decide (n < 2)); [|destruct (decide (n < 10))].
    - rewrite Z.ones_spec_low by lia. rewrite (Z.testbit_neg_r a (n - 2)) by lia.
      cbn [negb andb orb]. rewrite andb_false_r. cbn [orb].
      destruct (1 =? n) eqn:Hone; case_bool_decide; lia.
    - rewrite (Z.ones_spec_low 10 n) by lia. rewrite (Z.ones_spec_low 8 (n - 2)) by lia.
      cbn [negb]. rewrite andb_false_r, andb_true_r. cbn [orb].
      assert ((1 =? n) = false) as -> by lia. by rewrite orb_false_r.
    - rewrite (Z.ones_spec_high 10 n) by lia. rewrite (Z.ones_spec_high 8 (n - 2)) by lia.
      cbn [negb]. rewrite andb_true_r, andb_false_r.
      assert ((1 =? n) = false) as -> by lia. by rewrite !orb_false_r. }
  split; [|split].
  - apply Z.bits_inj'. intros n Hn. rewrite Z.land_spec, Hbits by done.
    rewrite Htwo. change 3 with (Z.ones 2).
    destruct (decide (n < 2)).
    + rewrite Z.ones_spec_low by lia. rewrite andb_true_r.
      case_bool_decide; lia.
    + rewrite Z.ones_spec_high by lia.
      assert ((1 =? n) = false) as -> by lia. apply andb_false_r.
  - change 256 with (2 ^ 8). rewrite <- Z.land_ones by lia.
    apply Z.bits_inj'. intros n Hn.
    rewrite !Z.land_spec, Z.shiftr_spec, Hbits by lia.
    destruct (decide (n < 8)).
    + rewrite decide_False by lia. rewrite decide_True by lia.
      replace (n + 2 - 2) with n by lia. reflexivity.
    + change 255 with (Z.ones 8). rewrite !Z.ones_spec_high by lia.
      by rewrite !andb_false_r.
  - apply Z.bits_inj'. intros n Hn. rewrite !Z.shiftr_spec, Hbits by lia.
    rewrite decide_False by lia. by rewrite decide_False by lia.
Qed.

(** X15. For a symbol that is not external, [patch_word_with_label]
    returns 0 and touches no file and no stream. It changes the one word
    of the image it is given: the two low bits become 10 (relocatable),
    bits 9 to 2 the low eight bits of the address of the symbol, which is
    100 plus its offset, and plus the final IC for a data symbol; the
    bits above stay. No other word changes. The error flag of the pass is
    set when the address is above 255, and otherwise left as it was. *)
Theorem X15_internal_reference (can_open : string → bool) (basename : string)
    (index : Z) (lab : Label) (ic_final : Z) (s : pass2_state) :
  l_ent_or_ext lab ≠ EXTERNAL → (Z.to_nat index < length (image s))%nat →
  let r := patch_word_with_label can_open basename index lab ic_final s in
  let address := if decide (l_data_or_ins lab = DATA)
                 then 100 + ic_final + l_address lab else 100 + l_address lab in
  r.1 = 0 ∧ fs r.2 = fs s ∧ ob r.2 = ob s ∧ ent r.2 = ent s ∧ ext r.2 = ext s
  ∧ had_error r.2 = had_error s || (address >? 255)
  ∧ length (image r.2) = length (image s)
  ∧ (∀ i, i ≠ Z.to_nat index → image r.2 !! i = image s !! i)
  ∧ ∃ before after,
      image s !! Z.to_nat index = Some before
      ∧ image r.2 !! Z.to_nat index = Some after
      ∧ Z.land after 3 = 2
      ∧ Z.land (Z.shiftr after 2) 255 = address mod 256
      ∧ Z.shiftr after 10 = Z.shiftr before 10.
Proof.
  intros Hint Hindex r address. subst r.
  rewrite patch_internal by done. cbn [fst snd].
  destruct (lookup_lt_is_Some_2 (image s) (Z.to_nat index) Hindex) as [before Hbefore].
  assert (abs_address lab ic_final = address) as Haddress by done.
  rewrite Haddress, Hbefore. cbn [default].
  assert (patched_word lab ic_final before
          = Z.lor (Z.lor (Z.land before (Z.lnot 1023)) (Z.shiftl (Z.land address 255) 2)) 2)
    as Hword.
  { unfold patched_word. rewrite bool_decide_false by done. by rewrite Haddress. }
  destruct (relocatable_word_bits before address) as (Hlow & Hvalue & Hhigh).
  unfold ADDR_VALUE_MAX, ADDR_VALUE_MASK.
  destruct (address >? 255); destruct s; cbn;
    rewrite ?orb_true_r, ?orb_false_r, ?length_insert;
    (repeat split; try done;
     [ intros i Hi; by rewrite list_lookup_insert_ne
     | exists before, (patched_word lab ic_final before);
       rewrite list_lookup_insert_eq by done; rewrite Hword; done ]).
Qed.

Lemma X15_internal_reference_witness :
  (patch_word_with_label every_file "t" 1 data_symbol 2 internal_state).1 = 0
  ∧ length (image (patch_word_with_label every_file "t" 1 data_symbol 2
                     internal_state).2) = 2%nat.
Proof.
  destruct (X15_internal_reference every_file "t" 1 data_symbol 2 internal_state
              ltac:(discriminate) ltac:(simpl; lia))
    as (Hcode & _ & _ & _ & _ & _ & Hlength & _).
  split; [exact Hcode|exact Hlength].
Defined.

(** ** The expander as a whole *)

(** A line met outside of a block, with no macro in the table, that is
    short enough: it is written as it is and nothing else changes. *)
Lemma expand_line_plain line x :
  inside_macro x = false → macros x = [] → null_entry x = false →
  (if copied_as_is line then true
   else negb (streq (word_read (word x) line) "mcro")
        && negb (streq (word_read (word x) line) "mcroend")) = true →
  (line_length line <=? VALID_LINE)%nat = true →
  let x' := expand_line line x in
  out x' = out x ++ [line] ∧ inside_macro x' = false ∧ macros x' = []
  ∧ null_entry x' = false ∧ crashed x' = crashed x ∧ failed x' = failed x
  ∧ reported x' = reported x ∧ current x' = current x
  ∧ word x' = (if copied_as_is line then word x else word_read (word x) line).
Proof.
  intros Hin Hms Hnull Hbody Hshort. rewrite expand_line_unfold.
  assert (next_line line x
          = mkExpander (failed x) (inside_macro x) (current x) (macros x) (null_entry x)
              (crashed x) (word x) (macro_name x) (out x) (line_num x + 1) (reported x))
    as ->.
  { unfold next_line. apply Nat.leb_le in Hshort.
    assert ((VALID_LINE <? line_length line)%nat = false) as ->
      by (apply Nat.ltb_ge; lia). done. }
  rewrite Hin, Hms, Hnull. cbv zeta.
  destruct (copied_as_is line); [done|].
  apply andb_prop in Hbody as [Hopen Hclose]. apply negb_true_iff in Hopen, Hclose.
  unfold word_read in *.
  cbn [word failed inside_macro current macros null_entry crashed macro_name out line_num
       reported].
  rewrite Hopen, Hclose. done.
Qed.

Lemma expand_lines_plain ls : ∀ x,
  inside_macro x = false → macros x = [] → null_entry x = false →
  body_lines (word x) ls = true →
  forallb (λ l, line_length l <=? VALID_LINE)%nat ls = true →
  let x' := expand_lines ls x in
  out x' = out x ++ ls ∧ inside_macro x' = false ∧ macros x' = []
  ∧ null_entry x' = false
  ∧ crashed x' = crashed x ∧ failed x' = failed x ∧ reported x' = reported x.
Proof.
  induction ls as [|l ls IH]; intros x Hin Hms Hnull Hbody Hshort.
  - simpl. by rewrite app_nil_r.
  - cbn [forallb] in Hshort. cbn [body_lines] in Hbody.
    apply andb_prop in Hshort as [Hs Hshort].
    assert ((if copied_as_is l then true
             else negb (streq (word_read (word x) l) "mcro")
                  && negb (streq (word_read (word x) l) "mcroend")) = true) as Hl.
    { destruct (copied_as_is l); [done|]. by apply andb_prop in Hbody as [-> _]. }
    destruct (expand_line_plain l x Hin Hms Hnull Hl Hs)
      as (Ho & Hi & Hm & Hn & Hc & Hf & Hr & _ & Hw).
    assert (body_lines (word (expand_line l x)) ls = true) as Hrest.
    { rewrite Hw. destruct (copied_as_is l); [done|].
      by apply andb_prop in Hbody as [_ ->]. }
    destruct (IH (expand_line l x) Hi Hm Hn Hrest Hshort)
      as (Ho' & Hi' & Hm' & Hn' & Hc' & Hf' & Hr').
    change (expand_lines (l :: ls) x) with (expand_lines ls (expand_line l x)).
    cbv zeta. rewrite Ho', Hi', Hm', Hn', Hc', Hf', Hr', Ho, Hc, Hf, Hr.
    by rewrite <- app_assoc.
Qed.

(** X16. A source without macros goes through the expander unchanged.
    Take a base name that fits the buffers of [mcro_exec], a [.as] file
    made of lines of at most 80 characters, each ended by a newline and
    holding no null character, of which none is handled as [mcro] or
    [mcroend], and a [.am] file that can be opened. A line that begins
    with a newline or a semicolon is not read for a word; for any other
    line the word read is its first word or, when it is made of white
    space, the word read before it, which for the first lines is what
    the buffer held at entry. Then [mcro_exec] on an empty table returns
    0, prints no diagnostic, leaves the table empty, without a null
    pointer, and leaves in [.am], closed, exactly the lines of the
    source. *)
Theorem X16_source_without_macros (can_open : string → bool)
    (flushed : list string → list string) (file_name : string)
    (stack : string * string) (ls : list string) (fs0 : files) :
  (String.length file_name + 4 ≤ FILENAME_MAX)%nat →
  disk fs0 !! (file_name +:+ ".as") = Some ls →
  can_open (file_name +:+ ".am") = true →
  forallb whole_line ls = true →
  body_lines stack.1 ls = true →
  forallb (λ l, line_length l <=? VALID_LINE)%nat ls = true →
  let e := mcro_run can_open flushed [] file_name stack fs0 in
  let r := mcro_exec can_open flushed [] file_name stack fs0 in
  r.1.1.1 = Some 0 ∧ r.1.1.2 = [] ∧ r.2 = []
  ∧ disk r.1.2 !! (file_name +:+ ".am") = Some ls
  ∧ open_files r.1.2 = open_files fs0
  ∧ null_slot e = false.
Proof.
  intros Hfits Has Ham Hwhole Hbody Hshort e r. subst e r.
  set (x0 := mkExpander false false None [] false false stack.1 stack.2 [] 0 []).
  destruct (expand_lines_plain ls x0 eq_refl eq_refl eq_refl Hbody Hshort)
    as (Ho & Hi & Hm & Hn & Hc & Hf & Hr).
  unfold mcro_exec, mcro_run.
  assert ((FILENAME_MAX <? String.length file_name + 4)%nat = false) as ->
    by (apply Nat.ltb_ge; lia).
  rewrite Has. unfold fopen_w. rewrite Ham.
  fold x0. rewrite (expand_loop_lines ls x0) by (done || lia).
  rewrite Hc, Hi, Hf. cbn [crashed inside_macro failed x0].
  rewrite Hm, Hr, Ho, Hn.
  cbn [fst snd fclose disk open_files remove_first reported out x0 app
       exit_code table null_slot files_left diagnostics].
  rewrite streq_refl. repeat split; try done.
  by rewrite lookup_insert_eq.
Qed.

Lemma X16_source_without_macros_witness :
  disk (mcro_exec every_file (λ _, []) [] "t" ("mcro", "M")
          (mkFiles {[ "t.as" := ["; prog" +:+ nl; "stop" +:+ nl; "  " +:+ nl] ]} [])).1.2
    !! "t.am"
  = Some ["; prog" +:+ nl; "stop" +:+ nl; "  " +:+ nl].
Proof.
  assert (String.length "t" + 4 ≤ FILENAME_MAX)%nat as Hfits
    by (unfold FILENAME_MAX; simpl; lia).
  exact (proj1 (proj2 (proj2 (proj2
    (X16_source_without_macros every_file (λ _, []) "t" ("mcro", "M")
       ["; prog" +:+ nl; "stop" +:+ nl; "  " +:+ nl]
       (mkFiles {[ "t.as" := ["; prog" +:+ nl; "stop" +:+ nl; "  " +:+ nl] ]} [])
       Hfits eq_refl eq_refl eq_refl eq_refl eq_refl))))).
Defined.

Lemma foldl_fputs_flags ls : ∀ x,
  failed (foldl (λ x l, fputs l x) x ls) = failed x
  ∧ reported (foldl (λ x l, fputs l x) x ls) = reported x.
Proof.
  induction ls as [|l r IH]; intros x; [done|]. simpl.
  destruct (IH (fputs l x)) as [-> ->]. by destruct x.
Qed.

(** A line of the source either prints nothing or marks the file as
    failed, and it never takes the mark away. *)
Lemma expand_line_flagged line x :
  (failed x = true → failed (expand_line line x) = true)
  ∧ (failed (expand_line line x) = true
     ∨ reported (expand_line line x) = reported x).
Proof.
  rewrite expand_line_unfold.
  assert ((failed x = true → failed (next_line line x) = true)
          ∧ (failed (next_line line x) = true
             ∨ (reported (next_line line x) = reported x
                ∧ failed (next_line line x) = failed x))) as Hnext.
  { unfold next_line. destruct (VALID_LINE <? line_length line)%nat; destruct x; simpl; auto. }
  revert Hnext. generalize (reported x) (failed x). intros base flag.
  destruct (next_line line x) as [f i c ms ne cr w mn o ln rp]. simpl.
  intros [Hkeep Hnew].
  assert (∀ x', (f = true → failed x' = true)
                → (failed x' = true ∨ reported x' = rp)
                → (flag = true → failed x' = true)
                  ∧ (failed x' = true ∨ reported x' = base)) as Hstep.
  { intros x' Hk Hn. split; [auto|].
    destruct Hnew as [Hf|[-> <-]]; [left; auto|done]. }
  cbv zeta. destruct (copied_as_is line); [by apply Hstep; simpl; auto|].
  cbn [word failed inside_macro current macros null_entry crashed macro_name out line_num
       reported].
  set (w' := match scan_s line with Some (w', _) => w' | None => w end).
  destruct (streq w' "mcro").
  { apply Hstep; unfold open_block; cbn [inside_macro];
      destruct i; cbn [complain inside_macro current macros null_entry crashed word
                       macro_name out line_num reported failed];
      destruct (is_valid_macro_start_line _ line) as [[res nm']|]; simpl;
      repeat (destruct (_ =? _)); simpl; auto. }
  destruct (streq w' "mcroend").
  { apply Hstep; unfold close_block; destruct i, c as [m0|]; simpl;
      repeat (destruct (_ =? _)%nat; simpl); auto. }
  cbn [inside_macro]. destruct i.
  { apply Hstep; destruct c; simpl; auto. }
  destruct (find_macro_in _ w') as [[m0|]|]; try (apply Hstep; simpl; by auto).
  destruct (foldl_fputs_flags (lines m0) (mkExpander f false c ms ne cr w' mn o ln rp))
    as [Hf Hr].
  apply Hstep; rewrite ?Hf, ?Hr; simpl; auto.
Qed.







(** *** Labels and the limit on their length *)

Lemma isalnum_plain c :
  isdigit c || isalpha c = true →
  chr_eqb c ";" = false ∧ chr_eqb c "." = false ∧ chr_eqb c ":" = false
  ∧ chr_eqb c zero = false.
Proof.
  destruct c as [[] [] [] [] [] [] [] []]; vm_compute; intros H;
    first [discriminate H | done].
Qed.

Lemma there_is_colon_after a b :
  all_alnum a = true → there_is_colon (a +:+ String ":" b) = true.
Proof.
  induction a as [|c a IH]; [done|]. intros H. simpl in H.
  apply andb_prop in H as [Hc Ha]. rewrite string_app_cons. cbn [there_is_colon].
  rewrite (isalnum_no_space c Hc).
  destruct (isalnum_plain c Hc) as (_ & _ & -> & _). by apply IH.
Qed.

(** The first characters of a word longer than the buffer: as many as
    the buffer holds, none of them a colon. *)
Lemma copy_chars_cut a : ∀ b room,
  all_alnum a = true → (0 < room ≤ String.length a)%nat →
  String.length (copy_chars room (a +:+ b)) = room
  ∧ chr_eqb (last_char (copy_chars room (a +:+ b))) ":" = false.
Proof.
  induction a as [|c a IH]; intros b room Ha Hroom; [simpl in Hroom; lia|].
  simpl in Ha. apply andb_prop in Ha as [Hc Ha].
  destruct room as [|room]; [lia|].
  rewrite string_app_cons. cbn [copy_chars]. rewrite (isalnum_no_space c Hc).
  destruct room as [|room].
  - destruct (a +:+ b); simpl; by destruct (isalnum_plain c Hc) as (_ & _ & -> & _).
  - destruct (IH b (S room) Ha) as [Hlen Hlast]; [simpl in Hroom; lia|].
    cbn [String.length]. rewrite Hlen. split; [done|].
    cbn [last_char]. destruct (copy_chars (S room) (a +:+ b)); [done|exact Hlast].
Qed.

(** Once the name of the line is in the buffer [label], nothing that
    follows on the line writes to it. *)
Lemma label_define_label nm k : preserves (λ s, label s = nm) (define_label k).
Proof. apply kept_define_label; leaf; done. Qed.

Lemma label_dispatch nm k line_p : preserves (λ s, label s = nm) (dispatch k line_p).
Proof. apply kept_dispatch; try (apply kept_parse_encode_arguments); leaf; done. Qed.

Lemma label_entry_branch nm line_p : preserves (λ s, label s = nm) (entry_branch line_p).
Proof. apply kept_entry_branch; leaf; done. Qed.

Lemma label_extern_branch nm line_p : preserves (λ s, label s = nm) (extern_branch line_p).
Proof. apply kept_extern_branch; leaf; done. Qed.

Lemma label_is_valid_label nm lbl state :
  preserves (λ s, label s = nm) (is_valid_label lbl state).
Proof. apply kept_is_valid_label; leaf; done. Qed.

Lemma label_leaves nm :
  preserves (λ s, label s = nm) raise
  ∧ (∀ msg, preserves (λ s, label s = nm) (report msg))
  ∧ (∀ b, preserves (λ s, label s = nm) (modify (set_label_flag b))).
Proof. repeat split; leaf; done. Qed.


(** X19. A line begins with a name of letters and digits and a colon.
    If the name is longer than 30 characters the line is refused: the
    pass goes on, the error flag is set, [Invalid label length] is
    printed for the line and nothing else changes. If it has 30
    characters at most and the colon ends the word, the whole name is
    taken as the label of the line. *)
Theorem X19_label_length (state : MacroTable) (nm rest : string) (s : pass_state) :
  all_alnum nm = true →
  ((WORD_LEN < String.length nm)%nat →
   scan_line state (nm +:+ String ":" rest) s
   = (0, set_stderr (stderr s ++ [(line_count s, "Invalid label length")])
           (set_error true s)))
  ∧ ((1 ≤ String.length nm ≤ WORD_LEN)%nat →
     rest = EmptyString ∨ isspace (deref rest) = true →
     label (scan_line state (nm +:+ String ":" rest) s).2 = nm).
Proof.
  intros Halnum. split.
  { intros Hlong.
    destruct nm as [|c nm]; [simpl in Hlong; lia|].
    pose proof Halnum as Hc. simpl in Hc. apply andb_prop in Hc as [Hc _].
    destruct (isalnum_plain c Hc) as (Hsemi & Hdot & Hcolon & Hzero).
    pose proof (isalnum_no_space c Hc) as Hspace.
    pose proof (there_is_colon_after (String c nm) rest Halnum) as Hthere.
    destruct (copy_chars_cut (String c nm) (String ":" rest) (WORD_LEN + 2 - 1) Halnum)
      as [Hlen Hlast]; [unfold WORD_LEN in *; simpl; simpl in Hlong; lia|].
    unfold scan_line.
    rewrite (delete_white_stop (String c nm +:+ String ":" rest))
      by (by rewrite string_app_cons).
    unfold copy_first_word. rewrite Hlen, Hlast.
    rewrite !string_app_cons. cbn [deref]. rewrite Hsemi, Hzero.
    change (1 <=? WORD_LEN + 2 - 1)%nat with true. cbn [andb].
    unfold bind at 1. unfold ret at 1. cbn [fst snd String.length Nat.eqb deref].
    rewrite Hdot. rewrite <- !string_app_cons, Hthere.
    by destruct s. }
  intros Hlen Hrest.
  destruct nm as [|c nm]; [simpl in Hlen; lia|].
  pose proof Halnum as Hc. simpl in Hc. apply andb_prop in Hc as [Hc _].
  destruct (isalnum_plain c Hc) as (Hsemi & Hdot & Hcolon & Hzero).
  pose proof (isalnum_no_space c Hc) as Hspace.
  unfold scan_line.
  rewrite (delete_white_stop (String c nm +:+ String ":" rest))
    by (by rewrite string_app_cons).
  unfold copy_first_word.
  rewrite (copy_chars_word (String c nm) (String ":" rest))
    by (first [by apply all_alnum_no_space | unfold WORD_LEN in *; simpl in *; lia]).
  replace (WORD_LEN + 2 - 1 - String.length (String c nm))%nat
    with (S (WORD_LEN - String.length (String c nm)))
    by (unfold WORD_LEN in *; simpl in *; lia).
  cbn [copy_chars]. change (isspace ":") with false. cbv iota.
  rewrite (copy_chars_space _ rest Hrest).
  rewrite last_char_app, but_last_app.
  change (chr_eqb ":" ":") with true. rewrite andb_true_r.
  replace (1 <=? String.length (String c nm +:+ ":"))%nat with true
    by (symmetry; apply Nat.leb_le; rewrite string_length_app; simpl; lia).
  rewrite !string_app_cons. cbn [deref]. rewrite Hsemi, Hzero.
  rewrite <- !string_app_cons.
  destruct (label_leaves (String c nm)) as (Hraise & Hreport & Hflag).
  set (I := λ s : pass_state, label s = String c nm).
  match goal with
  | |- label ((bind (modify ?f ;; ?m) ?k) s).2 = _ =>
      assert (preserves I m) as Hm;
      [|assert (∀ a, preserves I (k a)) as Hk]
  end.
  - subst I.
    repeat (first [ solve [ eauto using label_is_valid_label ] | pres_step ]).
  - subst I. intros a.
    repeat (first [ solve [ eauto using label_define_label, label_dispatch,
                                            label_entry_branch, label_extern_branch ]
                  | pres_step ]).
  - unfold bind at 1. unfold bind at 1. unfold modify at 1. cbn [fst snd].
    specialize (Hm (set_label (String c nm) s)).
    match type of Hm with _ → I (?m _).2 => destruct (m (set_label (String c nm) s)) as [a s1] end.
    apply Hk, Hm. by destruct s.
Qed.

Lemma X19_label_length_witness :
  (scan_line [] ("ABCDEFGHIJKLMNOPQRSTUVWXYZ01234" +:+ String ":" (" stop" +:+ nl))
     (initial_state false)).2
  = mkState true 0 0 0 false EmptyString [] [] [] [] false EmptyString
      [(0, "Invalid label length")]
  ∧ label (scan_line [] ("ABCDEFGHIJKLMNOPQRSTUVWXYZ0123" +:+ String ":" (" stop" +:+ nl))
             (initial_state false)).2
    = "ABCDEFGHIJKLMNOPQRSTUVWXYZ0123".
Proof.
  split.
  - rewrite (proj1 (X19_label_length [] "ABCDEFGHIJKLMNOPQRSTUVWXYZ01234" (" stop" +:+ nl)
                      (initial_state false) eq_refl)); [reflexivity|].
    unfold WORD_LEN. simpl. lia.
  - apply (proj2 (X19_label_length [] "ABCDEFGHIJKLMNOPQRSTUVWXYZ0123" (" stop" +:+ nl)
                    (initial_state false) eq_refl)).
    + unfold WORD_LEN. simpl. lia.
    + right. reflexivity.
Defined.

(** *** The declaration of an external symbol *)

Lemma no_space_starts nm b :
  nm ≠ EmptyString → no_space nm = true → isspace (deref (nm +:+ b)) = false.
Proof.
  destruct nm as [|c nm]; [done|]. intros _ H. simpl in H. apply andb_prop in H as [Hc _].
  rewrite string_app_cons. simpl. by apply negb_true_iff.
Qed.

Lemma delete_white_all v : all_space v = true → delete_white v = EmptyString.
Proof.
  intros Hv. rewrite <- (string_app_nil v). by rewrite delete_white_space.
Qed.

(** X20. A line [.extern NAME], with blanks around and NAME a word of
    31 characters at most: the pass goes on. A name that no slot of the
    symbol table has is added at the end of the table as an external
    symbol of address 0 and nothing else changes, whatever the
    characters of the name. A name that a slot has, whatever its kind,
    leaves the table as it is, sets the error flag and prints
    [A label with this name is defined as internal]. *)
Theorem X20_extern_declaration (state : MacroTable) (lead gap nm trailing : string)
    (s : pass_state) :
  all_space lead = true → gap ≠ EmptyString → all_space gap = true →
  nm ≠ EmptyString → no_space nm = true → (String.length nm ≤ WORD_LEN + 1)%nat →
  all_space trailing = true →
  let r := scan_line state (lead +:+ "." +:+ "extern" +:+ gap +:+ nm +:+ trailing) s in
  r.1 = 0
  ∧ (is_label_name nm (label_set s) = false →
     r.2 = set_label_set (label_set s ++ [mkLabel nm 0 INS EXTERNAL])
             (set_label_flag false s))
  ∧ (is_label_name nm (label_set s) = true →
     r.2 = set_stderr
             (stderr s ++ [(line_count s, "A label with this name is defined as internal")])
             (set_error true (set_label_flag false s))).
Proof.
  intros Hlead Hgap Hblank Hnm Hword Hlen Htrail r. subst r.
  pose proof (all_space_starts gap Hgap Hblank) as Hstart.
  assert (isspace (deref (gap +:+ nm +:+ trailing)) = true) as Htail
    by (destruct gap; [done|by rewrite string_app_cons]).
  rewrite (scan_line_plain "extern" (gap +:+ nm +:+ trailing) (or_intror eq_refl)
             (or_intror Htail) state lead s Hlead).
  unfold declaration. change (streq "extern" "entry") with false. cbv iota.
  unfold extern_branch.
  change (String.length "extern") with (String.length ("extern" : string)).
  rewrite (advance_app "extern" (gap +:+ nm +:+ trailing)).
  rewrite (delete_white_space gap (nm +:+ trailing) Hblank).
  rewrite (delete_white_stop (nm +:+ trailing)) by (by apply no_space_starts).
  assert (copy_first_word (nm +:+ trailing) (WORD_LEN + 2) = nm) as ->.
  { unfold copy_first_word.
    rewrite copy_chars_word by (done || unfold WORD_LEN in *; simpl; lia).
    rewrite copy_chars_space; [apply string_app_nil|].
    destruct trailing as [|c t]; [by left|right]. by apply all_space_starts. }
  rewrite advance_app, (delete_white_all trailing Htrail).
  assert ((String.length nm =? 0)%nat = false) as ->
    by (destruct nm; [done|reflexivity]).
  unfold bind, modify, gets, ret, raise, report, report_error_pass, add_label.
  cbv beta. cbn [fst snd].
  assert (label_set (set_label_flag false s) = label_set s) as Hlabels by (by destruct s).
  rewrite ?Hlabels.
  destruct (is_label_name nm (label_set s)) eqn:Hknown; cbn [fst snd].
  - split; [done|]. split; [done|]. intros _. by destruct s.
  - rewrite ?Hlabels, ?Hknown. change (0 =? FATAL_ERROR) with false. cbn [fst snd].
    split; [done|]. split; [|done]. intros _. by destruct s.
Qed.

Lemma X20_extern_declaration_witness :
  label_set (scan_line [] (" .extern  W" +:+ nl) second_line).2
  = [mkLabel "A" 0 INS REGULAR; mkLabel "W" 0 INS EXTERNAL]
  ∧ stderr (scan_line [] (".extern A" +:+ nl) second_line).2
    = [(2, "A label with this name is defined as internal")].
Proof.
  assert (String.length "W" ≤ WORD_LEN + 1)%nat as HW by (unfold WORD_LEN; simpl; lia).
  assert (String.length "A" ≤ WORD_LEN + 1)%nat as HA by (unfold WORD_LEN; simpl; lia).
  assert (" " ≠ EmptyString) as Hone by discriminate.
  assert ("  " ≠ EmptyString) as Htwo by discriminate.
  assert ("W" ≠ EmptyString) as HnW by discriminate.
  assert ("A" ≠ EmptyString) as HnA by discriminate.
  split.
  - exact (eq_trans
             (f_equal label_set
                (proj1 (proj2 (X20_extern_declaration [] " " "  " "W" nl second_line
                                 eq_refl Htwo eq_refl HnW eq_refl HW eq_refl)) eq_refl))
             eq_refl).
  - exact (eq_trans
             (f_equal stderr
                (proj2 (proj2 (X20_extern_declaration [] EmptyString " " "A" nl second_line
                                 eq_refl Hone eq_refl HnA eq_refl HA eq_refl)) eq_refl))
             eq_refl).
Defined.

(** ** The length of an instruction *)

Lemma adds_ret {A} k (a : A) : 0 ≤ k → adds k (ret a).
Proof. intros Hk s. simpl. lia. Qed.

Lemma adds_bind {A B} k a (m : M A) (f : A → M B) :
  adds a m → (∀ x, adds (k - a) (f x)) → adds k (bind m f).
Proof.
  intros Hm Hf s. unfold bind. specialize (Hm s).
  destruct (m s) as [x s1]. specialize (Hf x s1). simpl in *. lia.
Qed.

Lemma adds_more {A} k a (m : M A) : adds a m → a ≤ k → adds k m.
Proof. intros Hm Hk s. specialize (Hm s). lia. Qed.

(** What keeps the counter where it is adds nothing. *)
Lemma adds_nothing {A} (m : M A) : (∀ c, preserves (λ s, ic s = c) m) → adds 0 m.
Proof. intros Hm s. rewrite (Hm (ic s) s eq_refl). lia. Qed.

Lemma adds_add_ins w : adds 1 (add_ins w).
Proof. intros s. unfold add_ins. destruct (_ =? _); destruct s; simpl; lia. Qed.

Lemma adds_gets {A} (f : pass_state → A) : adds 0 (gets f).
Proof. apply adds_nothing. intros c. apply preserves_gets. Qed.

Lemma adds_raise : adds 0 raise.
Proof. apply adds_nothing. leaf. done. Qed.

Lemma adds_report msg : adds 0 (report msg).
Proof. apply adds_nothing. leaf. done. Qed.

Lemma adds_strtok delims : adds 0 (strtok delims).
Proof. apply adds_nothing. intros c. apply kept_strtok. leaf. done. Qed.

Lemma adds_strtok_new p delims : adds 0 (strtok_new p delims).
Proof. apply adds_nothing. intros c. apply kept_strtok_new. leaf. done. Qed.

Lemma adds_was_reg b : adds 0 (modify (set_was_reg b)).
Proof. apply adds_nothing. leaf. done. Qed.

Lemma adds_store_ins i w : adds 0 (store_ins i w).
Proof. apply adds_nothing. leaf. done. Qed.

Lemma adds_or_into_last num : adds 0 (or_into_last num).
Proof. apply adds_nothing. leaf; done. Qed.

Lemma adds_add_pending_refs i n l : adds 0 (add_pending_refs i n l).
Proof. apply adds_nothing. leaf. done. Qed.

Lemma adds_is_valid_num token k : adds 0 (is_valid_num token k).
Proof. apply adds_nothing. intros c. apply kept_is_valid_num; leaf; done. Qed.

Lemma adds_check_mat_def d k r c : adds 0 (check_mat_def d k r c).
Proof. apply adds_nothing. intros c'. apply kept_check_mat_def; leaf; done. Qed.

Lemma adds_is_valid_commas rest : adds 0 (is_valid_commas rest).
Proof. apply adds_nothing. intros c. apply kept_is_valid_commas; leaf; done. Qed.

Lemma adds_is_valid_label lbl state : adds 0 (is_valid_label lbl state).
Proof. apply adds_nothing. intros c. apply kept_is_valid_label; leaf; done. Qed.

Lemma adds_define_label k : adds 0 (define_label k).
Proof. apply adds_nothing. intros c. apply kept_define_label; leaf; done. Qed.

Lemma adds_entry_branch line_p : adds 0 (entry_branch line_p).
Proof. apply adds_nothing. intros c. apply kept_entry_branch; leaf; done. Qed.

Lemma adds_extern_branch line_p : adds 0 (extern_branch line_p).
Proof. apply adds_nothing. intros c. apply kept_extern_branch; leaf; done. Qed.

Lemma adds_label l : adds 0 (modify (set_label l)).
Proof. apply adds_nothing. leaf. done. Qed.

Lemma adds_label_flag b : adds 0 (modify (set_label_flag b)).
Proof. apply adds_nothing. leaf. done. Qed.

(** The directives store in the data image only. *)
Lemma adds_data_commands first f rest :
  lookup_command first data_commands = Some f → adds 0 (f rest).
Proof.
  intros Hf. apply adds_nothing. intros c.
  apply (kept_data_commands _) with (first := first); [leaf; done ..|done].
Qed.

Create HintDb adds.

#[export] Hint Resolve adds_add_ins adds_gets adds_raise adds_report adds_strtok
  adds_strtok_new adds_was_reg adds_store_ins adds_or_into_last adds_add_pending_refs
  adds_is_valid_num adds_check_mat_def adds_is_valid_commas adds_is_valid_label
  adds_define_label adds_entry_branch adds_extern_branch adds_label adds_label_flag
  : adds.

(** The steps of a proof that a computation adds [k] words at most: the
    first computation of a sequence takes its share, what follows has
    the rest. *)
Ltac adds_step :=
  first
    [ apply adds_ret; lia
    | eapply adds_more; [ solve [ eauto with adds ] | lia ]
    | eapply adds_bind; [ solve [ eauto with adds ] | intros ? ]
    | match goal with
      | |- adds _ (if ?c then _ else _) => destruct c
      | |- adds _ (match ?x with _ => _ end) => destruct x
      | |- adds _ (let '(_, _) := ?x in _) => destruct x
      end ].

Ltac adds_all := repeat adds_step.

Lemma adds_parse_encode_arguments a r m : adds 2 (parse_encode_arguments a r m).
Proof. unfold parse_encode_arguments. adds_all. Qed.

#[export] Hint Resolve adds_parse_encode_arguments : adds.

Lemma adds_handle_two_prms rest op : adds 5 (handle_two_prms rest op).
Proof. unfold handle_two_prms. adds_all. Qed.

Lemma adds_handle_one_prm rest op : adds 3 (handle_one_prm rest op).
Proof. unfold handle_one_prm. adds_all. Qed.

Lemma adds_handle_no_prm rest op : adds 1 (handle_no_prm rest op).
Proof. unfold handle_no_prm. adds_all. Qed.

Lemma adds_ins_commands first f rest op :
  lookup_command first ins_commands = Some f → adds 5 (f rest op).
Proof.
  unfold ins_commands; simpl.
  repeat case_match; intros; simplify_eq;
    first [ apply adds_handle_two_prms
          | eapply adds_more; [apply adds_handle_one_prm|lia]
          | eapply adds_more; [apply adds_handle_no_prm|lia] ].
Qed.

Lemma adds_dispatch k line_p : adds 5 (dispatch k line_p).
Proof.
  unfold dispatch.
  destruct (lookup_command _ data_commands) as [f|] eqn:Hd;
    destruct (lookup_command _ ins_commands) as [g|] eqn:Hi.
  all: eapply adds_bind; [apply adds_strtok_new|intros _].
  all: destruct (decide (k = DATA)); [destruct (_ =? 0)%nat|].
  all: adds_all.
  all: try (eapply adds_bind; [by eapply adds_data_commands|intros ?]; adds_all).
  all: eapply (adds_bind _ 0);
    [destruct (_ <? RTS); [apply adds_is_valid_commas|by apply adds_ret]|intros ?].
  all: destruct (negb _); [adds_all|].
  all: eapply adds_bind; [by eapply adds_ins_commands|intros ?]; adds_all.
Qed.

#[export] Hint Resolve adds_dispatch : adds.

(** X21. Whatever the line, the first pass adds five words at most to
    the instruction image for it, and the counter of instructions never
    goes back. Whatever the operand, encoding it adds two words at
    most. *)
Theorem X21_instruction_length (state : MacroTable) (line argument : string)
    (src_or_dst : role) (modes : list Z) (s : pass_state) :
  ic s ≤ ic (scan_line state line s).2 ≤ ic s + 5
  ∧ ic s ≤ ic (parse_encode_arguments argument src_or_dst modes s).2 ≤ ic s + 2.
Proof.
  split; [|apply adds_parse_encode_arguments].
  revert s. change (adds 5 (scan_line state line)).
  unfold scan_line. adds_all.
  all: eapply (adds_bind _ 0); [|intros [line_p|]; adds_all].
  all: adds_all.
Qed.

(** ** An operand that is a cell of a matrix *)

Lemma has_bracket_app nm t : has_bracket (nm +:+ String "[" t) = true.
Proof.
  induction nm as [|c nm IH]; [done|]. rewrite string_app_cons. cbn [has_bracket].
  rewrite IH. apply orb_true_r.
Qed.

Lemma reg_name_no_bracket x : is_reg_name x = true → has_bracket x = false.
Proof.
  unfold is_reg_name, reg_set, streq. cbn [existsb]. intros H.
  repeat (apply orb_prop in H as [H|H]; [apply String.eqb_eq in H; by subst|]).
  done.
Qed.

(** The name before the first bracket, when the buffer holds it. *)
Lemma matrix_name_whole nm t : ∀ room,
  has_bracket nm = false → (String.length nm ≤ room)%nat →
  matrix_name room (nm +:+ String "[" t) = nm.
Proof.
  induction nm as [|c nm IH]; intros room Hnm Hroom.
  - by destruct room.
  - destruct room as [|room]; [simpl in Hroom; lia|].
    simpl in Hnm. apply orb_false_elim in Hnm as [Hc Hnm].
    rewrite string_app_cons. cbn [matrix_name]. rewrite Hc.
    rewrite IH by (done || simpl in Hroom; lia). done.
Qed.

(** A name longer than the buffer: the buffer is filled and the next
    character is no bracket. *)
Lemma matrix_name_cut nm t : ∀ room,
  has_bracket nm = false → (room < String.length nm)%nat →
  String.length (matrix_name room (nm +:+ t)) = room
  ∧ is_bracket (deref (advance room (nm +:+ t))) = false.
Proof.
  induction nm as [|c nm IH]; intros room Hnm Hroom; [simpl in Hroom; lia|].
  simpl in Hnm. apply orb_false_elim in Hnm as [Hc Hnm].
  rewrite string_app_cons. destruct room as [|room]; [done|].
  cbn [matrix_name advance]. rewrite Hc. cbn [String.length].
  destruct (IH room Hnm) as [-> ->]; [simpl in Hroom; lia|done].
Qed.

Lemma check_mat_def_registers a b s :
  0 ≤ a ≤ 7 → 0 ≤ b ≤ 7 →
  check_mat_def (String "[" (register a +:+ String "]" (String "[" (register b +:+ "]"))))
    INS 0 0 s = (0, a, b, s).
Proof.
  intros Ha Hb. revert b Hb. revert a Ha.
  apply (register_cases (λ a, ∀ b, 0 ≤ b ≤ 7 → _)); apply register_cases; reflexivity.
Qed.

(** X22. An operand [NAME[rA][rB]], with NAME of 30 characters at most,
    none of them a bracket, A and B from 0 to 7, where the command
    accepts a cell of a matrix and the memory has room for two words:
    the code is the one of the matrix mode, a word 0 is added for the
    address of NAME with a pending reference that points at it, then a
    word that holds A in bits 6 to 9 and B in bits 2 to 5, and nothing
    else changes. With a NAME of more than 30 characters nothing is
    added: the operand is refused with [Invalid matrix name - too long]. *)
Theorem X22_matrix_operand (nm : string) (a b : Z) (src_or_dst : role) (modes : list Z)
    (s : pass_state) :
  images_ok s → ic s + dc s + 2 ≤ MEM_AVAIL_WORDS →
  nm ≠ EmptyString → has_bracket nm = false → chr_eqb (deref nm) "#" = false →
  0 ≤ a ≤ 7 → 0 ≤ b ≤ 7 →
  existsb (Z.eqb MATRIX_ACCESS) modes = true →
  let argument :=
    nm +:+ String "[" (register a +:+ String "]" (String "[" (register b +:+ "]"))) in
  let r := parse_encode_arguments argument src_or_dst modes s in
  ((String.length nm ≤ WORD_LEN)%nat →
   r.1 = MATRIX_ACCESS
   ∧ r.2 = set_ins_set
             (ins_set s ++ [0; Z.lor (Z.shiftl a ROW_SHIFT) (Z.shiftl b COL_SHIFT)])
             (set_pending_refs (pending_refs s ++ [mkPending nm (ic s) (line_count s)])
                (set_ic (ic s + 2) s)))
  ∧ ((WORD_LEN < String.length nm)%nat →
     r.1 = ERROR_OCCURRED
     ∧ r.2 = set_stderr (stderr s ++ [(line_count s, "Invalid matrix name - too long")])
               (set_error true s)).
Proof.
  intros Hok Hroom Hnm Hplain Hsharp Ha Hb Hmodes argument r.
  destruct Hok as (Hic & Hdc & _ & _ & _).
  assert (addressing_mode argument = MATRIX_ACCESS) as Hmode.
  { unfold addressing_mode, argument.
    assert (deref (nm +:+ String "["
                     (register a +:+ String "]" (String "[" (register b +:+ "]"))))
            = deref nm) as -> by (destruct nm; [done|by rewrite string_app_cons]).
    rewrite Hsharp. rewrite has_bracket_app.
    destruct (is_reg_name _) eqn:Hreg; [|done].
    apply reg_name_no_bracket in Hreg. by rewrite has_bracket_app in Hreg. }
  assert (parse_encode_arguments argument src_or_dst modes s
          = (if (String.length nm <=? WORD_LEN)%nat then
               (MATRIX_ACCESS,
                set_ins_set
                  (ins_set s ++ [0; Z.lor (Z.shiftl a ROW_SHIFT) (Z.shiftl b COL_SHIFT)])
                  (set_pending_refs
                     (pending_refs s ++ [mkPending nm (ic s) (line_count s)])
                     (set_ic (ic s + 2) s)))
             else
               (ERROR_OCCURRED,
                set_stderr (stderr s ++ [(line_count s, "Invalid matrix name - too long")])
                  (set_error true s)))) as Hrun.
  { unfold parse_encode_arguments. rewrite Hmode, Hmodes. cbn [negb].
    change (MATRIX_ACCESS =? IMMEDIATE) with false.
    change (MATRIX_ACCESS =? DIRECT) with false.
    change (MATRIX_ACCESS =? MATRIX_ACCESS) with true. cbv iota zeta.
    destruct (String.length nm <=? WORD_LEN)%nat eqn:Hlen.
    - apply Nat.leb_le in Hlen. unfold argument.
      rewrite matrix_name_whole by done. rewrite advance_app.
      assert ((String.length nm =? 0)%nat = false) as -> by (by destruct nm).
      change (is_bracket (deref (String "[" _))) with true. cbn [negb].
      unfold bind at 1. rewrite add_ins_room by (unfold MEM_AVAIL_WORDS in *; lia).
      change (0 =? FATAL_ERROR) with false. cbv iota.
      unfold bind at 1. unfold gets at 1. unfold bind at 1. unfold gets at 1.
      unfold bind at 1. unfold add_pending_refs at 1. unfold bind at 1.
      unfold modify at 1. unfold ret at 1. cbn [fst snd].
      unfold bind at 1. rewrite check_mat_def_registers by done.
      change (0 =? ERROR_OCCURRED) with false. cbv iota.
      assert ((a <? MIN_NUM_REG) || (a >? MAX_NUM_REG) || (b <? MIN_NUM_REG)
              || (b >? MAX_NUM_REG) = false) as ->.
      { unfold MIN_NUM_REG, MAX_NUM_REG. rewrite !Z.gtb_ltb.
        repeat (apply orb_false_intro); apply Z.ltb_ge; lia. }
      unfold bind at 1.
      rewrite add_ins_room by (destruct s; setters; unfold MEM_AVAIL_WORDS in *; lia).
      change (0 =? FATAL_ERROR) with false. cbv iota. unfold ret.
      destruct_state s; setters.
      assert (unsigned_char (ic0 + 1 - 1) = ic0) as ->.
      { unfold unsigned_char, MEM_AVAIL_WORDS in *. rewrite Z.mod_small; lia. }
      rewrite <- app_assoc. cbn [app]. by replace (ic0 + 1 + 1) with (ic0 + 2) by lia.
    - apply Nat.leb_gt in Hlen. unfold argument.
      destruct (matrix_name_cut nm
                  (String "[" (register a +:+ String "]" (String "[" (register b +:+ "]"))))
                  WORD_LEN Hplain Hlen) as [Hcut Hnext].
      rewrite Hcut, Hnext. change (WORD_LEN =? 0)%nat with false. cbn [negb].
      unfold bind, raise, report, report_error_pass, gets, modify, ret.
      by destruct s. }
  subst r. rewrite Hrun. split.
  - intros Hlen. apply Nat.leb_le in Hlen. by rewrite Hlen.
  - intros Hlen. apply Nat.leb_gt in Hlen. by rewrite Hlen.
Qed.

Lemma X22_matrix_operand_witness :
  ins_set (parse_encode_arguments "M1[r2][r7]" DESTINATION NO_IMMEDIATE jmp_line).2
  = [60; 212; 0; 156]
  ∧ pending_refs (parse_encode_arguments "M1[r2][r7]" DESTINATION NO_IMMEDIATE jmp_line).2
    = [mkPending "M1" 2 3].
Proof.
  assert ("M1" ≠ EmptyString) as Hname by discriminate.
  assert (String.length "M1" ≤ WORD_LEN)%nat as Hlen by (unfold WORD_LEN; simpl; lia).
  destruct (proj1 (X22_matrix_operand "M1" 2 7 DESTINATION NO_IMMEDIATE jmp_line
                     jmp_line_images ltac:(unfold MEM_AVAIL_WORDS; simpl; lia)
                     Hname eq_refl eq_refl ltac:(lia) ltac:(lia) eq_refl) Hlen)
    as [_ Hstate].
  split.
  - exact (eq_trans (f_equal ins_set Hstate) eq_refl).
  - exact (eq_trans (f_equal pending_refs Hstate) eq_refl).
Defined.

(** ** The limit on the length of a line in the first pass *)







(** ** The table of macros *)

Lemma find_macro_none ms nm : find_macro ms nm = None → nm ∉ name <$> ms.
Proof.
  induction ms as [|m r IH]; [intros _; apply not_elem_of_nil|].
  cbn [find_macro]. unfold streq. destruct (String.eqb (name m) nm) eqn:Heq; [done|].
  intros Hr. apply String.eqb_neq in Heq. rewrite fmap_cons.
  apply not_elem_of_cons. split; [congruence|by apply IH].
Qed.

Lemma table_ok_add ms m :
  table_ok ms → macro_ok m → lines m ≠ [] → find_macro ms (name m) = None →
  table_ok (ms ++ [m]).
Proof.
  intros [Hall Hnames] Hm Hlines Hnew. split.
  - apply Forall_app. split; [done|]. by constructor.
  - rewrite fmap_app. apply NoDup_app. split; [done|]. split.
    + intros nm Hin Hlast. apply list_elem_of_singleton in Hlast. subst nm.
      by apply (find_macro_none ms (name m)).
    + apply NoDup_singleton.
Qed.

(** What [is_valid_macro_start_line] has checked when it returns. *)
Lemma is_valid_macro_start_line_ok x line res nm :
  is_valid_macro_start_line x line = Some (res, nm) →
  (res = 1 ∨ res = 2 ∨ res = 3 ∨ res = 4)
  ∨ (res = 0 ∧ macro_ok (create_macro nm)
     ∧ find_macro (macros x) (name (create_macro nm)) = None).
Proof.
  unfold is_valid_macro_start_line.
  destruct (scan_three line) as [[count token1] token2].
  destruct (negb (count =? 2) || negb (streq token1 "mcro")); [intros [= <- <-]; auto|].
  destruct (is_reserved_word token2) eqn:Hres; [intros [= <- <-]; auto|].
  destruct (is_valid_macro_name token2) eqn:Hvalid; cbn [negb]; [|intros [= <- <-]; auto 6].
  unfold find_macro_in.
  destruct (find_macro (macros x) token2) eqn:Hfind; [intros [= <- <-]; auto 6|].
  destruct (null_entry x); [done|]. intros [= <- <-]. right.
  pose proof (valid_macro_name_length token2 Hvalid) as Hlen.
  unfold create_macro, macro_ok. cbn [name].
  rewrite !(substring_whole token2) by done. done.
Qed.

(** A line keeps the table of the expander as a source without errors
    builds it. *)
Lemma expander_ok_line line x : expander_ok x → expander_ok (expand_line line x).
Proof.
  intros Hok. destruct (failed (expand_line line x)) eqn:Hf; [by left|]. right.
  assert (failed x = false) as Hx.
  { destruct (failed x) eqn:Hfx; [|done].
    by rewrite (proj1 (expand_line_flagged line x) Hfx) in Hf. }
  destruct Hok as [Hfx|(Htab & Hnull & Hcur)]; [congruence|].
  revert Hf. rewrite expand_line_unfold.
  destruct (next_line_fields line x) as (_ & Hc & Hms & Hne & _).
  destruct (next_line line x) as [f i c ms ne cr w mn o ln rp].
  simpl in Hc, Hms, Hne. rewrite Hnull in Hne. subst c ms ne.
  cbv zeta. destruct (copied_as_is line); [by intros _|].
  cbn [word failed inside_macro current macros null_entry crashed macro_name out line_num
       reported].
  set (w' := match scan_s line with Some (w', _) => w' | None => w end).
  destruct (streq w' "mcro").
  { unfold open_block. cbn [inside_macro].
    destruct i.
    - destruct (is_valid_macro_start_line _ line) as [[res nm']|]; simpl;
        [repeat (destruct (_ =? _)); simpl|]; done.
    - destruct (is_valid_macro_start_line _ line) as [[res nm']|] eqn:Hstart;
        [|by intros _].
      apply is_valid_macro_start_line_ok in Hstart
        as [Hres|(-> & Hname & Hnew)].
      + by destruct Hres as [-> | [-> | [-> | ->]]].
      + simpl. intros _. done. }
  destruct (streq w' "mcroend").
  { unfold close_block.
    destruct i;
      [|destruct (current x) as [m|]; simpl;
        repeat (destruct (_ =? _)%nat; simpl); done].
    destruct (current x) as [m|]; [|done]. simpl.
    destruct (length (lines m) =? 0)%nat eqn:Hempty; simpl; [done|].
    intros _. destruct Hcur as [Hm Hnew]. split; [|done].
    apply table_ok_add; try done. intros Hnil. by rewrite Hnil in Hempty. }
  cbn [inside_macro]. destruct i.
  { destruct (current x) as [m|]; [|done]. by intros _. }
  destruct (find_macro_in _ w') as [[m0|]|]; try by intros _.
  intros _.
  by destruct (foldl_fputs (lines m0) (mkExpander f false (current x) (macros x) false cr w'
                                         mn o ln rp))
    as (_ & _ & -> & -> & -> & _).
Qed.

Lemma expander_ok_loop fuel : ∀ src x x',
  expand_loop fuel src x = Some x' → expander_ok x → expander_ok x'.
Proof.
  induction fuel as [|fuel IH]; intros src x x'; [done|]. simpl.
  destruct (crashed x); [by intros [= <-]|].
  destruct (fgets MAX_LINE_LENGTH src) as [[line rest]|]; [|by intros [= <-]].
  intros Hloop Hx. apply (IH _ _ _ Hloop). by apply expander_ok_line.
Qed.

(** X24. When [mcro_exec] returns 0 for a source, the table of macros
    it leaves is well formed if the table it was given was: every name
    in it is a valid macro name and no reserved word, no name comes
    twice, and every macro has one line at least. *)
Theorem X24_macro_table (can_open : string → bool)
    (flushed : list string → list string) (state : MacroTable)
    (file_name : string) (stack : string * string) (fs0 : files) :
  table_ok state →
  (mcro_exec can_open flushed state file_name stack fs0).1.1.1 = Some 0 →
  table_ok (mcro_exec can_open flushed state file_name stack fs0).1.1.2.
Proof.
  intros Hstate. unfold mcro_exec, mcro_run. cbn [fst snd].
  destruct (FILENAME_MAX <? _)%nat; [done|].
  destruct (disk fs0 !! (file_name +:+ ".as")) as [pieces|]; [|done].
  unfold fopen_w. destruct (can_open _); [|done].
  destruct (expand_loop _ (text_of pieces) _) as [x|] eqn:Hloop; [|done].
  apply expander_ok_loop in Hloop; [|by right].
  destruct (crashed x); [done|].
  destruct (inside_macro x); [by destruct x|].
  destruct (failed x) eqn:Hfailed; [done|]. intros _.
  cbn [exit_code table]. destruct Hloop as [Hf|[Htable _]]; [congruence|done].
Qed.

Lemma X24_macro_table_witness :
  table_ok (mcro_exec every_file (λ _, []) [] "t" (EmptyString, EmptyString)
              note_files).1.1.2.
Proof.
  apply (X24_macro_table every_file (λ _, []) [] "t" (EmptyString, EmptyString)
           note_files).
  - split; [constructor|]. rewrite fmap_nil. apply NoDup_nil_2.
  - vm_compute. reflexivity.
Defined.

(** X18. [main] with no file name returns 1. With file names each of
    which fits the buffer of [mcro_exec] with its extension and the
    closing null character, and none of which has a source on disk, it
    skips every file and returns 0, the files being as they were. When
    the first name does not fit that buffer, [sprintf] writes past its
    end: the run has no return code. *)
Theorem X18_missing_sources (can_open : string → bool)
    (flushed : list string → list string) (stack : string * string)
    (argv : list string) (fs0 : files) :
  Forall (λ base, (String.length base + 4 ≤ FILENAME_MAX)%nat
                  ∧ disk fs0 !! (base +:+ ".as") = None) argv →
  main can_open flushed stack argv fs0 = (Some (if argv is [] then 1 else 0), fs0)
  ∧ ∀ long_name,
      (FILENAME_MAX < String.length long_name + 4)%nat →
      main can_open flushed stack (long_name :: argv) fs0 = (None, fs0).
Proof.
  intros Hmissing. split.
  - assert (main_loop can_open flushed stack argv fs0 = (Some 0, fs0)) as Hloop.
    { induction Hmissing as [|base rest [Hfits Hbase] _ IH]; [done|].
      simpl. unfold mcro_run.
      apply Nat.ltb_ge in Hfits. rewrite Hfits, Hbase. exact IH. }
    by destruct argv.
  - intros long_name Hlong. simpl. unfold mcro_run.
    apply Nat.ltb_lt in Hlong. by rewrite Hlong.
Qed.

Lemma X18_missing_sources_witness :
  main every_file (λ _, []) (EmptyString, EmptyString) ["a"; "b"] no_files
  = (Some 0, no_files).
Proof.
  apply (X18_missing_sources every_file (λ _, []) (EmptyString, EmptyString)
           ["a"; "b"] no_files).
  repeat (constructor; [split; [unfold FILENAME_MAX; simpl; lia|reflexivity]|]).
  constructor.
Defined.

(** ** The addresses of the object file *)

Lemma ob_lines_length origin words count :
  length (ob_lines origin words count) = Z.to_nat count.
Proof. unfold ob_lines. by rewrite length_fmap, length_seq. Qed.

Lemma ob_lines_lookup origin words count i :
  (i < Z.to_nat count)%nat →
  ob_lines origin words count !! i
  = Some (to_base4_addr (origin + Z.of_nat i) +:+ tab
          +:+ to_base4_word (default 0 (words !! i)) +:+ nl).
Proof.
  intros Hi. unfold ob_lines. rewrite list_lookup_fmap.
  rewrite (lookup_seq_lt 0 (Z.to_nat count) i Hi). done.
Qed.

Lemma to_base4_word_low w : to_base4_word w = to_base4_word (w mod 1024).
Proof.
  unfold to_base4_word, WORD_MASK. change 1023 with (Z.ones 10).
  rewrite !Z.land_ones by lia. change (2 ^ 10) with 1024. by rewrite Z.mod_mod.
Qed.

Lemma patched_length labels ic_final : ∀ pending words,
  length (patched labels ic_final pending words) = length words.
Proof.
  induction pending as [|pen pending IH]; intros words; [done|].
  cbn [patched]. destruct (find_label labels (label_p_name pen)); [|apply IH].
  rewrite IH. apply length_insert.
Qed.

(** X25. When the second pass returns 0 and leaves the error flag
    clear, for two images that have as many words as their counters say
    and fit the memory, the object file holds one line for the two
    counters and one line for every word, the instruction image as the
    references were patched first, the data image after it. The line of
    the word [w] at place [i] is the address 100 + [i], a tab, the word
    and a newline. The address is written with four characters and the
    word with five, each of them one of [a], [b], [c], [d]; read in
    base 4 the address is 100 + [i], so that the addresses go up one by
    one and none wraps around, and the word is [w] modulo 1024. *)
Theorem X25_object_addresses (can_open : string → bool) (basename : string)
    (words : list Z) (ic_final : Z) (data : list Z) (dc_final : Z)
    (labels : list Label) (pending : list Pending) (p_error : bool) (fs0 : files) :
  (String.length basename < 508)%nat →
  length words = Z.to_nat ic_final → length data = Z.to_nat dc_final →
  0 ≤ ic_final → 0 ≤ dc_final → ic_final + dc_final ≤ MEM_AVAIL_WORDS →
  let r := second_pass can_open basename words ic_final data dc_final labels pending
             p_error fs0 in
  r.1.1 = 0 → r.1.2 = false →
  ∃ text, disk (fs r.2) !! path_of basename "ob" = Some text
    ∧ length text = S (Z.to_nat (ic_final + dc_final))
    ∧ text !! 0%nat = Some (ob_header ic_final dc_final)
    ∧ ∀ i w, (patched labels ic_final pending words ++ data) !! i = Some w →
        let addr := to_base4_addr (ORG_ADDRESS + Z.of_nat i) in
        text !! S i = Some (addr +:+ tab +:+ to_base4_word w +:+ nl)
        ∧ String.length addr = 4%nat
        ∧ base4_digits addr = true
        ∧ base4_value 0 addr = ORG_ADDRESS + Z.of_nat i
        ∧ String.length (to_base4_word w) = 5%nat
        ∧ base4_digits (to_base4_word w) = true
        ∧ base4_value 0 (to_base4_word w) = w mod 1024.
Proof.
  intros Hlen Hwords Hdata Hic Hdc Hroom r Hcode Hflag.
  destruct (second_pass_spec can_open basename words ic_final data dc_final labels
              pending p_error fs0 Hlen) as [(Hfatal & _)|Hdone].
  { fold r in Hfatal. rewrite Hcode in Hfatal. done. }
  fold r in Hdone.
  destruct Hdone as (_ & _ & _ & _ & _ & _ & _ & Hbad & Hgood).
  destruct (had_error r.2 || p_error) eqn:Herr.
  { destruct (Hbad eq_refl) as [Htrue _]. congruence. }
  destruct (Hgood eq_refl) as (_ & Hob & _).
  eexists. split; [exact Hob|]. unfold ob_text.
  split; [|split; [done|]].
  - cbn [length]. rewrite length_app, !ob_lines_length. f_equal. lia.
  - intros i w Hw. cbv zeta.
    pose proof (patched_length labels ic_final pending words) as Hpatched.
    assert (i < Z.to_nat (ic_final + dc_final))%nat as Hi.
    { apply lookup_lt_Some in Hw. rewrite length_app, Hpatched in Hw. lia. }
    destruct (to_base4_addr_value (ORG_ADDRESS + Z.of_nat i)) as [Hfour Hvalue];
      [unfold ORG_ADDRESS, MEM_AVAIL_WORDS in *; lia|].
    assert (String.length (to_base4_word w) = 5%nat
            ∧ base4_value 0 (to_base4_word w) = w mod 1024) as [Hfive Hword].
    { rewrite to_base4_word_low. apply to_base4_word_value, Z.mod_pos_bound. lia. }
    split; [|split; [exact Hfour|split; [by apply base4_writes_digits|
      split; [exact Hvalue|split; [exact Hfive|split;
        [by apply base4_writes_digits|exact Hword]]]]]].
    change ((ob_header ic_final dc_final
             :: ob_lines ORG_ADDRESS (patched labels ic_final pending words) ic_final
             ++ ob_lines (ORG_ADDRESS + ic_final) data dc_final) !! S i)
      with ((ob_lines ORG_ADDRESS (patched labels ic_final pending words) ic_final
             ++ ob_lines (ORG_ADDRESS + ic_final) data dc_final) !! i).
    destruct (decide (i < Z.to_nat ic_final)%nat) as [Hins|Hdat].
    + rewrite lookup_app_l by (by rewrite ob_lines_length).
      rewrite ob_lines_lookup by done.
      rewrite lookup_app_l in Hw by (rewrite Hpatched; lia).
      by rewrite Hw.
    + rewrite lookup_app_r by (rewrite ob_lines_length; lia).
      rewrite ob_lines_length. rewrite ob_lines_lookup by lia.
      rewrite lookup_app_r in Hw by (rewrite Hpatched; lia).
      rewrite Hpatched, Hwords in Hw. rewrite Hw.
      replace (ORG_ADDRESS + ic_final + Z.of_nat (i - Z.to_nat ic_final))
        with (ORG_ADDRESS + Z.of_nat i) by lia.
      done.
Qed.

Lemma X25_object_addresses_witness :
  ∃ text, disk (fs (jmp_pass false).2) !! path_of "t" "ob" = Some text
          ∧ length text = 4%nat
          ∧ text !! 2%nat = Some ("bcbb" +:+ tab +:+ "aaaab" +:+ nl).
Proof.
  assert (String.length "t" < 508)%nat as Hlen by (simpl; lia).
  assert (3 + 0 ≤ MEM_AVAIL_WORDS) as Hroom by (unfold MEM_AVAIL_WORDS; lia).
  destruct (X25_object_addresses every_file "t" [580; 0; 960] 3 [] 0 extern_table
              extern_use false no_files Hlen eq_refl eq_refl ltac:(lia) ltac:(lia) Hroom)
    as (text & Hob & Hlines & _ & Hword).
  - vm_compute. reflexivity.
  - vm_compute. reflexivity.
  - exists text. split; [exact Hob|]. split; [exact Hlines|].
    exact (proj1 (Hword 1%nat 1 eq_refl)).
Defined.
